(* ===== verification/_CoqProject ===== *)
-Q . S2P
Prelude.v
Math.v
Config.v
Slots.v
Bytes.v
Shuffle.v
Committee.v
State.v
Validators.v
EpochPrecompute.v
Finality.v
Rewards.v
EpochProcessing.v
Registry.v
EpochInvariant.v
Withdrawals.v
ForkStore.v
ForkChoice.v
ForkTree.v
ForkHead.v
ForkVotes.v
ForkCheckpoints.v
ForkInvariant.v
ForkPreserve.v
