(* ===== verification/Prelude.v ===== *)
(** * Verification of the Qrysm beacon chain

    Qrysm is a proof-of-stake consensus client.  Its core is the state transition
    of the beacon chain: time is divided into slots and epochs; at every slot a
    committee of validators, drawn by a seeded shuffle of the registry, attests to
    the chain; at every epoch boundary [ProcessEpoch] weighs the attestations,
    justifies and finalizes checkpoints, pays rewards, ejects, activates and
    slashes validators and rotates the per-epoch vectors of the state.

    ** Files

    - [Prelude] (this file): results of Go functions ([result]: value, error or
      panic), 64-bit unsigned arithmetic on [Z] with explicit wrap-around, slice
      accesses that panic out of range, loops ([foldM], [foldMi]), counting and
      summing lemmas, the tactics [result_inv], [bool_to_prop], [dlia].
    - [Math]: math/math_helper.go and the slot and epoch types of
      consensus-types/primitives.  The cache of [CachedSquareRoot] is explicit
      state.
    - [Config]: the chain configuration of config/params and config/fieldparams,
      its two presets, [Validate], [ValidateStateLayout] and
      [MaxActiveValidators].
    - [Slots]: time/slots/slottime.go and core/time/slot_epoch.go; the current
      time is an argument.
    - [Bytes]: encoding/bytesutil (integers and bits).
    - [Shuffle]: core/helpers/shuffle.go, the index shuffle and the list shuffle.
    - [Committee]: committee sizes, committees and the committee cache
      (core/helpers/beacon_committee.go, beacon-chain/cache/committee.go).
    - [State]: the beacon state, its getters and setters
      (state/state-native), the well-formedness invariant [state_ok].
    - [Validators]: status predicates, seeds, proposers, balances, the exit queue
      and slashing (core/helpers/validators.go, randao.go, rewards_penalties.go,
      core/validators/validator.go).
    - [EpochPrecompute], [Finality]: participation rows and totals, justification
      and finalization, unrealized checkpoints (core/epoch/precompute,
      core/altair/epoch_precompute.go, state/stateutil).
    - [Rewards]: inactivity scores, rewards and penalties
      (core/altair/epoch_precompute.go, reward.go).
    - [EpochProcessing], [Registry], [EpochInvariant]: the remaining steps of the
      epoch and [ProcessEpoch] (core/epoch/epoch_processing.go, core/altair).
    - [Withdrawals]: the withdrawal sweep and its payment in a block
      (state-native/getters_withdrawal.go, core/blocks/withdrawals.go).
    - [ForkStore], [ForkChoice]: the fork choice of
      beacon-chain/forkchoice/doubly-linked-tree.  The store is a heap of nodes
      linked by pointers with its two indexes, votes and checkpoints; operations
      are state transformers that keep the state they reached when they fail.
      [ForkTree], [ForkHead], [ForkVotes] and [ForkCheckpoints] hold the theorems
      on block trees, the head, vote accounting and checkpoints; [ForkInvariant]
      and [ForkPreserve] the block tree as an invariant of every run.

    ** What the theorems show

    - Finality: the bit manipulation of [ProcessJustificationAndFinalizationPreCompute]
      refines the specification of Casper FFG; finality only moves forward; the
      unrealized checkpoints used by fork choice are those the next epoch
      transition realizes.
    - Shuffling and committees: the index shuffle is a bijection with the stated
      inverse; the in-place list shuffle computes it for all indices at once; the
      committees of an epoch partition the active validators and fit the maximal
      size up to exactly [MaxActiveValidators] validators; the committee cache is
      transparent in every reachable state.
    - Registry: exits respect the churn limit, activations follow the queue order
      and never exceed the committee capacity, slashing changes exactly the record,
      the balances and the entry of the slashings vector it should, the proposer is
      the one the specification samples, and it is found at once when balances are full.
    - Balances: rewards, penalties, inactivity scores, the correlated slashing
      penalty (in 128 bits) and effective balances with hysteresis are exactly
      those of the specification over unbounded integers, under the bounds on totals
      and products that each theorem states.
    - Withdrawals: the sweep lists exactly the withdrawals of the specification, and a
      block with the expected root pays each of them once, changing nothing else of the
      state but the two sweep counters.
    - Invariant: every step of [ProcessEpoch] keeps the state well formed ([state_ok]),
      and the types of the fields that [state_ok] leaves open ([state_typed]).
    - Fork choice: [Head] computes the head of the LMD-GHOST rule on the filtered
      block tree, and fails only when the justified block is unknown; the balance of
      every block is exactly that of the latest votes for it plus the proposer boost, an invariant that votes, slashings and
      boosts keep and [updateBalances] restores by differences; the checkpoints
      chosen at a tick and after a removal are the greatest candidates and do not
      depend on the iteration order of the index; [NewSlot], [InsertNode],
      [InsertChain], [Head] and [SetOptimisticToInvalid] never move the justified or
      finalized epoch back
      ([UpdateJustifiedCheckpoint] and [UpdateFinalizedCheckpoint], which set what they
      are given, can); in every run, with calls that succeed or fail, the indexed nodes
      form one tree.
    - Arithmetic and configuration: the checked operations are exact or fail, the
      square root is exact and its loop terminates, [Validate] and
      [ValidateStateLayout] accept exactly the configurations that meet their
      conditions stated over unbounded integers.  These conditions are not all the
      bounds the other theorems use: the latter have theirs as hypotheses.

    ** Conventions and bounds

    A [uint64] is a [Z] with [u64_ok]; [+u], [-u], [*u] wrap around; [i64] is the
    conversion to a signed word.  Functions
    read the configuration as an argument [cfg] where the code reads the global
    [params.BeaconConfig()].  A value returned beside an error is dropped.  The
    hash function is the class [Hasher] with the
    laws [HasherOk] (32 bytes out); the four-bit vector of the bitfield package is
    the class [Bitfield] with the laws [BitfieldOk]; both have an instance.  The
    contents of the committee, proposer and balance caches are an argument of type
    [Caches]: an operation is proved for every content that is faithful to the
    state ([CacheFaithful]), which reachable caches are.

    Loops without a structural measure take fuel: the Newton iteration of the
    square root 66 steps (proved enough for every 64-bit balance); the shuffle runs
    [SHUFFLE_ROUND_COUNT] rounds, at most 255, and its inner loops one step per
    pair; the sampling loops of the proposer and of the sync committee take their
    fuel as an argument, since they stop only with the hash's cooperation: the
    result is the first accepted candidate, and a candidate with full balance is
    always accepted.  Traversals of the block tree take the number of nodes in
    the heap as fuel, proved enough for a tree.  Contexts are never cancelled.

    ** Not modelled

    Loading of configurations, tickers, the copy-on-write and hash-tree-root
    machinery of the state, signatures (third-party cryptography), generated
    protocol types other than the structs used, networking, storage, RPC, the
    execution-engine client, the validator client and process wiring.  The rest of
    block processing (attestations, deposits, exits, slashings, header, randao), the
    slasher, Merkle tries and the containers are not modelled either. *)

From stdpp Require Export base tactics numbers list strings gmap.
From Stdlib Require Export ZArith Lia Sorting.Permutation.

#[global] Set Default Goal Selector "!".

(** ** Go errors, panics and results

    A Go function returning [(T, error)] is modelled by a value of
    [result T]: [Ok v] for [(v, nil)], [Err e] for a non-nil error and
    [Panic m] for a run-time panic (index out of range, division by zero,
    explicit [panic(...)]).  [Wrapped] is [errors.Wrap]. *)

Inductive error : Type :=
| New (msg : string)
| Wrapped (msg : string) (cause : error).

Inductive result (A : Type) : Type :=
| Ok (a : A)
| Err (e : error)
| Panic (msg : string).
Arguments Ok {A} a.
Arguments Err {A} e.
Arguments Panic {A} msg.

#[global] Instance error_eq_dec : EqDecision error.
Proof. solve_decision. Defined.

#[global] Instance result_ret : MRet result := fun A a => Ok a.
#[global] Instance result_bind : MBind result := fun A B f m =>
  match m with
  | Ok a => f a
  | Err e => Err e
  | Panic s => Panic s
  end.

(** [errors.Is]: the target occurs in the chain of wrapped causes. *)
Fixpoint errors_Is (e target : error) : bool :=
  bool_decide (e = target) ||
  match e with
  | New _ => false
  | Wrapped _ c => errors_Is c target
  end.

Definition wrap {A} (msg : string) (r : result A) : result A :=
  match r with
  | Err e => Err (Wrapped msg e)
  | _ => r
  end.

(** The [if err != nil { panic(err.Error()) }] idiom of the primitives. *)
Definition must {A} (r : result A) : result A :=
  match r with
  | Err _ => Panic "arithmetic error"
  | _ => r
  end.

Definition throw_if (b : bool) (e : error) : result unit :=
  if b then Err e else Ok tt.

Definition is_ok {A} (r : result A) : bool :=
  match r with Ok _ => true | _ => false end.

(** [no_panic r]: evaluation ends with a value or a Go error. *)
Definition no_panic {A} (r : result A) : Prop :=
  match r with Panic _ => False | _ => True end.

(** ** Machine integers

    A [uint64] is an integer of [0, 2^64); every arithmetic operation of the
    source is written with its wrap-around. *)

Declare Scope go_scope.
Delimit Scope go_scope with go.
#[global] Open Scope Z_scope.

Definition two64 : Z := 18446744073709551616.
Definition MaxUint64 : Z := 18446744073709551615.
Definition MaxInt64 : Z := 9223372036854775807.
Definition MinInt64 : Z := -9223372036854775808.

Definition u64 (z : Z) : Z := z mod two64.
Definition u64_ok (z : Z) : Prop := 0 <= z < two64.
Definition u64_okb (z : Z) : bool := (0 <=? z) && (z <? two64).

(** An [int] or [int64] is an integer of [-2^63, 2^63); conversions and arithmetic wrap
    around. *)
Definition i64 (z : Z) : Z := (z + 9223372036854775808) mod two64 - 9223372036854775808.
Definition i64_ok (z : Z) : Prop := MinInt64 <= z <= MaxInt64.

#[global] Instance u64_ok_dec z : Decision (u64_ok z).
Proof. unfold u64_ok. apply _. Defined.

Notation "a +u b" := (u64 (a + b)) (at level 50, left associativity) : go_scope.
Notation "a -u b" := (u64 (a - b)) (at level 50, left associativity) : go_scope.
Notation "a *u b" := (u64 (a * b)) (at level 40, left associativity) : go_scope.
#[global] Open Scope go_scope.

(** Go's [/] and [%] on [uint64] panic on a zero divisor. *)
Definition udiv (a b : Z) : result Z :=
  if b =? 0 then Panic "integer divide by zero" else Ok (a / b).
Definition umod (a b : Z) : result Z :=
  if b =? 0 then Panic "integer divide by zero" else Ok (a mod b).

(** Slice indexing, reads and writes: out of range panics. *)
Definition idx {A} (l : list A) (i : Z) : result A :=
  if (i <? 0) then Panic "index out of range"
  else match l !! Z.to_nat i with
       | Some a => Ok a
       | None => Panic "index out of range"
       end.

Definition idx_set {A} (l : list A) (i : Z) (a : A) : result (list A) :=
  if (0 <=? i) && (i <? Z.of_nat (length l))
  then Ok (<[Z.to_nat i := a]> l)
  else Panic "index out of range".

Definition zlen {A} (l : list A) : Z := Z.of_nat (length l).

(** Iteration of [for _, x := range l] with an accumulator, stopping at the
    first error or panic. *)
Fixpoint foldM {A S} (f : S -> A -> result S) (s : S) (l : list A) : result S :=
  match l with
  | [] => Ok s
  | x :: l' => s' ← f s x; foldM f s' l'
  end.

(** The same with the position of the element ([for i, x := range l]). *)
Fixpoint foldMi {A S} (f : Z -> S -> A -> result S) (i : Z) (s : S) (l : list A) : result S :=
  match l with
  | [] => Ok s
  | x :: l' => s' ← f i s x; foldMi f (i + 1) s' l'
  end.

Definition zsum (l : list Z) : Z := fold_right Z.add 0 l.

(** The number of elements that satisfy a test. *)
Fixpoint countb {A} (f : A -> bool) (l : list A) : Z :=
  match l with
  | [] => 0
  | x :: l' => (if f x then 1 else 0) + countb f l'
  end.

(** ** Tactics *)

(** Inverts a hypothesis [m = Ok _] where [m] is a chain of binds, tests and
    matches, one step at a time. *)
Ltac result_step :=
  match goal with
  | H : Ok _ = Ok _ |- _ => injection H as H; try subst
  | H : Err _ = Ok _ |- _ => discriminate H
  | H : Panic _ = Ok _ |- _ => discriminate H
  | H : mret _ = Ok _ |- _ => change (Ok _ = Ok _) in H
  | H : mbind _ ?m = Ok _ |- _ =>
      let E := fresh "E" in destruct m eqn:E; cbn [mbind result_bind] in H;
      [| discriminate H | discriminate H]
  | H : (if ?b then _ else _) = Ok _ |- _ =>
      let E := fresh "E" in destruct b eqn:E
  | H : match ?m with _ => _ end = Ok _ |- _ =>
      let E := fresh "E" in destruct m eqn:E; try discriminate H
  end.
Ltac result_inv := repeat result_step.

(** Turns boolean comparisons in the context and the goal into propositions. *)
Ltac bool_to_prop :=
  repeat match goal with
  | H : _ && _ = true |- _ => apply andb_prop in H; destruct H
  | H : _ || _ = false |- _ => apply orb_false_elim in H; destruct H
  | H : negb _ = true |- _ => apply negb_true_iff in H
  | H : negb _ = false |- _ => apply negb_false_iff in H
  | H : (_ =? _) = true |- _ => apply Z.eqb_eq in H
  | H : (_ =? _) = false |- _ => apply Z.eqb_neq in H
  | H : (_ <=? _) = true |- _ => apply Z.leb_le in H
  | H : (_ <=? _) = false |- _ => apply Z.leb_gt in H
  | H : (_ <? _) = true |- _ => apply Z.ltb_lt in H
  | H : (_ <? _) = false |- _ => apply Z.ltb_ge in H
  end.

(** [lia] with quotients and remainders by constants. *)
Ltac dlia := Z.to_euclidean_division_equations; lia.

(** ** Lemmas on machine integers *)

Lemma two64_pos : 0 < two64.
Proof. reflexivity. Qed.

Lemma u64_range z : u64_ok (u64 z).
Proof. unfold u64_ok, u64. apply Z.mod_pos_bound. reflexivity. Qed.

Lemma u64_small z : u64_ok z -> u64 z = z.
Proof. unfold u64_ok, u64. intros. now apply Z.mod_small. Qed.

Lemma u64_add_small a b : 0 <= a -> 0 <= b -> a + b < two64 -> a +u b = a + b.
Proof. intros. apply u64_small. unfold u64_ok. lia. Qed.

Lemma u64_sub_small a b : u64_ok a -> 0 <= b <= a -> a -u b = a - b.
Proof. unfold u64_ok. intros. apply u64_small. unfold u64_ok. lia. Qed.

Lemma u64_mul_small a b : 0 <= a -> 0 <= b -> a * b < two64 -> a *u b = a * b.
Proof. intros. apply u64_small. unfold u64_ok. nia. Qed.

Lemma i64_small z : i64_ok z -> i64 z = z.
Proof. unfold i64, i64_ok, MinInt64, MaxInt64, two64. intros. rewrite Z.mod_small by lia. lia. Qed.

Lemma u64_div_ok a b : u64_ok a -> 0 < b -> u64_ok (a / b).
Proof.
  unfold u64_ok. intros. split.
  - apply Z.div_pos; lia.
  - apply Z.div_lt_upper_bound; nia.
Qed.

Lemma udiv_ok a b : b <> 0 -> udiv a b = Ok (a / b).
Proof. unfold udiv. intros. destruct (Z.eqb_spec b 0); [contradiction | reflexivity]. Qed.

Lemma umod_ok a b : b <> 0 -> umod a b = Ok (a mod b).
Proof. unfold umod. intros. destruct (Z.eqb_spec b 0); [contradiction | reflexivity]. Qed.

(** ** Lemmas on slices *)

Lemma idx_Some {A} (l : list A) i a :
  0 <= i -> l !! Z.to_nat i = Some a -> idx l i = Ok a.
Proof.
  intros Hi Hl. unfold idx. destruct (Z.ltb_spec i 0); [lia |]. now rewrite Hl.
Qed.

Lemma idx_inv {A} (l : list A) i a :
  idx l i = Ok a -> 0 <= i /\ l !! Z.to_nat i = Some a.
Proof.
  unfold idx. destruct (Z.ltb_spec i 0); [discriminate |].
  destruct (l !! Z.to_nat i); [| discriminate]. intros [= ->]. auto.
Qed.

Lemma idx_in_range {A} (l : list A) i : 0 <= i < zlen l -> exists a, idx l i = Ok a.
Proof.
  unfold zlen. intros Hi.
  destruct (lookup_lt_is_Some_2 l (Z.to_nat i)) as [a Ha]; [lia |].
  exists a. apply idx_Some; [lia | done].
Qed.

Lemma idx_set_ok {A} (l : list A) i a :
  0 <= i < zlen l -> idx_set l i a = Ok (<[Z.to_nat i := a]> l).
Proof.
  unfold idx_set, zlen. intros Hi.
  destruct (Z.leb_spec 0 i); [| lia].
  destruct (Z.ltb_spec i (Z.of_nat (length l))); [reflexivity | lia].
Qed.

Lemma idx_set_inv {A} (l l' : list A) i a :
  idx_set l i a = Ok l' -> 0 <= i < zlen l /\ l' = <[Z.to_nat i := a]> l.
Proof.
  unfold idx_set, zlen. destruct (Z.leb_spec 0 i); [| discriminate]. cbn.
  destruct (Z.ltb_spec i (Z.of_nat (length l))); [| discriminate].
  intros [= <-]. split; [lia | reflexivity].
Qed.

(** ** Counting and summing *)

Lemma countb_app {A} (f : A -> bool) l1 l2 : countb f (l1 ++ l2) = countb f l1 + countb f l2.
Proof. induction l1; cbn [countb app]; lia. Qed.

Lemma countb_bounds {A} (f : A -> bool) l : 0 <= countb f l <= zlen l.
Proof. unfold zlen. induction l as [| x l IH]; cbn [countb length]; [lia |]. destruct (f x); lia. Qed.

Lemma countb_zero {A} (f : A -> bool) l : (forall x, x ∈ l -> f x = false) -> countb f l = 0.
Proof.
  induction l as [| x l IH]; intros Hf; [reflexivity |]. cbn [countb].
  rewrite Hf by apply list_elem_of_here. rewrite IH; [reflexivity |].
  intros y Hy. apply Hf. now apply list_elem_of_further.
Qed.

Lemma countb_ext {A} (f g : A -> bool) l : (forall x, x ∈ l -> f x = g x) -> countb f l = countb g l.
Proof.
  induction l as [| x l IH]; intros Hf; [reflexivity |]. cbn [countb].
  rewrite Hf by apply list_elem_of_here. rewrite IH; [reflexivity |].
  intros y Hy. apply Hf. now apply list_elem_of_further.
Qed.

Lemma countb_insert {A} (f : A -> bool) l k x y : l !! k = Some x ->
  countb f (<[k := y]> l) = countb f l - (if f x then 1 else 0) + (if f y then 1 else 0).
Proof.
  revert k. induction l as [| z l IH]; intros [| k] E; try discriminate; cbn in E.
  - injection E as ->. cbn. lia.
  - change (<[S k := y]> (z :: l)) with (z :: <[k := y]> l). cbn [countb]. rewrite (IH k E). lia.
Qed.

Lemma zsum_app l1 l2 : zsum (l1 ++ l2) = zsum l1 + zsum l2.
Proof. unfold zsum. induction l1; cbn; lia. Qed.

Lemma zsum_insert l k x y : l !! k = Some x -> zsum (<[k := y]> l) = zsum l - x + y.
Proof.
  unfold zsum. revert k. induction l as [| z l IH]; intros [| k] E; try discriminate; cbn in E.
  - injection E as ->. cbn. lia.
  - change (<[S k := y]> (z :: l)) with (z :: <[k := y]> l). cbn [fold_right]. rewrite (IH k E). lia.
Qed.

(** ** Monadic folds *)

Lemma foldM_ext {A S} (f g : S -> A -> result S) l s :
  (forall s x, x ∈ l -> f s x = g s x) -> foldM f s l = foldM g s l.
Proof.
  revert s. induction l as [| x l IH]; intros s Hfg; [reflexivity |]. cbn [foldM].
  rewrite Hfg by apply list_elem_of_here. destruct (g s x); [| reflexivity..]. cbn [mbind result_bind].
  apply IH. intros s' y Hy. apply Hfg. now apply list_elem_of_further.
Qed.

Lemma foldM_app {A S} (f : S -> A -> result S) s l1 l2 :
  foldM f s (l1 ++ l2) = (s' ← foldM f s l1; foldM f s' l2).
Proof.
  revert s. induction l1 as [| x l1 IH]; intros s; [reflexivity |].
  cbn. destruct (f s x); cbn; [apply IH | reflexivity | reflexivity].
Qed.

(** An invariant of the loop body is an invariant of the loop. *)
Lemma foldM_inv {A S} (P : S -> Prop) (f : S -> A -> result S) l s s' :
  (forall s1 x s2, x ∈ l -> P s1 -> f s1 x = Ok s2 -> P s2) ->
  P s -> foldM f s l = Ok s' -> P s'.
Proof.
  revert s. induction l as [| x l IH]; intros s Hstep HP H; cbn in H.
  - now injection H as <-.
  - destruct (f s x) eqn:E; cbn in H; try discriminate.
    eapply IH; [| | exact H].
    + intros. eapply Hstep; eauto. now apply list_elem_of_further.
    + eapply Hstep; eauto. apply list_elem_of_here.
Qed.

Lemma foldMi_inv {A S} (P : S -> Prop) (f : Z -> S -> A -> result S) l i s s' :
  (forall j s1 x s2, x ∈ l -> P s1 -> f j s1 x = Ok s2 -> P s2) ->
  P s -> foldMi f i s l = Ok s' -> P s'.
Proof.
  revert s i. induction l as [| x l IH]; intros s i Hstep HP H; cbn in H.
  - now injection H as <-.
  - destruct (f i s x) eqn:E; cbn in H; try discriminate.
    eapply IH; [| | exact H].
    + intros. eapply Hstep; eauto. now apply list_elem_of_further.
    + eapply Hstep; eauto. apply list_elem_of_here.
Qed.

(** A loop that updates the element of its own position maps the list. *)
Lemma foldMi_pointwise {A C} (step : Z -> list C -> A -> result (list C)) (g : A -> C -> C) bs :
  (forall i v b l, 0 <= i -> l !! Z.to_nat i = Some v -> step i l b = Ok (<[Z.to_nat i := g b v]> l)) ->
  forall pre vals, length bs = length vals ->
  foldMi step (zlen pre) (pre ++ vals) bs = Ok (pre ++ zip_with g bs vals).
Proof.
  intros Hstep. induction bs as [| b bs IH]; intros pre [| v vals] Hlen; try discriminate; [reflexivity |].
  cbn [foldMi zip_with]. unfold zlen.
  rewrite (Hstep _ v) by (try lia; now rewrite Nat2Z.id, list_lookup_middle by reflexivity).
  cbn [mbind result_bind]. rewrite Nat2Z.id, insert_app_r_alt, Nat.sub_diag by lia.
  change (<[0%nat := g b v]> (v :: vals)) with ([g b v] ++ vals). rewrite app_assoc.
  replace (Z.of_nat (length pre) + 1) with (zlen (pre ++ [g b v])) by (unfold zlen; rewrite length_app; cbn; lia).
  rewrite IH by (cbn in Hlen; lia). now rewrite <- app_assoc.
Qed.

Lemma idx_app_here {A} (pre : list A) x l : idx (pre ++ x :: l) (zlen pre) = Ok x.
Proof. apply idx_Some; unfold zlen; [lia |]. rewrite Nat2Z.id. now apply list_lookup_middle. Qed.

Lemma zlen_snoc {A} (l : list A) x : zlen (l ++ [x]) = zlen l + 1.
Proof. unfold zlen. rewrite length_app. cbn. lia. Qed.

(** ** Hints *)

Create HintDb qrysm discriminated.
#[export] Hint Resolve u64_range two64_pos : qrysm.
#[export] Hint Resolve u64_small u64_div_ok udiv_ok umod_ok : qrysm.
