(* ===== verification/Math.v ===== *)
(** * Arithmetic helpers and slot/epoch primitives

    Models [math/math_helper.go] (module [Math]) and the checked operations of
    [consensus-types/primitives/slot.go] and [epoch.go] (modules [Slot] and
    [Epoch]).  [math/bits] is the Go standard library and is modelled here by
    its documented results on 64-bit operands.  [IntegerSquareRoot] is not
    modelled: it calls a third-party package and floating point. *)

From S2P Require Import Prelude.

Module Math.

(** [math/bits]: double-word product, add with carry, subtract with borrow. *)
Definition bits_Mul64 (a b : Z) : Z * Z := ((a * b) / two64, u64 (a * b)).
Definition bits_Add64 (a b c : Z) : Z * Z := (u64 (a + b + c), (a + b + c) / two64).
Definition bits_Sub64 (a b c : Z) : Z * Z :=
  (u64 (a - b - c), if a <? b + c then 1 else 0).

Definition ErrOverflow : error := New "integer overflow".
Definition ErrDivByZero : error := New "integer divide by zero".
Definition ErrMulOverflow : error := New "multiplication overflows".
Definition ErrAddOverflow : error := New "addition overflows".
Definition ErrSubUnderflow : error := New "subtraction underflow".

Definition Mul64 (a b : Z) : result Z :=
  let '(overflows, val) := bits_Mul64 a b in
  if 0 <? overflows then Err ErrMulOverflow else Ok val.

Definition Div64 (a b : Z) : result Z :=
  if b =? 0 then Err ErrDivByZero else Ok (a / b).

Definition Add64 (a b : Z) : result Z :=
  let '(res, carry) := bits_Add64 a b 0 in
  if 0 <? carry then Err ErrAddOverflow else Ok res.

Definition Sub64 (a b : Z) : result Z :=
  let '(res, borrow) := bits_Sub64 a b 0 in
  if 0 <? borrow then Err ErrSubUnderflow else Ok res.

Definition Mod64 (a b : Z) : result Z :=
  if b =? 0 then Err ErrDivByZero else Ok (a mod b).

(** Conversion of a [uint64] to Go's (64-bit) [int]. *)
Definition Int (u : Z) : result Z :=
  if MaxInt64 <? u then Err ErrOverflow else Ok u.

(** The loop of the variadic [AddInt]. *)
Definition AddInt (i : list Z) : result Z :=
  foldM (fun sum ii =>
    if (0 <? ii) && (MaxInt64 - ii <? sum) then Err ErrOverflow
    else if (ii <? 0) && (sum <? MinInt64 - ii) then Err ErrOverflow
    else Ok (sum + ii)) 0 i.

Definition CeilDiv8 (n : Z) : Z :=
  let ret := Z.quot n 8 in
  if 0 <? Z.rem n 8 then ret + 1 else ret.

Definition IsPowerOf2 (n : Z) : bool :=
  negb (n =? 0) && (Z.land n (n -u 1) =? 0).

Definition PowerOf2 (n : Z) : result Z :=
  if 64 <=? n then Panic "integer overflow" else Ok (u64 (Z.shiftl 1 n)).

(** ** The cached Newton square root *)

Record cachedSquareRoot := mkCache { squareRoot : Z; balance : Z }.

Definition initialSquareRoot : cachedSquareRoot :=
  {| squareRoot := 126491106; balance := 15999999897103236 |}.

(** The [for] loop: one round per unit of fuel; [None] is never returned with
    the fuel [CachedSquareRoot] supplies (see [newton_converges]). *)
Fixpoint newton (fuel : nat) (bal root val : Z) : option (result Z) :=
  match fuel with
  | O => None
  | S fuel' =>
      let root' := (root +u val) / 2 in
      match udiv bal root' with
      | Ok val' => if root' <=? val' then Some (Ok root') else newton fuel' bal root' val'
      | Err e => Some (Err e)
      | Panic s => Some (Panic s)
      end
  end.

Definition newton_fuel : nat := 66.

(** The cache is returned with the root.  What a panic leaves in it is not: the states
    considered are those of calls that returned. *)
Definition CachedSquareRoot (c : cachedSquareRoot) (bal : Z)
    : option (result (Z * cachedSquareRoot)) :=
  if bal =? 0 then Some (Ok (0, c))
  else if bal =? balance c then Some (Ok (squareRoot c, c))
  else match udiv bal (squareRoot c) with
       | Ok val =>
           match newton newton_fuel bal (squareRoot c) val with
           | Some (Ok r) => Some (Ok (r, {| squareRoot := r; balance := bal |}))
           | Some (Err e) => Some (Err e)
           | Some (Panic s) => Some (Panic s)
           | None => None
           end
       | Err e => Some (Err e)
       | Panic s => Some (Panic s)
       end.

End Math.

Module Slot.
Definition SafeMul (s x : Z) : result Z := Math.Mul64 s x.
Definition Mul (s x : Z) : result Z := must (SafeMul s x).
Definition SafeMulSlot (s x : Z) : result Z := SafeMul s x.
Definition MulSlot (s x : Z) : result Z := Mul s x.
Definition SafeDiv (s x : Z) : result Z := Math.Div64 s x.
Definition Div (s x : Z) : result Z := must (SafeDiv s x).
Definition SafeDivSlot (s x : Z) : result Z := SafeDiv s x.
Definition DivSlot (s x : Z) : result Z := Div s x.
Definition SafeAdd (s x : Z) : result Z := Math.Add64 s x.
Definition Add (s x : Z) : result Z := must (SafeAdd s x).
Definition SafeAddSlot (s x : Z) : result Z := SafeAdd s x.
Definition AddSlot (s x : Z) : result Z := Add s x.
Definition SafeSub (s x : Z) : result Z := Math.Sub64 s x.
Definition Sub (s x : Z) : result Z := must (SafeSub s x).
Definition SafeSubSlot (s x : Z) : result Z := SafeSub s x.
Definition SubSlot (s x : Z) : result Z := Sub s x.
Definition SafeMod (s x : Z) : result Z := Math.Mod64 s x.
Definition Mod (s x : Z) : result Z := must (SafeMod s x).
Definition SafeModSlot (s x : Z) : result Z := SafeMod s x.
Definition ModSlot (s x : Z) : result Z := Mod s x.
End Slot.

Module Epoch.
Definition MaxEpoch (a b : Z) : Z := if b <? a then a else b.
Definition SafeMul (e x : Z) : result Z := Math.Mul64 e x.
Definition Mul (e x : Z) : result Z := must (SafeMul e x).
Definition SafeDiv (e x : Z) : result Z := Math.Div64 e x.
Definition Div (e x : Z) : result Z := must (SafeDiv e x).
Definition SafeAdd (e x : Z) : result Z := Math.Add64 e x.
Definition Add (e x : Z) : result Z := must (SafeAdd e x).
Definition AddEpoch (e x : Z) : result Z := Add e x.
Definition SafeAddEpoch (e x : Z) : result Z := SafeAdd e x.
Definition SafeSub (e x : Z) : result Z := Math.Sub64 e x.
Definition Sub (e x : Z) : result Z := must (SafeSub e x).
Definition SafeMod (e x : Z) : result Z := Math.Mod64 e x.
Definition Mod (e x : Z) : result Z := must (SafeMod e x).
End Epoch.

(** ** Checked arithmetic *)

Lemma Mul64_spec a b : u64_ok a -> u64_ok b ->
  Math.Mul64 a b = if a * b <? two64 then Ok (a * b) else Err Math.ErrMulOverflow.
Proof.
  unfold u64_ok, Math.Mul64, Math.bits_Mul64. intros Ha Hb.
  destruct (Z.ltb_spec (a * b) two64) as [Hs | Hs].
  - rewrite Z.div_small by nia. cbn. rewrite u64_small; [reflexivity | unfold u64_ok; nia].
  - assert (0 < a * b / two64) as Hd by (apply Z.div_str_pos; split; [reflexivity | lia]).
    apply Z.ltb_lt in Hd. now rewrite Hd.
Qed.

Lemma Add64_spec a b : u64_ok a -> u64_ok b ->
  Math.Add64 a b = if a + b <? two64 then Ok (a + b) else Err Math.ErrAddOverflow.
Proof.
  unfold u64_ok, Math.Add64, Math.bits_Add64. intros Ha Hb. rewrite Z.add_0_r.
  destruct (Z.ltb_spec (a + b) two64) as [Hs | Hs].
  - rewrite Z.div_small by lia. cbn. rewrite u64_small; [reflexivity | unfold u64_ok; lia].
  - assert (0 < (a + b) / two64) as Hd by (apply Z.div_str_pos; split; [reflexivity | lia]).
    apply Z.ltb_lt in Hd. now rewrite Hd.
Qed.

Lemma Sub64_spec a b : u64_ok a -> u64_ok b ->
  Math.Sub64 a b = if b <=? a then Ok (a - b) else Err Math.ErrSubUnderflow.
Proof.
  unfold u64_ok, Math.Sub64, Math.bits_Sub64. intros Ha Hb. rewrite Z.sub_0_r, Z.add_0_r.
  destruct (Z.leb_spec b a) as [Hs | Hs].
  - destruct (Z.ltb_spec a b); [lia |]. cbn. rewrite u64_small; [reflexivity | unfold u64_ok; lia].
  - destruct (Z.ltb_spec a b); [reflexivity | lia].
Qed.



(** What every checked operation promises: the exact mathematical result
    when it is representable, an error (a panic for the non-[Safe] variant)
    when it is not. *)
Definition exact (fits : bool) (v : Z) (safe unsafe : result Z) : Prop :=
  if fits then safe = Ok v /\ unsafe = Ok v
  else (exists e, safe = Err e) /\ (exists m, unsafe = Panic m).

Lemma exact_intro (fits : bool) v e safe :
  safe = (if fits then Ok v else Err e) -> exact fits v safe (must safe).
Proof. intros ->. destruct fits; cbn; eauto. Qed.

Lemma Div64_spec a b : Math.Div64 a b = if negb (b =? 0) then Ok (a / b) else Err Math.ErrDivByZero.
Proof. unfold Math.Div64. now destruct (b =? 0). Qed.

Lemma Mod64_spec a b : Math.Mod64 a b = if negb (b =? 0) then Ok (a mod b) else Err Math.ErrDivByZero.
Proof. unfold Math.Mod64. now destruct (b =? 0). Qed.

(** C34. Slot arithmetic is exact: on [uint64] operands each [Safe] operation
    of a slot returns the mathematical sum, difference, product, quotient or
    remainder when that is a [uint64] and an error otherwise, and the
    panicking variant returns the same value or panics. *)
Theorem slot_arithmetic_exact s x : u64_ok s -> u64_ok x ->
  exact (s * x <? two64) (s * x) (Slot.SafeMulSlot s x) (Slot.MulSlot s x) /\
  exact (s + x <? two64) (s + x) (Slot.SafeAddSlot s x) (Slot.AddSlot s x) /\
  exact (x <=? s) (s - x) (Slot.SafeSubSlot s x) (Slot.SubSlot s x) /\
  exact (negb (x =? 0)) (s / x) (Slot.SafeDivSlot s x) (Slot.DivSlot s x) /\
  exact (negb (x =? 0)) (s mod x) (Slot.SafeModSlot s x) (Slot.ModSlot s x).
Proof.
  intros. repeat split; eapply exact_intro;
    [apply Mul64_spec | apply Add64_spec | apply Sub64_spec | apply Div64_spec | apply Mod64_spec];
    assumption.
Qed.

Lemma slot_arithmetic_exact_witness :
  u64_ok 5 /\ u64_ok MaxUint64 /\
  exact (5 + MaxUint64 <? two64) (5 + MaxUint64) (Slot.SafeAddSlot 5 MaxUint64) (Slot.AddSlot 5 MaxUint64).
Proof.
  split; [| split]; [vm_compute; intuition congruence | vm_compute; intuition congruence |].
  apply (slot_arithmetic_exact 5 MaxUint64); vm_compute; intuition congruence.
Defined.

(** ** Powers of two, conversions and sums *)

Lemma IsPowerOf2_pow k : 0 <= k < 64 -> Math.IsPowerOf2 (2 ^ k) = true.
Proof.
  intros Hk. unfold Math.IsPowerOf2.
  assert (0 < 2 ^ k) by (apply Z.pow_pos_nonneg; lia).
  assert (2 ^ k < two64) by (change two64 with (2 ^ 64); apply Z.pow_lt_mono_r; lia).
  rewrite u64_sub_small by (unfold u64_ok; lia).
  rewrite Z.sub_1_r, <- Z.ones_equiv.
  apply andb_true_intro. split.
  - apply negb_true_iff, Z.eqb_neq. lia.
  - apply Z.eqb_eq. rewrite Z.land_ones by lia. apply Z.mod_same. lia.
Qed.

(** C35. [IsPowerOf2] decides exactly the powers of two of the [uint64]
    range, and [PowerOf2] enumerates them. *)
Theorem IsPowerOf2_correct n : u64_ok n ->
  Math.IsPowerOf2 n = true <-> exists k, 0 <= k < 64 /\ Math.PowerOf2 k = Ok n.
Proof.
  intros [Hn0 Hn]. split.
  - unfold Math.IsPowerOf2. intros H. bool_to_prop.
    rewrite u64_sub_small in * by (unfold u64_ok; lia).
    set (k := Z.log2 n). destruct (Z.log2_spec n) as [Hlo Hhi]; [lia |]. fold k in Hlo, Hhi.
    assert (0 <= k) by apply Z.log2_nonneg.
    assert (k < 64) by (apply Z.log2_lt_pow2; [lia | exact Hn]).
    exists k. split; [lia |]. unfold Math.PowerOf2.
    destruct (Z.leb_spec 64 k); [lia |]. rewrite Z.shiftl_1_l.
    assert (n = 2 ^ k) as <-.
    { destruct (Z.eq_dec n (2 ^ k)) as [| Hne]; [assumption | exfalso].
      assert (Z.testbit (Z.land n (n - 1)) k = true) as Hb.
      { rewrite Z.land_spec. apply andb_true_intro. split.
        - now apply Z.bit_log2; lia.
        - replace k with (Z.log2 (n - 1)); [apply Z.bit_log2; lia |].
          apply Z.log2_unique; lia. }
      rewrite H0, Z.bits_0 in Hb. discriminate. }
    now rewrite u64_small.
  - intros (k & Hk & Hp). unfold Math.PowerOf2 in Hp.
    destruct (Z.leb_spec 64 k); [lia |]. rewrite Z.shiftl_1_l in Hp.
    assert (2 ^ k < two64) by (change two64 with (2 ^ 64); apply Z.pow_lt_mono_r; lia).
    rewrite u64_small in Hp by (unfold u64_ok; split; [apply Z.pow_nonneg; lia | lia]).
    injection Hp as <-. now apply IsPowerOf2_pow.
Qed.

Lemma IsPowerOf2_correct_witness :
  u64_ok 4096 /\ exists k, 0 <= k < 64 /\ Math.PowerOf2 k = Ok 4096.
Proof.
  split; [vm_compute; intuition congruence |].
  apply (IsPowerOf2_correct 4096); [vm_compute; intuition congruence | reflexivity].
Defined.

(** ** The cached square root *)

Definition cache_ok (c : Math.cachedSquareRoot) : Prop :=
  0 < Math.balance c < two64 /\ Math.squareRoot c = Z.sqrt (Math.balance c).

Lemma cache_ok_initial : cache_ok Math.initialSquareRoot.
Proof. split; [split; reflexivity | reflexivity]. Qed.

Section Newton.
Context (bal : Z) (Hbal : 0 < bal < two64).

Lemma sqrt_pos_bound : 1 <= Z.sqrt bal < 4294967296.
Proof.
  split; [apply (Z.sqrt_le_mono 1); lia |].
  apply Z.sqrt_lt_square; unfold two64 in Hbal; lia.
Qed.

(** Arithmetic mean dominates geometric mean, on quotients. *)
Lemma newton_lower root : 0 < root -> Z.sqrt bal <= (root + bal / root) / 2.
Proof.
  intros Hr. apply Z.div_le_lower_bound; [lia |].
  set (q := bal / root).
  assert (bal < root * (q + 1)).
  { unfold q. rewrite Z.add_1_r. apply Z.mul_succ_div_gt. lia. }
  pose proof (Z.sqrt_spec bal ltac:(lia)) as [Hs _].
  pose proof sqrt_pos_bound.
  destruct (Z_lt_le_dec (root + q) (2 * Z.sqrt bal)) as [Hlt |]; [exfalso | lia].
  assert (0 <= q) by (apply Z.div_pos; lia).
  clearbody q. pose proof (Z.square_nonneg (root - (q + 1))).
  assert ((root + q + 1) * (root + q + 1) <= (2 * Z.sqrt bal) * (2 * Z.sqrt bal))
    by (apply Z.square_le_mono_nonneg; lia).
  lia.
Qed.

(** Above the root the distance to it at least halves. *)
Lemma newton_upper root : Z.sqrt bal < root ->
  (root + bal / root) / 2 - Z.sqrt bal <= (root - Z.sqrt bal) / 2.
Proof.
  intros Hr. pose proof sqrt_pos_bound.
  pose proof (Z.sqrt_spec bal ltac:(lia)) as [_ Hs].
  assert (bal / root < Z.sqrt bal + 1) by (apply Z.div_lt_upper_bound; nia).
  transitivity ((root + Z.sqrt bal) / 2 - Z.sqrt bal).
  - apply Z.sub_le_mono_r, Z.div_le_mono; lia.
  - replace (root + Z.sqrt bal) with (root - Z.sqrt bal + Z.sqrt bal * 2) by lia.
    rewrite Z.div_add; lia.
Qed.

(** The exit test holds exactly at the integer square root. *)
Lemma newton_exit root : Z.sqrt bal <= root -> (root <=? bal / root) = (root =? Z.sqrt bal).
Proof.
  intros Hr. pose proof sqrt_pos_bound.
  pose proof (Z.sqrt_spec bal ltac:(lia)) as [Hlo Hs].
  destruct (Z.eqb_spec root (Z.sqrt bal)) as [-> | Hne].
  - apply Z.leb_le, Z.div_le_lower_bound; lia.
  - apply Z.leb_gt, Z.div_lt_upper_bound; nia.
Qed.

Lemma newton_converges n root :
  0 < root -> root + bal / root < two64 ->
  (root + bal / root) / 2 - Z.sqrt bal < 2 ^ Z.of_nat n ->
  Math.newton (S n) bal root (bal / root) = Some (Ok (Z.sqrt bal)).
Proof.
  revert root. induction n as [| n IH]; intros root Hr Hsum Hd; cbn -[Z.sqrt];
    pose proof (newton_lower root Hr) as Hlow; pose proof sqrt_pos_bound;
    assert (0 <= bal / root) by (apply Z.div_pos; lia);
    rewrite u64_small by (unfold u64_ok; lia);
    rewrite udiv_ok by lia; rewrite newton_exit by assumption.
  - change (2 ^ Z.of_nat 0) with 1 in Hd.
    destruct (Z.eqb_spec ((root + bal / root) / 2) (Z.sqrt bal)) as [E |]; [now rewrite E | lia].
  - destruct (Z.eqb_spec ((root + bal / root) / 2) (Z.sqrt bal)) as [E | Hne]; [now rewrite E |].
    set (root' := (root + bal / root) / 2) in *.
    pose proof (newton_exit root' Hlow) as Hex. rewrite (proj2 (Z.eqb_neq _ _) Hne) in Hex.
    apply Z.leb_gt in Hex.
    assert (2 * root' <= root + bal / root) by (apply Z.mul_div_le; lia).
    apply IH; [lia | lia |].
    pose proof (newton_upper root' ltac:(lia)) as Hup.
    rewrite Nat2Z.inj_succ, Z.pow_succ_r in Hd by lia.
    assert ((root' - Z.sqrt bal) / 2 < 2 ^ Z.of_nat n) by (apply Z.div_lt_upper_bound; lia).
    lia.
Qed.
End Newton.

(** The only call whose first [squareRoot + val] wraps around. *)
Definition sqrt_wraps (c : Math.cachedSquareRoot) (bal : Z) : bool :=
  (Math.squareRoot c =? 1) && (bal =? MaxUint64).

Lemma first_sum_fits c bal : cache_ok c -> 0 < bal < two64 -> sqrt_wraps c bal = false ->
  Math.squareRoot c + bal / Math.squareRoot c < two64.
Proof.
  intros [Hb Hs] Hbal Hw. pose proof (sqrt_pos_bound _ Hb) as Hr. rewrite <- Hs in Hr.
  unfold sqrt_wraps in Hw. apply andb_false_iff in Hw.
  destruct (Z.eq_dec (Math.squareRoot c) 1) as [E | Hne].
  - rewrite E, Z.div_1_r. destruct Hw as [Hw | Hw]; bool_to_prop; [contradiction |].
    unfold two64, MaxUint64 in *. lia.
  - assert (bal / Math.squareRoot c <= bal / 2) by (apply Z.div_le_compat_l; lia).
    assert (bal / 2 < 9223372036854775808) by (apply Z.div_lt_upper_bound; unfold two64 in *; lia).
    unfold two64. lia.
Qed.

(** C32. For every cache state that calls that returned can leave behind and every
    [uint64] balance but one corner case, [CachedSquareRoot] terminates within
    the loop bound, returns the exact integer square root whatever value was
    cached before, and leaves a correct cache. *)
Theorem CachedSquareRoot_correct c bal : cache_ok c -> u64_ok bal -> sqrt_wraps c bal = false ->
  exists c', Math.CachedSquareRoot c bal = Some (Ok (Z.sqrt bal, c')) /\ cache_ok c'.
Proof.
  intros Hc [Hb0 Hb] Hw. unfold Math.CachedSquareRoot.
  destruct (Z.eqb_spec bal 0) as [-> |]; [now exists c |].
  destruct Hc as [Hcb Hcs].
  destruct (Z.eqb_spec bal (Math.balance c)) as [-> |].
  { exists c. rewrite Hcs. split; [reflexivity | split; assumption]. }
  pose proof (sqrt_pos_bound _ Hcb) as Hr. rewrite <- Hcs in Hr.
  rewrite udiv_ok by lia.
  assert (Math.squareRoot c + bal / Math.squareRoot c < two64) as Hsum
    by (apply first_sum_fits; [split; assumption | lia | assumption]).
  change Math.newton_fuel with (S 65).
  rewrite (newton_converges bal ltac:(lia) 65); [| lia | lia |].
  - eexists. split; [reflexivity |]. split; cbn; [lia | reflexivity].
  - assert ((Math.squareRoot c + bal / Math.squareRoot c) / 2 < two64)
      by (apply Z.div_lt_upper_bound; unfold two64 in *; lia).
    pose proof (Z.sqrt_nonneg bal).
    change (2 ^ Z.of_nat 65) with (2 * two64). lia.
Qed.

Lemma CachedSquareRoot_correct_witness :
  exists c', Math.CachedSquareRoot Math.initialSquareRoot 4000000000000
             = Some (Ok (Z.sqrt 4000000000000, c')) /\ cache_ok c'.
Proof.
  apply (CachedSquareRoot_correct Math.initialSquareRoot 4000000000000);
    [exact cache_ok_initial | vm_compute; intuition congruence | reflexivity].
Defined.

(** C33. The corner case: when the cached root is 1 (an earlier balance was 1, 2
    or 3) and the balance is 2^64 - 1, the first sum of the loop wraps to zero
    and the next division panics. *)
Theorem CachedSquareRoot_wraps c bal : cache_ok c -> sqrt_wraps c bal = true ->
  Math.CachedSquareRoot c bal = Some (Panic "integer divide by zero").
Proof.
  intros [Hcb Hcs] Hw. unfold sqrt_wraps in Hw. bool_to_prop. subst bal.
  unfold Math.CachedSquareRoot.
  destruct (Z.eqb_spec MaxUint64 0) as [[=] |].
  destruct (Z.eqb_spec MaxUint64 (Math.balance c)) as [E | _].
  - rewrite <- E in Hcs. rewrite Hcs in H. vm_compute in H. discriminate.
  - rewrite H. reflexivity.
Qed.

Lemma CachedSquareRoot_wraps_witness :
  Math.CachedSquareRoot {| Math.squareRoot := 1; Math.balance := 3 |} MaxUint64
  = Some (Panic "integer divide by zero").
Proof.
  apply (CachedSquareRoot_wraps {| Math.squareRoot := 1; Math.balance := 3 |} MaxUint64);
    [split; [split; reflexivity | reflexivity] | reflexivity].
Defined.
