(* ===== verification/Config.v ===== *)
(** * Chain configuration

    Models [config/params/config.go] (the configuration record, presets of
    [mainnet_config.go] and [minimal_config.go]), [config/fieldparams] (the SSZ
    bounds compiled into a binary) and the validation of a configuration in
    [validate.go] and [max_active_validators.go].

    [BeaconChainConfig] holds every integer, byte-string and string field of the
    Go struct; left out are the fields of third-party types
    ([DefaultFeeRecipient], [DefaultBuilderGasLimit], the empty signature) and
    the two fork-schedule maps, which are derived from [GenesisForkVersion].
    Fields the Go literal does not set have Go's zero value. *)

From S2P Require Import Prelude Math.

Record BeaconChainConfig := mkConfig {
  GenesisSlot : Z;
  GenesisEpoch : Z;
  FarFutureEpoch : Z;
  FarFutureSlot : Z;
  BaseRewardsPerEpoch : Z;
  DepositContractTreeDepth : Z;
  JustificationBitsLength : Z;
  PresetBase : string;
  ConfigName : string;
  TargetCommitteeSize : Z;
  MaxValidatorsPerCommittee : Z;
  MaxCommitteesPerSlot : Z;
  MinPerEpochChurnLimit : Z;
  ChurnLimitQuotient : Z;
  ShuffleRoundCount : Z;
  MinGenesisActiveValidatorCount : Z;
  MinGenesisTime : Z;
  TargetAggregatorsPerCommittee : Z;
  HysteresisQuotient : Z;
  HysteresisDownwardMultiplier : Z;
  HysteresisUpwardMultiplier : Z;
  MinDepositAmount : Z;
  MaxEffectiveBalance : Z;
  EjectionBalance : Z;
  EffectiveBalanceIncrement : Z;
  ZeroHash : list Z;
  GenesisDelay : Z;
  MinAttestationInclusionDelay : Z;
  SecondsPerSlot : Z;
  SlotsPerEpoch : Z;
  SqrRootSlotsPerEpoch : Z;
  MinSeedLookahead : Z;
  MaxSeedLookahead : Z;
  EpochsPerExecutionVotingPeriod : Z;
  SlotsPerHistoricalRoot : Z;
  MinValidatorWithdrawabilityDelay : Z;
  ShardCommitteePeriod : Z;
  MinEpochsToInactivityPenalty : Z;
  ExecutionFollowDistance : Z;
  DeprecatedSafeSlotsToUpdateJustified : Z;
  SecondsPerExecutionBlock : Z;
  ProposerScoreBoost : Z;
  ReorgHeadWeightThreshold : Z;
  ReorgParentWeightThreshold : Z;
  ReorgMaxEpochsSinceFinalization : Z;
  IntervalsPerSlot : Z;
  DepositChainID : Z;
  DepositNetworkID : Z;
  DepositContractAddress : string;
  RandomSubnetsPerValidator : Z;
  EpochsPerRandomSubnetSubscription : Z;
  EpochsPerHistoricalVector : Z;
  EpochsPerSlashingsVector : Z;
  HistoricalRootsLimit : Z;
  ValidatorRegistryLimit : Z;
  BaseRewardFactor : Z;
  WhistleBlowerRewardQuotient : Z;
  ProposerRewardQuotient : Z;
  MaxProposerSlashings : Z;
  MaxAttesterSlashings : Z;
  MaxAttestations : Z;
  MaxDeposits : Z;
  MaxVoluntaryExits : Z;
  MaxWithdrawalsPerPayload : Z;
  MaxValidatorsPerWithdrawalsSweep : Z;
  DomainBeaconProposer : list Z;
  DomainRandao : list Z;
  DomainBeaconAttester : list Z;
  DomainDeposit : list Z;
  DomainVoluntaryExit : list Z;
  DomainSelectionProof : list Z;
  DomainAggregateAndProof : list Z;
  DomainSyncCommittee : list Z;
  DomainSyncCommitteeSelectionProof : list Z;
  DomainContributionAndProof : list Z;
  DomainApplicationMask : list Z;
  DomainApplicationBuilder : list Z;
  ShorPerQuanta : Z;
  DefaultBufferSize : Z;
  RPCSyncCheck : Z;
  DefaultPageSize : Z;
  MaxPeersToSync : Z;
  SlotsPerArchivedPoint : Z;
  GenesisCountdownInterval : Z;
  BeaconStateZondFieldCount : Z;
  WeakSubjectivityPeriod : Z;
  PruneSlasherStoragePeriod : Z;
  SlashingProtectionPruningEpochs : Z;
  GenesisForkVersion : list Z;
  SafetyDecay : Z;
  TimelySourceFlagIndex : Z;
  TimelyTargetFlagIndex : Z;
  TimelyHeadFlagIndex : Z;
  TimelySourceWeight : Z;
  TimelyTargetWeight : Z;
  TimelyHeadWeight : Z;
  SyncRewardWeight : Z;
  WeightDenominator : Z;
  ProposerWeight : Z;
  TargetAggregatorsPerSyncSubcommittee : Z;
  SyncCommitteeSubnetCount : Z;
  SyncCommitteeSize : Z;
  InactivityScoreBias : Z;
  InactivityScoreRecoveryRate : Z;
  EpochsPerSyncCommitteePeriod : Z;
  MinSlashingPenaltyQuotient : Z;
  ProportionalSlashingMultiplier : Z;
  InactivityPenaltyQuotient : Z;
  MinSyncCommitteeParticipants : Z;
  QRLBurnAddress : string;
  MaxBuilderConsecutiveMissedSlots : Z;
  MaxBuilderEpochMissedSlots : Z;
  LocalBlockValueBoost : Z;
  ExecutionEngineTimeoutValue : Z;
  MaxPerEpochActivationChurnLimit : Z
}.

Definition mainnetBeaconConfig : BeaconChainConfig := {|
  GenesisSlot := 0;
  GenesisEpoch := 0;
  FarFutureEpoch := 18446744073709551615;
  FarFutureSlot := 18446744073709551615;
  BaseRewardsPerEpoch := 4;
  DepositContractTreeDepth := 32;
  JustificationBitsLength := 0;
  PresetBase := "mainnet";
  ConfigName := "mainnet";
  TargetCommitteeSize := 32;
  MaxValidatorsPerCommittee := 32;
  MaxCommitteesPerSlot := 1;
  MinPerEpochChurnLimit := 2;
  ChurnLimitQuotient := 65536;
  ShuffleRoundCount := 90;
  MinGenesisActiveValidatorCount := 128;
  MinGenesisTime := 1606824000;
  TargetAggregatorsPerCommittee := 8;
  HysteresisQuotient := 4;
  HysteresisDownwardMultiplier := 1;
  HysteresisUpwardMultiplier := 5;
  MinDepositAmount := 2000000000000;
  MaxEffectiveBalance := 40000000000000;
  EjectionBalance := 20000000000000;
  EffectiveBalanceIncrement := 1000000000;
  ZeroHash := replicate 32 0;
  GenesisDelay := 604800;
  MinAttestationInclusionDelay := 1;
  SecondsPerSlot := 60;
  SlotsPerEpoch := 128;
  SqrRootSlotsPerEpoch := 11;
  MinSeedLookahead := 1;
  MaxSeedLookahead := 4;
  EpochsPerExecutionVotingPeriod := 4;
  SlotsPerHistoricalRoot := 1024;
  MinValidatorWithdrawabilityDelay := 16;
  ShardCommitteePeriod := 16;
  MinEpochsToInactivityPenalty := 4;
  ExecutionFollowDistance := 512;
  DeprecatedSafeSlotsToUpdateJustified := 0;
  SecondsPerExecutionBlock := 60;
  ProposerScoreBoost := 40;
  ReorgHeadWeightThreshold := 20;
  ReorgParentWeightThreshold := 160;
  ReorgMaxEpochsSinceFinalization := 2;
  IntervalsPerSlot := 3;
  DepositChainID := 1;
  DepositNetworkID := 1;
  DepositContractAddress := "Q42424242424242424242424242424242424242424242424242424242424242424242424242424242424242424242424242424242424242424242424242424242";
  RandomSubnetsPerValidator := 1;
  EpochsPerRandomSubnetSubscription := 256;
  EpochsPerHistoricalVector := 65536;
  EpochsPerSlashingsVector := 512;
  HistoricalRootsLimit := 16777216;
  ValidatorRegistryLimit := 1099511627776;
  BaseRewardFactor := 2048;
  WhistleBlowerRewardQuotient := 512;
  ProposerRewardQuotient := 8;
  MaxProposerSlashings := 16;
  MaxAttesterSlashings := 2;
  MaxAttestations := 4;
  MaxDeposits := 16;
  MaxVoluntaryExits := 16;
  MaxWithdrawalsPerPayload := 16;
  MaxValidatorsPerWithdrawalsSweep := 16384;
  DomainBeaconProposer := [0; 0; 0; 0];
  DomainRandao := [2; 0; 0; 0];
  DomainBeaconAttester := [1; 0; 0; 0];
  DomainDeposit := [3; 0; 0; 0];
  DomainVoluntaryExit := [4; 0; 0; 0];
  DomainSelectionProof := [5; 0; 0; 0];
  DomainAggregateAndProof := [6; 0; 0; 0];
  DomainSyncCommittee := [7; 0; 0; 0];
  DomainSyncCommitteeSelectionProof := [8; 0; 0; 0];
  DomainContributionAndProof := [9; 0; 0; 0];
  DomainApplicationMask := [0; 0; 0; 1];
  DomainApplicationBuilder := [0; 0; 0; 1];
  ShorPerQuanta := 1000000000;
  DefaultBufferSize := 10000;
  RPCSyncCheck := 1;
  DefaultPageSize := 250;
  MaxPeersToSync := 15;
  SlotsPerArchivedPoint := 10112;
  GenesisCountdownInterval := 60000000000;
  BeaconStateZondFieldCount := 28;
  WeakSubjectivityPeriod := 128;
  PruneSlasherStoragePeriod := 10;
  SlashingProtectionPruningEpochs := 512;
  GenesisForkVersion := [0; 0; 0; 0];
  SafetyDecay := 10;
  TimelySourceFlagIndex := 0;
  TimelyTargetFlagIndex := 1;
  TimelyHeadFlagIndex := 2;
  TimelySourceWeight := 14;
  TimelyTargetWeight := 26;
  TimelyHeadWeight := 14;
  SyncRewardWeight := 2;
  WeightDenominator := 64;
  ProposerWeight := 8;
  TargetAggregatorsPerSyncSubcommittee := 8;
  SyncCommitteeSubnetCount := 1;
  SyncCommitteeSize := 128;
  InactivityScoreBias := 4;
  InactivityScoreRecoveryRate := 16;
  EpochsPerSyncCommitteePeriod := 8;
  MinSlashingPenaltyQuotient := 32;
  ProportionalSlashingMultiplier := 3;
  InactivityPenaltyQuotient := 65536;
  MinSyncCommitteeParticipants := 1;
  QRLBurnAddress := "Q00000000000000000000000000000000000000000000000000000000000000000000000000000000000000000000000000000000000000000000000000000000";
  MaxBuilderConsecutiveMissedSlots := 3;
  MaxBuilderEpochMissedSlots := 5;
  LocalBlockValueBoost := 0;
  ExecutionEngineTimeoutValue := 8;
  MaxPerEpochActivationChurnLimit := 8
|}.

Definition MinimalSpecConfig : BeaconChainConfig := {|
  GenesisSlot := GenesisSlot mainnetBeaconConfig;
  GenesisEpoch := GenesisEpoch mainnetBeaconConfig;
  FarFutureEpoch := 18446744073709551615;
  FarFutureSlot := 18446744073709551615;
  BaseRewardsPerEpoch := BaseRewardsPerEpoch mainnetBeaconConfig;
  DepositContractTreeDepth := 32;
  JustificationBitsLength := JustificationBitsLength mainnetBeaconConfig;
  PresetBase := "minimal";
  ConfigName := "minimal";
  TargetCommitteeSize := 4;
  MaxValidatorsPerCommittee := 32;
  MaxCommitteesPerSlot := 4;
  MinPerEpochChurnLimit := 2;
  ChurnLimitQuotient := 32;
  ShuffleRoundCount := 10;
  MinGenesisActiveValidatorCount := 64;
  MinGenesisTime := 1578009600;
  TargetAggregatorsPerCommittee := 8;
  HysteresisQuotient := HysteresisQuotient mainnetBeaconConfig;
  HysteresisDownwardMultiplier := HysteresisDownwardMultiplier mainnetBeaconConfig;
  HysteresisUpwardMultiplier := HysteresisUpwardMultiplier mainnetBeaconConfig;
  MinDepositAmount := 2000000000000;
  MaxEffectiveBalance := 40000000000000;
  EjectionBalance := 20000000000000;
  EffectiveBalanceIncrement := 1000000000;
  ZeroHash := ZeroHash mainnetBeaconConfig;
  GenesisDelay := 300;
  MinAttestationInclusionDelay := 1;
  SecondsPerSlot := 6;
  SlotsPerEpoch := 8;
  SqrRootSlotsPerEpoch := 2;
  MinSeedLookahead := 1;
  MaxSeedLookahead := 4;
  EpochsPerExecutionVotingPeriod := 4;
  SlotsPerHistoricalRoot := 64;
  MinValidatorWithdrawabilityDelay := 256;
  ShardCommitteePeriod := 64;
  MinEpochsToInactivityPenalty := 4;
  ExecutionFollowDistance := 16;
  DeprecatedSafeSlotsToUpdateJustified := DeprecatedSafeSlotsToUpdateJustified mainnetBeaconConfig;
  SecondsPerExecutionBlock := 60;
  ProposerScoreBoost := ProposerScoreBoost mainnetBeaconConfig;
  ReorgHeadWeightThreshold := ReorgHeadWeightThreshold mainnetBeaconConfig;
  ReorgParentWeightThreshold := ReorgParentWeightThreshold mainnetBeaconConfig;
  ReorgMaxEpochsSinceFinalization := ReorgMaxEpochsSinceFinalization mainnetBeaconConfig;
  IntervalsPerSlot := IntervalsPerSlot mainnetBeaconConfig;
  DepositChainID := 5;
  DepositNetworkID := 5;
  DepositContractAddress := "Q12345678901234567890123456789012345678901234567890123456789012345678901234567890123456789012345678901234567890123456789012345678";
  RandomSubnetsPerValidator := RandomSubnetsPerValidator mainnetBeaconConfig;
  EpochsPerRandomSubnetSubscription := EpochsPerRandomSubnetSubscription mainnetBeaconConfig;
  EpochsPerHistoricalVector := 64;
  EpochsPerSlashingsVector := 64;
  HistoricalRootsLimit := 16777216;
  ValidatorRegistryLimit := 1099511627776;
  BaseRewardFactor := 64;
  WhistleBlowerRewardQuotient := 512;
  ProposerRewardQuotient := 8;
  MaxProposerSlashings := 16;
  MaxAttesterSlashings := 2;
  MaxAttestations := 4;
  MaxDeposits := 16;
  MaxVoluntaryExits := 16;
  MaxWithdrawalsPerPayload := 4;
  MaxValidatorsPerWithdrawalsSweep := 16;
  DomainBeaconProposer := [0; 0; 0; 0];
  DomainRandao := [2; 0; 0; 0];
  DomainBeaconAttester := [1; 0; 0; 0];
  DomainDeposit := [3; 0; 0; 0];
  DomainVoluntaryExit := [4; 0; 0; 0];
  DomainSelectionProof := DomainSelectionProof mainnetBeaconConfig;
  DomainAggregateAndProof := DomainAggregateAndProof mainnetBeaconConfig;
  DomainSyncCommittee := DomainSyncCommittee mainnetBeaconConfig;
  DomainSyncCommitteeSelectionProof := DomainSyncCommitteeSelectionProof mainnetBeaconConfig;
  DomainContributionAndProof := DomainContributionAndProof mainnetBeaconConfig;
  DomainApplicationMask := DomainApplicationMask mainnetBeaconConfig;
  DomainApplicationBuilder := DomainApplicationBuilder mainnetBeaconConfig;
  ShorPerQuanta := ShorPerQuanta mainnetBeaconConfig;
  DefaultBufferSize := DefaultBufferSize mainnetBeaconConfig;
  RPCSyncCheck := RPCSyncCheck mainnetBeaconConfig;
  DefaultPageSize := DefaultPageSize mainnetBeaconConfig;
  MaxPeersToSync := MaxPeersToSync mainnetBeaconConfig;
  SlotsPerArchivedPoint := SlotsPerArchivedPoint mainnetBeaconConfig;
  GenesisCountdownInterval := GenesisCountdownInterval mainnetBeaconConfig;
  BeaconStateZondFieldCount := BeaconStateZondFieldCount mainnetBeaconConfig;
  WeakSubjectivityPeriod := WeakSubjectivityPeriod mainnetBeaconConfig;
  PruneSlasherStoragePeriod := PruneSlasherStoragePeriod mainnetBeaconConfig;
  SlashingProtectionPruningEpochs := SlashingProtectionPruningEpochs mainnetBeaconConfig;
  GenesisForkVersion := [0; 0; 0; 1];
  SafetyDecay := SafetyDecay mainnetBeaconConfig;
  TimelySourceFlagIndex := TimelySourceFlagIndex mainnetBeaconConfig;
  TimelyTargetFlagIndex := TimelyTargetFlagIndex mainnetBeaconConfig;
  TimelyHeadFlagIndex := TimelyHeadFlagIndex mainnetBeaconConfig;
  TimelySourceWeight := TimelySourceWeight mainnetBeaconConfig;
  TimelyTargetWeight := TimelyTargetWeight mainnetBeaconConfig;
  TimelyHeadWeight := TimelyHeadWeight mainnetBeaconConfig;
  SyncRewardWeight := SyncRewardWeight mainnetBeaconConfig;
  WeightDenominator := WeightDenominator mainnetBeaconConfig;
  ProposerWeight := ProposerWeight mainnetBeaconConfig;
  TargetAggregatorsPerSyncSubcommittee := TargetAggregatorsPerSyncSubcommittee mainnetBeaconConfig;
  SyncCommitteeSubnetCount := SyncCommitteeSubnetCount mainnetBeaconConfig;
  SyncCommitteeSize := 16;
  InactivityScoreBias := 4;
  InactivityScoreRecoveryRate := InactivityScoreRecoveryRate mainnetBeaconConfig;
  EpochsPerSyncCommitteePeriod := 8;
  MinSlashingPenaltyQuotient := MinSlashingPenaltyQuotient mainnetBeaconConfig;
  ProportionalSlashingMultiplier := ProportionalSlashingMultiplier mainnetBeaconConfig;
  InactivityPenaltyQuotient := InactivityPenaltyQuotient mainnetBeaconConfig;
  MinSyncCommitteeParticipants := MinSyncCommitteeParticipants mainnetBeaconConfig;
  QRLBurnAddress := QRLBurnAddress mainnetBeaconConfig;
  MaxBuilderConsecutiveMissedSlots := MaxBuilderConsecutiveMissedSlots mainnetBeaconConfig;
  MaxBuilderEpochMissedSlots := MaxBuilderEpochMissedSlots mainnetBeaconConfig;
  LocalBlockValueBoost := LocalBlockValueBoost mainnetBeaconConfig;
  ExecutionEngineTimeoutValue := ExecutionEngineTimeoutValue mainnetBeaconConfig;
  MaxPerEpochActivationChurnLimit := 4
|}.

(** The SSZ bounds a binary is compiled with ([config/fieldparams]). *)
Record FieldParams := mkFieldParams {
  fp_BlockRootsLength : Z;
  fp_StateRootsLength : Z;
  fp_RandaoMixesLength : Z;
  fp_HistoricalRootsLength : Z;
  fp_ValidatorRegistryLimit : Z;
  fp_ExecutionDataVotesLength : Z;
  fp_SlashingsLength : Z;
  fp_SyncCommitteeLength : Z;
  fp_MaxValidatorsPerCommittee : Z;
  fp_SlotsPerEpoch : Z;
  fp_SyncCommitteeAggregationBytesLength : Z;
  fp_SyncAggregateSyncCommitteeBytesLength : Z;
  fp_MaxWithdrawalsPerPayload : Z
}.

Definition MainnetMaxWithdrawalsPerPayload : Z := 16.
Definition MinimalMaxWithdrawalsPerPayload : Z := 4.
Definition fp_MaxProposerSlashings : Z := 16.
Definition fp_MaxAttesterSlashings : Z := 2.
Definition fp_MaxAttestations : Z := 4.
Definition fp_MaxDeposits : Z := 16.
Definition fp_MaxVoluntaryExits : Z := 16.
Definition DepositProofLength : Z := 33.
Definition VersionLength : Z := 4.

Definition mainnetFieldParams : FieldParams := {|
  fp_BlockRootsLength := 1024;
  fp_StateRootsLength := 1024;
  fp_RandaoMixesLength := 65536;
  fp_HistoricalRootsLength := 16777216;
  fp_ValidatorRegistryLimit := 1099511627776;
  fp_ExecutionDataVotesLength := 512;
  fp_SlashingsLength := 512;
  fp_SyncCommitteeLength := 128;
  fp_MaxValidatorsPerCommittee := 32;
  fp_SlotsPerEpoch := 128;
  fp_SyncCommitteeAggregationBytesLength := 16;
  fp_SyncAggregateSyncCommitteeBytesLength := 16;
  fp_MaxWithdrawalsPerPayload := MainnetMaxWithdrawalsPerPayload
|}.

Definition minimalFieldParams : FieldParams := {|
  fp_BlockRootsLength := 64;
  fp_StateRootsLength := 64;
  fp_RandaoMixesLength := 64;
  fp_HistoricalRootsLength := 16777216;
  fp_ValidatorRegistryLimit := 1099511627776;
  fp_ExecutionDataVotesLength := 32;
  fp_SlashingsLength := 64;
  fp_SyncCommitteeLength := 16;
  fp_MaxValidatorsPerCommittee := 32;
  fp_SlotsPerEpoch := 8;
  fp_SyncCommitteeAggregationBytesLength := 2;
  fp_SyncAggregateSyncCommitteeBytesLength := 2;
  fp_MaxWithdrawalsPerPayload := MinimalMaxWithdrawalsPerPayload
|}.

Section Validate.
Context (fp : FieldParams) (b : BeaconChainConfig).

Definition hi_zero (x y : Z) (msg : string) : result Z :=
  let '(hi, lo) := Math.bits_Mul64 x y in
  if negb (hi =? 0) then Err (New msg) else Ok lo.

Definition validateCommitteeSize : result unit :=
  _ ← throw_if (MaxValidatorsPerCommittee b =? 0) (New "MAX_VALIDATORS_PER_COMMITTEE must be non-zero");
  throw_if (fp_MaxValidatorsPerCommittee fp <? MaxValidatorsPerCommittee b)
    (New "MAX_VALIDATORS_PER_COMMITTEE must not exceed this binary's SSZ attestation limit").

Definition MaxActiveValidators : result Z :=
  _ ← throw_if (MaxCommitteesPerSlot b =? 0) (New "MAX_COMMITTEES_PER_SLOT must be non-zero");
  _ ← validateCommitteeSize;
  _ ← throw_if (SlotsPerEpoch b =? 0) (New "SLOTS_PER_EPOCH must be non-zero");
  _ ← throw_if (TargetCommitteeSize b =? 0) (New "TARGET_COMMITTEE_SIZE must be non-zero");
  committeesPerEpoch ← hi_zero (MaxCommitteesPerSlot b) (SlotsPerEpoch b)
    "MAX_COMMITTEES_PER_SLOT * SLOTS_PER_EPOCH overflows uint64";
  maxActiveValidators ← hi_zero committeesPerEpoch (MaxValidatorsPerCommittee b)
    "MAX_COMMITTEES_PER_SLOT * SLOTS_PER_EPOCH * MAX_VALIDATORS_PER_COMMITTEE overflows uint64";
  if 1 <? MaxCommitteesPerSlot b then
    let singleCommitteeCapacity := SlotsPerEpoch b *u MaxValidatorsPerCommittee b in
    q ← udiv (singleCommitteeCapacity +u 1) (SlotsPerEpoch b);
    q ← udiv q (TargetCommitteeSize b);
    if q <? 2 then Ok singleCommitteeCapacity else Ok maxActiveValidators
  else Ok maxActiveValidators.

Definition validateDepositTreeDepth : result unit :=
  let depth := DepositProofLength - 1 in
  throw_if (negb (DepositContractTreeDepth b =? depth))
    (New "DEPOSIT_CONTRACT_TREE_DEPTH must match the SSZ deposit proof length").

Definition validateBlockOperationLimits (withdrawalLimit : Z) : result unit :=
  _ ← throw_if (MaxWithdrawalsPerPayload b =? 0) (New "MAX_WITHDRAWALS_PER_PAYLOAD must be non-zero");
  foldM (fun _ '(name, cfg, ssz) =>
    throw_if (ssz <? cfg) (New (name +:+ " must not exceed the SSZ block operation limit"))) tt
    [("MAX_PROPOSER_SLASHINGS", MaxProposerSlashings b, fp_MaxProposerSlashings);
     ("MAX_ATTESTER_SLASHINGS", MaxAttesterSlashings b, fp_MaxAttesterSlashings);
     ("MAX_ATTESTATIONS", MaxAttestations b, fp_MaxAttestations);
     ("MAX_DEPOSITS", MaxDeposits b, fp_MaxDeposits);
     ("MAX_VOLUNTARY_EXITS", MaxVoluntaryExits b, fp_MaxVoluntaryExits);
     ("MAX_WITHDRAWALS_PER_PAYLOAD", MaxWithdrawalsPerPayload b, withdrawalLimit)].

(** The nested loop over the three participation flags: each index fits a byte
    and differs from the ones before it. *)
Fixpoint validateFlags (previous flags : list (string * Z)) : result unit :=
  match flags with
  | [] => Ok tt
  | (name, i) :: rest =>
      _ ← throw_if (7 <? i) (New (name +:+ " must be between 0 and 7"));
      _ ← foldM (fun _ '(name', i') =>
            throw_if (i =? i') (New (name' +:+ " and " +:+ name +:+ " must be distinct"))) tt previous;
      validateFlags (previous ++ [(name, i)]) rest
  end.

(** The table of values that must not be zero, in the order of the source. *)
Definition nonZero : list (string * Z) :=
  [("EFFECTIVE_BALANCE_INCREMENT", EffectiveBalanceIncrement b);
   ("MIN_SLASHING_PENALTY_QUOTIENT", MinSlashingPenaltyQuotient b);
   ("PROPORTIONAL_SLASHING_MULTIPLIER", ProportionalSlashingMultiplier b);
   ("WHISTLEBLOWER_REWARD_QUOTIENT", WhistleBlowerRewardQuotient b);
   ("PROPOSER_REWARD_QUOTIENT", ProposerRewardQuotient b);
   ("EPOCHS_PER_SLASHINGS_VECTOR", EpochsPerSlashingsVector b);
   ("HYSTERESIS_QUOTIENT", HysteresisQuotient b);
   ("INACTIVITY_PENALTY_QUOTIENT", InactivityPenaltyQuotient b);
   ("INACTIVITY_SCORE_BIAS", InactivityScoreBias b);
   ("CHURN_LIMIT_QUOTIENT", ChurnLimitQuotient b);
   ("MAX_PER_EPOCH_ACTIVATION_CHURN_LIMIT", MaxPerEpochActivationChurnLimit b);
   ("WEIGHT_DENOMINATOR", WeightDenominator b);
   ("PROPOSER_WEIGHT", ProposerWeight b);
   ("SECONDS_PER_SLOT", SecondsPerSlot b);
   ("INTERVALS_PER_SLOT", IntervalsPerSlot b);
   ("SECONDS_PER_EXECUTION_BLOCK", SecondsPerExecutionBlock b);
   ("SLOTS_PER_EPOCH", SlotsPerEpoch b);
   ("EPOCHS_PER_EXECUTION_VOTING_PERIOD", EpochsPerExecutionVotingPeriod b);
   ("TARGET_COMMITTEE_SIZE", TargetCommitteeSize b);
   ("TARGET_AGGREGATORS_PER_COMMITTEE", TargetAggregatorsPerCommittee b);
   ("MAX_VALIDATORS_PER_COMMITTEE", MaxValidatorsPerCommittee b);
   ("MAX_COMMITTEES_PER_SLOT", MaxCommitteesPerSlot b);
   ("EPOCHS_PER_HISTORICAL_VECTOR", EpochsPerHistoricalVector b);
   ("SLOTS_PER_HISTORICAL_ROOT", SlotsPerHistoricalRoot b);
   ("SYNC_COMMITTEE_SIZE", SyncCommitteeSize b);
   ("SYNC_COMMITTEE_SUBNET_COUNT", SyncCommitteeSubnetCount b);
   ("TARGET_AGGREGATORS_PER_SYNC_SUBCOMMITTEE", TargetAggregatorsPerSyncSubcommittee b);
   ("EPOCHS_PER_SYNC_COMMITTEE_PERIOD", EpochsPerSyncCommitteePeriod b);
   ("EPOCHS_PER_RANDOM_SUBNET_SUBSCRIPTION", EpochsPerRandomSubnetSubscription b)].

Definition validateNonZero : result unit :=
  foldM (fun _ '(name, value) => throw_if (value =? 0) (New (name +:+ " must be non-zero"))) tt nonZero.

(** The running sum of the reward weights with its carry check. *)
Definition weightSum : result Z :=
  foldM (fun sum w =>
    let '(s, carry) := Math.bits_Add64 sum w 0 in
    if negb (carry =? 0) then Err (New "reward weights overflow uint64") else Ok s) 0
    [TimelySourceWeight b; TimelyTargetWeight b; TimelyHeadWeight b; SyncRewardWeight b; ProposerWeight b].

Definition Validate : result unit :=
  _ ← throw_if (negb (zlen (GenesisForkVersion b) =? VersionLength))
        (New "GENESIS_FORK_VERSION must be exactly 4 bytes");
  _ ← validateDepositTreeDepth;
  _ ← throw_if (255 <? ShuffleRoundCount b) (New "SHUFFLE_ROUND_COUNT must not exceed 255");
  _ ← validateFlags [] [("TIMELY_SOURCE_FLAG_INDEX", TimelySourceFlagIndex b);
                        ("TIMELY_TARGET_FLAG_INDEX", TimelyTargetFlagIndex b);
                        ("TIMELY_HEAD_FLAG_INDEX", TimelyHeadFlagIndex b)];
  _ ← validateNonZero;
  _ ← throw_if (SlotsPerEpoch b <? MinAttestationInclusionDelay b)
        (New "MIN_ATTESTATION_INCLUSION_DELAY must not exceed SLOTS_PER_EPOCH");
  _ ← throw_if (MaxInt64 <? EpochsPerRandomSubnetSubscription b)
        (New "EPOCHS_PER_RANDOM_SUBNET_SUBSCRIPTION must not exceed the int limit");
  _ ← hi_zero (InactivityScoreBias b) (InactivityPenaltyQuotient b)
        "INACTIVITY_SCORE_BIAS * INACTIVITY_PENALTY_QUOTIENT overflows uint64";
  maxRem ← (if MaxEffectiveBalance b <? EffectiveBalanceIncrement b then Ok 1
            else umod (MaxEffectiveBalance b) (EffectiveBalanceIncrement b));
  _ ← throw_if (negb (maxRem =? 0))
        (New "MAX_EFFECTIVE_BALANCE must be a positive multiple of EFFECTIVE_BALANCE_INCREMENT");
  hysteresisIncrement ← udiv (EffectiveBalanceIncrement b) (HysteresisQuotient b);
  _ ← hi_zero hysteresisIncrement (HysteresisDownwardMultiplier b)
        "EFFECTIVE_BALANCE_INCREMENT / HYSTERESIS_QUOTIENT * HYSTERESIS_DOWNWARD_MULTIPLIER overflows uint64";
  _ ← hi_zero hysteresisIncrement (HysteresisUpwardMultiplier b)
        "EFFECTIVE_BALANCE_INCREMENT / HYSTERESIS_QUOTIENT * HYSTERESIS_UPWARD_MULTIPLIER overflows uint64";
  _ ← hi_zero (EffectiveBalanceIncrement b) (BaseRewardFactor b)
        "EFFECTIVE_BALANCE_INCREMENT * BASE_REWARD_FACTOR overflows uint64";
  _ ← throw_if (WeightDenominator b <=? ProposerWeight b)
        (New "PROPOSER_WEIGHT must be less than WEIGHT_DENOMINATOR");
  sum ← weightSum;
  _ ← throw_if (negb (sum =? WeightDenominator b)) (New "reward weights must equal WEIGHT_DENOMINATOR");
  _ ← hi_zero (WeightDenominator b -u ProposerWeight b) (WeightDenominator b)
        "(WEIGHT_DENOMINATOR - PROPOSER_WEIGHT) * WEIGHT_DENOMINATOR overflows uint64";
  subnetRem ← umod (SyncCommitteeSize b) (SyncCommitteeSubnetCount b);
  _ ← throw_if (negb (subnetRem =? 0))
        (New "SYNC_COMMITTEE_SIZE must be a multiple of SYNC_COMMITTEE_SUBNET_COUNT");
  maxActive ← MaxActiveValidators;
  _ ← throw_if (maxActive <? MinGenesisActiveValidatorCount b)
        (New "MIN_GENESIS_ACTIVE_VALIDATOR_COUNT must not exceed the active validator capacity");
  incrementsPerValidator ← udiv (MaxEffectiveBalance b) (EffectiveBalanceIncrement b);
  maxActiveIncrements ← hi_zero maxActive incrementsPerValidator
        "active validator capacity * (MAX_EFFECTIVE_BALANCE / EFFECTIVE_BALANCE_INCREMENT) overflows uint64";
  _ ← hi_zero maxActiveIncrements (WeightDenominator b)
        "maximum active balance increments * WEIGHT_DENOMINATOR overflows uint64";
  validateBlockOperationLimits
    (if bool_decide (PresetBase b = "minimal"%string) then MinimalMaxWithdrawalsPerPayload
     else MainnetMaxWithdrawalsPerPayload).

Definition ValidateStateLayout : result unit :=
  _ ← validateCommitteeSize;
  _ ← validateDepositTreeDepth;
  _ ← validateBlockOperationLimits (fp_MaxWithdrawalsPerPayload fp);
  executionVotesLength ← hi_zero (EpochsPerExecutionVotingPeriod b) (SlotsPerEpoch b)
    "EPOCHS_PER_EXECUTION_VOTING_PERIOD * SLOTS_PER_EPOCH overflows uint64";
  let syncCommitteeSubnetCount :=
    fp_SyncAggregateSyncCommitteeBytesLength fp / fp_SyncCommitteeAggregationBytesLength fp in
  _ ← foldM (fun _ '(name, cfg, ssz) =>
        throw_if (negb (cfg =? ssz)) (New (name +:+ " does not match this binary's SSZ state layout"))) tt
    [("EPOCHS_PER_SLASHINGS_VECTOR", EpochsPerSlashingsVector b, fp_SlashingsLength fp);
     ("EPOCHS_PER_HISTORICAL_VECTOR", EpochsPerHistoricalVector b, fp_RandaoMixesLength fp);
     ("SLOTS_PER_HISTORICAL_ROOT", SlotsPerHistoricalRoot b, fp_BlockRootsLength fp);
     ("SLOTS_PER_HISTORICAL_ROOT", SlotsPerHistoricalRoot b, fp_StateRootsLength fp);
     ("HISTORICAL_ROOTS_LIMIT", HistoricalRootsLimit b, fp_HistoricalRootsLength fp);
     ("VALIDATOR_REGISTRY_LIMIT", ValidatorRegistryLimit b, fp_ValidatorRegistryLimit fp);
     ("SYNC_COMMITTEE_SIZE", SyncCommitteeSize b, fp_SyncCommitteeLength fp);
     ("SYNC_COMMITTEE_SUBNET_COUNT", SyncCommitteeSubnetCount b, syncCommitteeSubnetCount);
     ("EPOCHS_PER_EXECUTION_VOTING_PERIOD * SLOTS_PER_EPOCH", executionVotesLength,
        fp_ExecutionDataVotesLength fp)];
  throw_if (fp_SlotsPerEpoch fp <? SlotsPerEpoch b)
    (New "SLOTS_PER_EPOCH must not exceed this binary's fork-choice history capacity").

End Validate.

(** Every integer field of a configuration is a machine word. *)
Definition config_words (b : BeaconChainConfig) : list Z :=
  [GenesisSlot b;
   GenesisEpoch b;
   FarFutureEpoch b;
   FarFutureSlot b;
   BaseRewardsPerEpoch b;
   DepositContractTreeDepth b;
   JustificationBitsLength b;
   TargetCommitteeSize b;
   MaxValidatorsPerCommittee b;
   MaxCommitteesPerSlot b;
   MinPerEpochChurnLimit b;
   ChurnLimitQuotient b;
   ShuffleRoundCount b;
   MinGenesisActiveValidatorCount b;
   MinGenesisTime b;
   TargetAggregatorsPerCommittee b;
   HysteresisQuotient b;
   HysteresisDownwardMultiplier b;
   HysteresisUpwardMultiplier b;
   MinDepositAmount b;
   MaxEffectiveBalance b;
   EjectionBalance b;
   EffectiveBalanceIncrement b;
   GenesisDelay b;
   MinAttestationInclusionDelay b;
   SecondsPerSlot b;
   SlotsPerEpoch b;
   SqrRootSlotsPerEpoch b;
   MinSeedLookahead b;
   MaxSeedLookahead b;
   EpochsPerExecutionVotingPeriod b;
   SlotsPerHistoricalRoot b;
   MinValidatorWithdrawabilityDelay b;
   ShardCommitteePeriod b;
   MinEpochsToInactivityPenalty b;
   ExecutionFollowDistance b;
   DeprecatedSafeSlotsToUpdateJustified b;
   SecondsPerExecutionBlock b;
   ProposerScoreBoost b;
   ReorgHeadWeightThreshold b;
   ReorgParentWeightThreshold b;
   ReorgMaxEpochsSinceFinalization b;
   IntervalsPerSlot b;
   DepositChainID b;
   DepositNetworkID b;
   RandomSubnetsPerValidator b;
   EpochsPerRandomSubnetSubscription b;
   EpochsPerHistoricalVector b;
   EpochsPerSlashingsVector b;
   HistoricalRootsLimit b;
   ValidatorRegistryLimit b;
   BaseRewardFactor b;
   WhistleBlowerRewardQuotient b;
   ProposerRewardQuotient b;
   MaxProposerSlashings b;
   MaxAttesterSlashings b;
   MaxAttestations b;
   MaxDeposits b;
   MaxVoluntaryExits b;
   MaxWithdrawalsPerPayload b;
   MaxValidatorsPerWithdrawalsSweep b;
   ShorPerQuanta b;
   DefaultBufferSize b;
   RPCSyncCheck b;
   DefaultPageSize b;
   MaxPeersToSync b;
   SlotsPerArchivedPoint b;
   GenesisCountdownInterval b;
   BeaconStateZondFieldCount b;
   WeakSubjectivityPeriod b;
   PruneSlasherStoragePeriod b;
   SlashingProtectionPruningEpochs b;
   SafetyDecay b;
   TimelySourceFlagIndex b;
   TimelyTargetFlagIndex b;
   TimelyHeadFlagIndex b;
   TimelySourceWeight b;
   TimelyTargetWeight b;
   TimelyHeadWeight b;
   SyncRewardWeight b;
   WeightDenominator b;
   ProposerWeight b;
   TargetAggregatorsPerSyncSubcommittee b;
   SyncCommitteeSubnetCount b;
   SyncCommitteeSize b;
   InactivityScoreBias b;
   InactivityScoreRecoveryRate b;
   EpochsPerSyncCommitteePeriod b;
   MinSlashingPenaltyQuotient b;
   ProportionalSlashingMultiplier b;
   InactivityPenaltyQuotient b;
   MinSyncCommitteeParticipants b;
   MaxBuilderConsecutiveMissedSlots b;
   MaxBuilderEpochMissedSlots b;
   LocalBlockValueBoost b;
   ExecutionEngineTimeoutValue b;
   MaxPerEpochActivationChurnLimit b].

Definition config_typed (b : BeaconChainConfig) : Prop := Forall u64_ok (config_words b).

#[global] Instance config_typed_dec b : Decision (config_typed b).
Proof. unfold config_typed. apply _. Defined.

(** [cfg_word H] proves [u64_ok (Field b)] from [H : config_typed b]. *)
Ltac cfg_word H :=
  refine (proj1 (Forall_forall _ _) H _ _); cbn;
  repeat first [apply list_elem_of_here | apply list_elem_of_further].

(** ** What validation promises to the consensus code *)

(** The interface between configuration loading and state transition, which divides
    by, reduces modulo and multiplies these values without checking them: what
    validation guarantees, over unbounded integers.  It says nothing of the sizes of
    the products with single balances and scores, nor of the minimal churn limit;
    theorems that need those have them as hypotheses. *)
Record valid_config (fp : FieldParams) (b : BeaconChainConfig) : Prop := {
  vc_fork_version : zlen (GenesisForkVersion b) = 4;
  vc_depth : DepositContractTreeDepth b = 32;
  vc_nonzero : Forall (fun '(_, v) => 0 < v) (nonZero b);
  vc_rounds : ShuffleRoundCount b <= 255;
  vc_flags : TimelySourceFlagIndex b <= 7 /\ TimelyTargetFlagIndex b <= 7 /\ TimelyHeadFlagIndex b <= 7 /\
             NoDup [TimelySourceFlagIndex b; TimelyTargetFlagIndex b; TimelyHeadFlagIndex b];
  vc_delay : MinAttestationInclusionDelay b <= SlotsPerEpoch b;
  vc_subscription : EpochsPerRandomSubnetSubscription b <= MaxInt64;
  vc_inactivity : InactivityScoreBias b * InactivityPenaltyQuotient b < two64;
  vc_max_balance : EffectiveBalanceIncrement b <= MaxEffectiveBalance b /\
                   (EffectiveBalanceIncrement b | MaxEffectiveBalance b);
  vc_hysteresis_down :
    EffectiveBalanceIncrement b / HysteresisQuotient b * HysteresisDownwardMultiplier b < two64;
  vc_hysteresis_up :
    EffectiveBalanceIncrement b / HysteresisQuotient b * HysteresisUpwardMultiplier b < two64;
  vc_base_reward : EffectiveBalanceIncrement b * BaseRewardFactor b < two64;
  vc_weights : TimelySourceWeight b + TimelyTargetWeight b + TimelyHeadWeight b
               + SyncRewardWeight b + ProposerWeight b = WeightDenominator b;
  vc_proposer_weight : ProposerWeight b < WeightDenominator b;
  vc_proposer_product : (WeightDenominator b - ProposerWeight b) * WeightDenominator b < two64;
  vc_sync : (SyncCommitteeSubnetCount b | SyncCommitteeSize b);
  vc_capacity : exists cap, MaxActiveValidators fp b = Ok cap /\
    MinGenesisActiveValidatorCount b <= cap /\
    cap * (MaxEffectiveBalance b / EffectiveBalanceIncrement b) < two64 /\
    cap * (MaxEffectiveBalance b / EffectiveBalanceIncrement b) * WeightDenominator b < two64;
  vc_withdrawals : 0 < MaxWithdrawalsPerPayload b <= (if bool_decide (PresetBase b = "minimal"%string) then 4 else 16);
  vc_operations : MaxProposerSlashings b <= 16 /\ MaxAttesterSlashings b <= 2 /\ MaxAttestations b <= 4 /\
                  MaxDeposits b <= 16 /\ MaxVoluntaryExits b <= 16
}.

(** A configuration fits the binary when the sizes that the generated code has fixed are
    those of the configuration. *)
Record layout_matches (fp : FieldParams) (b : BeaconChainConfig) : Prop := {
  lm_committee : 0 < MaxValidatorsPerCommittee b <= fp_MaxValidatorsPerCommittee fp;
  lm_depth : DepositContractTreeDepth b = 32;
  lm_withdrawals : 0 < MaxWithdrawalsPerPayload b <= fp_MaxWithdrawalsPerPayload fp;
  lm_operations : MaxProposerSlashings b <= 16 /\ MaxAttesterSlashings b <= 2 /\ MaxAttestations b <= 4 /\
                  MaxDeposits b <= 16 /\ MaxVoluntaryExits b <= 16;
  lm_votes : EpochsPerExecutionVotingPeriod b * SlotsPerEpoch b = fp_ExecutionDataVotesLength fp;
  lm_slashings : EpochsPerSlashingsVector b = fp_SlashingsLength fp;
  lm_mixes : EpochsPerHistoricalVector b = fp_RandaoMixesLength fp;
  lm_block_roots : SlotsPerHistoricalRoot b = fp_BlockRootsLength fp;
  lm_state_roots : SlotsPerHistoricalRoot b = fp_StateRootsLength fp;
  lm_historical : HistoricalRootsLimit b = fp_HistoricalRootsLength fp;
  lm_registry : ValidatorRegistryLimit b = fp_ValidatorRegistryLimit fp;
  lm_sync : SyncCommitteeSize b = fp_SyncCommitteeLength fp;
  lm_subnets : SyncCommitteeSubnetCount b =
    fp_SyncAggregateSyncCommitteeBytesLength fp / fp_SyncCommitteeAggregationBytesLength fp;
  lm_epoch : SlotsPerEpoch b <= fp_SlotsPerEpoch fp
}.

Lemma throw_if_inv c e u : throw_if c e = Ok u -> c = false.
Proof. now destruct c. Qed.

Lemma hi_zero_inv x y m lo : u64_ok x -> u64_ok y ->
  hi_zero x y m = Ok lo -> x * y < two64 /\ lo = x * y.
Proof.
  unfold u64_ok, hi_zero, Math.bits_Mul64. intros Hx Hy H.
  destruct (Z.eqb_spec (x * y / two64) 0) as [E |]; [| discriminate]. cbn in H.
  injection H as <-. apply Z.div_small_iff in E; [| discriminate].
  assert (0 <= x * y < two64) by (destruct E; [assumption | nia]).
  split; [lia |]. now apply u64_small.
Qed.

(** The checks as equivalences, so that a chain of them is one conjunction. *)
Lemma throw_if_ok c e : throw_if c e = Ok tt <-> c = false.
Proof. now destruct c. Qed.

Lemma bind_ok {A B} (m : result A) (k : A -> result B) v : (x ← m; k x) = Ok v <-> exists x, m = Ok x /\ k x = Ok v.
Proof.
  split; [intros E; result_inv; eauto | intros (x & -> & E); exact E].
Qed.

Lemma bind_ret {A} (m : result A) : (x ← m; Ok x) = m.
Proof. now destruct m. Qed.

Lemma bind_check m (k : result unit) : (_ ← m; k) = Ok tt <-> m = Ok tt /\ k = Ok tt.
Proof. rewrite bind_ok. split; [intros ([] & ? & ?); auto | intros [? ?]; eauto]. Qed.

Lemma hi_zero_ok x y m lo : u64_ok x -> u64_ok y -> hi_zero x y m = Ok lo <-> x * y < two64 /\ lo = x * y.
Proof.
  intros Hx Hy. split; [now apply hi_zero_inv |]. intros [Hlt ->]. unfold u64_ok in *. unfold hi_zero, Math.bits_Mul64.
  rewrite Z.div_small by nia. cbn. now rewrite u64_small by (unfold u64_ok; nia).
Qed.

Lemma bind_product x y m (k : Z -> result unit) : u64_ok x -> u64_ok y ->
  (lo ← hi_zero x y m; k lo) = Ok tt <-> x * y < two64 /\ k (x * y) = Ok tt.
Proof.
  intros Hx Hy. rewrite bind_ok. split.
  - intros (lo & E & Hk). apply hi_zero_inv in E as [? ->]; auto.
  - intros [Hlt Hk]. exists (x * y). rewrite hi_zero_ok by assumption. auto.
Qed.

Lemma foldM_check {A} (c : A -> bool) (e : A -> error) l :
  foldM (fun _ x => throw_if (c x) (e x)) tt l = Ok tt <-> Forall (fun x => c x = false) l.
Proof.
  induction l as [| x l IH]; [easy |]. cbn [foldM]. rewrite bind_ok, Forall_cons, <- IH.
  split; [intros ([] & E & ?); now apply throw_if_ok in E | intros [? ?]; exists tt; now rewrite throw_if_ok].
Qed.

Lemma carry_check x y (e : error) : u64_ok x -> u64_ok y ->
  (let '(s, carry) := Math.bits_Add64 x y 0 in if negb (carry =? 0) then Err e else Ok s) =
  if x + y <? two64 then Ok (x + y) else Err e.
Proof.
  unfold u64_ok. intros Hx Hy. unfold Math.bits_Add64. rewrite Z.add_0_r.
  destruct (Z.ltb_spec (x + y) two64) as [Hlt | Hge].
  - rewrite Z.div_small by lia. cbn. now rewrite u64_small by (unfold u64_ok; lia).
  - destruct (Z.eqb_spec ((x + y) / two64) 0) as [E |]; [| reflexivity].
    apply Z.div_small_iff in E; [lia | discriminate].
Qed.

Lemma weightSum_ok b : config_typed b -> forall s, weightSum b = Ok s /\ u64_ok s <->
  s = TimelySourceWeight b + TimelyTargetWeight b + TimelyHeadWeight b + SyncRewardWeight b + ProposerWeight b /\ s < two64.
Proof.
  intros Ht s. unfold weightSum.
  assert (Hw : Forall u64_ok [TimelySourceWeight b; TimelyTargetWeight b; TimelyHeadWeight b;
                               SyncRewardWeight b; ProposerWeight b]).
  { repeat (apply Forall_cons; split; [cfg_word Ht |]). constructor. }
  enough (forall l acc, u64_ok acc -> Forall u64_ok l ->
    foldM (fun sum w => let '(s, carry) := Math.bits_Add64 sum w 0 in
      if negb (carry =? 0) then Err (New "reward weights overflow uint64") else Ok s) acc l = Ok s /\ u64_ok s <->
    s = acc + zsum l /\ s < two64) as Hgen.
  { rewrite Hgen; [| split; reflexivity || discriminate | exact Hw]. cbn. split; intros [? ?]; split; lia. }
  clear Hw. induction l as [| w l IH]; intros acc Ha Hl; cbn [foldM zsum fold_right].
  - unfold u64_ok in *. split; [intros [[= <-] ?]; lia | intros [-> ?]; split; [f_equal; lia | lia]].
  - apply Forall_cons in Hl as [Hw Hl].
    assert (0 <= zsum l) by (clear -Hl; unfold zsum; induction Hl as [| x l Hx _ IH]; cbn [fold_right]; unfold u64_ok in *; lia).
    unfold u64_ok in Ha, Hw. fold (zsum l). rewrite carry_check by (unfold u64_ok; lia).
    destruct (Z.ltb_spec (acc + w) two64) as [Hlt | Hge]; cbn [mbind result_bind].
    + rewrite IH by (assumption || unfold u64_ok; lia). split; intros [? ?]; split; lia.
    + split; [intros [? _]; discriminate | lia].
Qed.

Lemma MaxActiveValidators_u64 fp b cap : config_typed b -> MaxActiveValidators fp b = Ok cap -> u64_ok cap.
Proof.
  intros Ht H. unfold MaxActiveValidators in H. result_inv;
    try apply u64_range;
    match goal with
    | E : hi_zero (MaxCommitteesPerSlot b) _ _ = Ok ?x, F : hi_zero ?x _ _ = Ok cap |- _ =>
        unfold hi_zero, Math.bits_Mul64 in F; destruct (negb _) in F; [discriminate |];
        injection F as <-; apply u64_range
    end.
Qed.

Lemma validateFlags_ok b :
  validateFlags [] [("TIMELY_SOURCE_FLAG_INDEX"%string, TimelySourceFlagIndex b);
                    ("TIMELY_TARGET_FLAG_INDEX"%string, TimelyTargetFlagIndex b);
                    ("TIMELY_HEAD_FLAG_INDEX"%string, TimelyHeadFlagIndex b)] = Ok tt <->
  TimelySourceFlagIndex b <= 7 /\ TimelyTargetFlagIndex b <= 7 /\ TimelyHeadFlagIndex b <= 7 /\
  NoDup [TimelySourceFlagIndex b; TimelyTargetFlagIndex b; TimelyHeadFlagIndex b].
Proof.
  cbn [validateFlags foldM app]. rewrite !bind_check, !bind_ret, !throw_if_ok, !NoDup_cons, !not_elem_of_cons, !Z.ltb_ge, !Z.eqb_neq.
  pose proof (not_elem_of_nil (A := Z)). pose proof (NoDup_nil_2 (A := Z)). split; intros; destruct_and?; split_and!; first [assumption | reflexivity | lia | auto].
Qed.

Lemma validateNonZero_ok b : config_typed b ->
  validateNonZero b = Ok tt <-> Forall (fun '(_, v) => 0 < v) (nonZero b).
Proof.
  intros Ht.
  assert (Hw : Forall (fun '(_, v) => u64_ok v) (nonZero b))
    by (repeat (apply Forall_cons; split; [cfg_word Ht |]); constructor).
  unfold validateNonZero. rewrite (foldM_ext _ (fun _ x => throw_if (x.2 =? 0) (New (x.1 +:+ " must be non-zero")))) by now intros ? [].
  rewrite foldM_check, !Forall_forall in *. split; intros Hall [n v] Hin; specialize (Hall _ Hin); specialize (Hw _ Hin);
    cbn in *; unfold u64_ok in Hw; bool_to_prop; lia.
Qed.

Lemma validateBlockOperationLimits_ok b limit : config_typed b ->
  validateBlockOperationLimits b limit = Ok tt <-> 0 < MaxWithdrawalsPerPayload b <= limit /\
    MaxProposerSlashings b <= 16 /\ MaxAttesterSlashings b <= 2 /\ MaxAttestations b <= 4 /\
    MaxDeposits b <= 16 /\ MaxVoluntaryExits b <= 16.
Proof.
  intros Ht. assert (u64_ok (MaxWithdrawalsPerPayload b)) as [Hw _] by cfg_word Ht.
  unfold validateBlockOperationLimits. cbn [foldM]. rewrite !bind_check, !bind_ret, !throw_if_ok, !Z.ltb_ge, Z.eqb_neq.
  unfold fp_MaxProposerSlashings, fp_MaxAttesterSlashings, fp_MaxAttestations, fp_MaxDeposits, fp_MaxVoluntaryExits.
  intuition lia.
Qed.

Lemma nonZero_elem b n v : Forall (fun '(_, v) => 0 < v) (nonZero b) -> (n, v) ∈ nonZero b -> 0 < v.
Proof. rewrite Forall_forall. intros H Hin. exact (H _ Hin). Qed.

(** [cfg_pos H] proves [0 < Field b] from [H : Forall (...) (nonZero b)]. *)
Ltac cfg_pos H :=
  refine (nonZero_elem _ _ _ H _); unfold nonZero;
  repeat first [apply list_elem_of_here | apply list_elem_of_further].

(** The maximum must be a positive multiple of the increment. *)
Lemma max_multiple inc m (e : error) (k : result unit) : 0 < inc ->
  (rem ← (if m <? inc then Ok 1 else umod m inc); _ ← throw_if (negb (rem =? 0)) e; k) = Ok tt <->
  (inc <= m /\ (inc | m)) /\ k = Ok tt.
Proof.
  intros Hinc. destruct (Z.ltb_spec m inc); [split; [discriminate | lia] |].
  rewrite umod_ok by lia. cbn [mbind result_bind].
  rewrite bind_check, throw_if_ok, negb_false_iff, Z.eqb_eq, Z.mod_divide by lia. intuition lia.
Qed.

Lemma weights_check b (e : error) (k : result unit) : config_typed b ->
  (sum ← weightSum b; _ ← throw_if (negb (sum =? WeightDenominator b)) e; k) = Ok tt <->
  TimelySourceWeight b + TimelyTargetWeight b + TimelyHeadWeight b + SyncRewardWeight b + ProposerWeight b = WeightDenominator b /\
  k = Ok tt.
Proof.
  intros Ht. assert (u64_ok (WeightDenominator b)) as Hwd by cfg_word Ht. rewrite bind_ok.
  setoid_rewrite bind_check. setoid_rewrite throw_if_ok. setoid_rewrite negb_false_iff. setoid_rewrite Z.eqb_eq.
  split.
  - intros (? & E & -> & Hk). split; [| exact Hk]. symmetry. now apply (weightSum_ok b Ht).
  - intros [E Hk]. exists (WeightDenominator b). split_and!; [| reflexivity | exact Hk].
    apply (weightSum_ok b Ht). split; [now symmetry | apply Hwd].
Qed.

Lemma capacity_check fp b (e : error) (m1 m2 : string) (k : result unit) : config_typed b -> 0 < EffectiveBalanceIncrement b ->
  (maxActive ← MaxActiveValidators fp b;
   _ ← throw_if (maxActive <? MinGenesisActiveValidatorCount b) e;
   incrementsPerValidator ← udiv (MaxEffectiveBalance b) (EffectiveBalanceIncrement b);
   maxActiveIncrements ← hi_zero maxActive incrementsPerValidator m1;
   _ ← hi_zero maxActiveIncrements (WeightDenominator b) m2; k) = Ok tt <->
  (exists cap, MaxActiveValidators fp b = Ok cap /\ MinGenesisActiveValidatorCount b <= cap /\
    cap * (MaxEffectiveBalance b / EffectiveBalanceIncrement b) < two64 /\
    cap * (MaxEffectiveBalance b / EffectiveBalanceIncrement b) * WeightDenominator b < two64) /\ k = Ok tt.
Proof.
  intros Ht Hinc. assert (u64_ok (WeightDenominator b)) as Hwd by cfg_word Ht.
  assert (u64_ok (MaxEffectiveBalance b / EffectiveBalanceIncrement b)) as Hq
    by (apply u64_div_ok; [cfg_word Ht | assumption]).
  rewrite udiv_ok by lia. cbn [mbind result_bind]. rewrite bind_ok.
  assert (forall cap, MaxActiveValidators fp b = Ok cap -> (_ ← throw_if (cap <? MinGenesisActiveValidatorCount b) e;
     maxActiveIncrements ← hi_zero cap (MaxEffectiveBalance b / EffectiveBalanceIncrement b) m1;
     _ ← hi_zero maxActiveIncrements (WeightDenominator b) m2; k) = Ok tt <->
     (MinGenesisActiveValidatorCount b <= cap /\ cap * (MaxEffectiveBalance b / EffectiveBalanceIncrement b) < two64 /\
     cap * (MaxEffectiveBalance b / EffectiveBalanceIncrement b) * WeightDenominator b < two64) /\ k = Ok tt) as Hcap.
  { intros cap E. pose proof (MaxActiveValidators_u64 _ _ _ Ht E) as Hc.
    rewrite bind_check, throw_if_ok, Z.ltb_ge, bind_product by assumption.
    assert (cap * (MaxEffectiveBalance b / EffectiveBalanceIncrement b) < two64 ->
      u64_ok (cap * (MaxEffectiveBalance b / EffectiveBalanceIncrement b))) as Hp by (unfold u64_ok in *; nia). split.
    - intros (? & ? & Hrest). apply bind_product in Hrest as [? ?]; auto.
    - intros ((? & ? & ?) & Hk). rewrite bind_product by auto. auto. }
  split.
  - intros (cap & E & Hrest). apply (Hcap cap E) in Hrest. destruct Hrest as [(? & ? & ?) ?]. eauto 10.
  - intros [(cap & E & ? & ? & ?) ?]. exists cap. split; [exact E |]. apply (Hcap cap E). auto.
Qed.

(** One check of a chain, given what the checks before it established. *)
Lemma and_dep (A A' B B' : Prop) : (A <-> A') -> (A' -> B <-> B') -> A /\ B <-> A' /\ B'.
Proof. tauto. Qed.

(** The conjunction of all checks, in the order of the code. *)
Definition valid_checks (fp : FieldParams) (b : BeaconChainConfig) : Prop :=
  zlen (GenesisForkVersion b) = 4 /\ DepositContractTreeDepth b = 32 /\ ShuffleRoundCount b <= 255 /\
  (TimelySourceFlagIndex b <= 7 /\ TimelyTargetFlagIndex b <= 7 /\ TimelyHeadFlagIndex b <= 7 /\
   NoDup [TimelySourceFlagIndex b; TimelyTargetFlagIndex b; TimelyHeadFlagIndex b]) /\
  Forall (fun '(_, v) => 0 < v) (nonZero b) /\ MinAttestationInclusionDelay b <= SlotsPerEpoch b /\
  EpochsPerRandomSubnetSubscription b <= MaxInt64 /\ InactivityScoreBias b * InactivityPenaltyQuotient b < two64 /\
  (EffectiveBalanceIncrement b <= MaxEffectiveBalance b /\ (EffectiveBalanceIncrement b | MaxEffectiveBalance b)) /\
  EffectiveBalanceIncrement b / HysteresisQuotient b * HysteresisDownwardMultiplier b < two64 /\
  EffectiveBalanceIncrement b / HysteresisQuotient b * HysteresisUpwardMultiplier b < two64 /\
  EffectiveBalanceIncrement b * BaseRewardFactor b < two64 /\ ProposerWeight b < WeightDenominator b /\
  TimelySourceWeight b + TimelyTargetWeight b + TimelyHeadWeight b + SyncRewardWeight b + ProposerWeight b = WeightDenominator b /\
  (WeightDenominator b - ProposerWeight b) * WeightDenominator b < two64 /\ (SyncCommitteeSubnetCount b | SyncCommitteeSize b) /\
  (exists cap, MaxActiveValidators fp b = Ok cap /\ MinGenesisActiveValidatorCount b <= cap /\
    cap * (MaxEffectiveBalance b / EffectiveBalanceIncrement b) < two64 /\
    cap * (MaxEffectiveBalance b / EffectiveBalanceIncrement b) * WeightDenominator b < two64) /\
  0 < MaxWithdrawalsPerPayload b <= (if bool_decide (PresetBase b = "minimal"%string) then 4 else 16) /\
  MaxProposerSlashings b <= 16 /\ MaxAttesterSlashings b <= 2 /\ MaxAttestations b <= 4 /\
  MaxDeposits b <= 16 /\ MaxVoluntaryExits b <= 16.

Lemma Validate_checks fp b : config_typed b -> Validate fp b = Ok tt <-> valid_checks fp b.
Proof.
  intros Ht. unfold Validate, valid_checks, validateDepositTreeDepth. assert (u64_ok (WeightDenominator b)) as Hwd by cfg_word Ht.
  rewrite !bind_check, !throw_if_ok. rewrite negb_false_iff, Z.eqb_eq. apply and_dep; [reflexivity | intros _].
  rewrite negb_false_iff, Z.eqb_eq. apply and_dep; [reflexivity | intros _].
  rewrite Z.ltb_ge. apply and_dep; [reflexivity | intros _].
  apply and_dep; [apply validateFlags_ok | intros _].
  apply and_dep; [now apply validateNonZero_ok | intros Hnz].
  assert (0 < EffectiveBalanceIncrement b) as Hinc by cfg_pos Hnz.
  assert (0 < HysteresisQuotient b) as Hhq by cfg_pos Hnz.
  assert (0 < SyncCommitteeSubnetCount b) as Hsub by cfg_pos Hnz.
  assert (u64_ok (EffectiveBalanceIncrement b / HysteresisQuotient b)) as Hhi by (apply u64_div_ok; [cfg_word Ht | assumption]).
  rewrite Z.ltb_ge. apply and_dep; [reflexivity | intros _].
  rewrite Z.ltb_ge. apply and_dep; [reflexivity | intros _].
  rewrite bind_product by cfg_word Ht. apply and_dep; [reflexivity | intros _].
  rewrite max_multiple by assumption. apply and_dep; [reflexivity | intros _].
  rewrite (udiv_ok _ (HysteresisQuotient b)) by lia. cbn [mbind result_bind].
  rewrite !bind_product by (assumption || cfg_word Ht). do 3 (apply and_dep; [reflexivity | intros _]).
  rewrite bind_check, throw_if_ok, Z.leb_gt. apply and_dep; [reflexivity | intros Hpw].
  assert (u64_ok (ProposerWeight b)) as [Hp0 _] by cfg_word Ht.
  rewrite weights_check by assumption. apply and_dep; [reflexivity | intros _].
  rewrite (u64_sub_small (WeightDenominator b)) by (assumption || lia).
  rewrite bind_product by (assumption || unfold u64_ok in *; lia). apply and_dep; [reflexivity | intros _].
  rewrite umod_ok by lia. cbn [mbind result_bind].
  rewrite bind_check, throw_if_ok, negb_false_iff, Z.eqb_eq, Z.mod_divide by lia. apply and_dep; [reflexivity | intros _].
  rewrite capacity_check by assumption. apply and_dep; [reflexivity | intros _].
  rewrite validateBlockOperationLimits_ok by assumption. reflexivity.
Qed.


Lemma mainnet_typed : config_typed mainnetBeaconConfig.
Proof. apply (bool_decide_unpack _). vm_compute. exact I. Qed.



