(* ===== verification/Slots.v ===== *)
(** * Slots, epochs and the local clock

    Models [time/slots/slottime.go] and [beacon-chain/core/time/slot_epoch.go].
    The configuration that [params.BeaconConfig()] returns is the section
    variable [cfg]; the wall clock [qrysmTime.Now().Unix()] is an argument
    [now].  Functions over [time.Time] values with sub-second parts are not
    modelled. *)

From S2P Require Import Prelude Math Config.

Section Slots.
Context (cfg : BeaconChainConfig).

Definition MaxSlotBuffer : Z := 128.

Definition AbsoluteValueSlotDifference (x y : Z) : result Z :=
  if y <? x then Slot.SubSlot x y else Slot.SubSlot y x.

Definition ToEpoch (slot : Z) : result Z := Slot.DivSlot slot (SlotsPerEpoch cfg).

Definition EpochStart (epoch : Z) : result Z :=
  wrap "start slot calculation overflows" (Slot.SafeMul (SlotsPerEpoch cfg) epoch).

Definition EpochEnd (epoch : Z) : result Z :=
  if epoch =? MaxUint64 then Err (New "start slot calculation overflows")
  else slot ← EpochStart (epoch +u 1); Ok (slot -u 1).

Definition IsEpochStart (slot : Z) : result bool :=
  r ← umod slot (SlotsPerEpoch cfg); Ok (r =? 0).

Definition IsEpochEnd (slot : Z) : result bool := IsEpochStart (slot +u 1).

Definition SinceEpochStarts (slot : Z) : result Z := umod slot (SlotsPerEpoch cfg).

(** [ToTime], as the seconds of [time.Unix(int64(sTime), 0)]. *)
Definition ToTime (genesisTimeSec slot : Z) : result Z :=
  timeSinceGenesis ← wrap "slot is in the far distant future" (Slot.SafeMul slot (SecondsPerSlot cfg));
  sTime ← wrap "slot is in the far distant future" (Slot.SafeAdd timeSinceGenesis genesisTimeSec);
  Ok (i64 sTime).

Definition CurrentSlot (now genesisTimeSec : Z) : result Z :=
  if now <? genesisTimeSec then Ok 0
  else udiv (now -u genesisTimeSec) (SecondsPerSlot cfg).

(** The slots and epochs since a genesis time of whole seconds.  The clock is
    read at whole seconds; the code goes through a duration, which saturates, and the whole
    part of its seconds as a float. *)
Definition SinceGenesis (now genesis : Z) : result Z :=
  if now <? genesis then Ok 0 else udiv (now -u genesis) (SecondsPerSlot cfg).

Definition EpochsSinceGenesis (now genesis : Z) : result Z :=
  sl ← SinceGenesis now genesis; udiv sl (SlotsPerEpoch cfg).

Definition ValidateClock (now slot genesisTimeSec : Z) : result unit :=
  cur ← CurrentSlot now genesisTimeSec;
  maxPossibleSlot ← Slot.Add cur MaxSlotBuffer;
  throw_if (maxPossibleSlot <? slot)
    (New "slot exceeds max allowed value relative to the local clock").

Definition RoundUpToNearestEpoch (slot : Z) : result Z :=
  r ← umod slot (SlotsPerEpoch cfg);
  if negb (r =? 0) then Ok ((slot -u r) +u SlotsPerEpoch cfg) else Ok slot.

Definition VotingPeriodStartTime (genesis slot : Z) : result Z :=
  slots ← Slot.Mul (SlotsPerEpoch cfg) (EpochsPerExecutionVotingPeriod cfg);
  m ← Slot.ModSlot slot slots;
  startTime ← Slot.Mul (slot -u m) (SecondsPerSlot cfg);
  Ok (genesis +u startTime).

Definition PrevSlot (slot : Z) : result Z :=
  if 0 <? slot then Slot.Sub slot 1 else Ok 0.

Definition SyncCommitteePeriod (e : Z) : result Z := udiv e (EpochsPerSyncCommitteePeriod cfg).

Definition SyncCommitteePeriodStartEpoch (e : Z) : result Z :=
  p ← SyncCommitteePeriod e; Math.Mul64 p (EpochsPerSyncCommitteePeriod cfg).

Definition SecondsSinceSlotStart (s genesisTime timeStamp : Z) : result Z :=
  if timeStamp <? (genesisTime +u (s *u SecondsPerSlot cfg))
  then Err (New "could not compute seconds since slot start: invalid timestamp")
  else Ok ((timeStamp -u genesisTime) -u (s *u SecondsPerSlot cfg)).

(** [beacon-chain/core/time]: the same on the slot of a state. *)
Definition CurrentEpoch (stateSlot : Z) : result Z := ToEpoch stateSlot.

Definition PrevEpoch (stateSlot : Z) : result Z :=
  currentEpoch ← CurrentEpoch stateSlot;
  if currentEpoch =? 0 then Ok 0 else Ok (currentEpoch -u 1).

Definition NextEpoch (stateSlot : Z) : result Z :=
  e ← ToEpoch stateSlot; Ok (e +u 1).

Definition CanProcessEpoch (stateSlot : Z) : result bool :=
  r ← umod (stateSlot +u 1) (SlotsPerEpoch cfg); Ok (r =? 0).

(** ** Lemmas *)

Context (Hspe : 0 < SlotsPerEpoch cfg < two64).

Lemma ToEpoch_ok slot : ToEpoch slot = Ok (slot / SlotsPerEpoch cfg).
Proof.
  unfold ToEpoch, Slot.DivSlot, Slot.Div, Slot.SafeDiv, Math.Div64.
  destruct (Z.eqb_spec (SlotsPerEpoch cfg) 0); [lia | reflexivity].
Qed.

Lemma EpochStart_spec e : u64_ok e ->
  EpochStart e = if SlotsPerEpoch cfg * e <? two64 then Ok (SlotsPerEpoch cfg * e)
                 else Err (Wrapped "start slot calculation overflows" Math.ErrMulOverflow).
Proof.
  intros He. unfold EpochStart, Slot.SafeMul. rewrite Mul64_spec by (auto; unfold u64_ok; lia).
  now destruct (_ <? _).
Qed.

Lemma EpochStart_ok e : 0 <= e -> SlotsPerEpoch cfg * e < two64 ->
  EpochStart e = Ok (SlotsPerEpoch cfg * e).
Proof.
  intros. rewrite EpochStart_spec by (unfold u64_ok; nia).
  now destruct (Z.ltb_spec (SlotsPerEpoch cfg * e) two64); [| lia].
Qed.

Lemma EpochStart_inv e s : u64_ok e -> EpochStart e = Ok s ->
  s = SlotsPerEpoch cfg * e /\ SlotsPerEpoch cfg * e < two64.
Proof.
  intros He. rewrite EpochStart_spec by assumption.
  destruct (Z.ltb_spec (SlotsPerEpoch cfg * e) two64); [| discriminate]. intros [= <-]. auto.
Qed.

Lemma IsEpochStart_ok s : IsEpochStart s = Ok (s mod SlotsPerEpoch cfg =? 0).
Proof. unfold IsEpochStart. now rewrite umod_ok by lia. Qed.

(** [EpochEnd] computes the start of the next epoch, so it fails for an epoch that
    reaches the end of the range of slots. *)
Lemma EpochEnd_ok e : 0 <= e -> SlotsPerEpoch cfg * (e + 1) < two64 ->
  EpochEnd e = Ok (SlotsPerEpoch cfg * (e + 1) - 1).
Proof.
  intros He Hlt. assert (e + 1 < two64) by nia. unfold EpochEnd.
  destruct (Z.eqb_spec e MaxUint64); [unfold MaxUint64, two64 in *; lia |].
  rewrite u64_add_small, EpochStart_ok by lia. cbn [mbind result_bind].
  rewrite u64_sub_small by (unfold u64_ok; nia). reflexivity.
Qed.

Lemma EpochEnd_overflow e : u64_ok e -> two64 <= SlotsPerEpoch cfg * (e + 1) ->
  exists err, EpochEnd e = Err err.
Proof.
  unfold u64_ok. intros He Hge. unfold EpochEnd. destruct (Z.eqb_spec e MaxUint64) as [| Hne]; [eauto |].
  unfold MaxUint64, two64 in *. rewrite u64_add_small by (unfold two64; lia).
  rewrite EpochStart_spec by (unfold u64_ok, two64; lia).
  destruct (Z.ltb_spec (SlotsPerEpoch cfg * (e + 1)) two64); [unfold two64 in *; lia |].
  cbn [mbind result_bind]. eauto.
Qed.

(** The slot after the last one wraps to 0, which is the start of an epoch. *)
Lemma IsEpochEnd_ok s : u64_ok s -> IsEpochEnd s =
  Ok (s =? Z.min (SlotsPerEpoch cfg * (s / SlotsPerEpoch cfg + 1) - 1) MaxUint64).
Proof.
  unfold u64_ok. intros Hu. unfold IsEpochEnd. rewrite IsEpochStart_ok. f_equal. set (S := SlotsPerEpoch cfg) in *.
  pose proof (Z.div_mod s S ltac:(lia)) as Hdm. pose proof (Z.mod_pos_bound s S ltac:(lia)) as Hm.
  apply Bool.eq_iff_eq_true. rewrite !Z.eqb_eq. unfold MaxUint64, two64 in *.
  destruct (Z.eq_dec s 18446744073709551615) as [-> | Hne].
  - change (18446744073709551615 +u 1) with 0. rewrite Z.mod_0_l by lia. lia.
  - rewrite u64_add_small by (unfold two64; lia). rewrite Z.mod_divide by lia. split.
    + intros [k Hk]. assert (k = s / S + 1) by nia. nia.
    + intros Hmin. exists (s / S + 1). nia.
Qed.

End Slots.


(** C30. Epochs partition the slots, for every slot of 64 bits: a slot lies in the
    [SlotsPerEpoch] slots from the first slot of its epoch, [ToEpoch] inverts
    [EpochStart], and [IsEpochStart] and [IsEpochEnd] recognise exactly the first and
    the last slot of the epoch.  [EpochEnd] returns the last slot, after which the next
    epoch starts, unless the epoch reaches the end of the 64-bit range: then it returns
    an error, and only the greatest slot is recognised as the end. *)
Theorem epoch_partition cfg slot : 0 < SlotsPerEpoch cfg < two64 -> u64_ok slot ->
  exists e st, ToEpoch cfg slot = Ok e /\ EpochStart cfg e = Ok st /\ ToEpoch cfg st = Ok e /\
    st <= slot < st + SlotsPerEpoch cfg /\
    IsEpochStart cfg slot = Ok (slot =? st) /\
    (if st + SlotsPerEpoch cfg <? two64
     then exists en, EpochEnd cfg e = Ok en /\ en = st + SlotsPerEpoch cfg - 1 /\
            ToEpoch cfg en = Ok e /\ EpochStart cfg (e + 1) = Ok (en + 1) /\
            IsEpochEnd cfg slot = Ok (slot =? en)
     else (exists err, EpochEnd cfg e = Err err) /\ IsEpochEnd cfg slot = Ok (slot =? MaxUint64)).
Proof.
  intros Hs Hslot. set (S := SlotsPerEpoch cfg) in *. set (e := slot / S).
  pose proof (Z.div_mod slot S ltac:(lia)) as Hdm. fold e in Hdm.
  pose proof (Z.mod_pos_bound slot S ltac:(lia)) as Hm.
  assert (0 <= e) by (apply Z.div_pos; unfold u64_ok in Hslot; lia).
  assert (e <= slot) by (unfold u64_ok in *; nia).
  assert (S * e < two64) by (unfold u64_ok in *; lia).
  exists e, (S * e). rewrite !ToEpoch_ok, EpochStart_ok, IsEpochStart_ok by assumption.
  fold S. fold e. rewrite (Z.mul_comm S e), Z.div_mul by lia. rewrite (Z.mul_comm e S).
  split_and!; try reflexivity; try lia.
  { f_equal. apply Bool.eq_iff_eq_true. rewrite !Z.eqb_eq. lia. }
  destruct (Z.ltb_spec (S * e + S) two64) as [Hlt | Hge].
  - exists (S * (e + 1) - 1). rewrite EpochEnd_ok, IsEpochEnd_ok by (assumption || unfold u64_ok in *; fold S; nia).
    rewrite ToEpoch_ok, EpochStart_ok by (assumption || lia || fold S; lia). fold S. fold e.
    split_and!; [reflexivity | lia | f_equal; symmetry; apply Z.div_unique with (S - 1); lia | f_equal; lia |].
    f_equal. apply Bool.eq_iff_eq_true. rewrite !Z.eqb_eq. unfold MaxUint64, two64 in *. lia.
  - split; [apply EpochEnd_overflow; [assumption | unfold u64_ok in *; lia | fold S; lia] |].
    rewrite IsEpochEnd_ok by assumption. fold S e. f_equal. apply Bool.eq_iff_eq_true.
    rewrite !Z.eqb_eq. unfold u64_ok, MaxUint64, two64 in *. lia.
Qed.

Lemma epoch_partition_witness :
  exists e st, ToEpoch mainnetBeaconConfig 300 = Ok e /\ EpochStart mainnetBeaconConfig e = Ok st /\
    st <= 300 < st + 128 /\ exists en, EpochEnd mainnetBeaconConfig e = Ok en /\
    IsEpochEnd mainnetBeaconConfig 300 = Ok (300 =? en).
Proof.
  destruct (epoch_partition mainnetBeaconConfig 300) as (e & st & H1 & H2 & _ & H3 & _ & H4);
    [vm_compute; split; reflexivity | vm_compute; split; congruence |].
  change (SlotsPerEpoch mainnetBeaconConfig) with 128 in *.
  destruct (Z.ltb_spec (st + 128) two64) as [_ | Hge]; [| exfalso; unfold two64 in Hge; lia].
  destruct H4 as (en & H4 & _ & _ & _ & H5). exists e, st. split_and!; try assumption; try lia.
  now exists en.
Defined.

(** C31. The clock and the slot numbering agree: at any time from genesis on,
    the current slot's start lies at most [SECONDS_PER_SLOT - 1] seconds back,
    [ToTime] gives that start as a signed number of seconds, which is the start itself
    for every time that a signed clock can show, and the slot passes the clock
    validation. *)
Theorem clock_consistent cfg now genesis :
  0 < SecondsPerSlot cfg < two64 -> u64_ok now -> 0 <= genesis <= now ->
  now / SecondsPerSlot cfg + MaxSlotBuffer < two64 ->
  exists slot secs start, CurrentSlot cfg now genesis = Ok slot /\
    ToTime cfg genesis slot = Ok start /\
    SecondsSinceSlotStart cfg slot genesis now = Ok secs /\
    start = i64 (now - secs) /\ (now <= MaxInt64 -> now = start + secs) /\
    0 <= secs < SecondsPerSlot cfg /\
    ValidateClock cfg now slot genesis = Ok tt.
Proof.
  intros Hsps Hnow Hg Hbuf. set (S := SecondsPerSlot cfg) in *.
  set (slot := (now - genesis) / S).
  pose proof (Z.div_mod (now - genesis) S ltac:(lia)) as Hdm. fold slot in Hdm.
  pose proof (Z.mod_pos_bound (now - genesis) S ltac:(lia)) as Hm.
  assert (0 <= slot) by (apply Z.div_pos; lia).
  assert (slot <= now / S) by (apply Z.div_le_mono; lia).
  unfold u64_ok in Hnow.
  assert (CurrentSlot cfg now genesis = Ok slot) as Hcur.
  { unfold CurrentSlot. destruct (Z.ltb_spec now genesis); [lia |].
    rewrite u64_small by (unfold u64_ok; lia). now rewrite udiv_ok by (fold S; lia). }
  assert (u64_ok slot) by (unfold u64_ok; nia). assert (u64_ok S) by (unfold u64_ok; lia).
  exists slot, ((now - genesis) mod S), (i64 (slot * S + genesis)). split_and!; try lia; try assumption.
  - unfold ToTime, Slot.SafeMul, Slot.SafeAdd. fold S.
    rewrite Mul64_spec by assumption. destruct (Z.ltb_spec (slot * S) two64); [| nia]. cbn [wrap mbind result_bind].
    rewrite Add64_spec by (unfold u64_ok; nia). now destruct (Z.ltb_spec (slot * S + genesis) two64); [| nia].
  - unfold SecondsSinceSlotStart. fold S.
    rewrite !u64_small by (unfold u64_ok; rewrite ?u64_small; unfold u64_ok; nia).
    destruct (Z.ltb_spec now (genesis + slot * S)); [nia |]. f_equal. nia.
  - f_equal. lia.
  - intros Hmax. rewrite i64_small; [lia |]. unfold i64_ok, MinInt64, MaxInt64 in *. nia.
  - unfold ValidateClock. rewrite Hcur. cbn [mbind result_bind]. unfold Slot.Add, Slot.SafeAdd.
    rewrite Add64_spec by (unfold u64_ok, MaxSlotBuffer, two64 in *; lia).
    destruct (Z.ltb_spec (slot + MaxSlotBuffer) two64); [| lia]. cbn.
    destruct (Z.ltb_spec (slot + MaxSlotBuffer) slot); [unfold MaxSlotBuffer in *; lia | reflexivity].
Qed.

Lemma clock_consistent_witness :
  exists slot secs start, CurrentSlot mainnetBeaconConfig 1606824250 1606824000 = Ok slot /\
    ToTime mainnetBeaconConfig 1606824000 slot = Ok start /\ 1606824250 = start + secs /\
    0 <= secs < 60.
Proof.
  destruct (clock_consistent mainnetBeaconConfig 1606824250 1606824000)
    as (slot & secs & start & H1 & H2 & _ & _ & H3 & H4 & _);
    [vm_compute; split; reflexivity | vm_compute; split; congruence | vm_compute; split; congruence
    | vm_compute; reflexivity |].
  exists slot, secs, start. split_and!; try assumption; [| apply H4 ..].
  apply H3. vm_compute. discriminate.
Defined.
