(* ===== verification/Bytes.v ===== *)
(** * Byte encodings of integers

    Models the conversions of [encoding/bytesutil/integers.go] and the bit
    updates of [encoding/bytesutil/bits.go].  A byte is an integer of [0, 256);
    [le_put] and [le_get] are [encoding/binary]'s little-endian routines of
    the Go standard library, the big-endian ones reverse the order. *)

From S2P Require Import Prelude.

Definition byte_ok (z : Z) : Prop := 0 <= z < 256.
Definition bytes_ok (l : list Z) : Prop := Forall byte_ok l.

Fixpoint le_put (n : nat) (z : Z) : list Z :=
  match n with
  | O => []
  | S n' => Z.land z 255 :: le_put n' (Z.shiftr z 8)
  end.

Fixpoint le_get (l : list Z) : Z :=
  match l with
  | [] => 0
  | b :: l' => b + 256 * le_get l'
  end.

Definition be_put (n : nat) (z : Z) : list Z := rev (le_put n z).
Definition be_get (l : list Z) : Z := le_get (rev l).

Definition zeros (n : nat) : list Z := replicate n 0.

(** ** Integers to bytes *)

Definition ToBytes (x length : Z) : list Z :=
  let length := if length <? 0 then 0 else length in
  let makeLength := Z.max length 8 in
  take (Z.to_nat length) (le_put 8 x ++ zeros (Z.to_nat (makeLength - 8))).

Definition Bytes1 (x : Z) : list Z := take 1 (le_put 8 x).
Definition Bytes2 (x : Z) : list Z := take 2 (le_put 8 x).
Definition Bytes3 (x : Z) : list Z := take 3 (le_put 8 x).
Definition Bytes4 (x : Z) : list Z := take 4 (le_put 8 x).
Definition Bytes8 (x : Z) : list Z := le_put 8 x.
Definition Bytes32 (x : Z) : list Z := le_put 8 x ++ zeros 24.

(** ** Bytes to integers *)

Definition FromBytes2 (x : list Z) : Z := if zlen x <? 2 then 0 else le_get (take 2 x).
Definition FromBytes4 (x : list Z) : Z := if zlen x <? 4 then 0 else le_get (take 4 x).
Definition FromBytes8 (x : list Z) : Z := if zlen x <? 8 then 0 else le_get (take 8 x).

Definition ToLowInt64 (x : list Z) : Z :=
  if zlen x <? 8 then 0
  else let u := le_get (take 8 x) in
       if MaxInt64 <? u then u - two64 else u.

Definition Uint32ToBytes4 (i : Z) : list Z := be_put 4 i.
Definition Uint64ToBytesLittleEndian (i : Z) : list Z := le_put 8 i.
Definition Uint64ToBytesLittleEndian32 (i : Z) : list Z := le_put 8 i ++ zeros 24.
Definition Uint64ToBytesBigEndian (i : Z) : list Z := be_put 8 i.
Definition BytesToUint64BigEndian (b : list Z) : Z :=
  if zlen b <? 8 then 0 else be_get (take 8 b).

(** ** Bit lists *)

(** [append(b, make([]byte, n)...)]: the run-time system refuses a negative length and
    more than [maxAlloc] bytes, on 64-bit systems 2^48.  Memory that is exhausted before
    is not modelled, nor is the room [append] leaves for later growth. *)
Definition maxAlloc : Z := 281474976710656.

Definition grow_zeros (b : list Z) (n : Z) : result (list Z) :=
  if (n <? 0) || (maxAlloc <? zlen b + n) then Panic "makeslice: len out of range"
  else Ok (b ++ zeros (Z.to_nat n)).

(** [1 << k] for a signed [k], as a byte. *)
Definition bit_mask (k : Z) : result Z :=
  if k <? 0 then Panic "negative shift amount" else Ok (Z.shiftl 1 k mod 256).

(** The index is an [int]: near its maximum [i + (8 - i%8)] wraps around. *)
Definition SetBit (b : list Z) (i : Z) : result (list Z) :=
  b ← (if zlen b * 8 <=? i then
         let h := Z.quot (i64 (i + (8 - Z.rem i 8))) 8 in
         grow_zeros b (h - zlen b)
       else Ok b);
  bit ← bit_mask (Z.rem i 8);
  x ← idx b (Z.quot i 8);
  idx_set b (Z.quot i 8) (Z.lor x bit).

Definition ClearBit (b : list Z) (i : Z) : result (list Z) :=
  if (zlen b * 8 <=? i) || (i <? 0) then Ok b
  else
    bit ← bit_mask (Z.rem i 8);
    x ← idx b (Z.quot i 8);
    idx_set b (Z.quot i 8) (Z.ldiff x bit).

Definition bit_at (b : list Z) (i : Z) : bool :=
  match b !! Z.to_nat (i / 8) with
  | Some x => Z.testbit x (i mod 8)
  | None => false
  end.

(** ** Lemmas on the encodings *)

Lemma length_le_put n z : length (le_put n z) = n.
Proof. revert z. induction n; intros; cbn; [reflexivity | now f_equal]. Qed.

Lemma land_255 z : Z.land z 255 = z mod 256.
Proof. change 255 with (Z.ones 8). now rewrite Z.land_ones. Qed.

Lemma shiftr_8 z : Z.shiftr z 8 = z / 256.
Proof. now rewrite Z.shiftr_div_pow2. Qed.

Lemma le_put_bytes n z : bytes_ok (le_put n z).
Proof.
  revert z. induction n as [| n IH]; intros z; cbn; constructor; [| apply IH].
  rewrite land_255. unfold byte_ok. apply Z.mod_pos_bound. lia.
Qed.

Lemma pow256_S n : 256 ^ Z.of_nat (S n) = 256 * 256 ^ Z.of_nat n.
Proof. rewrite Nat2Z.inj_succ. apply Z.pow_succ_r. lia. Qed.

Lemma le_get_put n z : le_get (le_put n z) = z mod 256 ^ Z.of_nat n.
Proof.
  revert z. induction n as [| n IH]; intros z; cbn [le_put le_get].
  - now rewrite Z.mod_1_r.
  - rewrite IH, land_255, shiftr_8, pow256_S.
    rewrite (Z.rem_mul_r z 256) by (lia || apply Z.pow_nonzero; lia). lia.
Qed.

Lemma le_get_bound l : bytes_ok l -> 0 <= le_get l < 256 ^ zlen l.
Proof.
  unfold zlen. induction 1 as [| b l Hb Hl IH]; cbn [le_get length]; [cbn; lia |].
  rewrite pow256_S. unfold byte_ok in Hb. lia.
Qed.

Lemma le_put_get l : bytes_ok l -> le_put (length l) (le_get l) = l.
Proof.
  induction 1 as [| b l Hb Hl IH]; [reflexivity |]. cbn [length le_put le_get].
  unfold byte_ok in Hb. rewrite land_255, shiftr_8.
  rewrite (Z.mul_comm 256), Z.mod_add, Z.div_add, Z.mod_small, Z.div_small by lia.
  now rewrite Z.add_0_l, IH.
Qed.

Lemma take_le_put n m z : (n <= m)%nat -> take n (le_put m z) = le_put n z.
Proof.
  revert m z. induction n as [| n IH]; intros [| m] z H; try lia; try reflexivity.
  cbn. now rewrite IH by lia.
Qed.

(** Only the low-order [8 * n] bits are stored. *)
Lemma le_put_mod n z : le_put n (z mod 256 ^ Z.of_nat n) = le_put n z.
Proof.
  rewrite <- le_get_put. rewrite <- (length_le_put n z) at 1. apply le_put_get, le_put_bytes.
Qed.

Lemma bytes_ok_rev l : bytes_ok l -> bytes_ok (rev l).
Proof. apply Forall_rev. Qed.

(** C36. The integer codecs round trip: the 8-byte encodings of a [uint64] in
    either byte order decode to the value, every 8-byte string is the encoding
    of the integer it decodes to, and the shorter encodings keep exactly the
    low-order bytes. *)
Theorem integer_codec_roundtrip x l : u64_ok x -> bytes_ok l -> length l = 8%nat ->
  FromBytes8 (Bytes8 x) = x /\ Bytes8 (FromBytes8 l) = l /\
  BytesToUint64BigEndian (Uint64ToBytesBigEndian x) = x /\
  Uint64ToBytesBigEndian (BytesToUint64BigEndian l) = l /\
  FromBytes4 (Bytes4 x) = x mod 2 ^ 32 /\ FromBytes2 (Bytes2 x) = x mod 2 ^ 16 /\
  FromBytes8 (Bytes32 x) = x /\ FromBytes8 (ToBytes x 8) = x.
Proof.
  intros Hx Hl Hlen.
  assert (x mod 256 ^ Z.of_nat 8 = x) as Hm by (apply Z.mod_small, Hx).
  assert (forall m (y : list Z), length y = m -> (8 <= m)%nat ->
    (if zlen y <? 8 then 0 else le_get (take 8 y)) = le_get (take 8 y)) as H8.
  { intros m y <- Hy. unfold zlen. destruct (Z.ltb_spec (Z.of_nat (length y)) 8); [lia | reflexivity]. }
  assert (take 8 l = l) as Htl by (apply take_ge; lia).
  assert (forall t, take 8 (le_put 8 x ++ t) = le_put 8 x) as Hta
    by (intros t; rewrite take_app_le by (rewrite length_le_put; lia); apply take_le_put; lia).
  unfold FromBytes8, Bytes8, BytesToUint64BigEndian, Uint64ToBytesBigEndian, be_get, be_put.
  split_and!.
  - rewrite (H8 8%nat) by (rewrite ?length_le_put; lia). now rewrite take_le_put, le_get_put by lia.
  - rewrite (H8 8%nat) by lia. rewrite Htl, <- Hlen at 1. now apply le_put_get.
  - unfold zlen. rewrite length_rev, length_le_put. cbn -[le_get le_put rev].
    rewrite take_ge by (rewrite length_rev, length_le_put; lia).
    now rewrite rev_involutive, le_get_put.
  - unfold zlen. rewrite Hlen. cbn -[le_get le_put rev take]. rewrite Htl.
    rewrite <- Hlen at 1. rewrite <- length_rev.
    rewrite le_put_get by now apply bytes_ok_rev. apply rev_involutive.
  - unfold FromBytes4, Bytes4. rewrite take_le_put by lia. unfold zlen. rewrite length_le_put. cbn -[le_get le_put].
    rewrite take_le_put by lia. apply le_get_put.
  - unfold FromBytes2, Bytes2. rewrite take_le_put by lia. unfold zlen. rewrite length_le_put. cbn -[le_get le_put].
    rewrite take_le_put by lia. apply le_get_put.
  - unfold Bytes32. rewrite (H8 32%nat) by (rewrite ?length_app, ?length_le_put; cbn; lia).
    now rewrite Hta, le_get_put.
  - change (ToBytes x 8) with (take 8 (le_put 8 x ++ [])).
    rewrite Hta. rewrite (H8 8%nat) by (rewrite ?length_le_put; lia).
    now rewrite take_le_put, le_get_put by lia.
Qed.

Lemma integer_codec_roundtrip_witness :
  FromBytes8 (Bytes8 40000000000000) = 40000000000000 /\
  Bytes8 (FromBytes8 [1; 2; 3; 4; 5; 6; 7; 255]) = [1; 2; 3; 4; 5; 6; 7; 255].
Proof.
  destruct (integer_codec_roundtrip 40000000000000 [1; 2; 3; 4; 5; 6; 7; 255]) as (H1 & H2 & _);
    [vm_compute; split; congruence | repeat constructor; discriminate | reflexivity |].
  auto.
Defined.

(** ** Bit updates *)

Lemma bit_at_insert b k x i : (k < length b)%nat -> 0 <= i ->
  bit_at (<[k := x]> b) i = if decide (i / 8 = Z.of_nat k) then Z.testbit x (i mod 8) else bit_at b i.
Proof.
  intros Hk Hi. unfold bit_at. case_decide as Hd.
  - rewrite Hd, Nat2Z.id, list_lookup_insert_eq by assumption. reflexivity.
  - rewrite list_lookup_insert_ne; [reflexivity |].
    intros ->. apply Hd. rewrite Z2Nat.id; [reflexivity | apply Z.div_pos; lia].
Qed.

Lemma bit_at_zeros b n i : 0 <= i -> bit_at (b ++ zeros n) i = bit_at b i.
Proof.
  intros Hi. unfold bit_at. destruct (b !! Z.to_nat (i / 8)) eqn:E.
  - now rewrite (lookup_app_l_Some _ _ _ _ E).
  - rewrite lookup_app_r by now apply lookup_ge_None.
    destruct (zeros n !! _) eqn:E'; [| reflexivity].
    apply lookup_replicate in E' as [-> _]. apply Z.bits_0.
Qed.

Lemma same_bit i j : 0 <= i -> 0 <= j -> (j =? i) = true <-> i / 8 = j / 8 /\ i mod 8 = j mod 8.
Proof.
  intros. rewrite Z.eqb_eq. split; [intros ->; auto |]. intros [H1 H2].
  rewrite (Z.div_mod i 8), (Z.div_mod j 8) by lia. lia.
Qed.

Lemma testbit_shiftl_1 m k : 0 <= m -> 0 <= k -> Z.testbit (Z.shiftl 1 m) k = (k =? m).
Proof.
  intros. rewrite Z.shiftl_1_l, Z.pow2_bits_eqb by lia. apply Z.eqb_sym.
Qed.

(** Rewriting the byte that holds bit [i]: the bits of other bytes stay. *)
Lemma byte_update b i (f : Z -> Z) : 0 <= i -> i / 8 < zlen b ->
  exists b', (x ← idx b (i / 8); idx_set b (i / 8) (f x)) = Ok b' /\ zlen b' = zlen b /\
    forall j, 0 <= j -> exists x, (j / 8 = i / 8 -> bit_at b j = Z.testbit x (j mod 8)) /\
      bit_at b' j = if decide (j / 8 = i / 8) then Z.testbit (f x) (j mod 8) else bit_at b j.
Proof.
  intros Hi Hlen. assert (0 <= i / 8) by (apply Z.div_pos; lia).
  destruct (idx_in_range b (i / 8)) as [x Hx]; [lia |]. rewrite Hx. cbn [mbind result_bind].
  rewrite idx_set_ok by lia. eexists. split_and!; [reflexivity | unfold zlen; now rewrite length_insert |]. intros j Hj. exists x.
  apply idx_inv in Hx as [_ Hx]. split; [intros Hd; unfold bit_at; now rewrite Hd, Hx |].
  rewrite bit_at_insert by (unfold zlen in Hlen; lia). now rewrite Z2Nat.id by lia.
Qed.

Lemma bit_mask_ok i : 0 <= i -> bit_mask (Z.rem i 8) = Ok (Z.shiftl 1 (i mod 8)).
Proof.
  intros Hi. rewrite Z.rem_mod_nonneg by lia. pose proof (Z.mod_pos_bound i 8 ltac:(lia)) as Hm.
  unfold bit_mask. destruct (Z.ltb_spec (i mod 8) 0); [lia |]. f_equal. apply Z.mod_small.
  rewrite Z.shiftl_1_l. split; [apply Z.pow_nonneg; lia |]. change 256 with (2 ^ 8). apply Z.pow_lt_mono_r; lia.
Qed.

(** The rounding of an index up to whole bytes. *)
Lemma round_up i : 0 <= i -> (i + (8 - Z.rem i 8)) / 8 = i / 8 + 1 /\ i < i + (8 - Z.rem i 8) <= i + 8.
Proof.
  intros Hi. rewrite Z.rem_mod_nonneg by lia.
  pose proof (Z.mod_pos_bound i 8 ltac:(lia)) as Hm. pose proof (Z.div_mod i 8 ltac:(lia)) as Hdm.
  split; [symmetry; apply Z.div_unique with 0; lia | lia].
Qed.

Lemma SetBit_exact b i : 0 <= i -> i / 8 < zlen b \/ i / 8 < maxAlloc -> exists b', SetBit b i = Ok b' /\
  zlen b' = Z.max (zlen b) (i / 8 + 1) /\
  forall j, 0 <= j -> bit_at b' j = (j =? i) || bit_at b j.
Proof.
  intros Hi Hfit. unfold SetBit. rewrite bit_mask_ok by lia. destruct (round_up i Hi) as [Hh Hr].
  pose proof (Z.mod_pos_bound i 8 ltac:(lia)) as Hm. pose proof (Z.div_mod i 8 ltac:(lia)) as Hdm.
  rewrite (Z.quot_div_nonneg i) by lia.
  set (grown := if zlen b * 8 <=? i then _ else _).
  assert (exists b2, grown = Ok b2 /\ zlen b2 = Z.max (zlen b) (i / 8 + 1) /\ forall j, 0 <= j -> bit_at b2 j = bit_at b j)
    as (b2 & -> & Hlen & Hsame).
  { subst grown. destruct (Z.leb_spec (zlen b * 8) i) as [Hle | Hgt]; [| exists b; split_and!; [reflexivity | lia | reflexivity]].
    unfold maxAlloc in Hfit. rewrite i64_small by (unfold i64_ok, MinInt64, MaxInt64; lia).
    rewrite Z.quot_div_nonneg, Hh by lia. unfold grow_zeros, maxAlloc.
    destruct (Z.ltb_spec (i / 8 + 1 - zlen b) 0); [lia |].
    destruct (Z.ltb_spec 281474976710656 (zlen b + (i / 8 + 1 - zlen b))); [lia |]. cbn [orb].
    eexists. split_and!; [reflexivity | | intros; now apply bit_at_zeros].
    unfold zlen in *. unfold zeros. rewrite length_app, length_replicate. lia. }
  cbn [mbind result_bind].
  destruct (byte_update b2 i (fun x => Z.lor x (Z.shiftl 1 (i mod 8))) Hi ltac:(lia)) as (b' & Hb & Hlen' & Hbits).
  exists b'. split_and!; [exact Hb | lia |]. intros j Hj. destruct (Hbits j Hj) as (x & Hx & ->).
  case_decide as Hd; rewrite <- (Hsame j) by lia.
  - rewrite (Hx Hd), Z.lor_spec, testbit_shiftl_1, orb_comm by (lia || apply Z.mod_pos_bound; lia).
    f_equal. apply Bool.eq_iff_eq_true. rewrite (same_bit i j), Z.eqb_eq by lia. intuition lia.
  - destruct (Z.eqb_spec j i); [congruence | reflexivity].
Qed.

(** A negative index and one whose byte does not fit into memory panic. *)
Lemma SetBit_panics b i : i64_ok i -> i < 0 \/ zlen b <= i / 8 /\ maxAlloc <= i / 8 -> exists m, SetBit b i = Panic m.
Proof.
  unfold i64_ok, MinInt64, MaxInt64. intros Hok Hcase. unfold SetBit. destruct Hcase as [Hneg | [Hlen Hbig]].
  - destruct (Z.leb_spec (zlen b * 8) i); [unfold zlen in *; lia |]. cbn [mbind result_bind].
    unfold bit_mask. destruct (Z.ltb_spec (Z.rem i 8) 0) as [| Hrem]; cbn [mbind result_bind]; [eauto |].
    pose proof (Z.quot_rem' i 8) as Hqr. unfold idx. destruct (Z.ltb_spec (Z.quot i 8) 0); [cbn; eauto | lia].
  - pose proof (Z.div_mod i 8 ltac:(lia)) as Hdm. pose proof (Z.mod_pos_bound i 8 ltac:(lia)) as Hm.
    unfold maxAlloc in Hbig. destruct (round_up i ltac:(lia)) as [Hh Hr].
    destruct (Z.leb_spec (zlen b * 8) i); [| lia]. unfold grow_zeros, maxAlloc.
    set (n := Z.quot _ 8 - zlen b). assert (n < 0 \/ n = i / 8 + 1 - zlen b) as [Hn | ->].
    { subst n. destruct (Z_le_gt_dec (i + (8 - Z.rem i 8)) 9223372036854775807).
      - right. rewrite i64_small by (unfold i64_ok, MinInt64, MaxInt64; lia). rewrite Z.quot_div_nonneg, Hh by lia. reflexivity.
      - left. unfold i64, two64. rewrite <- (Z.mod_unique _ 18446744073709551616 1 (i + (8 - Z.rem i 8) + 9223372036854775808 - 18446744073709551616)) by lia.
        unfold zlen in *. assert (Z.quot (i + (8 - Z.rem i 8) + 9223372036854775808 - 18446744073709551616 - 9223372036854775808) 8 < 0); [| lia].
        set (w := i + _ + _ - _ - _). assert (w <= -9223372036854775800) by (subst w; lia).
        pose proof (Z.quot_rem' w 8). pose proof (Z.rem_bound_abs w 8 ltac:(lia)). lia. }
    + destruct (Z.ltb_spec n 0); [cbn; eauto | lia].
    + destruct (Z.ltb_spec 281474976710656 (zlen b + (i / 8 + 1 - zlen b))); [| lia]. rewrite orb_true_r. cbn. eauto.
Qed.

Lemma ClearBit_exact b i : exists b', ClearBit b i = Ok b' /\ zlen b' = zlen b /\
  forall j, 0 <= j -> bit_at b' j = negb (j =? i) && bit_at b j.
Proof.
  unfold ClearBit. destruct (Z.leb_spec (zlen b * 8) i) as [Hle | Hgt]; cbn [orb].
  { eexists. split_and!; [reflexivity.. |]. intros j Hj.
    destruct (Z.eqb_spec j i) as [-> |]; [| reflexivity]. cbn.
    pose proof (Z.mod_pos_bound i 8 ltac:(lia)). pose proof (Z.div_mod i 8 ltac:(lia)).
    unfold bit_at. rewrite lookup_ge_None_2; [reflexivity | unfold zlen in *; lia]. }
  destruct (Z.ltb_spec i 0) as [Hneg | Hi].
  { eexists. split_and!; [reflexivity.. |]. intros j Hj. destruct (Z.eqb_spec j i); [lia | reflexivity]. }
  rewrite bit_mask_ok by lia. cbn [mbind result_bind]. rewrite Z.quot_div_nonneg by lia.
  destruct (byte_update b i (fun x => Z.ldiff x (Z.shiftl 1 (i mod 8))) Hi) as (b' & Hb & Hlen & Hbits);
    [apply Z.div_lt_upper_bound; lia |].
  exists b'. split_and!; [exact Hb | exact Hlen |]. intros j Hj. destruct (Hbits j Hj) as (x & Hx & ->).
  pose proof (Z.mod_pos_bound i 8 ltac:(lia)) as Hm.
  case_decide as Hd.
  - rewrite (Hx Hd), Z.ldiff_spec, testbit_shiftl_1, andb_comm by (lia || apply Z.mod_pos_bound; lia).
    do 2 f_equal. apply Bool.eq_iff_eq_true. rewrite (same_bit i j), Z.eqb_eq by lia. intuition lia.
  - destruct (Z.eqb_spec j i); [congruence | reflexivity].
Qed.

(** C37. Bit updates on a list of bytes, for every index of 64 signed bits.  When the byte
    of the index is in the list or is one the run-time system can still allocate,
    [SetBit] returns the list, grown with zeros up to that byte and no further, in which
    exactly bit [i] has been set; for a negative index and for one beyond what can be
    allocated, where the rounding to bytes may wrap around, it panics.  [ClearBit] never
    fails, keeps the length and clears exactly bit [i]. *)
Theorem bit_update_exact b i : i64_ok i ->
  (if (0 <=? i) && ((i / 8 <? zlen b) || (i / 8 <? maxAlloc))
   then exists b', SetBit b i = Ok b' /\ zlen b' = Z.max (zlen b) (i / 8 + 1) /\
          forall j, 0 <= j -> bit_at b' j = (j =? i) || bit_at b j
   else exists m, SetBit b i = Panic m) /\
  (exists b', ClearBit b i = Ok b' /\ zlen b' = zlen b /\
     forall j, 0 <= j -> bit_at b' j = negb (j =? i) && bit_at b j).
Proof.
  intros Hi. split; [| apply ClearBit_exact].
  destruct (Z.leb_spec 0 i); cbn [andb]; [| apply SetBit_panics; [exact Hi | lia]].
  destruct (Z.ltb_spec (i / 8) (zlen b)); cbn [orb]; [apply SetBit_exact; lia |].
  destruct (Z.ltb_spec (i / 8) maxAlloc); [apply SetBit_exact; lia | apply SetBit_panics; [exact Hi | lia]].
Qed.

Lemma bit_update_exact_witness :
  (exists b', SetBit [5] 11 = Ok b' /\ zlen b' = 2 /\ forall j, 0 <= j -> bit_at b' j = (j =? 11) || bit_at [5] j) /\
  (exists m, SetBit [5] MaxInt64 = Panic m).
Proof.
  split; [apply (bit_update_exact [5] 11) | apply (bit_update_exact [5] MaxInt64)]; vm_compute; split; discriminate.
Defined.
