(* ===== verification/Shuffle.v ===== *)
(** * Swap-or-not shuffling

    Models [beacon-chain/core/helpers/shuffle.go]: the per-index permutation
    [ComputeShuffledIndex] and the in-place list shuffle [innerShuffleList],
    which walks mirrored pairs and refreshes its hash only every 256 positions
    and its byte only every 8.  SHA-256 ([crypto/hash], a third-party routine)
    is the class [Hasher]; [HasherOk] is what the code relies on: a digest has
    32 bytes.  The 37-byte work buffer [buf] is the concatenation of seed,
    round and position bytes at each call of the hash.  Fuel: 256 rounds
    suffice because the round counter is a [uint8]; the pair loops run at most
    once per list element. *)

From S2P Require Import Prelude Math Config Bytes.

Class Hasher := hash : list Z -> list Z.

Class HasherOk (H : Hasher) : Prop := {
  hash_length : forall b, length (hash b) = 32%nat;
  hash_bytes : forall b, bytes_ok (hash b)
}.

Definition maxShuffleListSize : Z := 1099511627776.

Section Model.
Context (cfg : BeaconChainConfig) {H : Hasher}.

(** The [for] loop over rounds that both shuffles share: upwards from 0 until
    the [uint8] counter equals [rounds], or downwards until it is 0. *)
Fixpoint round_loop {S} (body : Z -> S -> result S) (fuel : nat)
    (rounds : Z) (shuffle : bool) (round : Z) (s : S) : result S :=
  match fuel with
  | O => Panic "round loop: out of fuel"
  | S fuel' =>
      s' ← body round s;
      if shuffle then
        let round' := (round + 1) mod 256 in
        if round' =? rounds then Ok s' else round_loop body fuel' rounds shuffle round' s'
      else
        if round =? 0 then Ok s' else round_loop body fuel' rounds shuffle (round - 1) s'
  end.

(** ** One index *)

Definition shuffle_round (seed : list Z) (indexCount round index : Z) : result Z :=
  let h := hash (seed ++ [round]) in
  let hash8Int := FromBytes8 (take 8 h) in
  pivot ← umod hash8Int indexCount;
  flip ← umod ((pivot +u indexCount) -u index) indexCount;
  let position := Z.max flip index in
  let source := hash (seed ++ [round] ++ take 4 (le_put 8 (Z.shiftr position 8))) in
  byteV ← idx source (Z.shiftr (Z.land position 255) 3);
  let bitV := Z.land (Z.shiftr byteV (Z.land position 7)) 1 in
  Ok (if bitV =? 1 then flip else index).

Definition ComputeShuffledIndex (index indexCount : Z) (seed : list Z) (shuffle : bool) : result Z :=
  if ShuffleRoundCount cfg =? 0 then Ok index
  else if indexCount <=? index then Err (New "input index out of bounds")
  else if maxShuffleListSize <? indexCount then Err (New "list size out of bounds")
  else
    let rounds := ShuffleRoundCount cfg mod 256 in
    let round := if shuffle then 0 else (rounds - 1) mod 256 in
    round_loop (shuffle_round seed indexCount) 256 rounds shuffle round index.

Definition ShuffledIndex (index indexCount : Z) (seed : list Z) : result Z :=
  ComputeShuffledIndex index indexCount seed true.

Definition UnShuffledIndex (index indexCount : Z) (seed : list Z) : result Z :=
  ComputeShuffledIndex index indexCount seed false.

(** ** A whole list *)

Definition swapOrNot (seed : list Z) (round byteV i : Z) (input : list Z) (j : Z) (source : list Z)
    : result (Z * list Z * list Z) :=
  let source := if Z.land j 255 =? 255
                then hash (seed ++ [round] ++ le_put 4 (Z.shiftr j 8)) else source in
  byteV ← (if Z.land j 7 =? 7 then idx source (Z.shiftr (Z.land j 255) 3) else Ok byteV);
  let bitV := Z.land (Z.shiftr byteV (Z.land j 7)) 1 in
  input ← (if bitV =? 1 then
             xj ← idx input j;
             xi ← idx input i;
             l ← idx_set input i xj;
             idx_set l j xi
           else Ok input);
  Ok (byteV, source, input).

(** [for i, j := ...; i < mirror; i, j = i+1, j-1]. *)
Fixpoint swap_loop (fuel : nat) (seed : list Z) (round mirror i j byteV : Z) (source input : list Z)
    : result (list Z) :=
  if i <? mirror then
    match fuel with
    | O => Panic "swap loop: out of fuel"
    | S fuel' =>
        '(byteV, source, input) ← swapOrNot seed round byteV i input j source;
        swap_loop fuel' seed round mirror (i +u 1) (j -u 1) byteV source input
    end
  else Ok input.

Definition shuffle_list_round (seed : list Z) (r : Z) (input : list Z) : result (list Z) :=
  let listSize := zlen input in
  let ph := hash (seed ++ [r]) in
  pivot ← umod (le_get (take 8 ph)) listSize;
  let mirror := Z.shiftr (pivot +u 1) 1 in
  let source := hash (seed ++ [r] ++ le_put 4 (Z.shiftr pivot 8)) in
  byteV ← idx source (Z.shiftr (Z.land pivot 255) 3);
  input ← swap_loop (length input) seed r mirror 0 pivot byteV source input;
  let mirror := Z.shiftr ((pivot +u listSize) +u 1) 1 in
  let end_ := listSize -u 1 in
  let source := hash (seed ++ [r] ++ le_put 4 (Z.shiftr end_ 8)) in
  byteV ← idx source (Z.shiftr (Z.land end_ 255) 3);
  swap_loop (length input) seed r mirror (pivot +u 1) end_ byteV source input.

Definition innerShuffleList (input : list Z) (seed : list Z) (shuffle : bool) : result (list Z) :=
  if zlen input <=? 1 then Ok input
  else if maxShuffleListSize <? zlen input then Err (New "list size out of bounds")
  else
    let rounds := ShuffleRoundCount cfg mod 256 in
    if rounds =? 0 then Ok input
    else
      let r := if shuffle then 0 else (rounds - 1) mod 256 in
      round_loop (shuffle_list_round seed) 256 rounds shuffle r input.

Definition ShuffleList (input seed : list Z) : result (list Z) := innerShuffleList input seed true.
Definition UnshuffleList (input seed : list Z) : result (list Z) := innerShuffleList input seed false.

End Model.

(** ** The loop over rounds as a fold *)

Definition rounds_up (rounds : Z) : list Z := seqZ 0 rounds.

Lemma round_loop_up {S} (body : Z -> S -> result S) rounds n : forall fuel round s,
  0 <= round -> rounds <= 255 -> rounds - round = Z.of_nat n + 1 -> (n < fuel)%nat ->
  round_loop body fuel rounds true round s = foldM (fun s r => body r s) s (seqZ round (Z.of_nat n + 1)).
Proof.
  induction n as [| n IH]; intros fuel round s Hr Hrs Hn Hf;
    (destruct fuel as [| fuel]; [lia |]); cbn [round_loop].
  - rewrite seqZ_cons, seqZ_nil by lia. cbn [foldM].
    destruct (body round s); cbn; [| reflexivity | reflexivity].
    rewrite Z.mod_small by lia. destruct (Z.eqb_spec (round + 1) rounds); [reflexivity | lia].
  - rewrite seqZ_cons by lia. cbn [foldM].
    destruct (body round s); cbn [mbind result_bind]; [| reflexivity | reflexivity].
    rewrite Z.mod_small by lia. destruct (Z.eqb_spec (round + 1) rounds); [lia |].
    rewrite IH by lia. do 2 f_equal; lia.
Qed.

Lemma round_loop_down {S} (body : Z -> S -> result S) rounds n : forall fuel round s,
  round = Z.of_nat n -> (n < fuel)%nat ->
  round_loop body fuel rounds false round s = foldM (fun s r => body r s) s (rev (seqZ 0 (round + 1))).
Proof.
  induction n as [| n IH]; intros fuel round s Hr Hf;
    (destruct fuel as [| fuel]; [lia |]); cbn [round_loop].
  - subst round. cbn. now destruct (body 0 s).
  - assert (seqZ 0 (round + 1) = seqZ 0 round ++ [round]) as ->
      by (rewrite seqZ_app by lia; reflexivity).
    rewrite rev_app_distr. cbn [rev app foldM].
    destruct (body round s); cbn [mbind result_bind]; [| reflexivity | reflexivity].
    destruct (Z.eqb_spec round 0); [lia |].
    rewrite IH by lia. do 3 f_equal. lia.
Qed.

(** ** The permutation of one round *)

Section Round.
Context {H : Hasher} {HO : HasherOk H}.

Definition block (seed : list Z) (r b : Z) : list Z := hash (seed ++ [r] ++ le_put 4 b).

(** The byte and the bit that decide about the pair whose larger member is
    [pos]. *)
Definition byteOf (seed : list Z) (r pos : Z) : Z :=
  default 0 (block seed r (pos / 256) !! Z.to_nat (pos mod 256 / 8)).
Definition bitOf (seed : list Z) (r pos : Z) : bool :=
  Z.land (Z.shiftr (byteOf seed r pos) (pos mod 8)) 1 =? 1.

Definition pivotOf (seed : list Z) (r n : Z) : Z := le_get (take 8 (hash (seed ++ [r]))) mod n.
Definition flipOf (p n i : Z) : Z := (p + n - i) mod n.
Definition sigma (seed : list Z) (n r i : Z) : Z :=
  let f := flipOf (pivotOf seed r n) n i in
  if bitOf seed r (Z.max f i) then f else i.

Lemma land_7 z : Z.land z 7 = z mod 8.
Proof. change 7 with (Z.ones 3). now rewrite Z.land_ones. Qed.

Lemma byte_index z : Z.shiftr (Z.land z 255) 3 = z mod 256 / 8.
Proof. now rewrite land_255, Z.shiftr_div_pow2. Qed.

Lemma idx_byteOf seed r pos :
  idx (block seed r (pos / 256)) (pos mod 256 / 8) = Ok (byteOf seed r pos).
Proof.
  unfold byteOf. pose proof (hash_length (seed ++ [r] ++ le_put 4 (pos / 256))) as Hl.
  fold (block seed r (pos / 256)) in Hl.
  destruct (idx_in_range (block seed r (pos / 256)) (pos mod 256 / 8)) as [x Hx];
    [unfold zlen; rewrite Hl; dlia |].
  rewrite Hx. apply idx_inv in Hx as [_ Hx]. now rewrite Hx.
Qed.

Lemma pivotOf_range seed r n : 0 < n -> 0 <= pivotOf seed r n < n.
Proof. intros. now apply Z.mod_pos_bound. Qed.

Lemma flipOf_eq p n i : 0 <= p < n -> 0 <= i < n ->
  flipOf p n i = if i <=? p then p - i else p + n - i.
Proof.
  intros. unfold flipOf. destruct (Z.leb_spec i p).
  - symmetry. apply Z.mod_unique with 1; lia.
  - apply Z.mod_small. lia.
Qed.

Lemma flipOf_range p n i : 0 < n -> 0 <= flipOf p n i < n.
Proof. intros. now apply Z.mod_pos_bound. Qed.

Lemma flipOf_invol p n i : 0 <= p < n -> 0 <= i < n -> flipOf p n (flipOf p n i) = i.
Proof.
  intros. rewrite (flipOf_eq p n i) by assumption.
  destruct (Z.leb_spec i p); rewrite flipOf_eq by lia.
  - destruct (Z.leb_spec (p - i) p); lia.
  - destruct (Z.leb_spec (p + n - i) p); lia.
Qed.

Lemma sigma_range seed n r i : 0 <= i < n -> 0 <= sigma seed n r i < n.
Proof. intros. unfold sigma. destruct (bitOf _ _ _); [apply flipOf_range; lia | lia]. Qed.

(** Every round is an involution: a pair looks up the same bit from both ends. *)
Lemma sigma_invol seed n r i : 0 <= i < n -> sigma seed n r (sigma seed n r i) = i.
Proof.
  intros Hi. unfold sigma. pose proof (pivotOf_range seed r n ltac:(lia)).
  set (p := pivotOf seed r n) in *.
  destruct (bitOf seed r (Z.max (flipOf p n i) i)) eqn:E.
  - now rewrite flipOf_invol, Z.max_comm, E by assumption.
  - now rewrite E.
Qed.

Lemma FromBytes8_hash b : FromBytes8 (take 8 (hash b)) = le_get (take 8 (hash b)).
Proof.
  unfold FromBytes8, zlen. rewrite length_take, hash_length. cbn -[le_get take]. f_equal.
  now rewrite take_take.
Qed.

Lemma shuffle_round_ok seed n r i : 0 <= i < n -> n <= maxShuffleListSize ->
  shuffle_round seed n r i = Ok (sigma seed n r i).
Proof.
  intros Hi Hn. unfold shuffle_round, maxShuffleListSize in *.
  rewrite FromBytes8_hash, umod_ok by lia. cbn [mbind result_bind].
  fold (pivotOf seed r n). pose proof (pivotOf_range seed r n ltac:(lia)).
  rewrite !u64_small by (unfold u64_ok, two64; rewrite ?u64_small; unfold u64_ok, two64; lia).
  rewrite umod_ok by lia. cbn [mbind result_bind]. fold (flipOf (pivotOf seed r n) n i).
  set (f := flipOf (pivotOf seed r n) n i).
  rewrite take_le_put by lia. rewrite shiftr_8, byte_index, land_7.
  fold (block seed r (Z.max f i / 256)). rewrite idx_byteOf. reflexivity.
Qed.

(** ** All rounds on one index *)

Definition permute (seed : list Z) (n : Z) (rs : list Z) (i : Z) : Z :=
  fold_left (fun i r => sigma seed n r i) rs i.

Lemma permute_range seed n rs i : 0 <= i < n -> 0 <= permute seed n rs i < n.
Proof.
  revert i. induction rs as [| r rs IH]; intros i Hi; [assumption |].
  cbn. now apply IH, sigma_range.
Qed.

Lemma permute_app seed n rs1 rs2 i :
  permute seed n (rs1 ++ rs2) i = permute seed n rs2 (permute seed n rs1 i).
Proof. apply fold_left_app. Qed.

Lemma permute_rev seed n rs i : 0 <= i < n -> permute seed n (rev rs) (permute seed n rs i) = i.
Proof.
  revert i. induction rs as [| r rs IH]; intros i Hi; [reflexivity |].
  cbn [rev]. rewrite permute_app. change (permute seed n (r :: rs) i) with (permute seed n rs (sigma seed n r i)).
  rewrite IH by now apply sigma_range. now apply sigma_invol.
Qed.

Lemma foldM_shuffle_round seed n rs i : 0 <= i < n -> n <= maxShuffleListSize ->
  foldM (fun s r => shuffle_round seed n r s) i rs = Ok (permute seed n rs i).
Proof.
  intros Hi Hn. revert i Hi. induction rs as [| r rs IH]; intros i Hi; [reflexivity |].
  cbn. rewrite shuffle_round_ok by assumption. cbn. now apply IH, sigma_range.
Qed.
End Round.

Definition round_order (cfg : BeaconChainConfig) (shuffle : bool) : list Z :=
  let up := rounds_up (ShuffleRoundCount cfg) in if shuffle then up else rev up.

Lemma round_loop_order {S} cfg (body : Z -> S -> result S) shuffle s :
  0 < ShuffleRoundCount cfg <= 255 ->
  let rounds := ShuffleRoundCount cfg mod 256 in
  round_loop body 256 rounds shuffle (if shuffle then 0 else (rounds - 1) mod 256) s
  = foldM (fun s r => body r s) s (round_order cfg shuffle).
Proof.
  intros Hr. cbv zeta. rewrite (Z.mod_small (ShuffleRoundCount cfg)) by lia.
  unfold round_order, rounds_up. destruct shuffle.
  - rewrite (round_loop_up _ _ (Z.to_nat (ShuffleRoundCount cfg - 1))) by lia.
    do 2 f_equal. lia.
  - rewrite Z.mod_small by lia.
    rewrite (round_loop_down _ _ (Z.to_nat (ShuffleRoundCount cfg - 1))) by lia.
    do 3 f_equal. lia.
Qed.

Lemma round_order_rev cfg shuffle : rev (round_order cfg shuffle) = round_order cfg (negb shuffle).
Proof. unfold round_order. destruct shuffle; [reflexivity | apply rev_involutive]. Qed.

Lemma round_order_nil cfg shuffle : ShuffleRoundCount cfg = 0 -> round_order cfg shuffle = [].
Proof. unfold round_order, rounds_up. intros ->. now destruct shuffle. Qed.

Lemma ComputeShuffledIndex_ok {H : Hasher} {HO : HasherOk H} cfg seed n i shuffle :
  0 <= ShuffleRoundCount cfg <= 255 -> 0 <= i < n -> n <= maxShuffleListSize ->
  ComputeShuffledIndex cfg i n seed shuffle = Ok (permute seed n (round_order cfg shuffle) i).
Proof.
  intros Hr Hi Hn. unfold ComputeShuffledIndex.
  destruct (Z.eqb_spec (ShuffleRoundCount cfg) 0); [now rewrite round_order_nil |].
  destruct (Z.leb_spec n i); [lia |].
  destruct (Z.ltb_spec maxShuffleListSize n); [lia |].
  rewrite round_loop_order by lia. now apply foldM_shuffle_round.
Qed.

(** C21. For every seed and every list size up to 2^40, [ShuffledIndex] and
    [UnShuffledIndex] succeed on every index in range, stay in range, and are
    inverse bijections of [0, n). *)
Theorem shuffled_index_bijection {H : Hasher} {HO : HasherOk H} cfg seed n i :
  0 <= ShuffleRoundCount cfg <= 255 -> 0 <= i < n -> n <= maxShuffleListSize ->
  (exists j, ShuffledIndex cfg i n seed = Ok j /\ 0 <= j < n /\ UnShuffledIndex cfg j n seed = Ok i) /\
  (exists j, UnShuffledIndex cfg i n seed = Ok j /\ 0 <= j < n /\ ShuffledIndex cfg j n seed = Ok i).
Proof.
  intros Hr Hi Hn. unfold ShuffledIndex, UnShuffledIndex.
  split; eexists; (split; [now apply ComputeShuffledIndex_ok |]);
    (split; [now apply permute_range |]);
    rewrite ComputeShuffledIndex_ok by (auto; now apply permute_range);
    [change false with (negb true) | change true with (negb false)];
    rewrite <- round_order_rev; now rewrite permute_rev.
Qed.

(** A concrete stand-in for SHA-256 with 32-byte digests. *)
Definition toy_hash : Hasher := fun b =>
  map (fun i => (zsum b * 31 + i * i * 7 + Z.of_nat (length b) * 113 + 5) mod 256) (seqZ 0 32).

#[export] Instance toy_hash_ok : HasherOk toy_hash.
Proof.
  split; intros b; unfold hash, toy_hash.
  - rewrite length_map. reflexivity.
  - apply Forall_forall. intros x Hx. apply list_elem_of_In, in_map_iff in Hx as (i & <- & _).
    apply Z.mod_pos_bound. lia.
Qed.

Lemma shuffled_index_bijection_witness :
  exists j, @ShuffledIndex mainnetBeaconConfig toy_hash 3 10 (zeros 32) = Ok j /\ 0 <= j < 10 /\
    @UnShuffledIndex mainnetBeaconConfig toy_hash j 10 (zeros 32) = Ok 3.
Proof.
  destruct (@shuffled_index_bijection toy_hash toy_hash_ok mainnetBeaconConfig (zeros 32) 10 3) as [Hs _];
    [vm_compute; split; congruence | split; lia | vm_compute; congruence | exact Hs].
Defined.

(** ** The list shuffle: one pair *)

Section ListRound.
Context {H : Hasher} {HO : HasherOk H}.
Context (seed : list Z) (r : Z).

Definition swap (l : list Z) (i j : nat) : list Z :=
  match l !! i, l !! j with
  | Some x, Some y => <[j := x]> (<[i := y]> l)
  | _, _ => l
  end.

Lemma length_swap l i j : length (swap l i j) = length l.
Proof. unfold swap. destruct (l !! i), (l !! j); rewrite ?length_insert; reflexivity. Qed.

Lemma lookup_swap l i j k : (i < length l)%nat -> (j < length l)%nat -> i <> j ->
  swap l i j !! k = if decide (k = i) then l !! j else if decide (k = j) then l !! i else l !! k.
Proof.
  intros Hi Hj Hne. unfold swap.
  destruct (lookup_lt_is_Some_2 l i Hi) as [x Hx]. destruct (lookup_lt_is_Some_2 l j Hj) as [y Hy].
  rewrite Hx, Hy. case_decide as Hk; [| case_decide as Hk']; subst.
  - rewrite list_lookup_insert_ne, list_lookup_insert_eq by (auto; lia). reflexivity.
  - rewrite list_lookup_insert_eq by (rewrite length_insert; lia). reflexivity.
  - rewrite !list_lookup_insert_ne by lia. reflexivity.
Qed.

(** What the cached [source] and [byteV] must satisfy when position [j] is
    reached: they are either about to be refreshed or already right. *)
Definition fresh (j byteV : Z) (source : list Z) : Prop :=
  (j mod 256 = 255 \/ source = block seed r (j / 256)) /\ (j mod 8 = 7 \/ byteV = byteOf seed r j).

Lemma fresh_pred j : 0 < j -> fresh (j - 1) (byteOf seed r j) (block seed r (j / 256)).
Proof.
  intros Hj. split.
  - destruct (Z.eq_dec ((j - 1) mod 256) 255); [now left | right]. f_equal. dlia.
  - destruct (Z.eq_dec ((j - 1) mod 8) 7); [now left | right]. unfold byteOf.
    replace ((j - 1) / 256) with (j / 256) by dlia.
    now replace ((j - 1) mod 256 / 8) with (j mod 256 / 8) by dlia.
Qed.

Lemma swapOrNot_ok l i j byteV source : 0 <= i < zlen l -> 0 <= j < zlen l -> i <> j ->
  fresh j byteV source ->
  swapOrNot seed r byteV i l j source
  = Ok (byteOf seed r j, block seed r (j / 256),
        if bitOf seed r j then swap l (Z.to_nat i) (Z.to_nat j) else l).
Proof.
  intros Hi Hj Hne [Hsrc Hbyte]. unfold swapOrNot.
  rewrite shiftr_8, byte_index, land_255, land_7. fold (block seed r (j / 256)).
  set (src := if j mod 256 =? 255 then block seed r (j / 256) else source).
  assert (src = block seed r (j / 256)) as ->
    by (unfold src; destruct (Z.eqb_spec (j mod 256) 255); [reflexivity | tauto]).
  rewrite idx_byteOf.
  assert ((if j mod 8 =? 7 then Ok (byteOf seed r j) else Ok byteV) = Ok (byteOf seed r j)) as ->
    by (destruct (Z.eqb_spec (j mod 8) 7); [reflexivity | f_equal; tauto]).
  cbn [mbind result_bind]. fold (bitOf seed r j). destruct (bitOf seed r j); [| reflexivity].
  destruct (idx_in_range l j Hj) as [y Hy]. destruct (idx_in_range l i Hi) as [x Hx].
  rewrite Hx, Hy. cbn [mbind result_bind]. rewrite idx_set_ok by assumption. cbn [mbind result_bind].
  rewrite idx_set_ok by (unfold zlen in *; rewrite length_insert; lia). cbn [mbind result_bind].
  apply idx_inv in Hx as [_ Hx], Hy as [_ Hy]. unfold swap. now rewrite Hx, Hy.
Qed.

(** ** One mirrored loop *)

(** The exchange of position [k] with its mirror image [c - k]. *)
Definition tau (c k : Z) : Z := if bitOf seed r (Z.max k (c - k)) then c - k else k.

(** The positions the loop handles when it starts at [i]. *)
Definition handled (mirror c i k : Z) : bool :=
  ((i <=? k) && (k <? mirror)) || ((c - mirror <? k) && (k <=? c - i)).

Lemma swap_step_lookup l c i k : 0 <= i -> i < c - i -> c - i < zlen l -> 0 <= k ->
  (if bitOf seed r (c - i) then swap l (Z.to_nat i) (Z.to_nat (c - i)) else l) !! Z.to_nat k
  = if decide (k = i \/ k = c - i) then l !! Z.to_nat (tau c k) else l !! Z.to_nat k.
Proof.
  intros Hi Hlt Hlen Hk. unfold tau, zlen in *.
  assert (k = i \/ k = c - i -> Z.max k (c - k) = c - i) as Hmax by lia.
  destruct (bitOf seed r (c - i)) eqn:E.
  - rewrite lookup_swap by lia. repeat case_decide; rewrite ?Hmax, ?E by lia; try lia; f_equal; lia.
  - case_decide as Hd; [now rewrite Hmax, E by assumption | reflexivity].
Qed.

Lemma tau_other c i k : k <> i -> k <> c - i -> tau c k <> i /\ tau c k <> c - i.
Proof. unfold tau. destruct (bitOf _ _ _); lia. Qed.

Lemma tau_nonneg c k : 0 <= k <= c -> 0 <= tau c k.
Proof. unfold tau. destruct (bitOf _ _ _); lia. Qed.

Lemma swap_loop_ok mirror c : 2 * mirror <= c + 1 ->
  forall fuel i l byteV source, 0 <= i -> mirror - i <= Z.of_nat fuel ->
  c - i < zlen l -> zlen l < two64 -> (i < mirror -> fresh (c - i) byteV source) ->
  exists l', swap_loop fuel seed r mirror i (c - i) byteV source l = Ok l' /\ length l' = length l /\
    forall k, 0 <= k -> l' !! Z.to_nat k =
      if handled mirror c i k then l !! Z.to_nat (tau c k) else l !! Z.to_nat k.
Proof.
  intros Hmir. induction fuel as [| fuel IH]; intros i l byteV source Hi Hf Hlen Hl64 Hfr;
    cbn [swap_loop]; destruct (Z.ltb_spec i mirror) as [Hlt | Hge]; try lia.
  1, 3: exists l; split_and!; [reflexivity | reflexivity |]; intros k Hk;
    replace (handled mirror c i k) with false; [reflexivity | unfold handled; lia].
  rewrite swapOrNot_ok by (auto; lia). cbn [mbind result_bind].
  rewrite !u64_small by (unfold u64_ok; lia).
  set (l1 := if bitOf seed r (c - i) then swap l (Z.to_nat i) (Z.to_nat (c - i)) else l).
  assert (length l1 = length l) as Hl1 by (unfold l1; destruct (bitOf _ _ _); [apply length_swap | reflexivity]).
  replace (c - i - 1) with (c - (i + 1)) by lia.
  destruct (IH (i + 1) l1 (byteOf seed r (c - i)) (block seed r ((c - i) / 256))) as (l' & -> & Hl' & Hk');
    [lia | lia | unfold zlen in *; lia | unfold zlen in *; lia | |].
  { intros _. replace (c - (i + 1)) with (c - i - 1) by lia. apply fresh_pred. lia. }
  exists l'. split_and!; [reflexivity | lia |]. intros k Hk. rewrite Hk' by assumption.
  destruct (decide (k = i \/ k = c - i)) as [Hp | Hp].
  - replace (handled mirror c (i + 1) k) with false by (unfold handled; lia).
    replace (handled mirror c i k) with true by (unfold handled; lia).
    unfold l1. rewrite swap_step_lookup by lia. now rewrite decide_True.
  - replace (handled mirror c (i + 1) k) with (handled mirror c i k) by (unfold handled; lia).
    destruct (handled mirror c i k) eqn:Eh.
    + pose proof (tau_other c i k ltac:(lia) ltac:(lia)).
      assert (0 <= k <= c) by (unfold handled in Eh; lia). pose proof (tau_nonneg c k ltac:(lia)).
      unfold l1. rewrite swap_step_lookup by lia. rewrite decide_False by lia. reflexivity.
    + unfold l1. rewrite swap_step_lookup by lia. now rewrite decide_False.
Qed.

Lemma fresh_start j : fresh j (byteOf seed r j) (block seed r (j / 256)).
Proof. split; right; reflexivity. Qed.

Lemma tau_sigma n k : 0 <= k < n ->
  let p := pivotOf seed r n in sigma seed n r k = tau (if k <=? p then p else p + n) k.
Proof.
  intros Hk p. pose proof (pivotOf_range seed r n ltac:(lia)) as Hp. fold p in Hp.
  unfold sigma, tau. fold p. rewrite flipOf_eq by lia.
  destruct (Z.leb_spec k p); now rewrite Z.max_comm.
Qed.

(** ** One round on the list *)

Lemma shuffle_list_round_ok l : 1 <= zlen l -> zlen l <= maxShuffleListSize ->
  exists l', shuffle_list_round seed r l = Ok l' /\ length l' = length l /\
    forall k, 0 <= k < zlen l -> l' !! Z.to_nat k = l !! Z.to_nat (sigma seed (zlen l) r k).
Proof.
  intros Hn Hmax. unfold maxShuffleListSize in Hmax. unfold shuffle_list_round.
  set (n := zlen l) in *. rewrite umod_ok by lia. cbn [mbind result_bind].
  fold (pivotOf seed r n). pose proof (pivotOf_range seed r n ltac:(lia)) as Hp.
  set (p := pivotOf seed r n) in *.
  rewrite !(u64_small (p + 1)), (u64_small (p + n)), (u64_small (n - 1)) by (unfold u64_ok, two64; lia).
  rewrite (u64_small (p + n + 1)) by (unfold u64_ok, two64; lia).
  rewrite !shiftr_8, !byte_index. fold (block seed r (p / 256)). rewrite idx_byteOf. cbn [mbind result_bind].
  rewrite !Z.shiftr_div_pow2 by lia. change (2 ^ 1) with 2.
  destruct (swap_loop_ok ((p + 1) / 2) p ltac:(dlia) (length l) 0 l (byteOf seed r p) (block seed r (p / 256)))
    as (l1 & E1 & Hl1 & Hk1); [lia | unfold n, zlen in *; dlia | unfold n in *; lia
      | unfold n, two64 in *; lia | rewrite Z.sub_0_r; intros; apply fresh_start |].
  rewrite Z.sub_0_r in E1. rewrite E1. cbn [mbind result_bind].
  fold (block seed r ((n - 1) / 256)). rewrite idx_byteOf. cbn [mbind result_bind].
  replace (swap_loop (length l1) seed r ((p + n + 1) / 2) (p + 1) (n - 1))
    with (swap_loop (length l1) seed r ((p + n + 1) / 2) (p + 1) (p + n - (p + 1))) by (f_equal; lia).
  destruct (swap_loop_ok ((p + n + 1) / 2) (p + n) ltac:(dlia) (length l1) (p + 1) l1
      (byteOf seed r (n - 1)) (block seed r ((n - 1) / 256)))
    as (l2 & E2 & Hl2 & Hk2); [lia | unfold n, zlen in *; dlia | unfold n, zlen in *; lia
      | unfold n, zlen, two64 in *; lia
      | replace (p + n - (p + 1)) with (n - 1) by lia; intros; apply fresh_start |].
  exists l2. split_and!; [exact E2 | lia |]. intros k Hk. rewrite tau_sigma by assumption. fold p.
  rewrite Hk2 by lia. destruct (Z.leb_spec k p) as [Hkp | Hkp].
  - replace (handled ((p + n + 1) / 2) (p + n) (p + 1) k) with false by (unfold handled; dlia).
    rewrite Hk1 by lia. destruct (handled ((p + 1) / 2) p 0 k) eqn:Eh; [reflexivity |].
    assert (p - k = k) as Hmid by (unfold handled in Eh; dlia).
    unfold tau. rewrite Hmid. now destruct (bitOf _ _ _).
  - assert (p < tau (p + n) k) by (unfold tau; destruct (bitOf _ _ _); lia).
    assert (forall m, p < m -> l1 !! Z.to_nat m = l !! Z.to_nat m) as Hhigh.
    { intros m Hm. rewrite Hk1 by lia.
      now replace (handled ((p + 1) / 2) p 0 m) with false by (unfold handled; dlia). }
    destruct (handled ((p + n + 1) / 2) (p + n) (p + 1) k) eqn:Eh; rewrite Hhigh by lia; [reflexivity |].
    assert (p + n - k = k) as Hmid by (unfold handled in Eh; dlia).
    unfold tau. rewrite Hmid. now destruct (bitOf _ _ _).
Qed.
End ListRound.

(** ** All rounds on the list *)

Section Lists.
Context {H : Hasher} {HO : HasherOk H}.

Lemma foldM_list_rounds seed rs : forall l, 1 <= zlen l -> zlen l <= maxShuffleListSize ->
  exists l', foldM (fun s r => shuffle_list_round seed r s) l rs = Ok l' /\ length l' = length l /\
    forall k, 0 <= k < zlen l -> l' !! Z.to_nat k = l !! Z.to_nat (permute seed (zlen l) (rev rs) k).
Proof.
  induction rs as [| r rs IH]; intros l Hn Hmax; [now exists l |].
  destruct (shuffle_list_round_ok seed r l Hn Hmax) as (l1 & E1 & Hl1 & Hk1).
  assert (zlen l1 = zlen l) as Hz by (unfold zlen; lia).
  destruct (IH l1) as (l2 & E2 & Hl2 & Hk2); [lia | lia |].
  exists l2. cbn [foldM]. rewrite E1. cbn [mbind result_bind]. rewrite E2.
  split_and!; [reflexivity | lia |]. intros k Hk.
  rewrite Hk2, Hz, Hk1 by (try rewrite Hz; auto; now apply permute_range).
  cbn [rev]. now rewrite permute_app.
Qed.

Lemma innerShuffleList_ok cfg seed l shuffle :
  0 <= ShuffleRoundCount cfg <= 255 -> zlen l <= maxShuffleListSize ->
  exists l', innerShuffleList cfg l seed shuffle = Ok l' /\ length l' = length l /\
    forall k, 0 <= k < zlen l ->
      l' !! Z.to_nat k = l !! Z.to_nat (permute seed (zlen l) (round_order cfg (negb shuffle)) k).
Proof.
  intros Hr Hmax. unfold innerShuffleList.
  assert (zlen l <= 1 -> forall k rs, 0 <= k < zlen l -> permute seed (zlen l) rs k = k) as Hone.
  { intros Hle k rs Hk. pose proof (permute_range seed (zlen l) rs k Hk). lia. }
  destruct (Z.leb_spec (zlen l) 1).
  { exists l. split_and!; [reflexivity.. |]. intros k Hk. now rewrite Hone. }
  destruct (Z.ltb_spec maxShuffleListSize (zlen l)); [lia |].
  destruct (Z.eqb_spec (ShuffleRoundCount cfg mod 256) 0) as [E | Hne].
  { exists l. split_and!; [reflexivity.. |]. intros k Hk.
    rewrite round_order_nil; [reflexivity |]. rewrite Z.mod_small in E; lia. }
  rewrite round_loop_order by (rewrite Z.mod_small in Hne; lia).
  rewrite <- round_order_rev. apply foldM_list_rounds; lia.
Qed.

(** C5. The optimised list shuffle implements the per-index specification:
    position [i] of [UnshuffleList l] holds the element of [l] at
    [ShuffledIndex i], position [i] of [ShuffleList l] the one at
    [UnShuffledIndex i]; both succeed on every list of at most 2^40 elements. *)
Theorem shuffle_list_refines_index cfg seed l :
  0 <= ShuffleRoundCount cfg <= 255 -> zlen l <= maxShuffleListSize ->
  (exists l', UnshuffleList cfg l seed = Ok l' /\ length l' = length l /\
     forall i, 0 <= i < zlen l -> exists j, ShuffledIndex cfg i (zlen l) seed = Ok j /\
       l' !! Z.to_nat i = l !! Z.to_nat j) /\
  (exists l', ShuffleList cfg l seed = Ok l' /\ length l' = length l /\
     forall i, 0 <= i < zlen l -> exists j, UnShuffledIndex cfg i (zlen l) seed = Ok j /\
       l' !! Z.to_nat i = l !! Z.to_nat j).
Proof.
  intros Hr Hmax. split;
    [destruct (innerShuffleList_ok cfg seed l false Hr Hmax) as (l' & E & Hl & Hk)
    |destruct (innerShuffleList_ok cfg seed l true Hr Hmax) as (l' & E & Hl & Hk)];
    exists l'; (split_and!; [exact E | exact Hl |]); intros i Hi; eexists;
    (split; [now apply ComputeShuffledIndex_ok | now apply Hk]).
Qed.

(** Looking up through a range-preserving map with an inverse permutes a list. *)
Lemma lookup_permutation {A} (l l' : list A) (f g : Z -> Z) : length l' = length l ->
  (forall k, 0 <= k < zlen l -> 0 <= f k < zlen l /\ g (f k) = k) ->
  (forall k, 0 <= k < zlen l -> l' !! Z.to_nat k = l !! Z.to_nat (f k)) -> Permutation l l'.
Proof.
  intros Hlen Hf Hl. symmetry. apply Permutation_inj. split; [assumption |].
  set (h := fun n => if decide (n < length l)%nat then Z.to_nat (f (Z.of_nat n)) else n).
  assert (forall n, (n < length l)%nat -> (h n < length l)%nat) as Hh.
  { intros n Hn. unfold h. rewrite decide_True by assumption.
    specialize (Hf (Z.of_nat n) ltac:(unfold zlen; lia)). unfold zlen in Hf. lia. }
  exists h. split.
  - intros x y E. destruct (decide (x < length l)%nat) as [Hx | Hx], (decide (y < length l)%nat) as [Hy | Hy];
      pose proof (Hh x); pose proof (Hh y); unfold h in *; repeat case_decide; try lia.
    pose proof (Hf (Z.of_nat x) ltac:(unfold zlen; lia)) as [? Hgx].
    pose proof (Hf (Z.of_nat y) ltac:(unfold zlen; lia)) as [? Hgy].
    apply Z2Nat.inj in E; [| lia | lia]. rewrite E, Hgy in Hgx. lia.
  - intros n. unfold h. case_decide as Hn.
    + specialize (Hl (Z.of_nat n) ltac:(unfold zlen; lia)). now rewrite Nat2Z.id in Hl.
    + rewrite !lookup_ge_None_2 by lia. reflexivity.
Qed.

Lemma innerShuffleList_perm cfg seed l shuffle l' :
  0 <= ShuffleRoundCount cfg <= 255 -> zlen l <= maxShuffleListSize ->
  innerShuffleList cfg l seed shuffle = Ok l' -> Permutation l l'.
Proof.
  intros Hr Hmax E. destruct (innerShuffleList_ok cfg seed l shuffle Hr Hmax) as (l2 & E2 & Hl & Hk).
  rewrite E in E2. injection E2 as <-.
  eapply (lookup_permutation l l' _ (permute seed (zlen l) (rev (round_order cfg (negb shuffle)))));
    [exact Hl | | exact Hk].
  intros k Hki. split; [now apply permute_range | now apply permute_rev].
Qed.

(** C26. Shuffling rearranges: [ShuffleList] returns a permutation of its
    input, and [UnshuffleList] with the same seed restores the input exactly. *)
Theorem shuffle_unshuffle cfg seed l :
  0 <= ShuffleRoundCount cfg <= 255 -> zlen l <= maxShuffleListSize ->
  exists l', ShuffleList cfg l seed = Ok l' /\ Permutation l l' /\ UnshuffleList cfg l' seed = Ok l.
Proof.
  intros Hr Hmax. unfold ShuffleList, UnshuffleList.
  destruct (innerShuffleList_ok cfg seed l true Hr Hmax) as (l1 & E1 & Hl1 & Hk1).
  exists l1. split_and!; [exact E1 | now apply innerShuffleList_perm in E1 |].
  assert (zlen l1 = zlen l) as Hz by (unfold zlen; lia).
  destruct (innerShuffleList_ok cfg seed l1 false Hr ltac:(lia)) as (l2 & E2 & Hl2 & Hk2).
  rewrite E2. f_equal. rewrite Hz in Hk2. apply list_eq. intros k.
  destruct (decide (k < length l)%nat) as [Hlt | Hge].
  - specialize (Hk2 (Z.of_nat k) ltac:(unfold zlen; lia)). rewrite Nat2Z.id in Hk2. rewrite Hk2.
    rewrite Hk1 by (apply permute_range; unfold zlen; lia). cbn [negb].
    change false with (negb true). rewrite <- round_order_rev, permute_rev by (unfold zlen; lia).
    now rewrite Nat2Z.id.
  - rewrite !lookup_ge_None_2 by lia. reflexivity.
Qed.
End Lists.

Definition toy_list : list Z := [10; 11; 12; 13; 14; 15; 16].

Lemma shuffle_list_refines_index_witness :
  exists l', @UnshuffleList mainnetBeaconConfig toy_hash toy_list (zeros 32) = Ok l' /\ length l' = 7%nat.
Proof.
  destruct (@shuffle_list_refines_index toy_hash toy_hash_ok mainnetBeaconConfig (zeros 32) toy_list)
    as [(l' & E & Hl & _) _]; [vm_compute; split; congruence | vm_compute; congruence |].
  exists l'. split; [exact E | exact Hl].
Defined.

Lemma shuffle_unshuffle_witness :
  exists l', @ShuffleList mainnetBeaconConfig toy_hash toy_list (zeros 32) = Ok l' /\
    Permutation toy_list l' /\ @UnshuffleList mainnetBeaconConfig toy_hash l' (zeros 32) = Ok toy_list.
Proof.
  apply (@shuffle_unshuffle toy_hash toy_hash_ok mainnetBeaconConfig (zeros 32) toy_list);
    [vm_compute; split; congruence | vm_compute; congruence].
Defined.

(** The model runs: a shuffle that really moves elements. *)
Example shuffle_runs :
  @UnshuffleList MinimalSpecConfig toy_hash toy_list (zeros 32)
  <> Ok toy_list.
Proof. vm_compute. congruence. Qed.
