(* ===== verification/Committee.v ===== *)
(** * Beacon committees and the committee cache

    Models committee selection in
    [beacon-chain/core/helpers/beacon_committee.go], [SplitOffset] of
    [container/slice/slice.go], [SplitIndices] of [helpers/shuffle.go] and the
    committee cache of [beacon-chain/cache/committee.go] and [committees.go].

    The LRU container behind the cache is third-party code: its content is a
    finite map, an insertion adds an entry, and eviction may remove any entry
    at any time ([cache_reachable]).  Waiting for a request in progress is not
    modelled: a lookup is the map access that follows the wait. *)

From S2P Require Import Prelude Math Config Slots Bytes Shuffle.

(** [l[start:end]] on a slice whose capacity is its length. *)
Definition slice {A} (l : list A) (start end_ : Z) : result (list A) :=
  if (0 <=? start) && (start <=? end_) && (end_ <=? zlen l)
  then Ok (take (Z.to_nat (end_ - start)) (drop (Z.to_nat start) l))
  else Panic "slice bounds out of range".

Definition SplitOffset (listSize chunks index : Z) : result Z := udiv (listSize *u index) chunks.

Definition SplitIndices (l : list Z) (n : Z) : result (list (list Z)) :=
  foldM (fun divided i =>
    start ← SplitOffset (zlen l) n i;
    end_ ← SplitOffset (zlen l) n (i +u 1);
    piece ← slice l start end_;
    Ok (divided ++ [piece])) [] (seqZ 0 n).

Section Model.
Context (cfg : BeaconChainConfig) {H : Hasher}.

Definition SlotCommitteeCount (activeValidatorCount : Z) : result Z :=
  q ← udiv activeValidatorCount (SlotsPerEpoch cfg);
  committeesPerSlot ← udiv q (TargetCommitteeSize cfg);
  if MaxCommitteesPerSlot cfg <? committeesPerSlot then Ok (MaxCommitteesPerSlot cfg)
  else if committeesPerSlot =? 0 then Ok 1
  else Ok committeesPerSlot.

Definition computeCommittee (indices seed : list Z) (index count : Z) : result (list Z) :=
  let validatorCount := zlen indices in
  if count <=? index then Err (New "index out of range: committee offset")
  else
    start ← SplitOffset validatorCount count index;
    end_ ← SplitOffset validatorCount count (index +u 1);
    if (validatorCount <? start) || (validatorCount <? end_) then Err (New "index out of range")
    else
      shuffledList ← UnshuffleList cfg indices seed;
      slice shuffledList start end_.

(** ** The cache *)

Record CommitteeKey := mkKey { seed : list Z; indicesRoot : list Z }.

#[global] Instance CommitteeKey_eq_dec : EqDecision CommitteeKey.
Proof. solve_decision. Defined.

#[global] Instance CommitteeKey_countable : Countable CommitteeKey.
Proof.
  refine (inj_countable' (fun k => (seed k, indicesRoot k)) (fun p => mkKey p.1 p.2) _).
  now intros [].
Defined.

(** The bytes fed to SHA-256: the parameters that shape committees, then the
    ordered indices, eight bytes each. *)
Definition key_preimage (indices : list Z) : list Z :=
  concat (map Bytes8 ([SlotsPerEpoch cfg; TargetCommitteeSize cfg; MaxCommitteesPerSlot cfg;
                        ShuffleRoundCount cfg] ++ indices)).

Definition NewCommitteeKey (s : list Z) (indices : list Z) : CommitteeKey :=
  {| seed := s; indicesRoot := hash (key_preimage indices) |}.

Record Committees := mkCommittees {
  CommitteeCount : Z;
  Seed_ : list Z;
  ShuffledIndices : list Z;
  SortedIndices : list Z
}.

Definition startEndIndices (c : Committees) (index : Z) : result (Z * Z) :=
  let validatorCount := zlen (ShuffledIndices c) in
  start ← SplitOffset validatorCount (CommitteeCount c) index;
  end_ ← SplitOffset validatorCount (CommitteeCount c) (index +u 1);
  Ok (start, end_).

(** [CommitteeCache.Committee]; [None] is the miss. *)
Definition Cache_Committee (c : gmap CommitteeKey Committees) (slot : Z) (key : CommitteeKey) (index : Z)
    : result (option (list Z)) :=
  match c !! key with
  | None => Ok None
  | Some item =>
      perSlot ← udiv (CommitteeCount item) (SlotsPerEpoch cfg);
      let committeeCountPerSlot := if 1 <? perSlot then perSlot else 1 in
      if committeeCountPerSlot <=? index then Err (New "requested index out of bound: committee index")
      else
        m ← Slot.ModSlot slot (SlotsPerEpoch cfg);
        off ← Slot.Mul m committeeCountPerSlot;
        indexOffSet ← Math.Add64 index off;
        if CommitteeCount item <=? indexOffSet then Err (New "requested index out of bound: committee offset")
        else
          '(start, end_) ← startEndIndices item indexOffSet;
          if (zlen (ShuffledIndices item) <? end_) || (end_ <? start)
          then Err (New "requested index out of bound")
          else l ← slice (ShuffledIndices item) start end_; Ok (Some l)
  end.

Definition Cache_ActiveIndices (c : gmap CommitteeKey Committees) (key : CommitteeKey) : option (list Z) :=
  SortedIndices <$> c !! key.

Definition Cache_ActiveIndicesCount (c : gmap CommitteeKey Committees) (key : CommitteeKey) : Z :=
  match c !! key with Some item => zlen (SortedIndices item) | None => 0 end.

Definition Cache_HasEntry (c : gmap CommitteeKey Committees) (key : CommitteeKey) : bool :=
  bool_decide (is_Some (c !! key)).

Definition AddCommitteeShuffledList (c : gmap CommitteeKey Committees) (committees : Committees)
    : gmap CommitteeKey Committees :=
  <[NewCommitteeKey (Seed_ committees) (SortedIndices committees) := committees]> c.

Definition updateCommitteeCache (c : gmap CommitteeKey Committees) (s indices : list Z)
    : result (gmap CommitteeKey Committees) :=
  if Cache_HasEntry c (NewCommitteeKey s indices) then Ok c
  else
    shuffledIndices ← UnshuffleList cfg indices s;
    count ← SlotCommitteeCount (zlen shuffledIndices);
    total ← Slot.Mul (SlotsPerEpoch cfg) count;
    Ok (AddCommitteeShuffledList c
          {| CommitteeCount := total; Seed_ := s;
             ShuffledIndices := shuffledIndices; SortedIndices := indices |}).

Definition BeaconCommittee (c : gmap CommitteeKey Committees) (validatorIndices s : list Z)
    (slot committeeIndex : Z) : result (list Z) :=
  let cacheKey := NewCommitteeKey s validatorIndices in
  committee ← wrap "could not interface with committee cache"
                (Cache_Committee c slot cacheKey committeeIndex);
  match committee with
  | Some l => Ok l
  | None =>
      committeesPerSlot ← SlotCommitteeCount (zlen validatorIndices);
      if committeesPerSlot <=? committeeIndex then Err (New "committee index out of range")
      else
        m ← Slot.ModSlot slot (SlotsPerEpoch cfg);
        off ← Slot.Mul m committeesPerSlot;
        indexOffset ← wrap "could not add calculate index offset" (Math.Add64 committeeIndex off);
        let count := committeesPerSlot *u SlotsPerEpoch cfg in
        computeCommittee validatorIndices s indexOffset count
  end.

(** The states the shared cache goes through: entries are added by
    [updateCommitteeCache], and the LRU may drop any entry. *)
Inductive cache_reachable : gmap CommitteeKey Committees -> Prop :=
| reach_empty : cache_reachable ∅
| reach_update c s indices c' :
    cache_reachable c -> Forall u64_ok indices -> zlen indices <= maxShuffleListSize ->
    updateCommitteeCache c s indices = Ok c' -> cache_reachable c'
| reach_evict c k : cache_reachable c -> cache_reachable (delete k c).

End Model.

(** ** Offsets *)

Section Offsets.
Context (n count : Z) (Hn : 0 <= n) (Hc : 0 < count) (Hfit : n * count < two64).

Lemma SplitOffset_ok i : 0 <= i <= count -> SplitOffset n count i = Ok (n * i / count).
Proof.
  intros Hi. unfold SplitOffset. rewrite u64_small by (unfold u64_ok; nia).
  rewrite udiv_ok by lia. reflexivity.
Qed.

Lemma offset_mono i : 0 <= i < count -> 0 <= n * i / count <= n * (i + 1) / count.
Proof.
  intros. split; [apply Z.div_pos; nia |]. apply Z.div_le_mono; nia.
Qed.

Lemma offset_le i : 0 <= i <= count -> n * i / count <= n.
Proof. intros. apply Z.div_le_upper_bound; nia. Qed.

Lemma offset_last : n * count / count = n.
Proof. apply Z.div_mul. lia. Qed.

(** A piece holds at most the quotient rounded up. *)
Lemma offset_width i v : 0 <= i -> n <= v * count -> n * (i + 1) / count - n * i / count <= v.
Proof.
  intros Hi Hv. enough (n * (i + 1) / count <= n * i / count + v) by lia.
  rewrite <- Z.div_add by lia. apply Z.div_le_mono; nia.
Qed.

(** A piece holds the quotient, or one more. *)
Lemma offset_even i : 0 <= i ->
  n / count <= n * (i + 1) / count - n * i / count <= n / count + 1.
Proof.
  intros Hi. pose proof (Z.div_mod n count ltac:(lia)) as Hdm. pose proof (Z.mod_pos_bound n count ltac:(lia)) as Hm.
  set (q := n / count) in *. set (r := n mod count) in *.
  pose proof (Z.div_mod (n * i) count ltac:(lia)). pose proof (Z.mod_pos_bound (n * i) count ltac:(lia)).
  pose proof (Z.div_mod (n * (i + 1)) count ltac:(lia)). pose proof (Z.mod_pos_bound (n * (i + 1)) count ltac:(lia)).
  set (x := n * i / count) in *. set (y := n * (i + 1) / count) in *. split; nia.
Qed.

(** Pigeonhole: when every piece holds at most [v], so does the average. *)
Lemma offset_pigeonhole v : 0 <= v ->
  (forall i, 0 <= i < count -> n * (i + 1) / count - n * i / count <= v) -> n <= v * count.
Proof.
  intros Hv Hall.
  enough (forall k : nat, Z.of_nat k <= count -> n * Z.of_nat k / count <= v * Z.of_nat k) as Hk.
  { specialize (Hk (Z.to_nat count)). rewrite Z2Nat.id in Hk by lia. rewrite offset_last in Hk. lia. }
  induction k as [| k IH]; intros Hle.
  - rewrite Z.mul_0_r, Z.div_0_l; lia.
  - specialize (Hall (Z.of_nat k) ltac:(lia)). specialize (IH ltac:(lia)).
    rewrite Nat2Z.inj_succ. replace (Z.succ (Z.of_nat k)) with (Z.of_nat k + 1) by lia. lia.
Qed.
End Offsets.

Lemma slice_ok {A} (l : list A) s e : 0 <= s <= e -> e <= zlen l ->
  slice l s e = Ok (take (Z.to_nat (e - s)) (drop (Z.to_nat s) l)).
Proof.
  intros. unfold slice. destruct (Z.leb_spec 0 s); [| lia]. destruct (Z.leb_spec s e); [| lia].
  destruct (Z.leb_spec e (zlen l)); [reflexivity | lia].
Qed.

(** ** Committee counts and the validator capacity *)

Section Capacity.
Context (cfg : BeaconChainConfig).

Lemma SlotCommitteeCount_ok n : 0 < SlotsPerEpoch cfg -> 0 < TargetCommitteeSize cfg ->
  SlotCommitteeCount cfg n = Ok (let c := n / SlotsPerEpoch cfg / TargetCommitteeSize cfg in
    if MaxCommitteesPerSlot cfg <? c then MaxCommitteesPerSlot cfg else if c =? 0 then 1 else c).
Proof.
  intros. unfold SlotCommitteeCount. rewrite udiv_ok by lia. cbn [mbind result_bind].
  rewrite udiv_ok by lia. cbn [mbind result_bind].
  destruct (_ <? _); [reflexivity |]. now destruct (_ =? 0).
Qed.

Lemma SlotCommitteeCount_range n c : 0 < SlotsPerEpoch cfg -> 0 < TargetCommitteeSize cfg ->
  0 < MaxCommitteesPerSlot cfg -> 0 <= n -> SlotCommitteeCount cfg n = Ok c ->
  1 <= c <= MaxCommitteesPerSlot cfg.
Proof.
  intros. rewrite SlotCommitteeCount_ok in * by assumption. simplify_eq.
  assert (0 <= n / SlotsPerEpoch cfg / TargetCommitteeSize cfg) by (repeat apply Z.div_pos; lia).
  destruct (Z.ltb_spec (MaxCommitteesPerSlot cfg) (n / SlotsPerEpoch cfg / TargetCommitteeSize cfg)); [lia |].
  destruct (Z.eqb_spec (n / SlotsPerEpoch cfg / TargetCommitteeSize cfg) 0); lia.
Qed.

(** The number of members that the arithmetic of [computeCommittee] gives to
    committee [i]. *)
Definition committee_size (n count i : Z) : result Z :=
  s ← SplitOffset n count i; e ← SplitOffset n count (i + 1); Ok (e - s).

Lemma MaxActiveValidators_inv fp cap : config_typed cfg -> MaxActiveValidators fp cfg = Ok cap ->
  let S := SlotsPerEpoch cfg in let V := MaxValidatorsPerCommittee cfg in
  let M := MaxCommitteesPerSlot cfg in let T := TargetCommitteeSize cfg in
  0 < S /\ 0 < V /\ 0 < M /\ 0 < T /\
  cap = if (1 <? M) && ((S * V + 1) / S / T <? 2) then S * V else M * S * V.
Proof.
  intros Ht Hm S V M T. unfold MaxActiveValidators in Hm.
  assert (u64_ok S /\ u64_ok V /\ u64_ok M /\ u64_ok T) as (HS & HV & HM & HT)
    by (split_and!; cfg_word Ht).
  fold S V M T in Hm. unfold validateCommitteeSize in Hm. fold V in Hm.
  clearbody S V M T.
  result_inv;
  repeat match goal with
  | E : throw_if _ _ = Ok _ |- _ => apply throw_if_inv in E
  | E : (_ ← throw_if _ _; _) = Ok _ |- _ => progress result_inv
  end; bool_to_prop; unfold u64_ok in *;
  match goal with
  | E : hi_zero M S _ = Ok ?x, F : hi_zero ?x V _ = Ok _ |- _ =>
        apply hi_zero_inv in E as [HMS ->]; [| unfold u64_ok; lia..];
        apply hi_zero_inv in F as [HMSV ->]; [| unfold u64_ok; nia..] end;
  (split_and!; [lia | lia | lia | lia |]);
  [| | now replace (1 <? M) with false by lia];
  replace (1 <? M) with true by lia; cbn [andb];
  rewrite (u64_small (S * V)) in * by (unfold u64_ok; nia);
  rewrite (u64_small (S * V + 1)) in * by (unfold u64_ok; nia);
  repeat match goal with E : udiv _ _ = Ok _ |- _ => rewrite udiv_ok in E by lia; injection E as <- end;
  (destruct (Z.ltb_spec ((S * V + 1) / S / T) 2); lia).
Qed.

Lemma capacity_covers S V M T n :
  0 < S -> 0 < V -> 0 < M -> 0 < T ->
  0 <= n <= (if (1 <? M) && ((S * V + 1) / S / T <? 2) then S * V else M * S * V) ->
  let c := n / S / T in
  n <= V * ((if M <? c then M else if c =? 0 then 1 else c) * S).
Proof.
  intros HS HV HM HT Hn c.
  assert (S * V <= M * S * V) by nia.
  assert (n <= M * S * V) by (destruct (_ && _); lia).
  assert (0 <= c) by (unfold c; repeat apply Z.div_pos; lia).
  destruct (Z.ltb_spec M c) as [| Hle]; [nia |].
  destruct (Z.eq_dec M 1) as [-> | HM1]; [destruct (Z.eqb_spec c 0); nia |].
  replace (1 <? M) with true in Hn by lia. cbn [andb] in Hn.
  set (c' := if c =? 0 then 1 else c).
  assert (1 <= c' /\ c <= c' <= c + 1) as Hc' by (unfold c'; destruct (Z.eqb_spec c 0); lia).
  destruct (Z.ltb_spec ((S * V + 1) / S / T) 2) as [| H2]; [nia |].
  assert (n < S * T * (c + 1)) as Hlt.
  { unfold c. rewrite Z.div_div by lia. pose proof (Z.mul_succ_div_gt n (S * T) ltac:(nia)). lia. }
  destruct (Z.eq_dec S 1) as [-> | HS1].
  - rewrite Z.div_1_r in H2. assert (2 * T <= 1 * V + 1) by (pose proof (Z.mul_div_le (1 * V + 1) T ltac:(lia)); nia).
    unfold c'. destruct (Z.eqb_spec c 0) as [-> | Hc0]; [nia |].
    assert (0 <= (T - 1) * (c - 1)) by nia. assert ((2 * T - 1) * c <= V * c) by nia. lia.
  - assert ((S * V + 1) / S = V) as E by (symmetry; apply Z.div_unique with 1; lia).
    rewrite E in H2. assert (2 * T <= V) by (pose proof (Z.mul_div_le V T ltac:(lia)); nia).
    unfold c'. destruct (Z.eqb_spec c 0) as [E0 | Hc0].
    + rewrite E0 in Hlt. assert (S * T <= S * V) by nia. lia.
    + assert (T * (c + 1) <= V * c) by nia.
      assert (S * (T * (c + 1)) <= S * (V * c)) by (apply Z.mul_le_mono_nonneg_l; lia). lia.
Qed.

Lemma capacity_exceeded S V M T :
  0 < S -> 0 < V -> 0 < M -> 0 < T ->
  let cap := if (1 <? M) && ((S * V + 1) / S / T <? 2) then S * V else M * S * V in
  let c := (cap + 1) / S / T in
  V * ((if M <? c then M else if c =? 0 then 1 else c) * S) < cap + 1.
Proof.
  intros HS HV HM HT cap c. unfold cap in *. clear cap.
  destruct (Z.ltb_spec 1 M) as [HM1 |]; cbn [andb] in *.
  - destruct (Z.ltb_spec ((S * V + 1) / S / T) 2) as [H2 | H2].
    + assert (0 <= c) by (unfold c; repeat apply Z.div_pos; nia).
      destruct (Z.ltb_spec M c); [unfold c in *; lia |]. destruct (Z.eqb_spec c 0); [nia |].
      assert (c = 1) by (unfold c in *; lia). nia.
    + destruct (Z.ltb_spec M c); [nia |]. destruct (Z.eqb_spec c 0); nia.
  - destruct (Z.ltb_spec M c); [nia |]. destruct (Z.eqb_spec c 0); nia.
Qed.
End Capacity.

(** C18. [MaxActiveValidators] is the exact capacity: for every number of
    active validators up to it every committee of an epoch fits
    [MAX_VALIDATORS_PER_COMMITTEE], and one more validator makes some
    committee overflow that bound. *)
Theorem MaxActiveValidators_exact fp cfg cap : config_typed cfg -> MaxActiveValidators fp cfg = Ok cap ->
  (cap + 1) * (MaxCommitteesPerSlot cfg * SlotsPerEpoch cfg) < two64 ->
  (forall n, 0 <= n <= cap -> exists c, SlotCommitteeCount cfg n = Ok c /\
     forall i, 0 <= i < c * SlotsPerEpoch cfg ->
       exists size, committee_size n (c * SlotsPerEpoch cfg) i = Ok size /\
         0 <= size <= MaxValidatorsPerCommittee cfg) /\
  (exists c i size, SlotCommitteeCount cfg (cap + 1) = Ok c /\ 0 <= i < c * SlotsPerEpoch cfg /\
     committee_size (cap + 1) (c * SlotsPerEpoch cfg) i = Ok size /\
     MaxValidatorsPerCommittee cfg < size).
Proof.
  intros Ht Hm Hfit. pose proof (MaxActiveValidators_inv cfg fp cap Ht Hm) as (HS & HV & HM & HT & Hcap).
  set (S := SlotsPerEpoch cfg) in *. set (V := MaxValidatorsPerCommittee cfg) in *.
  set (M := MaxCommitteesPerSlot cfg) in *. set (T := TargetCommitteeSize cfg) in *.
  assert (forall n c, 0 <= n <= cap + 1 -> SlotCommitteeCount cfg n = Ok c -> 0 < c * S /\ n * (c * S) < two64) as Hrange.
  { intros n c Hn Ec. apply SlotCommitteeCount_range in Ec; [| assumption || lia..].
    fold M in Ec. assert (c * S <= M * S) by nia. nia. }
  assert (forall n count i, 0 <= n -> 0 < count -> n * count < two64 -> 0 <= i < count ->
    committee_size n count i = Ok (n * (i + 1) / count - n * i / count)) as Hsize.
  { intros. unfold committee_size. rewrite SplitOffset_ok by lia. cbn [mbind result_bind].
    rewrite SplitOffset_ok by lia. reflexivity. }
  split.
  - intros n Hn. pose proof (SlotCommitteeCount_ok cfg n HS HT) as Ec. eexists. split; [exact Ec |].
    cbv zeta in Ec |- *. destruct (Hrange n _ ltac:(lia) Ec) as [Hpos Hlt]. intros i Hi.
    eexists. split; [apply Hsize; lia |]. rewrite Hcap in Hn.
    pose proof (capacity_covers S V M T n HS HV HM HT Hn) as Hcov. fold S T M in Hpos, Hi, Hlt |- *.
    split; [pose proof (offset_mono n _ ltac:(lia) Hpos i Hi); lia |].
    apply offset_width; lia || exact Hcov.
  - assert (0 <= cap) by (rewrite Hcap; destruct (_ && _); nia).
    pose proof (SlotCommitteeCount_ok cfg (cap + 1) HS HT) as Ec. cbv zeta in Ec.
    destruct (Hrange (cap + 1) _ ltac:(lia) Ec) as [Hpos Hlt]. fold S T M in Ec, Hpos, Hlt.
    set (c := if M <? (cap + 1) / S / T then M else if (cap + 1) / S / T =? 0 then 1 else (cap + 1) / S / T) in *.
    destruct (decide (Forall (fun i => (cap + 1) * (i + 1) / (c * S) - (cap + 1) * i / (c * S) <= V) (seqZ 0 (c * S))))
      as [Hall | Hex].
    + exfalso. rewrite Forall_forall in Hall.
      assert (cap + 1 <= V * (c * S)) as Hle.
      { apply offset_pigeonhole; [lia.. |]. intros i Hi. apply Hall, elem_of_seqZ. lia. }
      pose proof (capacity_exceeded S V M T HS HV HM HT) as Hexc. cbv zeta in Hexc.
      rewrite <- Hcap in Hexc. fold c in Hexc. lia.
    + apply not_Forall_Exists in Hex; [| apply _]. apply Exists_exists in Hex as (i & Hin & Hbad).
      apply elem_of_seqZ in Hin. exists c, i, ((cap + 1) * (i + 1) / (c * S) - (cap + 1) * i / (c * S)).
      split_and!; [exact Ec | lia | lia | apply Hsize; lia | cbn in Hbad; lia].
Qed.

Lemma MaxActiveValidators_exact_witness :
  exists c i size, SlotCommitteeCount mainnetBeaconConfig 4097 = Ok c /\ 0 <= i < c * 128 /\
    committee_size 4097 (c * 128) i = Ok size /\ 32 < size.
Proof.
  destruct (MaxActiveValidators_exact mainnetFieldParams mainnetBeaconConfig 4096) as [_ Hx];
    [exact mainnet_typed | vm_compute; reflexivity | vm_compute; reflexivity | exact Hx].
Defined.

(** ** Cutting a list at increasing offsets *)

Lemma take_drop_app {A} (l : list A) (a b : nat) : (a <= b)%nat ->
  take a l ++ take (b - a) (drop a l) = take b l.
Proof.
  intros Hab. rewrite take_drop_commute. replace (a + (b - a))%nat with b by lia.
  rewrite <- (take_drop a (take b l)) at 2. rewrite take_take. now rewrite Nat.min_l by lia.
Qed.

Definition piece {A} (o : Z -> Z) (l : list A) (i : Z) : list A :=
  take (Z.to_nat (o (i + 1) - o i)) (drop (Z.to_nat (o i)) l).

Lemma pieces_concat {A} (o : Z -> Z) (l : list A) count : 0 <= count -> o 0 = 0 ->
  (forall i, 0 <= i < count -> 0 <= o i <= o (i + 1)) ->
  concat (map (piece o l) (seqZ 0 count)) = take (Z.to_nat (o count)) l.
Proof.
  intros Hc H0 Hmono.
  enough (forall k : nat, Z.of_nat k <= count ->
    concat (map (piece o l) (seqZ 0 (Z.of_nat k))) = take (Z.to_nat (o (Z.of_nat k))) l) as Hk
    by (specialize (Hk (Z.to_nat count)); rewrite Z2Nat.id in Hk by lia; apply Hk; lia).
  induction k as [| k IH]; intros Hle; [change (Z.of_nat 0) with 0; now rewrite H0 |].
  rewrite Nat2Z.inj_succ. replace (Z.succ (Z.of_nat k)) with (Z.of_nat k + 1) by lia.
  rewrite seqZ_app, map_app, concat_app, IH by lia.
  change (seqZ (0 + Z.of_nat k) 1) with [0 + Z.of_nat k]. cbn [map concat].
  rewrite app_nil_r, Z.add_0_l. unfold piece.
  specialize (Hmono (Z.of_nat k) ltac:(lia)).
  rewrite Z2Nat.inj_sub by lia. apply take_drop_app. lia.
Qed.

Lemma mapM_Ok {A B} (f : A -> result B) (g : A -> B) l :
  (forall x, x ∈ l -> f x = Ok (g x)) -> mapM f l = Ok (map g l).
Proof.
  induction l as [| x l IH]; intros Hf; [reflexivity |]. cbn.
  rewrite Hf by apply list_elem_of_here. cbn. rewrite IH; [reflexivity |].
  intros y Hy. apply Hf. now apply list_elem_of_further.
Qed.

(** ** Committees *)

Section Committees.
Context {H : Hasher} {HO : HasherOk H}.
Context (cfg : BeaconChainConfig) (Hrounds : 0 <= ShuffleRoundCount cfg <= 255).
Context (indices sd : list Z) (count : Z).
Context (Hmax : zlen indices <= maxShuffleListSize) (Hc : 0 < count < two64)
        (Hfit : zlen indices * count < two64).

Definition offset (i : Z) : Z := zlen indices * i / count.

Lemma computeCommittee_ok index shuffled : 0 <= index < count ->
  UnshuffleList cfg indices sd = Ok shuffled -> length shuffled = length indices ->
  computeCommittee cfg indices sd index count = Ok (piece offset shuffled index).
Proof.
  intros Hi Hu Hl. unfold computeCommittee. assert (0 <= zlen indices) by (unfold zlen; lia).
  destruct (Z.leb_spec count index); [lia |].
  pose proof (offset_mono (zlen indices) count ltac:(lia) ltac:(lia) index Hi) as Hmono.
  pose proof (offset_le (zlen indices) count ltac:(lia) ltac:(lia) (index + 1) ltac:(lia)).
  rewrite (u64_small (index + 1)) by (unfold u64_ok; lia).
  rewrite !SplitOffset_ok by lia. cbn [mbind result_bind].
  destruct (Z.ltb_spec (zlen indices) (zlen indices * index / count)); [lia |].
  destruct (Z.ltb_spec (zlen indices) (zlen indices * (index + 1) / count)); [lia |].
  cbn [orb]. rewrite Hu. cbn [mbind result_bind].
  rewrite slice_ok; [reflexivity | exact Hmono | unfold zlen in *; lia].
Qed.

(** C27. [computeCommittee] returns the committee of the specification,
    [indices[compute_shuffled_index(i)]] for [i] from [start] to [end], for
    every committee of the epoch. *)
Theorem computeCommittee_spec index : 0 <= index < count ->
  exists l, computeCommittee cfg indices sd index count = Ok l /\
    zlen l = offset (index + 1) - offset index /\
    forall k, 0 <= k < zlen l -> exists j,
      ShuffledIndex cfg (offset index + k) (zlen indices) sd = Ok j /\
      l !! Z.to_nat k = indices !! Z.to_nat j.
Proof.
  intros Hi. destruct (innerShuffleList_ok cfg sd indices false Hrounds Hmax) as (sh & E & Hl & Hk).
  rewrite (computeCommittee_ok index sh Hi E Hl). eexists. split; [reflexivity |].
  assert (0 <= zlen indices) by (unfold zlen; lia).
  pose proof (offset_mono (zlen indices) count ltac:(lia) ltac:(lia) index Hi) as Hm.
  pose proof (offset_le (zlen indices) count ltac:(lia) ltac:(lia) (index + 1) ltac:(lia)) as Hle.
  fold (offset index) (offset (index + 1)) in Hm, Hle.
  assert (zlen (piece offset sh index) = offset (index + 1) - offset index) as Hz.
  { unfold piece, zlen in *. rewrite length_take, length_drop. lia. }
  split; [exact Hz |]. intros k Hki. rewrite Hz in Hki.
  eexists. split; [apply ComputeShuffledIndex_ok; [assumption | lia | assumption] |].
  unfold piece. rewrite lookup_take_lt by lia. rewrite lookup_drop.
  replace (Z.to_nat (offset index) + Z.to_nat k)%nat with (Z.to_nat (offset index + k)) by lia.
  apply Hk. lia.
Qed.

(** C15. The committees of an epoch partition the active validators: listing
    them in order gives a permutation of the active indices, so every active
    validator sits in exactly one committee. *)
Theorem committees_partition :
  exists cs, mapM (fun i => computeCommittee cfg indices sd i count) (seqZ 0 count) = Ok cs /\
    length cs = Z.to_nat count /\ Permutation indices (concat cs).
Proof.
  destruct (innerShuffleList_ok cfg sd indices false Hrounds Hmax) as (sh & E & Hl & _).
  assert (0 <= zlen indices) by (unfold zlen; lia).
  exists (map (piece offset sh) (seqZ 0 count)). split_and!.
  - apply mapM_Ok. intros i Hi. apply elem_of_seqZ in Hi. apply computeCommittee_ok; [lia | assumption..].
  - now rewrite length_map, length_seqZ.
  - rewrite pieces_concat; [| lia | unfold offset; now rewrite Z.mul_0_r, Z.div_0_l by lia |].
    + unfold offset. rewrite offset_last by lia. rewrite take_ge by (unfold zlen; lia).
      now apply innerShuffleList_perm in E.
    + intros i Hi. now apply offset_mono; lia.
Qed.
End Committees.

Lemma foldM_snoc {A B} (f : A -> result B) (g : A -> B) l acc :
  (forall x, x ∈ l -> f x = Ok (g x)) ->
  foldM (fun d x => y ← f x; Ok (d ++ [y])) acc l = Ok (acc ++ map g l).
Proof.
  revert acc. induction l as [| x l IH]; intros acc Hf; cbn [foldM]; [now rewrite app_nil_r |].
  rewrite Hf by apply list_elem_of_here. cbn [mbind result_bind].
  rewrite IH; [now rewrite <- app_assoc |]. intros y Hy. apply Hf. now apply list_elem_of_further.
Qed.

(** C38. [SplitIndices] cuts a list into [n] consecutive pieces that make up the list.  Piece
    [i] is the part of the list between the offsets that [SplitOffset] gives for [i] and
    [i + 1], and no two pieces differ in length by more than one. *)
Theorem SplitIndices_partition (l : list Z) n : 0 < n < two64 -> zlen l * n < two64 ->
  exists ps, SplitIndices l n = Ok ps /\ length ps = Z.to_nat n /\ concat ps = l /\
    (forall i p, ps !! i = Some p -> exists from to,
       SplitOffset (zlen l) n (Z.of_nat i) = Ok from /\ SplitOffset (zlen l) n (Z.of_nat i + 1) = Ok to /\
       slice l from to = Ok p /\ zlen p = to - from /\ zlen l / n <= zlen p <= zlen l / n + 1).
Proof.
  intros Hn Hfit. assert (0 <= zlen l) by (unfold zlen; lia).
  exists (map (piece (offset l n) l) (seqZ 0 n)). split_and!.
  - unfold SplitIndices. rewrite <- (app_nil_l (map _ _)).
    erewrite <- (foldM_snoc (fun i => Ok (piece (offset l n) l i))) by reflexivity.
    apply foldM_ext. intros d i Hi. apply elem_of_seqZ in Hi.
    pose proof (offset_mono (zlen l) n ltac:(lia) ltac:(lia) i ltac:(lia)).
    pose proof (offset_le (zlen l) n ltac:(lia) ltac:(lia) (i + 1) ltac:(lia)).
    rewrite (u64_small (i + 1)) by (unfold u64_ok; lia). rewrite !SplitOffset_ok by lia.
    cbn [mbind result_bind]. now rewrite slice_ok by lia.
  - now rewrite length_map, length_seqZ.
  - rewrite pieces_concat; [| lia | unfold offset; now rewrite Z.mul_0_r, Z.div_0_l by lia |].
    + unfold offset. rewrite offset_last by lia. apply take_ge. unfold zlen. lia.
    + intros i Hi. now apply offset_mono; lia.
  - intros i p Hp. apply list_lookup_fmap_Some in Hp as (j & -> & Hj). apply lookup_seqZ in Hj as [-> Hi].
    rewrite Z.add_0_l. pose proof (offset_mono (zlen l) n ltac:(lia) ltac:(lia) (Z.of_nat i) ltac:(lia)) as Hmono.
    pose proof (offset_le (zlen l) n ltac:(lia) ltac:(lia) (Z.of_nat i + 1) ltac:(lia)) as Hle.
    rewrite !SplitOffset_ok by lia. exists (offset l n (Z.of_nat i)), (offset l n (Z.of_nat i + 1)).
    assert (zlen (piece (offset l n) l (Z.of_nat i)) = offset l n (Z.of_nat i + 1) - offset l n (Z.of_nat i)) as Hp
      by (unfold piece, zlen, offset in *; rewrite length_take, length_drop; unfold zlen in *; lia).
    rewrite Hp. split; [reflexivity |]. split; [reflexivity |]. split; [rewrite slice_ok by (unfold offset; lia); reflexivity |].
    split; [reflexivity |]. unfold offset. apply offset_even; lia.
Qed.

Lemma SplitIndices_partition_witness :
  exists ps, SplitIndices toy_list 3 = Ok ps /\ length ps = 3%nat /\ concat ps = toy_list /\
    forall i p, ps !! i = Some p -> 2 <= zlen p.
Proof.
  destruct (SplitIndices_partition toy_list 3) as (ps & H1 & H2 & H3 & H4); [vm_compute; split; congruence | vm_compute; congruence |].
  exists ps. split_and!; try assumption. intros i p Hp. destruct (H4 i p Hp) as (? & ? & _ & _ & _ & _ & [Hlo _]).
  etransitivity; [| exact Hlo]. vm_compute. discriminate.
Defined.

Lemma computeCommittee_spec_witness :
  exists l, @computeCommittee MinimalSpecConfig toy_hash toy_list (zeros 32) 1 3 = Ok l /\ zlen l = 2.
Proof.
  destruct (@computeCommittee_spec toy_hash toy_hash_ok MinimalSpecConfig ltac:(vm_compute; split; congruence)
    toy_list (zeros 32) 3 ltac:(vm_compute; congruence) ltac:(vm_compute; split; congruence)
    ltac:(vm_compute; congruence) 1 ltac:(lia)) as (l & E & Hz & _).
  exists l. split; [exact E | rewrite Hz; reflexivity].
Defined.

Lemma committees_partition_witness :
  exists cs, mapM (fun i => @computeCommittee MinimalSpecConfig toy_hash toy_list (zeros 32) i 3) (seqZ 0 3) = Ok cs /\
    length cs = 3%nat /\ Permutation toy_list (concat cs).
Proof.
  apply (@committees_partition toy_hash toy_hash_ok MinimalSpecConfig ltac:(vm_compute; split; congruence)
    toy_list (zeros 32) 3 ltac:(vm_compute; congruence) ltac:(vm_compute; split; congruence)
    ltac:(vm_compute; congruence)).
Defined.

(** ** The cache is transparent *)

Lemma Bytes8_inj x y : u64_ok x -> u64_ok y -> Bytes8 x = Bytes8 y -> x = y.
Proof.
  intros Hx Hy E. apply (f_equal le_get) in E. unfold Bytes8 in E. rewrite !le_get_put in E.
  now rewrite !Z.mod_small in E by assumption.
Qed.

Lemma concat_Bytes8_inj l1 l2 : Forall u64_ok l1 -> Forall u64_ok l2 ->
  concat (map Bytes8 l1) = concat (map Bytes8 l2) -> l1 = l2.
Proof.
  intros H1. revert l2. induction H1 as [| x l1 Hx H1 IH]; intros [| y l2] H2 E; [reflexivity | discriminate.. |].
  apply Forall_cons in H2 as [Hy H2]. cbn [map concat] in E.
  apply app_inj_1 in E as [E1 E2]; [| unfold Bytes8; now rewrite !length_le_put].
  f_equal; [now apply Bytes8_inj | now apply IH].
Qed.

Section Cache.
Context {H : Hasher} {HO : HasherOk H}.
Context (cfg : BeaconChainConfig) (Hrounds : 0 <= ShuffleRoundCount cfg <= 255).
Context (Hspe : 0 < SlotsPerEpoch cfg < two64) (Htcs : 0 < TargetCommitteeSize cfg)
        (Hmcs : 0 < MaxCommitteesPerSlot cfg).

(** What every entry of the cache satisfies. *)
Definition entry_ok (key : CommitteeKey) (item : Committees) : Prop :=
  key = NewCommitteeKey cfg (Seed_ item) (SortedIndices item) /\
  Forall u64_ok (SortedIndices item) /\
  UnshuffleList cfg (SortedIndices item) (Seed_ item) = Ok (ShuffledIndices item) /\
  exists count, SlotCommitteeCount cfg (zlen (ShuffledIndices item)) = Ok count /\
    Slot.Mul (SlotsPerEpoch cfg) count = Ok (CommitteeCount item).

Lemma cache_reachable_ok c : cache_reachable cfg c -> map_Forall entry_ok c.
Proof.
  induction 1 as [| c s l c' _ IH Hl Hmax Hu | c k _ IH].
  - apply map_Forall_empty.
  - unfold updateCommitteeCache in Hu. destruct (Cache_HasEntry _ _); result_inv; [assumption |].
    unfold AddCommitteeShuffledList. cbn. apply map_Forall_insert_2; [| assumption].
    split_and!; cbn; try assumption; try reflexivity. eauto.
  - now apply map_Forall_delete.
Qed.

(** No SHA-256 collision between the membership asked for and a cached one. *)
Definition no_collision (c : gmap CommitteeKey Committees) (indices : list Z) : Prop :=
  map_Forall (fun _ item => hash (key_preimage cfg (SortedIndices item)) = hash (key_preimage cfg indices) ->
                            key_preimage cfg (SortedIndices item) = key_preimage cfg indices) c.

Lemma entry_identified c s indices item : cache_reachable cfg c -> no_collision c indices ->
  Forall u64_ok indices -> c !! NewCommitteeKey cfg s indices = Some item ->
  Seed_ item = s /\ SortedIndices item = indices /\ entry_ok (NewCommitteeKey cfg s indices) item.
Proof.
  intros Hc Hcol Hu Hit. pose proof (cache_reachable_ok c Hc _ _ Hit) as Hok.
  pose proof Hok as (Hkey & Hu' & _). unfold NewCommitteeKey in Hkey. injection Hkey as Hs Hroot.
  specialize (Hcol _ _ Hit (eq_sym Hroot)). unfold key_preimage in Hcol.
  rewrite !map_app, !concat_app in Hcol. apply app_inv_head in Hcol.
  split_and!; [congruence | now apply concat_Bytes8_inj | assumption].
Qed.

Section Lookup.
Context (indices s : list Z) (slot index : Z).
Context (Hmax : zlen indices <= maxShuffleListSize) (Hslot : u64_ok slot) (Hidx : u64_ok index).
Context (Hfit : zlen indices * (MaxCommitteesPerSlot cfg * SlotsPerEpoch cfg) < two64)
        (Hfit' : MaxCommitteesPerSlot cfg * SlotsPerEpoch cfg < two64).

Local Abbreviation m := (slot mod SlotsPerEpoch cfg).

Lemma count_fits count : SlotCommitteeCount cfg (zlen indices) = Ok count ->
  1 <= count /\ count * SlotsPerEpoch cfg < two64 /\ zlen indices * (count * SlotsPerEpoch cfg) < two64.
Proof.
  intros E. apply SlotCommitteeCount_range in E; [| assumption || lia || unfold zlen; lia..].
  assert (0 <= zlen indices) by (unfold zlen; lia).
  assert (count * SlotsPerEpoch cfg <= MaxCommitteesPerSlot cfg * SlotsPerEpoch cfg) by nia. nia.
Qed.

Lemma slot_offset count : 1 <= count -> count * SlotsPerEpoch cfg < two64 -> index < count ->
  Slot.ModSlot slot (SlotsPerEpoch cfg) = Ok m /\ Slot.Mul m count = Ok (m * count) /\
  Math.Add64 index (m * count) = Ok (index + m * count) /\
  0 <= index + m * count < count * SlotsPerEpoch cfg.
Proof.
  intros Hc Hlt Hi. pose proof (Z.mod_pos_bound slot (SlotsPerEpoch cfg) ltac:(lia)) as Hm.
  unfold u64_ok in *.
  assert (0 <= index + m * count < count * SlotsPerEpoch cfg) as Hr by nia.
  unfold Slot.ModSlot, Slot.Mod, Slot.SafeMod, Slot.Mul, Slot.SafeMul. rewrite Mod64_spec.
  destruct (Z.eqb_spec (SlotsPerEpoch cfg) 0); [lia |]. split; [reflexivity |].
  set (k := m) in *. clearbody k.
  rewrite Mul64_spec, Add64_spec by (unfold u64_ok; nia).
  destruct (Z.ltb_spec (k * count) two64); [| nia].
  destruct (Z.ltb_spec (index + k * count) two64); [auto | nia].
Qed.

Lemma BeaconCommittee_miss c count shuffled : c !! NewCommitteeKey cfg s indices = None ->
  SlotCommitteeCount cfg (zlen indices) = Ok count ->
  UnshuffleList cfg indices s = Ok shuffled -> length shuffled = length indices ->
  BeaconCommittee cfg c indices s slot index =
  if count <=? index then Err (New "committee index out of range")
  else Ok (piece (offset indices (count * SlotsPerEpoch cfg)) shuffled (index + m * count)).
Proof.
  intros Hmiss Hcnt Hsh Hl. unfold BeaconCommittee, Cache_Committee. rewrite Hmiss.
  cbn [wrap mbind result_bind]. rewrite Hcnt. cbn [mbind result_bind].
  destruct (count_fits count Hcnt) as (Hc1 & Hc2 & Hc3).
  destruct (Z.leb_spec count index) as [| Hi]; [reflexivity |].
  destruct (slot_offset count Hc1 Hc2 Hi) as (-> & E1 & E2 & Hr). cbn [mbind result_bind].
  rewrite E1. cbn [mbind result_bind]. rewrite E2. cbn [wrap mbind result_bind].
  rewrite u64_small by (unfold u64_ok; nia).
  apply computeCommittee_ok; [lia | lia | lia | assumption | assumption].
Qed.

Lemma BeaconCommittee_hit c count shuffled item : c !! NewCommitteeKey cfg s indices = Some item ->
  SlotCommitteeCount cfg (zlen indices) = Ok count ->
  CommitteeCount item = count * SlotsPerEpoch cfg -> ShuffledIndices item = shuffled ->
  length shuffled = length indices ->
  exists e, BeaconCommittee cfg c indices s slot index =
  if count <=? index then Err e
  else Ok (piece (offset indices (count * SlotsPerEpoch cfg)) shuffled (index + m * count)).
Proof.
  intros Hhit Hcnt Htot Hsh Hl. unfold BeaconCommittee, Cache_Committee. rewrite Hhit, Htot.
  rewrite udiv_ok, Z.div_mul by lia. cbn [mbind result_bind].
  destruct (count_fits count Hcnt) as (Hc1 & Hc2 & Hc3).
  assert ((if 1 <? count then count else 1) = count) as -> by (destruct (Z.ltb_spec 1 count); lia).
  destruct (Z.leb_spec count index) as [| Hi]; [eexists; reflexivity |]. exists (New "").
  destruct (slot_offset count Hc1 Hc2 Hi) as (-> & E1 & E2 & Hr). cbn [mbind result_bind].
  rewrite E1. cbn [mbind result_bind]. rewrite E2. cbn [mbind result_bind].
  destruct (Z.leb_spec (count * SlotsPerEpoch cfg) (index + m * count)); [lia |].
  unfold startEndIndices. rewrite Hsh, Htot.
  assert (zlen shuffled = zlen indices) as -> by (unfold zlen; lia).
  assert (0 <= zlen indices) by (unfold zlen; lia).
  set (i := index + m * count) in *. set (N := count * SlotsPerEpoch cfg) in *.
  rewrite (u64_small (i + 1)) by (unfold u64_ok; lia). rewrite !SplitOffset_ok by lia. cbn [mbind result_bind].
  fold (offset indices N i) (offset indices N (i + 1)).
  pose proof (offset_mono (zlen indices) N ltac:(lia) ltac:(lia) i Hr) as Hmono.
  pose proof (offset_le (zlen indices) N ltac:(lia) ltac:(lia) (i + 1) ltac:(lia)) as Hle.
  fold (offset indices N i) (offset indices N (i + 1)) in Hmono, Hle.
  destruct (Z.ltb_spec (zlen indices) (offset indices N (i + 1))); [lia |].
  destruct (Z.ltb_spec (offset indices N (i + 1)) (offset indices N i)); [lia |]. cbn [orb].
  rewrite slice_ok by (unfold zlen in *; lia). reflexivity.
Qed.
End Lookup.

(** C17. The committee cache is transparent: in every state it can reach, and
    barring a hash collision with a cached membership, a committee request
    returns exactly what the computation without the cache returns, and fails
    exactly when that fails. *)
Theorem committee_cache_transparent c indices s slot index l :
  cache_reachable cfg c -> no_collision c indices -> Forall u64_ok indices ->
  zlen indices <= maxShuffleListSize -> u64_ok slot -> u64_ok index ->
  zlen indices * (MaxCommitteesPerSlot cfg * SlotsPerEpoch cfg) < two64 ->
  MaxCommitteesPerSlot cfg * SlotsPerEpoch cfg < two64 ->
  BeaconCommittee cfg c indices s slot index = Ok l <->
  BeaconCommittee cfg ∅ indices s slot index = Ok l.
Proof.
  intros Hc Hcol Hu Hmax Hslot Hidx Hfit Hfit'.
  pose proof (SlotCommitteeCount_ok cfg (zlen indices) ltac:(lia) Htcs) as Hcnt.
  set (count := if MaxCommitteesPerSlot cfg <? _ then _ else _) in Hcnt. cbv zeta in Hcnt.
  destruct (innerShuffleList_ok cfg s indices false Hrounds Hmax) as (sh & Hsh & Hl & _).
  destruct (c !! NewCommitteeKey cfg s indices) as [item |] eqn:Hit.
  - destruct (entry_identified c s indices item Hc Hcol Hu Hit) as (Hs & Hi & _ & _ & Hsh' & cnt & Hc1 & Hc2).
    rewrite Hs, Hi in Hsh'. unfold UnshuffleList in Hsh'. rewrite Hsh in Hsh'. injection Hsh' as Hsh'.
    replace (zlen (ShuffledIndices item)) with (zlen indices) in Hc1 by (unfold zlen; congruence).
    destruct (count_fits indices Hfit Hfit' cnt Hc1) as (Hf1 & Hf2 & _).
    unfold Slot.Mul, Slot.SafeMul in Hc2. rewrite Mul64_spec in Hc2 by (unfold u64_ok; nia).
    destruct (Z.ltb_spec (SlotsPerEpoch cfg * cnt) two64); [| discriminate]. injection Hc2 as Hc2.
    edestruct (BeaconCommittee_hit indices s slot index) with (c := c) (shuffled := sh)
      as [e ->]; [eassumption.. | lia | congruence | assumption |].
    erewrite (BeaconCommittee_miss indices s slot index) with (c := ∅);
      [| first [apply lookup_empty | eassumption]..].
    destruct (cnt <=? index); [split; discriminate | reflexivity].
  - erewrite (BeaconCommittee_miss indices s slot index) with (c := c) by eassumption.
    erewrite (BeaconCommittee_miss indices s slot index) with (c := ∅);
      [reflexivity | first [apply lookup_empty | eassumption]..].
Qed.
End Cache.

(** A cache filled by one update, then asked for a committee it holds. *)
Definition toy_item : Committees :=
  {| CommitteeCount := 8; Seed_ := zeros 32; ShuffledIndices := [16; 14; 10; 15; 12; 13; 11];
     SortedIndices := toy_list |}.

Definition toy_cache : gmap CommitteeKey Committees :=
  @AddCommitteeShuffledList MinimalSpecConfig toy_hash ∅ toy_item.

Lemma toy_cache_reachable : @cache_reachable MinimalSpecConfig toy_hash toy_cache.
Proof.
  apply (@reach_update MinimalSpecConfig toy_hash ∅ (zeros 32) toy_list);
    [constructor | repeat constructor; vm_compute; congruence | vm_compute; congruence |].
  unfold updateCommitteeCache, Cache_HasEntry. rewrite lookup_empty.
  replace (@UnshuffleList _ _ _ _) with (Ok (ShuffledIndices toy_item)) by (vm_compute; reflexivity).
  reflexivity.
Qed.

Lemma toy_no_collision : @no_collision toy_hash MinimalSpecConfig toy_cache toy_list.
Proof. apply map_Forall_insert_2; [reflexivity | apply map_Forall_empty]. Qed.

Lemma committee_cache_transparent_witness :
  @BeaconCommittee MinimalSpecConfig toy_hash toy_cache toy_list (zeros 32) 7 0 = Ok [11].
Proof.
  apply (@committee_cache_transparent toy_hash toy_hash_ok MinimalSpecConfig);
    [.. | exact toy_cache_reachable | exact toy_no_collision | | | | | | |].
  all: match goal with
       | |- Forall _ _ => repeat constructor; vm_compute; congruence
       | |- _ /\ _ => vm_compute; split; congruence
       | |- _ = _ => vm_compute; reflexivity
       | |- _ => vm_compute; auto; try split; congruence
       end.
Defined.
