(* ===== verification/State.v ===== *)
(** * The beacon state

    Models the consensus fields of [BeaconState]
    ([beacon-chain/state/state-native/beacon_state_mainnet.go]) and the getters
    and setters of that package that the modelled transition functions call.

    A slice of the source is a list; the slices of an initialised state are not
    nil, so the branches for nil slices do not occur.  Copy-on-write sharing
    between states, dirty-field tracking and the Merkle tries are not part of
    the observable content and are not modelled here; a getter that returns a
    deep copy returns the value.  Setters return the new state. *)

From S2P Require Import Prelude Math Config Slots Bytes.

(** ** Protobuf messages *)

Record Validator := mkValidator {
  PublicKey : list Z;
  WithdrawalRecipient : list Z;
  EffectiveBalance : Z;
  Slashed : bool;
  ActivationEligibilityEpoch : Z;
  ActivationEpoch : Z;
  ExitEpoch : Z;
  WithdrawableEpoch : Z;
  RandaoCommitment : list Z
}.

Record Checkpoint := mkCheckpoint { Epoch_ : Z; Root : list Z }.

Record Fork := mkFork { PreviousVersion : list Z; CurrentVersion : list Z; ForkEpoch : Z }.

Record BeaconBlockHeader := mkHeader {
  Header_Slot : Z;
  Header_ProposerIndex : Z;
  ParentRoot : list Z;
  StateRoot : list Z;
  BodyRoot : list Z
}.

Record ExecutionData := mkExecutionData {
  DepositRoot : list Z;
  DepositCount : Z;
  BlockHash : list Z
}.

Record HistoricalSummary := mkSummary { BlockSummaryRoot : list Z; StateSummaryRoot : list Z }.

(** The part of [ExecutionPayloadHeaderZond] that transition code reads. *)
Record ExecutionPayloadHeader := mkPayloadHeader {
  Payload_BlockHash : list Z;
  Payload_PrevRandao : list Z;
  Payload_Timestamp : Z;
  Payload_WithdrawalsRoot : list Z
}.

#[global] Instance Checkpoint_eq_dec : EqDecision Checkpoint.
Proof. solve_decision. Defined.

#[global] Instance Validator_eq_dec : EqDecision Validator.
Proof. solve_decision. Defined.

#[global] Instance ExecutionData_eq_dec : EqDecision ExecutionData.
Proof. solve_decision. Defined.

(** ** Field updates *)

(** [replace_field t p v] is the term [t] with its subterm [p] replaced by [v]:
    the constructor application of a record update. *)
Ltac replace_field eta s p v :=
  let t := eval cbv beta delta [eta] in (eta s) in
  match eval pattern p in t with
  | ?f _ => let r := eval cbv beta in (f v) in exact r
  end.

Definition validator_eta (v : Validator) : Validator :=
  mkValidator (PublicKey v) (WithdrawalRecipient v) (EffectiveBalance v) (Slashed v)
    (ActivationEligibilityEpoch v) (ActivationEpoch v) (ExitEpoch v) (WithdrawableEpoch v)
    (RandaoCommitment v).

Definition with_EffectiveBalance (x : Z) (v : Validator) : Validator :=
  ltac:(replace_field validator_eta v (EffectiveBalance v) x).
Definition with_Slashed (x : bool) (v : Validator) : Validator :=
  ltac:(replace_field validator_eta v (Slashed v) x).
Definition with_ActivationEligibilityEpoch (x : Z) (v : Validator) : Validator :=
  ltac:(replace_field validator_eta v (ActivationEligibilityEpoch v) x).
Definition with_ActivationEpoch (x : Z) (v : Validator) : Validator :=
  ltac:(replace_field validator_eta v (ActivationEpoch v) x).
Definition with_ExitEpoch (x : Z) (v : Validator) : Validator :=
  ltac:(replace_field validator_eta v (ExitEpoch v) x).
Definition with_WithdrawableEpoch (x : Z) (v : Validator) : Validator :=
  ltac:(replace_field validator_eta v (WithdrawableEpoch v) x).
Definition with_RandaoCommitment (x : list Z) (v : Validator) : Validator :=
  ltac:(replace_field validator_eta v (RandaoCommitment v) x).

Record BeaconState := mkBeaconState {
  version : Z;
  genesisTime : Z;
  genesisValidatorsRoot : list Z;
  slot : Z;
  fork : Fork;
  latestBlockHeader : BeaconBlockHeader;
  blockRoots : list (list Z);
  stateRoots : list (list Z);
  historicalRoots : list (list Z);
  historicalSummaries : list HistoricalSummary;
  executionData : ExecutionData;
  executionDataVotes : list ExecutionData;
  executionDepositIndex : Z;
  validators : list Validator;
  balances : list Z;
  randaoMixes : list (list Z);
  slashings : list Z;
  previousEpochParticipation : list Z;
  currentEpochParticipation : list Z;
  justificationBits : Z;
  previousJustifiedCheckpoint : Checkpoint;
  currentJustifiedCheckpoint : Checkpoint;
  finalizedCheckpoint : Checkpoint;
  inactivityScores : list Z;
  currentSyncCommittee : list (list Z);
  nextSyncCommittee : list (list Z);
  latestExecutionPayloadHeader : ExecutionPayloadHeader;
  nextWithdrawalIndex : Z;
  nextWithdrawalValidatorIndex : Z
}.

Definition state_eta (s : BeaconState) : BeaconState :=
  mkBeaconState
    (version s) (genesisTime s) (genesisValidatorsRoot s) (slot s) (fork s) (latestBlockHeader s)
    (blockRoots s) (stateRoots s) (historicalRoots s) (historicalSummaries s) (executionData s)
    (executionDataVotes s) (executionDepositIndex s) (validators s) (balances s) (randaoMixes s)
    (slashings s) (previousEpochParticipation s) (currentEpochParticipation s) (justificationBits s)
    (previousJustifiedCheckpoint s) (currentJustifiedCheckpoint s) (finalizedCheckpoint s)
    (inactivityScores s) (currentSyncCommittee s) (nextSyncCommittee s)
    (latestExecutionPayloadHeader s) (nextWithdrawalIndex s) (nextWithdrawalValidatorIndex s).

Definition with_slot (v : Z) (s : BeaconState) : BeaconState :=
  ltac:(replace_field state_eta s (slot s) v).
Definition with_fork (v : Fork) (s : BeaconState) : BeaconState :=
  ltac:(replace_field state_eta s (fork s) v).
Definition with_latestBlockHeader (v : BeaconBlockHeader) (s : BeaconState) : BeaconState :=
  ltac:(replace_field state_eta s (latestBlockHeader s) v).
Definition with_blockRoots (v : list (list Z)) (s : BeaconState) : BeaconState :=
  ltac:(replace_field state_eta s (blockRoots s) v).
Definition with_stateRoots (v : list (list Z)) (s : BeaconState) : BeaconState :=
  ltac:(replace_field state_eta s (stateRoots s) v).
Definition with_historicalSummaries (v : list HistoricalSummary) (s : BeaconState) : BeaconState :=
  ltac:(replace_field state_eta s (historicalSummaries s) v).
Definition with_executionData (v : ExecutionData) (s : BeaconState) : BeaconState :=
  ltac:(replace_field state_eta s (executionData s) v).
Definition with_executionDataVotes (v : list ExecutionData) (s : BeaconState) : BeaconState :=
  ltac:(replace_field state_eta s (executionDataVotes s) v).
Definition with_executionDepositIndex (v : Z) (s : BeaconState) : BeaconState :=
  ltac:(replace_field state_eta s (executionDepositIndex s) v).
Definition with_validators (v : list Validator) (s : BeaconState) : BeaconState :=
  ltac:(replace_field state_eta s (validators s) v).
Definition with_balances (v : list Z) (s : BeaconState) : BeaconState :=
  ltac:(replace_field state_eta s (balances s) v).
Definition with_randaoMixes (v : list (list Z)) (s : BeaconState) : BeaconState :=
  ltac:(replace_field state_eta s (randaoMixes s) v).
Definition with_slashings (v : list Z) (s : BeaconState) : BeaconState :=
  ltac:(replace_field state_eta s (slashings s) v).
Definition with_previousEpochParticipation (v : list Z) (s : BeaconState) : BeaconState :=
  ltac:(replace_field state_eta s (previousEpochParticipation s) v).
Definition with_currentEpochParticipation (v : list Z) (s : BeaconState) : BeaconState :=
  ltac:(replace_field state_eta s (currentEpochParticipation s) v).
Definition with_justificationBits (v : Z) (s : BeaconState) : BeaconState :=
  ltac:(replace_field state_eta s (justificationBits s) v).
Definition with_previousJustifiedCheckpoint (v : Checkpoint) (s : BeaconState) : BeaconState :=
  ltac:(replace_field state_eta s (previousJustifiedCheckpoint s) v).
Definition with_currentJustifiedCheckpoint (v : Checkpoint) (s : BeaconState) : BeaconState :=
  ltac:(replace_field state_eta s (currentJustifiedCheckpoint s) v).
Definition with_finalizedCheckpoint (v : Checkpoint) (s : BeaconState) : BeaconState :=
  ltac:(replace_field state_eta s (finalizedCheckpoint s) v).
Definition with_inactivityScores (v : list Z) (s : BeaconState) : BeaconState :=
  ltac:(replace_field state_eta s (inactivityScores s) v).
Definition with_currentSyncCommittee (v : list (list Z)) (s : BeaconState) : BeaconState :=
  ltac:(replace_field state_eta s (currentSyncCommittee s) v).
Definition with_nextSyncCommittee (v : list (list Z)) (s : BeaconState) : BeaconState :=
  ltac:(replace_field state_eta s (nextSyncCommittee s) v).
Definition with_latestExecutionPayloadHeader (v : ExecutionPayloadHeader) (s : BeaconState) : BeaconState :=
  ltac:(replace_field state_eta s (latestExecutionPayloadHeader s) v).
Definition with_nextWithdrawalIndex (v : Z) (s : BeaconState) : BeaconState :=
  ltac:(replace_field state_eta s (nextWithdrawalIndex s) v).
Definition with_nextWithdrawalValidatorIndex (v : Z) (s : BeaconState) : BeaconState :=
  ltac:(replace_field state_eta s (nextWithdrawalValidatorIndex s) v).

(** ** Getters and setters *)

Definition Zond : Z := 0.
Definition RandaoCommitmentLength : nat := 32.

Definition ErrOutOfBounds : error := New "index out of bounds".

(** Checked reads and writes of the slices of the state. *)
Definition at_index {A} (msg : string) (l : list A) (i : Z) : result A :=
  if zlen l <=? i then Err (Wrapped msg ErrOutOfBounds) else idx l i.

Definition update_at {A} (msg : string) (l : list A) (i : Z) (a : A) : result (list A) :=
  if zlen l <=? i then Err (Wrapped msg ErrOutOfBounds) else idx_set l i a.

Definition NumValidators (s : BeaconState) : Z := zlen (validators s).

Definition ValidatorAtIndex (s : BeaconState) (i : Z) : result Validator :=
  at_index "validator index does not exist" (validators s) i.

Definition ValidatorAtIndexReadOnly (s : BeaconState) (i : Z) : result Validator :=
  at_index "validator index does not exist" (validators s) i.

(** [ReadFromEveryValidator]: the callback updates what it captures, here the
    accumulator. *)
Definition ReadFromEveryValidator {A} (s : BeaconState) (f : Z -> A -> Validator -> result A) (a : A) : result A :=
  foldMi f 0 a (validators s).

Definition normalizeRandaoCommitment (v : Validator) : Validator :=
  match RandaoCommitment v with
  | [] => with_RandaoCommitment (zeros RandaoCommitmentLength) v
  | _ => v
  end.

Definition UpdateValidatorAtIndex (s : BeaconState) (i : Z) (val : Validator) : result BeaconState :=
  vs ← update_at "validator index does not exist" (validators s) i (normalizeRandaoCommitment val);
  Ok (with_validators vs s).

(** The callback returns whether the validator changed and its new value; it
    may also update the state it captures, which is threaded through. *)
Definition ApplyToEveryValidator (s : BeaconState)
    (f : Z -> Validator -> BeaconState -> result (bool * Validator * BeaconState)) : result BeaconState :=
  foldM (fun s i =>
    val ← ValidatorAtIndex s i;
    f i val s ≫= fun r : bool * Validator * BeaconState => let '(changed, newVal, s') := r in
    if changed then wrap "could not update validator" (UpdateValidatorAtIndex s' i newVal) else Ok s')
    s (seqZ 0 (NumValidators s)).

Definition AppendValidator (s : BeaconState) (val : Validator) : BeaconState :=
  with_validators (validators s ++ [normalizeRandaoCommitment val]) s.

Definition BalanceAtIndex (s : BeaconState) (i : Z) : result Z :=
  at_index "balance index does not exist" (balances s) i.

Definition UpdateBalancesAtIndex (s : BeaconState) (i val : Z) : result BeaconState :=
  bs ← update_at "balance index does not exist" (balances s) i val;
  Ok (with_balances bs s).

Definition SetBalances (s : BeaconState) (val : list Z) : BeaconState := with_balances val s.
Definition AppendBalance (s : BeaconState) (bal : Z) : BeaconState := with_balances (balances s ++ [bal]) s.
Definition SetInactivityScores (s : BeaconState) (val : list Z) : BeaconState := with_inactivityScores val s.
Definition AppendInactivityScore (s : BeaconState) (x : Z) : BeaconState :=
  with_inactivityScores (inactivityScores s ++ [x]) s.

Definition UpdateSlashingsAtIndex (s : BeaconState) (i val : Z) : result BeaconState :=
  if zlen (slashings s) <=? i then Err (New "invalid index provided")
  else l ← idx_set (slashings s) i val; Ok (with_slashings l s).

Definition RandaoMixAtIndex (s : BeaconState) (i : Z) : result (list Z) :=
  at_index "randao mix index does not exist" (randaoMixes s) i.

Definition UpdateRandaoMixesAtIndex (s : BeaconState) (i : Z) (val : list Z) : result BeaconState :=
  l ← update_at "randao mix index does not exist" (randaoMixes s) i val;
  Ok (with_randaoMixes l s).

Definition BlockRootAtIndex (s : BeaconState) (i : Z) : result (list Z) :=
  at_index "block root index does not exist" (blockRoots s) i.

Definition StateRootAtIndex (s : BeaconState) (i : Z) : result (list Z) :=
  at_index "state root index does not exist" (stateRoots s) i.

Definition UpdateBlockRootAtIndex (s : BeaconState) (i : Z) (r : list Z) : result BeaconState :=
  l ← update_at "block root index does not exist" (blockRoots s) i r;
  Ok (with_blockRoots l s).

Definition UpdateStateRootAtIndex (s : BeaconState) (i : Z) (r : list Z) : result BeaconState :=
  l ← update_at "state root index does not exist" (stateRoots s) i r;
  Ok (with_stateRoots l s).

Definition AppendHistoricalSummaries (s : BeaconState) (x : HistoricalSummary) : BeaconState :=
  with_historicalSummaries (historicalSummaries s ++ [x]) s.

Definition AppendExecutionDataVotes (s : BeaconState) (x : ExecutionData) : BeaconState :=
  with_executionDataVotes (executionDataVotes s ++ [x]) s.

Definition AppendCurrentParticipationBits (s : BeaconState) (val : Z) : BeaconState :=
  with_currentEpochParticipation (currentEpochParticipation s ++ [val]) s.

Definition AppendPreviousParticipationBits (s : BeaconState) (val : Z) : BeaconState :=
  with_previousEpochParticipation (previousEpochParticipation s ++ [val]) s.

Definition ModifyCurrentParticipationBits {A} (s : BeaconState) (mutator : list Z -> result (A * list Z))
    : result (A * BeaconState) :=
  '(a, l) ← mutator (currentEpochParticipation s); Ok (a, with_currentEpochParticipation l s).

Definition ModifyPreviousParticipationBits {A} (s : BeaconState) (mutator : list Z -> result (A * list Z))
    : result (A * BeaconState) :=
  '(a, l) ← mutator (previousEpochParticipation s); Ok (a, with_previousEpochParticipation l s).

(** [Checkpoint] comparisons of the state. *)
Definition MatchCurrentJustifiedCheckpoint (s : BeaconState) (c : Checkpoint) : bool :=
  if negb (Epoch_ c =? Epoch_ (currentJustifiedCheckpoint s)) then false
  else bool_decide (Root c = Root (currentJustifiedCheckpoint s)).

Definition MatchPreviousJustifiedCheckpoint (s : BeaconState) (c : Checkpoint) : bool :=
  if negb (Epoch_ c =? Epoch_ (previousJustifiedCheckpoint s)) then false
  else bool_decide (Root c = Root (previousJustifiedCheckpoint s)).

Section Spec.
Context (cfg : BeaconChainConfig).

Definition ProportionalSlashingMultiplier_of (s : BeaconState) : result Z :=
  if version s =? Zond then Ok (ProportionalSlashingMultiplier cfg)
  else Err (New "ProportionalSlashingMultiplier() is not supported").

Definition InactivityPenaltyQuotient_of (s : BeaconState) : result Z :=
  if version s =? Zond then Ok (InactivityPenaltyQuotient cfg)
  else Err (New "InactivityPenaltyQuotient() is not supported").

(** *** Block roots by slot and epoch ([core/helpers/block.go]) *)

Definition BlockRootAtSlot (s : BeaconState) (sl : Z) : result (list Z) :=
  if MaxUint64 -u sl <? SlotsPerHistoricalRoot cfg then Err (New "slot overflows uint64")
  else if (slot s <=? sl) || (sl +u SlotsPerHistoricalRoot cfg <? slot s) then Err (New "slot out of bounds")
  else i ← umod sl (SlotsPerHistoricalRoot cfg); BlockRootAtIndex s i.

Definition StateRootAtSlot (s : BeaconState) (sl : Z) : result (list Z) :=
  if (slot s <=? sl) || (sl +u SlotsPerHistoricalRoot cfg <? slot s) then Err (New "slot out of bounds")
  else i ← umod sl (SlotsPerHistoricalRoot cfg); StateRootAtIndex s i.

Definition BlockRoot (s : BeaconState) (epoch : Z) : result (list Z) :=
  sl ← EpochStart cfg epoch; BlockRootAtSlot s sl.
End Spec.

(** ** Well-formed states *)

(** The machine words of a validator record. *)
Definition validator_ok (v : Validator) : Prop :=
  u64_ok (EffectiveBalance v) /\ u64_ok (ActivationEligibilityEpoch v) /\ u64_ok (ActivationEpoch v) /\
  u64_ok (ExitEpoch v) /\ u64_ok (WithdrawableEpoch v) /\ RandaoCommitment v <> [].

(** The registry invariant: per-validator lists have one entry per validator,
    and every number is a machine word. *)
Record state_ok (s : BeaconState) : Prop := {
  ok_slot : u64_ok (slot s);
  ok_validators : Forall validator_ok (validators s);
  ok_num : u64_ok (NumValidators s);
  ok_balances : Forall u64_ok (balances s);
  ok_balances_len : length (balances s) = length (validators s);
  ok_scores : Forall u64_ok (inactivityScores s);
  ok_scores_len : length (inactivityScores s) = length (validators s);
  ok_prev_len : length (previousEpochParticipation s) = length (validators s);
  ok_curr_len : length (currentEpochParticipation s) = length (validators s);
  ok_slashings : Forall u64_ok (slashings s);
  ok_bits : 0 <= justificationBits s < 16
}.
