(* ===== verification/Validators.v ===== *)
(** * Validators: status, churn, proposers, exits and slashings

    Models [beacon-chain/core/helpers/validators.go], [randao.go] and
    [rewards_penalties.go], the balance cache of
    [beacon-chain/cache/active_balance.go] and
    [beacon-chain/core/validators/validator.go].

    The process-wide caches are shared with other goroutines, so their content
    at the time of a call is an argument ([Caches]); what a lookup may return
    is stated by the class [CachesOk], which the empty caches and every cache
    reached through [updateCommitteeCache] satisfy.  The writes a call makes to
    the caches are the transitions of [Committee.cache_reachable]. *)

From S2P Require Import Prelude Math Config Slots Bytes Shuffle Committee State.

Record Caches := mkCaches {
  committeeCache : gmap CommitteeKey Committees;
  proposerIndicesCache : gmap (list Z) (list Z);
  balanceCache : gmap (list Z) Z
}.

Definition no_caches : Caches := mkCaches ∅ ∅ ∅.

(** ** Status predicates *)

Definition checkValidatorActiveStatus (activationEpoch exitEpoch epoch : Z) : bool :=
  (activationEpoch <=? epoch) && (epoch <? exitEpoch).

Definition IsActiveValidator (v : Validator) (epoch : Z) : bool :=
  checkValidatorActiveStatus (ActivationEpoch v) (ExitEpoch v) epoch.

Definition IsActiveNonSlashedValidator (v : Validator) (epoch : Z) : bool :=
  IsActiveValidator v epoch && negb (Slashed v).

Definition checkValidatorSlashable (activationEpoch withdrawableEpoch : Z) (slashed : bool) (epoch : Z) : bool :=
  let active := activationEpoch <=? epoch in
  let beforeWithdrawable := epoch <? withdrawableEpoch in
  beforeWithdrawable && active && negb slashed.

Definition IsSlashableValidator (v : Validator) (epoch : Z) : bool :=
  checkValidatorSlashable (ActivationEpoch v) (WithdrawableEpoch v) (Slashed v) epoch.

Section Helpers.
Context (cfg : BeaconChainConfig) {H : Hasher} (caches : Caches).

Definition IsEligibleForActivationQueue (v : Validator) : bool :=
  (ActivationEligibilityEpoch v =? FarFutureEpoch cfg) && (EffectiveBalance v =? MaxEffectiveBalance cfg).

Definition IsEligibleForActivation (s : BeaconState) (v : Validator) : bool :=
  (ActivationEligibilityEpoch v <=? Epoch_ (finalizedCheckpoint s)) && (ActivationEpoch v =? FarFutureEpoch cfg).

(** ** RANDAO seeds *)

Definition RandaoMix (s : BeaconState) (epoch : Z) : result (list Z) :=
  i ← umod epoch (EpochsPerHistoricalVector cfg); RandaoMixAtIndex s i.

Definition Seed (s : BeaconState) (epoch : Z) (domain : list Z) : result (list Z) :=
  let lookAheadEpoch := epoch +u EpochsPerHistoricalVector cfg -u MinSeedLookahead cfg -u 1 in
  randaoMix ← RandaoMix s lookAheadEpoch;
  Ok (hash (domain ++ Bytes8 epoch ++ randaoMix)).

(** ** Active validators *)

Definition activeValidatorIndices (s : BeaconState) (epoch : Z) : result (list Z) :=
  ReadFromEveryValidator s (fun i indices val =>
    if IsActiveValidator val epoch then Ok (indices ++ [i]) else Ok indices) [].

Definition ActiveValidatorIndices (s : BeaconState) (epoch : Z) : result (list Z) :=
  indices ← activeValidatorIndices s epoch;
  if zlen indices =? 0 then Err (New "no active validator indices")
  else if slot s =? 0 then Ok indices
  else
    seed ← wrap "could not get seed" (Seed s epoch (DomainBeaconAttester cfg));
    match Cache_ActiveIndices (committeeCache caches) (NewCommitteeKey cfg seed indices) with
    | Some activeIndices => Ok activeIndices
    | None => Ok indices
    end.

Definition ActiveValidatorCount (s : BeaconState) (epoch : Z) : result Z :=
  indices ← activeValidatorIndices s epoch;
  seed ← wrap "could not get seed" (Seed s epoch (DomainBeaconAttester cfg));
  let activeCount := Cache_ActiveIndicesCount (committeeCache caches) (NewCommitteeKey cfg seed indices) in
  if negb (activeCount =? 0) && negb (slot s =? 0) then Ok activeCount
  else Ok (zlen indices).

Definition BeaconCommitteeFromState (s : BeaconState) (sl committeeIndex : Z) : result (list Z) :=
  epoch ← ToEpoch cfg sl;
  seed ← wrap "could not get seed" (Seed s epoch (DomainBeaconAttester cfg));
  activeIndices ← wrap "could not get active indices" (ActiveValidatorIndices s epoch);
  BeaconCommittee cfg (committeeCache caches) activeIndices seed sl committeeIndex.

Definition ActivationExitEpoch (epoch : Z) : Z := epoch +u 1 +u MaxSeedLookahead cfg.

Definition calculateChurnLimit (activeValidatorCount : Z) : result Z :=
  churnLimit ← udiv activeValidatorCount (ChurnLimitQuotient cfg);
  if churnLimit <? MinPerEpochChurnLimit cfg then Ok (MinPerEpochChurnLimit cfg) else Ok churnLimit.

Definition ValidatorActivationChurnLimit (activeValidatorCount : Z) : result Z :=
  limit ← calculateChurnLimit activeValidatorCount;
  if MaxPerEpochActivationChurnLimit cfg <? limit then Ok (MaxPerEpochActivationChurnLimit cfg) else Ok limit.

Definition ValidatorExitChurnLimit (activeValidatorCount : Z) : result Z :=
  calculateChurnLimit activeValidatorCount.

(** ** Proposers *)

(** One round of the sampling loop: the candidate of round [i], and whether it
    is accepted. *)
Definition proposer_candidate (s : BeaconState) (activeIndices seed : list Z) (i : Z) : result (Z * bool) :=
  let length := zlen activeIndices in
  m ← umod i length;
  sIndex ← ComputeShuffledIndex cfg m length seed true;
  candidateIndex ← idx activeIndices sIndex;
  if NumValidators s <=? candidateIndex then Err (New "active index out of range")
  else
    randomByte ← idx (hash (seed ++ Bytes8 (i / 32))) (i mod 32);
    v ← ValidatorAtIndexReadOnly s candidateIndex;
    Ok (candidateIndex, MaxEffectiveBalance cfg *u randomByte <=? EffectiveBalance v *u 255).

(** [for i := uint64(0); ; i++]: one round per unit of fuel. *)
Fixpoint proposer_loop (fuel : nat) (s : BeaconState) (activeIndices seed : list Z) (i : Z) : result Z :=
  match fuel with
  | O => Panic "proposer sampling did not stop within the fuel"
  | S fuel' =>
      proposer_candidate s activeIndices seed i ≫= fun r : Z * bool =>
      if r.2 then Ok r.1 else proposer_loop fuel' s activeIndices seed (i +u 1)
  end.

Definition ComputeProposerIndex (fuel : nat) (s : BeaconState) (activeIndices seed : list Z) : result Z :=
  if zlen activeIndices =? 0 then Err (New "empty active indices list")
  else proposer_loop fuel s activeIndices seed 0.

(** The cached proposer of a slot of the current epoch, when there is one. *)
Definition cachedProposer (s : BeaconState) (sl e stateEpoch : Z) : result (option Z) :=
  if (e =? stateEpoch) && (GenesisEpoch cfg +u MinSeedLookahead cfg <? e) then
    end_ ← EpochEnd cfg (e -u 1);
    r ← StateRootAtSlot cfg s end_;
    if bool_decide (r = ZeroHash cfg) then Ok None
    else match proposerIndicesCache caches !! r with
         | None => Ok None
         | Some proposerIndices =>
             if negb (zlen proposerIndices =? SlotsPerEpoch cfg)
             then Err (New "length of proposer indices is not equal to slots per epoch")
             else i ← umod sl (SlotsPerEpoch cfg); p ← idx proposerIndices i; Ok (Some p)
         end
  else Ok None.

Definition BeaconProposerIndexAtSlot (fuel : nat) (s : BeaconState) (sl : Z) : result Z :=
  e ← ToEpoch cfg sl;
  stateEpoch ← ToEpoch cfg (slot s);
  if e <? stateEpoch then Err (New "cannot compute proposer using state from later epoch")
  else
    cachedProposer s sl e stateEpoch ≫= fun cached : option Z =>
    match cached with
    | Some p => Ok p
    | None =>
        seed ← wrap "could not generate seed" (Seed s e (DomainBeaconProposer cfg));
        let seedWithSlotHash := hash (seed ++ Bytes8 sl) in
        indices ← wrap "could not get active indices" (ActiveValidatorIndices s e);
        ComputeProposerIndex fuel s indices seedWithSlotHash
    end.

Definition BeaconProposerIndex (fuel : nat) (s : BeaconState) : result Z :=
  BeaconProposerIndexAtSlot fuel s (slot s).

(** ** Balances *)

Definition TotalBalance (s : BeaconState) (indices : list Z) : Z :=
  let total := fold_left (fun total i =>
    match ValidatorAtIndexReadOnly s i with
    | Ok val => total +u EffectiveBalance val
    | _ => total
    end) indices 0 in
  if total <? EffectiveBalanceIncrement cfg then EffectiveBalanceIncrement cfg else total.

Definition balanceCacheKey (s : BeaconState) : result (list Z) :=
  currentEpoch ← Slot.DivSlot (slot s) (SlotsPerEpoch cfg);
  epochStartSlot ← Slot.SafeMul (SlotsPerEpoch cfg) currentEpoch;
  let prevSlot := if 1 <? epochStartSlot then epochStartSlot -u 1 else 0 in
  i ← umod prevSlot (SlotsPerHistoricalRoot cfg);
  r ← BlockRootAtIndex s i;
  Ok (r ++ le_put 8 currentEpoch ++ le_put 8 (NumValidators s)).

(** The sum over the registry, floored at one increment. *)
Definition sumActiveBalance (s : BeaconState) (epoch : Z) : result Z :=
  total ← ReadFromEveryValidator s (fun _ total val =>
    if IsActiveValidator val epoch then Math.Add64 total (EffectiveBalance val) else Ok total) 0;
  Ok (Z.max (EffectiveBalanceIncrement cfg) total).

Definition TotalActiveBalance (s : BeaconState) : result Z :=
  key ← balanceCacheKey s;
  match balanceCache caches !! key with
  | Some bal => Ok bal
  | None => epoch ← ToEpoch cfg (slot s); sumActiveBalance s epoch
  end.

Definition IncreaseBalanceWithVal (currBalance delta : Z) : result Z := Math.Add64 currBalance delta.

Definition IncreaseBalance (s : BeaconState) (i delta : Z) : result BeaconState :=
  balAtIdx ← BalanceAtIndex s i;
  newBal ← IncreaseBalanceWithVal balAtIdx delta;
  UpdateBalancesAtIndex s i newBal.

Definition DecreaseBalanceWithVal (currBalance delta : Z) : Z :=
  if currBalance <? delta then 0 else currBalance -u delta.

Definition DecreaseBalance (s : BeaconState) (i delta : Z) : result BeaconState :=
  balAtIdx ← BalanceAtIndex s i;
  UpdateBalancesAtIndex s i (DecreaseBalanceWithVal balAtIdx delta).

Definition FinalityDelay (prevEpoch finalizedEpoch : Z) : Z := prevEpoch -u finalizedEpoch.

Definition IsInInactivityLeak (prevEpoch finalizedEpoch : Z) : bool :=
  MinEpochsToInactivityPenalty cfg <? FinalityDelay prevEpoch finalizedEpoch.

(** ** Exits and slashings ([core/validators/validator.go]) *)

Definition ValidatorAlreadyExitedErr : error := New "validator already exited".

Definition ValidatorsMaxExitEpochAndChurn (s : BeaconState) : Z * Z :=
  fold_left (fun '(maxExitEpoch, churn) val =>
    let e := ExitEpoch val in
    if negb (e =? FarFutureEpoch cfg) then
      if maxExitEpoch <? e then (e, 1)
      else if e =? maxExitEpoch then (maxExitEpoch, churn +u 1)
      else (maxExitEpoch, churn)
    else (maxExitEpoch, churn)) (validators s) (0, 0).

Definition InitiateValidatorExit (s : BeaconState) (i exitQueueEpoch churn : Z) : result (BeaconState * Z) :=
  currentEpoch ← CurrentEpoch cfg (slot s);
  let exitableEpoch := ActivationExitEpoch currentEpoch in
  let '(exitQueueEpoch, churn) :=
    if exitQueueEpoch <? exitableEpoch then (exitableEpoch, 0) else (exitQueueEpoch, churn) in
  validator ← ValidatorAtIndex s i;
  if negb (ExitEpoch validator =? FarFutureEpoch cfg) then Err ValidatorAlreadyExitedErr
  else
    activeValidatorCount ← wrap "could not get active validator count" (ActiveValidatorCount s currentEpoch);
    currentChurn ← ValidatorExitChurnLimit activeValidatorCount;
    exitQueueEpoch ← (if currentChurn <=? churn then Epoch.SafeAdd exitQueueEpoch 1 else Ok exitQueueEpoch);
    withdrawableEpoch ← Epoch.SafeAddEpoch exitQueueEpoch (MinValidatorWithdrawabilityDelay cfg);
    s' ← UpdateValidatorAtIndex s i
           (with_WithdrawableEpoch withdrawableEpoch (with_ExitEpoch exitQueueEpoch validator));
    Ok (s', exitQueueEpoch).

(** The callers' idiom: an already exited validator leaves the state as it is. *)
Definition exit_or_skip (msg : string) (s : BeaconState) (i : Z) : result BeaconState :=
  let '(maxExitEpoch, churn) := ValidatorsMaxExitEpochAndChurn s in
  match InitiateValidatorExit s i maxExitEpoch churn with
  | Ok (s', _) => Ok s'
  | Err e => if errors_Is e ValidatorAlreadyExitedErr then Ok s else Err (Wrapped msg e)
  | Panic m => Panic m
  end.

(** The second half of [SlashValidator]: the slashings vector, the penalty of
    the offender and the reward of the proposer, who is the whistleblower. *)
Definition slash_funds (fuel : nat) (s : BeaconState)
    (slashedIdx effectiveBalance currentEpoch penaltyQuotient proposerRewardQuotient : Z) : result BeaconState :=
  slashingIdx ← umod currentEpoch (EpochsPerSlashingsVector cfg);
  if zlen (slashings s) <=? slashingIdx then Err (New "slashings index out of range for vector")
  else
    currentSlashing ← idx (slashings s) slashingIdx;
    s ← UpdateSlashingsAtIndex s slashingIdx (currentSlashing +u effectiveBalance);
    penalty ← udiv effectiveBalance penaltyQuotient;
    s ← DecreaseBalance s slashedIdx penalty;
    proposerIdx ← wrap "could not get proposer idx" (BeaconProposerIndex fuel s);
    whistleblowerReward ← udiv effectiveBalance (WhistleBlowerRewardQuotient cfg);
    proposerReward ← udiv whistleblowerReward proposerRewardQuotient;
    s ← IncreaseBalance s proposerIdx proposerReward;
    IncreaseBalance s proposerIdx (whistleblowerReward -u proposerReward).

Definition SlashValidator (fuel : nat) (s : BeaconState) (slashedIdx penaltyQuotient proposerRewardQuotient : Z)
    : result BeaconState :=
  s ← exit_or_skip "could not initiate validator exit" s slashedIdx;
  currentEpoch ← ToEpoch cfg (slot s);
  validator ← ValidatorAtIndex s slashedIdx;
  let maxWithdrawableEpoch :=
    Epoch.MaxEpoch (WithdrawableEpoch validator) (currentEpoch +u EpochsPerSlashingsVector cfg) in
  let validator := with_WithdrawableEpoch maxWithdrawableEpoch (with_Slashed true validator) in
  s ← UpdateValidatorAtIndex s slashedIdx validator;
  slash_funds fuel s slashedIdx (EffectiveBalance validator) currentEpoch penaltyQuotient proposerRewardQuotient.

(** ** Reports on the registry *)

(** The positions appended by a [for i, v := range vals] loop, in order. *)
Fixpoint positions (f : Z -> Validator -> bool) (i : Z) (vals : list Validator) : list Z :=
  match vals with
  | [] => []
  | v :: vals' => if f i v then i :: positions f (i + 1) vals' else positions f (i + 1) vals'
  end.

Definition ActivatedValidatorIndices (epoch : Z) (vals : list Validator) : list Z :=
  positions (fun _ v => ActivationEpoch v =? epoch) 0 vals.

Definition NewlySlashedValidatorIndices (before after : list Validator) : list Z :=
  positions (fun i v =>
    if negb (Slashed v) then false
    else if (i <? zlen before) && (match before !! Z.to_nat i with Some b => Slashed b | None => false end)
    then false else true) 0 after.

Definition ExitedValidatorIndices (epoch : Z) (vals : list Validator) : list Z :=
  positions (fun _ v => (ExitEpoch v =? epoch) && (EjectionBalance cfg <? EffectiveBalance v)) 0 vals.

Definition EjectedValidatorIndices (epoch : Z) (vals : list Validator) : list Z :=
  positions (fun _ v => (ExitEpoch v =? epoch) && (EffectiveBalance v <=? EjectionBalance cfg)) 0 vals.

End Helpers.

(** ** Active indices and counts *)

Definition count_active (epoch : Z) (vals : list Validator) : Z :=
  countb (fun v => IsActiveValidator v epoch) vals.

Lemma collect_positions (f : Z -> Validator -> bool) k acc vals :
  foldMi (fun i l v => if f i v then Ok (l ++ [i]) else Ok l) k acc vals = Ok (acc ++ positions f k vals).
Proof.
  revert k acc. induction vals as [| v vals IH]; intros k acc; cbn [foldMi positions].
  - now rewrite app_nil_r.
  - destruct (f k v); cbn [mbind result_bind]; rewrite IH; [now rewrite <- app_assoc | reflexivity].
Qed.

Lemma activeValidatorIndices_ok s epoch :
  activeValidatorIndices s epoch = Ok (positions (fun _ v => IsActiveValidator v epoch) 0 (validators s)).
Proof. apply (collect_positions (fun _ v => IsActiveValidator v epoch)). Qed.

Lemma elem_of_positions f k vals i :
  i ∈ positions f k vals <-> exists v, 0 <= i - k /\ vals !! Z.to_nat (i - k) = Some v /\ f i v = true.
Proof.
  revert k. induction vals as [| v vals IH]; intros k; cbn [positions].
  - split; [intros []%not_elem_of_nil | intros (? & _ & ? & _); discriminate].
  - assert (i ∈ positions f (k + 1) vals <-> exists w, 1 <= i - k /\ (v :: vals) !! Z.to_nat (i - k) = Some w /\ f i w = true) as Hr.
    { rewrite IH. split; intros (w & Hi & Hl & Hf); exists w; (split; [lia | split; [| done]]).
      - replace (Z.to_nat (i - k)) with (S (Z.to_nat (i - (k + 1)))) by lia. exact Hl.
      - replace (Z.to_nat (i - k)) with (S (Z.to_nat (i - (k + 1)))) in Hl by lia. exact Hl. }
    destruct (f k v) eqn:Hf; rewrite ?elem_of_cons, Hr; split.
    + intros [-> | (w & Hi & Hw)]; [exists v; rewrite Z.sub_diag; cbn; auto with lia | exists w; auto with lia].
    + intros (w & Hi & Hl & Hw). destruct (decide (i = k)); [auto | right; exists w; auto with lia].
    + intros (w & Hi & Hw). exists w. auto with lia.
    + intros (w & Hi & Hl & Hw). destruct (decide (i = k)) as [-> |].
      * rewrite Z.sub_diag in Hl. change (Some v = Some w) in Hl. congruence.
      * exists w. auto with lia.
Qed.

Lemma zlen_positions (f : Validator -> bool) k vals : zlen (positions (fun _ => f) k vals) = countb f vals.
Proof.
  revert k. induction vals as [| v vals IH]; intros k; [reflexivity |]. cbn [positions countb].
  specialize (IH (k + 1)). unfold zlen in *. destruct (f v); cbn [length]; lia.
Qed.

(** *** The committee cache as seen by a request

    A hit for a membership holds that membership.  The empty cache promises it
    trivially, a reachable cache by the absence of hash collisions. *)
Class CacheFaithful (cfg : BeaconChainConfig) {H : Hasher} (caches : Caches) (indices : list Z) : Prop :=
  cache_faithful : forall seed item,
    committeeCache caches !! NewCommitteeKey cfg seed indices = Some item -> SortedIndices item = indices.

#[global] Instance no_caches_faithful cfg {H : Hasher} indices : CacheFaithful cfg no_caches indices.
Proof. intros seed item E. cbn in E. now rewrite lookup_empty in E. Qed.

Lemma reachable_faithful cfg {H : Hasher} {HO : HasherOk H} caches indices :
  0 < SlotsPerEpoch cfg < two64 -> cache_reachable cfg (committeeCache caches) ->
  no_collision cfg (committeeCache caches) indices -> Forall u64_ok indices ->
  CacheFaithful cfg caches indices.
Proof. intros Hspe Hr Hn Hu seed item E. now eapply entry_identified in E as (_ & ? & _). Qed.

Lemma ActiveValidatorCount_ok cfg {H : Hasher} caches s epoch seed :
  CacheFaithful cfg caches (positions (fun _ v => IsActiveValidator v epoch) 0 (validators s)) ->
  Seed cfg s epoch (DomainBeaconAttester cfg) = Ok seed ->
  ActiveValidatorCount cfg caches s epoch = Ok (count_active epoch (validators s)).
Proof.
  intros Hf Hs. unfold ActiveValidatorCount, count_active. rewrite activeValidatorIndices_ok.
  cbn [mbind result_bind]. rewrite Hs. cbn [wrap mbind result_bind].
  unfold Cache_ActiveIndicesCount. rewrite <- (zlen_positions _ 0).
  destruct (_ !! _) as [item |] eqn:E; [| reflexivity].
  apply Hf in E. rewrite E. now destruct (_ && _).
Qed.

(** ** The exit queue *)

(** The quantities of the specification's [initiate_validator_exit]. *)
Definition exits_at (e : Z) (vals : list Validator) : Z := 
  countb (fun v => ExitEpoch v =? e) vals.

Definition max_exit (cfg : BeaconChainConfig) (base : Z) (vals : list Validator) : Z :=
  fold_right (fun v m => if ExitEpoch v =? FarFutureEpoch cfg then m else Z.max (ExitEpoch v) m) base vals.

Definition spec_exit_queue_epoch (cfg : BeaconChainConfig) (vals : list Validator) (current limit : Z) : Z :=
  let exit_queue_epoch := max_exit cfg (ActivationExitEpoch cfg current) vals in
  if limit <=? exits_at exit_queue_epoch vals then exit_queue_epoch + 1 else exit_queue_epoch.

Section ExitQueue.
Context (cfg : BeaconChainConfig) (Hfar : FarFutureEpoch cfg = MaxUint64).

Lemma max_exit_max b vals : max_exit cfg b vals = Z.max b (max_exit cfg b vals).
Proof.
  induction vals as [| v vals IH]; cbn [max_exit fold_right]; [lia |].
  fold (max_exit cfg b vals). destruct (_ =? _); lia.
Qed.

Lemma max_exit_raise a b vals : a <= b -> max_exit cfg b vals = Z.max b (max_exit cfg a vals).
Proof.
  intros Hab. induction vals as [| v vals IH]; cbn [max_exit fold_right]; [lia |].
  fold (max_exit cfg b vals) (max_exit cfg a vals). destruct (_ =? _); lia.
Qed.

Lemma max_exit_snoc b vals v :
  max_exit cfg b (vals ++ [v]) =
  if ExitEpoch v =? FarFutureEpoch cfg then max_exit cfg b vals else Z.max (ExitEpoch v) (max_exit cfg b vals).
Proof.
  unfold max_exit. rewrite fold_right_app. cbn [fold_right]. destruct (_ =? _) eqn:E; [reflexivity |].
  fold (max_exit cfg b vals) (max_exit cfg (Z.max (ExitEpoch v) b) vals).
  rewrite (max_exit_raise b) by lia. rewrite (max_exit_max b vals) at 2. lia.
Qed.

Lemma max_exit_elem b vals v : v ∈ vals -> ExitEpoch v <> FarFutureEpoch cfg -> ExitEpoch v <= max_exit cfg b vals.
Proof.
  induction vals as [| w vals IH]; intros Hv Hf; [now apply not_elem_of_nil in Hv |].
  cbn [max_exit fold_right]. fold (max_exit cfg b vals).
  apply elem_of_cons in Hv as [<- | Hv].
  - destruct (Z.eqb_spec (ExitEpoch v) (FarFutureEpoch cfg)); [contradiction | lia].
  - specialize (IH Hv Hf). destruct (_ =? _); lia.
Qed.

(** Nobody leaves later than the last exit. *)
Lemma exits_after_max b vals e : max_exit cfg b vals < e -> e <> FarFutureEpoch cfg -> exits_at e vals = 0.
Proof.
  intros Hlt Hf. apply countb_zero. intros v Hv. apply Z.eqb_neq. intros He.
  pose proof (max_exit_elem b vals v Hv). lia.
Qed.

Lemma max_exit_lt b vals : 0 <= b < MaxUint64 -> Forall validator_ok vals -> 0 <= max_exit cfg b vals < MaxUint64.
Proof.
  intros Hb. induction 1 as [| v vals (_ & _ & _ & Hv & _) _ IH]; [exact Hb |].
  cbn [max_exit fold_right]. fold (max_exit cfg b vals). rewrite Hfar.
  unfold u64_ok, two64, MaxUint64 in *. destruct (Z.eqb_spec (ExitEpoch v) 18446744073709551615); lia.
Qed.

Lemma max_exit_and_churn s : NumValidators s < two64 -> Forall validator_ok (validators s) ->
  ValidatorsMaxExitEpochAndChurn cfg s =
  (max_exit cfg 0 (validators s), exits_at (max_exit cfg 0 (validators s)) (validators s)).
Proof.
  unfold ValidatorsMaxExitEpochAndChurn, NumValidators. generalize (validators s). clear s.
  induction l as [| v vals IH] using rev_ind; intros Hn Hok; [reflexivity |].
  apply Forall_app in Hok as [Hok Hv]. apply Forall_singleton in Hv as (_ & _ & _ & Hv & _).
  unfold zlen in *. rewrite length_app in Hn. cbn [length] in Hn.
  rewrite fold_left_app. cbn [fold_left]. rewrite IH by (assumption || lia).
  rewrite max_exit_snoc. unfold exits_at in *. rewrite countb_app. cbn [countb]. rewrite Z.add_0_r.
  pose proof (max_exit_lt 0 vals ltac:(unfold MaxUint64; lia) Hok) as Hlt.
  pose proof (countb_bounds (fun v => ExitEpoch v =? max_exit cfg 0 vals) vals) as Hle. unfold zlen, u64_ok in *.
  destruct (Z.eqb_spec (ExitEpoch v) (FarFutureEpoch cfg)) as [E | E]; cbn [negb].
  - destruct (Z.eqb_spec (ExitEpoch v) (max_exit cfg 0 vals)); [lia | f_equal; lia].
  - destruct (Z.ltb_spec (max_exit cfg 0 vals) (ExitEpoch v)) as [Hgt | Hge].
    + rewrite Z.max_l by lia. rewrite Z.eqb_refl. fold (exits_at (ExitEpoch v) vals).
      now rewrite (exits_after_max 0) by assumption.
    + rewrite Z.max_r by lia.
      destruct (Z.eqb_spec (ExitEpoch v) (max_exit cfg 0 vals)); [| f_equal; lia].
      now rewrite u64_small by (unfold u64_ok; lia).
Qed.

Context {H : Hasher} (caches : Caches).
Context (Hdelay : 0 < MinValidatorWithdrawabilityDelay cfg) (Hlook : 0 <= MaxSeedLookahead cfg).
Context (Hquot : 0 < ChurnLimitQuotient cfg) (Hchurn : 1 <= MinPerEpochChurnLimit cfg).

Definition churn_limit (n : Z) : Z := Z.max (MinPerEpochChurnLimit cfg) (n / ChurnLimitQuotient cfg).

Lemma calculateChurnLimit_ok n : calculateChurnLimit cfg n = Ok (churn_limit n).
Proof.
  unfold calculateChurnLimit, churn_limit. rewrite udiv_ok by lia. cbn [mbind result_bind].
  destruct (Z.ltb_spec (n / ChurnLimitQuotient cfg) (MinPerEpochChurnLimit cfg)); f_equal; lia.
Qed.

Lemma normalize_ok v : RandaoCommitment v <> [] -> normalizeRandaoCommitment v = v.
Proof. unfold normalizeRandaoCommitment. now destruct (RandaoCommitment v). Qed.

Lemma at_index_ok {A} msg (l : list A) i a : 0 <= i -> l !! Z.to_nat i = Some a -> at_index msg l i = Ok a.
Proof.
  intros Hi Hl. unfold at_index. pose proof (lookup_lt_Some _ _ _ Hl).
  destruct (Z.leb_spec (zlen l) i); [unfold zlen in *; lia | now apply idx_Some].
Qed.

Lemma update_at_ok {A} msg (l : list A) i a b : 0 <= i -> l !! Z.to_nat i = Some b ->
  update_at msg l i a = Ok (<[Z.to_nat i := a]> l).
Proof.
  intros Hi Hl. unfold update_at. pose proof (lookup_lt_Some _ _ _ Hl).
  destruct (Z.leb_spec (zlen l) i); [unfold zlen in *; lia | apply idx_set_ok; unfold zlen; lia].
Qed.

Lemma queue_head vals current :
  let exitable := ActivationExitEpoch cfg current in
  0 <= exitable < MaxUint64 -> Forall validator_ok vals ->
  (if max_exit cfg 0 vals <? exitable then (exitable, 0) else (max_exit cfg 0 vals, exits_at (max_exit cfg 0 vals) vals)) =
  (max_exit cfg exitable vals, exits_at (max_exit cfg exitable vals) vals).
Proof.
  intros exitable Hex Hok. rewrite (max_exit_raise 0 exitable) by lia.
  destruct (Z.ltb_spec (max_exit cfg 0 vals) exitable).
  - rewrite Z.max_l by lia. rewrite (exits_after_max 0); [reflexivity | lia | lia].
  - now rewrite Z.max_r by lia.
Qed.

(** C9. [InitiateValidatorExit], run on the maximum exit epoch and churn of the
    registry, schedules the exit the specification prescribes: at the back of
    the exit queue, not before the activation-exit delay, and in an epoch that
    then holds no more exits than the churn limit.  Nothing else changes. *)
Theorem exit_queue_spec s i v current sd :
  state_ok s -> CurrentEpoch cfg (slot s) = Ok current -> 0 <= current ->
  0 <= i -> validators s !! Z.to_nat i = Some v -> ExitEpoch v = FarFutureEpoch cfg ->
  Seed cfg s current (DomainBeaconAttester cfg) = Ok sd ->
  CacheFaithful cfg caches (positions (fun _ v => IsActiveValidator v current) 0 (validators s)) ->
  let limit := churn_limit (count_active current (validators s)) in
  let e := spec_exit_queue_epoch cfg (validators s) current limit in
  let vals' := <[Z.to_nat i := with_WithdrawableEpoch (e + MinValidatorWithdrawabilityDelay cfg)
                                  (with_ExitEpoch e v)]> (validators s) in
  current + 1 + MaxSeedLookahead cfg < two64 -> e + MinValidatorWithdrawabilityDelay cfg < two64 ->
  (let '(maxExitEpoch, churn) := ValidatorsMaxExitEpochAndChurn cfg s in
   InitiateValidatorExit cfg caches s i maxExitEpoch churn) = Ok (with_validators vals' s, e) /\
  current + 1 + MaxSeedLookahead cfg <= e /\ exits_at e vals' <= limit.
Proof.
  intros Hok Hcur Hc0 Hi Hv Hfv Hsd Hcf limit e vals' Hlookok Hfit.
  pose proof (ok_validators _ Hok) as Hvs. pose proof (ok_num _ Hok) as [_ Hn].
  assert (ActivationExitEpoch cfg current = current + 1 + MaxSeedLookahead cfg) as Hae.
  { unfold ActivationExitEpoch. rewrite (u64_small (current + 1)) by (unfold u64_ok; lia).
    apply u64_small. unfold u64_ok. lia. }
  assert (max_exit cfg (ActivationExitEpoch cfg current) (validators s) <= e) as Hle
    by (unfold e, spec_exit_queue_epoch; destruct (_ <=? _); lia).
  pose proof (max_exit_max (ActivationExitEpoch cfg current) (validators s)) as Hmm.
  assert (v ∈ validators s) as Hin by now apply list_elem_of_lookup_2 in Hv.
  assert (RandaoCommitment v <> []) as Hrc by (rewrite Forall_forall in Hvs; apply (Hvs v Hin)).
  assert (1 <= limit) as Hl1 by (unfold limit, churn_limit; lia).
  rewrite max_exit_and_churn by assumption. split_and!.
  - unfold InitiateValidatorExit. rewrite Hcur. cbn [mbind result_bind].
    rewrite queue_head; [| rewrite Hae; unfold two64, MaxUint64 in *; lia | assumption].
    unfold ValidatorAtIndex. rewrite (at_index_ok _ _ _ v) by assumption. cbn [mbind result_bind].
    rewrite Hfv, Z.eqb_refl. cbn [negb].
    rewrite (ActiveValidatorCount_ok _ _ _ _ sd) by assumption. cbn [wrap mbind result_bind].
    unfold ValidatorExitChurnLimit. rewrite calculateChurnLimit_ok. cbn [mbind result_bind]. fold limit.
    assert (forall q, (if limit <=? exits_at q (validators s) then q + 1 else q) = e ->
              (if limit <=? exits_at q (validators s) then Epoch.SafeAdd q 1 else Ok q) = Ok e) as Hq.
    { intros q Hq. destruct (limit <=? _); [| now subst].
      unfold Epoch.SafeAdd. rewrite Add64_spec by (unfold u64_ok in *; lia).
      destruct (Z.ltb_spec (q + 1) two64); [now f_equal | lia]. }
    rewrite (Hq _ eq_refl). cbn [mbind result_bind].
    unfold Epoch.SafeAddEpoch, Epoch.SafeAdd. rewrite Add64_spec by (unfold u64_ok; lia).
    destruct (Z.ltb_spec (e + MinValidatorWithdrawabilityDelay cfg) two64); [| lia]. cbn [mbind result_bind].
    unfold UpdateValidatorAtIndex. rewrite normalize_ok by exact Hrc.
    rewrite (update_at_ok _ _ _ _ v) by assumption. reflexivity.
  - lia.
  - unfold vals', exits_at. rewrite (countb_insert _ _ _ v) by assumption. cbn [ExitEpoch with_ExitEpoch with_WithdrawableEpoch].
    rewrite Z.eqb_refl. destruct (Z.eqb_spec (ExitEpoch v) e) as [Hx | _].
    { unfold two64, MaxUint64 in *. lia. }
    fold (exits_at e (validators s)).
    set (q := max_exit cfg (ActivationExitEpoch cfg current) (validators s)) in *.
    assert (e = if limit <=? exits_at q (validators s) then q + 1 else q) as He by reflexivity.
    clear vals'. clearbody e. subst e.
    destruct (Z.leb_spec limit (exits_at q (validators s))); [| lia].
    rewrite (exits_after_max (ActivationExitEpoch cfg current)); [lia | fold q; lia |].
    rewrite Hfar. unfold two64, MaxUint64 in *. lia.
Qed.
End ExitQueue.

(** ** Balance updates *)

Section Balances.
Context (s : BeaconState) (Hb : Forall u64_ok (balances s)).

Lemma at_index_inv {A} msg (l : list A) i a : at_index msg l i = Ok a -> 0 <= i /\ l !! Z.to_nat i = Some a.
Proof. unfold at_index. destruct (_ <=? _); [discriminate |]. apply idx_inv. Qed.

Lemma update_at_inv {A} msg (l l' : list A) i a : update_at msg l i a = Ok l' ->
  0 <= i < zlen l /\ l' = <[Z.to_nat i := a]> l.
Proof. unfold update_at. destruct (_ <=? _); [discriminate |]. apply idx_set_inv. Qed.

Lemma IncreaseBalance_inv i d s' : u64_ok d -> IncreaseBalance s i d = Ok s' ->
  exists b, 0 <= i /\ balances s !! Z.to_nat i = Some b /\ b + d < two64 /\
    s' = with_balances (<[Z.to_nat i := b + d]> (balances s)) s.
Proof.
  unfold IncreaseBalance, BalanceAtIndex, IncreaseBalanceWithVal, UpdateBalancesAtIndex. intros Hd E.
  destruct (at_index _ _ _) as [b | |] eqn:Eb; try discriminate. cbn [mbind result_bind] in E.
  apply at_index_inv in Eb as [Hi Hl]. pose proof (Forall_lookup_1 _ _ _ _ Hb Hl) as Hub.
  rewrite Add64_spec in E by assumption. destruct (Z.ltb_spec (b + d) two64); [| discriminate].
  cbn [mbind result_bind] in E. result_inv.
  match goal with U : update_at _ _ _ _ = Ok _ |- _ => apply update_at_inv in U as [_ ->] end. eauto 10.
Qed.

Lemma DecreaseBalanceWithVal_max b d : u64_ok b -> 0 <= d -> DecreaseBalanceWithVal b d = Z.max 0 (b - d).
Proof.
  unfold DecreaseBalanceWithVal, u64_ok. intros. destruct (Z.ltb_spec b d); [lia |].
  rewrite u64_small by (unfold u64_ok; lia). lia.
Qed.

Lemma DecreaseBalance_inv i d s' : 0 <= d -> DecreaseBalance s i d = Ok s' ->
  exists b, 0 <= i /\ balances s !! Z.to_nat i = Some b /\
    s' = with_balances (<[Z.to_nat i := Z.max 0 (b - d)]> (balances s)) s.
Proof.
  unfold DecreaseBalance, BalanceAtIndex, UpdateBalancesAtIndex. intros Hd E.
  destruct (at_index _ _ _) as [b | |] eqn:Eb; try discriminate. cbn [mbind result_bind] in E.
  apply at_index_inv in Eb as [Hi Hl]. pose proof (Forall_lookup_1 _ _ _ _ Hb Hl) as Hub.
  rewrite DecreaseBalanceWithVal_max in E by assumption. result_inv.
  match goal with U : update_at _ _ _ _ = Ok _ |- _ => apply update_at_inv in U as [_ ->] end. eauto 10.
Qed.
End Balances.

(** ** Slashing *)

Section Slashing.
Context (cfg : BeaconChainConfig) {H : Hasher} (caches : Caches).

Lemma MaxEpoch_max a b : Epoch.MaxEpoch a b = Z.max a b.
Proof. unfold Epoch.MaxEpoch. destruct (Z.ltb_spec b a); lia. Qed.

Lemma Add64_range a b r : Math.Add64 a b = Ok r -> u64_ok r.
Proof.
  unfold Math.Add64, Math.bits_Add64. destruct (0 <? _); [discriminate |]. intros [= <-]. apply u64_range.
Qed.

Lemma max_epoch_range s : Forall validator_ok (validators s) -> u64_ok (ValidatorsMaxExitEpochAndChurn cfg s).1.
Proof.
  unfold ValidatorsMaxExitEpochAndChurn. generalize (validators s).
  induction l as [| v l IH] using rev_ind; intros Hok; [vm_compute; split; congruence |].
  apply Forall_app in Hok as [Hok Hv]. apply Forall_singleton in Hv as (_ & _ & _ & Hv & _).
  rewrite fold_left_app. cbn [fold_left]. destruct (fold_left _ _ _) as [m c]. specialize (IH Hok). cbn [fst] in IH.
  destruct (negb _); [| exact IH]. destruct (_ <? _); [exact Hv |]. now destruct (_ =? _).
Qed.

(** An exit rewrites the exit and withdrawable epochs of one validator that had
    not initiated its exit. *)
Lemma exit_or_skip_inv msg s i s' : Forall validator_ok (validators s) ->
  exit_or_skip cfg caches msg s i = Ok s' -> s' = s \/
  exists v e w, 0 <= i /\ validators s !! Z.to_nat i = Some v /\
    ExitEpoch v = FarFutureEpoch cfg /\ u64_ok e /\ u64_ok w /\
    s' = with_validators (<[Z.to_nat i := with_WithdrawableEpoch w (with_ExitEpoch e v)]> (validators s)) s.
Proof.
  intros Hok. unfold exit_or_skip. pose proof (max_epoch_range s Hok) as Hm.
  destruct (ValidatorsMaxExitEpochAndChurn cfg s) as [m c]. cbn [fst] in Hm.
  destruct (InitiateValidatorExit _ _ _ _ _ _) as [[s1 e1] | e | p] eqn:E; [| | discriminate].
  - intros [= <-]. right. unfold InitiateValidatorExit in E.
    destruct (CurrentEpoch _ _) as [cur | |]; try discriminate. cbn [mbind result_bind] in E.
    destruct (if m <? _ then _ else _) as [q ch] eqn:Eq. unfold ValidatorAtIndex in E.
    assert (u64_ok q) as Hq
      by (destruct (m <? _); injection Eq as <- <-; [unfold ActivationExitEpoch; apply u64_range | exact Hm]).
    destruct (at_index _ _ _) as [v | |] eqn:Ev; try discriminate. cbn [mbind result_bind] in E.
    apply at_index_inv in Ev as [Hi Hv]. destruct (Z.eqb_spec (ExitEpoch v) (FarFutureEpoch cfg)); cbn [negb] in E; [| discriminate].
    destruct (wrap _ _); try discriminate. cbn [mbind result_bind] in E.
    destruct (ValidatorExitChurnLimit _ _) as [lim | |]; try discriminate. cbn [mbind result_bind] in E.
    destruct (if _ <=? ch then _ else _) as [q' | |] eqn:Eq'; try discriminate. cbn [mbind result_bind] in E.
    assert (u64_ok q') as Hq'
      by (destruct (lim <=? ch); [now apply Add64_range in Eq' | injection Eq' as <-; exact Hq]).
    destruct (Epoch.SafeAddEpoch _ _) as [w | |] eqn:Ew; try discriminate. cbn [mbind result_bind] in E.
    apply Add64_range in Ew. unfold UpdateValidatorAtIndex in E.
    rewrite normalize_ok in E by apply (Forall_lookup_1 _ _ _ _ Hok Hv).
    rewrite (update_at_ok _ _ _ _ v Hi Hv) in E. cbn in E. injection E as <- <-.
    exists v, q', w. split_and!; auto.
  - destruct (errors_Is _ _); [| discriminate]. intros [= <-]. now left.
Qed.

(** The record of a validator [v] after its exit was initiated; a validator that has
    already exited keeps its record. *)
Definition exit_record (s : BeaconState) (i : Z) (v v1 : Validator) : Prop :=
  let '(maxExitEpoch, churn) := ValidatorsMaxExitEpochAndChurn cfg s in
  match InitiateValidatorExit cfg caches s i maxExitEpoch churn with
  | Ok (s1, _) => validators s1 !! Z.to_nat i = Some v1
  | _ => v1 = v
  end.

(** The state a slashing acts on after the exit: the exit has changed the epochs of the
    offender only. *)
Lemma exit_or_skip_offender msg s i s' v1 : state_ok s -> exit_or_skip cfg caches msg s i = Ok s' ->
  validators s' !! Z.to_nat i = Some v1 ->
  slot s' = slot s /\ exists v e w, validators s !! Z.to_nat i = Some v /\
    exit_record s i v v1 /\ v1 = with_WithdrawableEpoch w (with_ExitEpoch e v) /\
    forall x, with_validators (<[Z.to_nat i := x]> (validators s')) s' = with_validators (<[Z.to_nat i := x]> (validators s)) s.
Proof.
  intros Hok E Hv1. pose proof E as E0. unfold exit_or_skip in E0. unfold exit_record.
  destruct (ValidatorsMaxExitEpochAndChurn cfg s) as [m c]. destruct (InitiateValidatorExit _ _ _ _ _ _) as [[s1 e1] | e | p]; [| | discriminate].
  - injection E0 as ->. apply exit_or_skip_inv in E as [-> | (v & e & w & Hi & Hv & _ & _ & _ & ->)]; [| | apply Hok].
    + split; [reflexivity |]. exists v1, (ExitEpoch v1), (WithdrawableEpoch v1). split_and!; try assumption; [now destruct v1 | reflexivity].
    + cbn in Hv1 |- *. split; [reflexivity |]. exists v, e, w. rewrite list_lookup_insert_eq in Hv1 by now apply lookup_lt_Some in Hv.
      injection Hv1 as <-. split_and!; try assumption; try reflexivity.
      * now rewrite list_lookup_insert_eq by now apply lookup_lt_Some in Hv.
      * intros x. now rewrite list_insert_insert_eq.
  - destruct (errors_Is _ _); [| discriminate]. injection E0 as <-. split; [reflexivity |].
    exists v1, (ExitEpoch v1), (WithdrawableEpoch v1). split_and!; try assumption; try reflexivity. now destruct v1.
Qed.

(** The funds of a slashing: the penalty is taken from the offender, then the reward is
    paid to the proposer of the state reached. *)
Lemma slash_funds_inv fuel s s' i eff epoch pq rq :
  Forall u64_ok (balances s) -> u64_ok eff -> 0 < pq -> 0 < rq -> 0 < WhistleBlowerRewardQuotient cfg ->
  slash_funds cfg caches fuel s i eff epoch pq rq = Ok s' ->
  exists b x p pb, balances s !! Z.to_nat i = Some b /\
    slashings s !! Z.to_nat (epoch mod EpochsPerSlashingsVector cfg) = Some x /\
    let s3 := with_balances (<[Z.to_nat i := Z.max 0 (b - eff / pq)]> (balances s))
                (with_slashings (<[Z.to_nat (epoch mod EpochsPerSlashingsVector cfg) := x +u eff]> (slashings s)) s) in
    BeaconProposerIndex cfg caches fuel s3 = Ok p /\ balances s3 !! Z.to_nat p = Some pb /\
    pb + eff / WhistleBlowerRewardQuotient cfg < two64 /\
    s' = with_balances (<[Z.to_nat p := pb + eff / WhistleBlowerRewardQuotient cfg]> (balances s3)) s3.
Proof.
  intros Hb Heff Hpq Hrq Hwq E. unfold slash_funds in E.
  destruct (umod _ _) as [k | |] eqn:Ek; try discriminate. cbn [mbind result_bind] in E.
  unfold umod in Ek. destruct (_ =? 0) in Ek; [discriminate |]. injection Ek as <-.
  destruct (_ <=? _); [discriminate |]. destruct (idx _ _) as [x | |] eqn:Ex; try discriminate. cbn [mbind result_bind] in E.
  apply idx_inv in Ex as [Hk Hx]. destruct (UpdateSlashingsAtIndex _ _ _) as [s1 | |] eqn:E1; try discriminate.
  cbn [mbind result_bind] in E. unfold UpdateSlashingsAtIndex in E1. destruct (_ <=? _); [discriminate |].
  destruct (idx_set _ _ _) as [sl | |] eqn:Es; try discriminate. cbn [mbind result_bind] in E1.
  apply idx_set_inv in Es as [_ ->]. injection E1 as <-.
  rewrite (udiv_ok eff pq) in E by lia. cbn [mbind result_bind] in E.
  destruct (DecreaseBalance _ _ _) as [s2 | |] eqn:E2; try discriminate. cbn [mbind result_bind] in E.
  assert (0 <= eff / pq) by (apply Z.div_pos; unfold u64_ok in *; lia).
  apply DecreaseBalance_inv in E2 as (b & Hi & Hbi & ->); [| exact Hb | assumption]. cbn in Hbi.
  match type of E with context [with_balances ?l ?st] => set (s3 := with_balances l st) in * end.
  destruct (BeaconProposerIndex _ _ _ s3) as [p | |] eqn:Ep; try discriminate. cbn [wrap mbind result_bind] in E.
  rewrite (udiv_ok eff) in E by lia. cbn [mbind result_bind] in E.
  set (wr := eff / WhistleBlowerRewardQuotient cfg) in *. assert (u64_ok wr) as Hwr by now apply u64_div_ok.
  rewrite (udiv_ok wr) in E by lia. cbn [mbind result_bind] in E.
  assert (u64_ok b) as Hub by now apply (Forall_lookup_1 _ _ _ _ Hb Hbi).
  assert (Forall u64_ok (balances s3)) as Hb3 by (cbn; apply Forall_insert; [exact Hb | unfold u64_ok in *; lia]).
  destruct (IncreaseBalance s3 p (wr / rq)) as [s4 | |] eqn:E4; try discriminate. cbn [mbind result_bind] in E.
  assert (wr / rq <= wr) as Hle by (apply Z.div_le_upper_bound; unfold u64_ok in *; nia).
  assert (u64_ok (wr / rq)) as Hpr by now apply u64_div_ok.
  rewrite u64_sub_small in E by (unfold u64_ok in *; lia).
  apply IncreaseBalance_inv in E4 as (pb & Hp & Hpb & Hfit & ->); [| exact Hb3 | exact Hpr].
  pose proof (Forall_lookup_1 _ _ _ _ Hb3 Hpb) as Hupb.
  apply IncreaseBalance_inv in E as (pb' & _ & Hpb' & Hfit' & ->);
    [| apply Forall_insert; [exact Hb3 | unfold u64_ok in *; lia] | unfold u64_ok in *; lia].
  change (balances (with_balances ?l ?st)) with l in Hpb' |- *.
  rewrite list_lookup_insert_eq in Hpb' by now apply lookup_lt_Some in Hpb. injection Hpb' as <-.
  exists b, x, p, pb. do 2 (split; [assumption |]). cbv zeta. fold s3. fold wr. split_and!; [assumption.. | lia |].
  rewrite list_insert_insert_eq. replace (pb + wr / rq + (wr - wr / rq)) with (pb + wr) by lia. reflexivity.
Qed.

(** C19. What a slashing does, exactly.  The record of the offender, after its exit has been
    initiated unless it had been before, is flagged and locked at least until the slashings
    window has passed; its effective balance enters the slashings vector; its balance drops
    by the penalty, at most to zero; then the proposer of the state reached, who may be the
    offender, receives the whistleblower reward in full.  Nothing else in the state changes:
    no other record, no other balance, no other field. *)
Theorem slash_validator_effect fuel s s' i pq rq :
  state_ok s -> 0 < pq -> 0 < rq -> 0 < WhistleBlowerRewardQuotient cfg ->
  SlashValidator cfg caches fuel s i pq rq = Ok s' ->
  exists epoch v v1 b x p pb e w,
    ToEpoch cfg (slot s) = Ok epoch /\
    validators s !! Z.to_nat i = Some v /\ balances s !! Z.to_nat i = Some b /\
    slashings s !! Z.to_nat (epoch mod EpochsPerSlashingsVector cfg) = Some x /\
    exit_record s i v v1 /\ v1 = with_WithdrawableEpoch w (with_ExitEpoch e v) /\
    let v' := with_WithdrawableEpoch (Z.max w (epoch +u EpochsPerSlashingsVector cfg)) (with_Slashed true v1) in
    let fined := with_balances (<[Z.to_nat i := Z.max 0 (b - EffectiveBalance v / pq)]> (balances s))
        (with_slashings (<[Z.to_nat (epoch mod EpochsPerSlashingsVector cfg) := x +u EffectiveBalance v]> (slashings s))
        (with_validators (<[Z.to_nat i := v']> (validators s)) s)) in
    let reward := EffectiveBalance v / WhistleBlowerRewardQuotient cfg in
    BeaconProposerIndex cfg caches fuel fined = Ok p /\ balances fined !! Z.to_nat p = Some pb /\ pb + reward < two64 /\
    s' = with_balances (<[Z.to_nat p := pb + reward]> (balances fined)) fined.
Proof.
  intros Hok Hpq Hrq Hwq E. unfold SlashValidator in E.
  destruct (exit_or_skip _ _ _ _ _) as [s1 | |] eqn:E1; try discriminate. cbn [mbind result_bind] in E.
  destruct (ToEpoch cfg (slot s1)) as [epoch | |] eqn:Eep; try discriminate. cbn [mbind result_bind] in E.
  unfold ValidatorAtIndex in E. destruct (at_index _ _ _) as [v1 | |] eqn:Ev; try discriminate. cbn [mbind result_bind] in E.
  apply at_index_inv in Ev as [Hi Hv1].
  destruct (exit_or_skip_offender _ _ _ _ v1 Hok E1 Hv1) as (Hsl & v & e & w & Hv & Hrec & Hv1v & Hins).
  pose proof (Forall_lookup_1 _ _ _ _ (ok_validators _ Hok) Hv) as (Hue & _ & _ & _ & _ & Hrn).
  unfold UpdateValidatorAtIndex in E. rewrite normalize_ok in E by (cbn; rewrite Hv1v; exact Hrn).
  rewrite (update_at_ok _ _ _ _ v1) in E by assumption. cbn [mbind result_bind] in E. rewrite Hins in E.
  apply slash_funds_inv in E as (b & x & p & pb & Hb & Hx & Hp & Hpb & Hfit & ->); try assumption;
    [| exact (ok_balances _ Hok) | rewrite Hv1v; exact Hue].
  assert (WithdrawableEpoch v1 = w) as Hw by now rewrite Hv1v.
  assert (EffectiveBalance v1 = EffectiveBalance v) as Hev by now rewrite Hv1v.
  cbn [EffectiveBalance with_WithdrawableEpoch with_Slashed] in *. rewrite Hev, MaxEpoch_max, Hw in *.
  exists epoch, v, v1, b, x, p, pb, e, w. rewrite <- Hsl. do 6 (split; [assumption |]). cbv zeta.
  split_and!; [assumption.. | reflexivity].
Qed.
End Slashing.

(** ** Proposer sampling *)

Section Proposer.
Context (cfg : BeaconChainConfig) {H : Hasher} (s : BeaconState) (active sd : list Z).

Definition accepted (k p : Z) : Prop := proposer_candidate cfg s active sd k = Ok (p, true).
Definition rejected (k : Z) : Prop := exists q, proposer_candidate cfg s active sd k = Ok (q, false).

Lemma proposer_loop_first fuel i p : 0 <= i -> i + Z.of_nat fuel < two64 ->
  proposer_loop cfg fuel s active sd i = Ok p <->
  exists k, i <= k < i + Z.of_nat fuel /\ accepted k p /\ forall j, i <= j < k -> rejected j.
Proof.
  revert i. induction fuel as [| fuel IH]; intros i Hi Hfit; cbn [proposer_loop].
  { split; [discriminate | intros (k & ? & _); lia]. }
  destruct (proposer_candidate cfg s active sd i) as [[q b] | |] eqn:E; cbn [mbind result_bind fst snd].
  2, 3: split; [discriminate |]; intros (k & Hk & Ha & Hr);
        destruct (Z.eq_dec i k) as [<- | Hne]; [unfold accepted in Ha; congruence |];
        destruct (Hr i) as [q Hq]; [lia | congruence].
  destruct b.
  - split.
    + intros [= <-]. exists i. split_and!; [lia | lia | exact E | lia].
    + intros (k & Hk & Ha & Hr). destruct (Z.eq_dec i k) as [<- | Hne]; [unfold accepted in Ha; congruence |].
      destruct (Hr i) as [q' Hq]; [lia | congruence].
  - rewrite u64_small by (unfold u64_ok; lia). rewrite IH by lia. split; intros (k & Hk & Ha & Hr).
    + exists k. split_and!; [lia | lia | exact Ha |]. intros j Hj.
      destruct (Z.eq_dec i j) as [<- | Hne]; [now exists q | apply Hr; lia].
    + exists k. assert (i <> k) by (intros ->; unfold accepted in Ha; congruence).
      split_and!; [lia | lia | exact Ha |]. intros j Hj. apply Hr. lia.
Qed.

Lemma accepted_elem k p : accepted k p -> p ∈ active.
Proof.
  unfold accepted, proposer_candidate. intros Ha.
  destruct (umod _ _); try discriminate. cbn [mbind result_bind] in Ha.
  destruct (ComputeShuffledIndex _ _ _ _ _); try discriminate. cbn [mbind result_bind] in Ha.
  destruct (idx active _) as [c | |] eqn:Ec; try discriminate. cbn [mbind result_bind] in Ha.
  apply idx_inv in Ec as [_ Hc]. result_inv. now apply list_elem_of_lookup_2 in Hc.
Qed.

(** The sampling of the specification, over unbounded integers: in round [k] the [k]-th
    index of the shuffled list of active validators is drawn, and it is taken if its
    effective balance, relative to the maximal one, is at least the [k]-th random byte
    relative to 255. *)
Definition drawn (k p : Z) : Prop :=
  exists j, ComputeShuffledIndex cfg (k mod zlen active) (zlen active) sd true = Ok j /\ active !! Z.to_nat j = Some p.
Definition random_byte (k : Z) : Z := nth (Z.to_nat (k mod 32)) (hash (sd ++ Bytes8 (k / 32))) 0.
Definition takes (k p : Z) : Prop :=
  exists v, validators s !! Z.to_nat p = Some v /\ MaxEffectiveBalance cfg * random_byte k <= EffectiveBalance v * 255.

(** Every round draws a validator and decides on it as specified. *)
Lemma candidate_ok {HO : HasherOk H} k : 0 <= ShuffleRoundCount cfg <= 255 ->
  active <> [] -> zlen active <= maxShuffleListSize -> 0 <= k -> 0 <= MaxEffectiveBalance cfg ->
  MaxEffectiveBalance cfg * 255 < two64 ->
  (forall i, i ∈ active -> 0 <= i /\ exists v, validators s !! Z.to_nat i = Some v /\ 0 <= EffectiveBalance v <= MaxEffectiveBalance cfg) ->
  exists p v, drawn k p /\ p ∈ active /\ validators s !! Z.to_nat p = Some v /\
    proposer_candidate cfg s active sd k = Ok (p, MaxEffectiveBalance cfg * random_byte k <=? EffectiveBalance v * 255).
Proof.
  intros Hrounds Hne Hmax Hk Hmb Hfit Hall.
  assert (0 < zlen active) as Hpos by (unfold zlen; destruct active; [done | cbn; lia]).
  unfold drawn, proposer_candidate. rewrite umod_ok by lia. cbn [mbind result_bind].
  pose proof (Z.mod_pos_bound k (zlen active) Hpos) as Hkm.
  rewrite ComputeShuffledIndex_ok by assumption. cbn [mbind result_bind].
  destruct (idx_in_range active (permute sd (zlen active) (round_order cfg true) (k mod zlen active))) as [c Hc];
    [now apply permute_range |].
  rewrite Hc. cbn [mbind result_bind]. apply idx_inv in Hc as [_ Hc]. pose proof (list_elem_of_lookup_2 _ _ _ Hc) as Hin.
  destruct (Hall c Hin) as (Hc0 & v & Hv & Hev). pose proof (lookup_lt_Some _ _ _ Hv) as Hlt.
  destruct (Z.leb_spec (NumValidators s) c); [unfold NumValidators, zlen in *; lia |].
  destruct (idx_in_range (hash (sd ++ Bytes8 (k / 32))) (k mod 32)) as [byte Hb];
    [unfold zlen; rewrite hash_length; dlia |].
  rewrite Hb. cbn [mbind result_bind]. apply idx_inv in Hb as [_ Hb].
  pose proof (Forall_lookup_1 _ _ _ _ (hash_bytes _) Hb) as Hbyte. unfold byte_ok in Hbyte.
  unfold ValidatorAtIndexReadOnly. rewrite (at_index_ok _ _ _ v) by assumption. cbn [mbind result_bind].
  rewrite !u64_small by (unfold u64_ok; nia).
  assert (random_byte k = byte) as -> by (unfold random_byte; now apply nth_lookup_Some).
  exists c, v. split_and!; [now eexists | assumption..| reflexivity].
Qed.

Lemma drawn_unique k p q : drawn k p -> drawn k q -> p = q.
Proof. intros (i & Hi & Hp) (j & Hj & Hq). congruence. Qed.

(** C24. The proposer is the one the specification samples: [ComputeProposerIndex] returns
    [p] if and only if some round [k] draws [p] from the shuffled active validators and
    takes it, its effective balance times 255 being at least the maximal balance times the
    random byte of the round, and no earlier round takes the validator it draws.  The
    products are those of unbounded integers.  Assumed are a list of validators of the
    registry that is not empty, effective balances within the maximum, and a maximum whose
    product with 255 fits a word; the rounds are counted by the fuel. *)
Theorem proposer_first_accepted {HO : HasherOk H} fuel p : Z.of_nat fuel < two64 -> 0 <= ShuffleRoundCount cfg <= 255 ->
  active <> [] -> zlen active <= maxShuffleListSize -> 0 <= MaxEffectiveBalance cfg -> MaxEffectiveBalance cfg * 255 < two64 ->
  (forall i, i ∈ active -> 0 <= i /\ exists v, validators s !! Z.to_nat i = Some v /\ 0 <= EffectiveBalance v <= MaxEffectiveBalance cfg) ->
  ComputeProposerIndex cfg fuel s active sd = Ok p <->
  exists k, 0 <= k < Z.of_nat fuel /\ drawn k p /\ takes k p /\ forall j q, 0 <= j < k -> drawn j q -> ~ takes j q.
Proof.
  intros Hfuel Hrounds Hne Hmax Hmb Hfit Hall. unfold ComputeProposerIndex.
  destruct (Z.eqb_spec (zlen active) 0) as [Hz | _]; [destruct active; [done | discriminate] |].
  assert (forall k q, 0 <= k -> accepted k q <-> drawn k q /\ takes k q) as Hacc.
  { intros k q Hk. destruct (candidate_ok k) as (c & v & Hd & _ & Hv & E); try assumption. unfold accepted, takes. rewrite E. split.
    - intros [= <- Hle]. apply Z.leb_le in Hle. eauto.
    - intros (Hq & v' & Hv' & Hle). rewrite (drawn_unique k q c Hq Hd) in *. simplify_eq. apply Z.leb_le in Hle. now rewrite Hle. }
  assert (forall k, 0 <= k -> rejected k <-> forall q, drawn k q -> ~ takes k q) as Hrej.
  { intros k Hk. destruct (candidate_ok k) as (c & v & Hd & _ & Hv & E); try assumption. unfold rejected. rewrite E. split.
    - intros [? [= <- Hgt]] q Hq (v' & Hv' & Hle). rewrite (drawn_unique k q c Hq Hd) in *. simplify_eq. bool_to_prop. lia.
    - intros Hno. exists c. do 2 f_equal. apply Z.leb_gt. apply Z.nle_gt. intros Hle. apply (Hno c Hd). now exists v. }
  rewrite proposer_loop_first by lia. split; intros (k & Hk & Hrest).
  - exists k. destruct Hrest as [Ha Hr]. apply Hacc in Ha as [? ?]; [| lia]. split_and!; try assumption; try lia.
    intros j q Hj. apply (Hrej j ltac:(lia)), Hr. lia.
  - exists k. destruct Hrest as (Hd & Ht & Hr). split_and!; try lia; [apply Hacc; [lia | auto] |].
    intros j Hj. apply Hrej; [lia |]. intros q. apply Hr. lia.
Qed.

Lemma full_balance_accepted {HO : HasherOk H} k : 0 <= ShuffleRoundCount cfg <= 255 ->
  active <> [] -> zlen active <= maxShuffleListSize -> 0 <= k -> 0 <= MaxEffectiveBalance cfg ->
  MaxEffectiveBalance cfg * 255 < two64 ->
  (forall i, i ∈ active -> 0 <= i /\ exists v, validators s !! Z.to_nat i = Some v /\
     EffectiveBalance v = MaxEffectiveBalance cfg) ->
  exists p, accepted k p.
Proof.
  intros Hrounds Hne Hmax Hk Hmb Hfit Hall. destruct (candidate_ok k) as (p & v & _ & Hp & Hv & E); try assumption.
  { intros i Hi. destruct (Hall i Hi) as (? & v & ? & ?). split; [assumption |]. exists v. split; [assumption | lia]. }
  exists p. unfold accepted. rewrite E. destruct (Hall p Hp) as (_ & v' & Hv' & Hev). simplify_eq. do 2 f_equal. apply Z.leb_le.
  pose proof (Forall_lookup_1 _ _ (Z.to_nat (k mod 32)) (random_byte k) (hash_bytes (sd ++ Bytes8 (k / 32)))) as Hbyte.
  unfold byte_ok in Hbyte. rewrite Hev. apply Z.mul_le_mono_nonneg_l; [assumption |].
  enough (random_byte k < 256) by lia. apply Hbyte. unfold random_byte.
  destruct (nth_lookup_or_length (hash (sd ++ Bytes8 (k / 32))) (Z.to_nat (k mod 32)) 0) as [E' | Hlen]; [exact E' |].
  rewrite hash_length in Hlen. pose proof (Z.mod_pos_bound k 32 ltac:(lia)). lia.
Qed.

(** C25. When every active validator has the maximal effective balance, the
    sampling stops in its first round. *)
Theorem proposer_found {HO : HasherOk H} : 0 <= ShuffleRoundCount cfg <= 255 ->
  active <> [] -> zlen active <= maxShuffleListSize -> 0 <= MaxEffectiveBalance cfg ->
  MaxEffectiveBalance cfg * 255 < two64 ->
  (forall i, i ∈ active -> 0 <= i /\ exists v, validators s !! Z.to_nat i = Some v /\
     EffectiveBalance v = MaxEffectiveBalance cfg) ->
  exists p, ComputeProposerIndex cfg 1 s active sd = Ok p /\ p ∈ active.
Proof.
  intros Hrounds Hne Hmax Hmb Hfit Hall.
  destruct (full_balance_accepted 0) as [p Hp]; try assumption; [lia |].
  exists p. split; [| now apply accepted_elem in Hp]. unfold ComputeProposerIndex.
  destruct (Z.eqb_spec (zlen active) 0) as [Hz | _]; [destruct active; [done | discriminate] |].
  apply proposer_loop_first; [lia | reflexivity |]. exists 0. split_and!; auto; lia.
Qed.
End Proposer.

(** ** A concrete state *)

Definition toy_validator (i : Z) : Validator :=
  {| PublicKey := [i]; WithdrawalRecipient := replicate 64 i;
     EffectiveBalance := MaxEffectiveBalance MinimalSpecConfig; Slashed := false;
     ActivationEligibilityEpoch := 0; ActivationEpoch := 0; ExitEpoch := MaxUint64;
     WithdrawableEpoch := MaxUint64; RandaoCommitment := replicate 32 i |}.

Definition toy_checkpoint : Checkpoint := mkCheckpoint 0 (zeros 32).

(** A state of the minimal preset at slot [sl] with the given registry. *)
Definition toy_state (sl : Z) (vals : list Validator) : BeaconState :=
  {| version := Zond; genesisTime := 0; genesisValidatorsRoot := zeros 32; slot := sl;
     fork := mkFork (zeros 4) (zeros 4) 0; latestBlockHeader := mkHeader 0 0 (zeros 32) (zeros 32) (zeros 32);
     blockRoots := replicate (Z.to_nat (SlotsPerHistoricalRoot MinimalSpecConfig)) (zeros 32);
     stateRoots := replicate (Z.to_nat (SlotsPerHistoricalRoot MinimalSpecConfig)) (zeros 32);
     historicalRoots := []; historicalSummaries := [];
     executionData := mkExecutionData (zeros 32) 0 (zeros 32); executionDataVotes := []; executionDepositIndex := 0;
     validators := vals; balances := replicate (length vals) (MaxEffectiveBalance MinimalSpecConfig);
     randaoMixes := replicate (Z.to_nat (EpochsPerHistoricalVector MinimalSpecConfig)) (zeros 32);
     slashings := replicate (Z.to_nat (EpochsPerSlashingsVector MinimalSpecConfig)) 0;
     previousEpochParticipation := replicate (length vals) 0;
     currentEpochParticipation := replicate (length vals) 0; justificationBits := 0;
     previousJustifiedCheckpoint := toy_checkpoint; currentJustifiedCheckpoint := toy_checkpoint;
     finalizedCheckpoint := toy_checkpoint; inactivityScores := replicate (length vals) 0;
     currentSyncCommittee := []; nextSyncCommittee := [];
     latestExecutionPayloadHeader := mkPayloadHeader (zeros 32) (zeros 32) 0 (zeros 32);
     nextWithdrawalIndex := 0; nextWithdrawalValidatorIndex := 0 |}.

Definition toy_registry : list Validator := map toy_validator [0; 1; 2; 3].

Lemma toy_validator_ok i : validator_ok (toy_validator i).
Proof. unfold validator_ok, u64_ok. split_and!; vm_compute; congruence. Qed.

Lemma toy_state_ok sl vals : u64_ok sl -> u64_ok (zlen vals) -> Forall validator_ok vals -> state_ok (toy_state sl vals).
Proof.
  intros Hs Hn Hv. split; cbn; rewrite ?length_replicate; try assumption; try reflexivity.
  all: first [apply Forall_replicate; vm_compute; split; congruence | lia | repeat constructor; vm_compute; congruence].
Qed.

Lemma toy_registry_ok : Forall validator_ok toy_registry.
Proof. repeat constructor; vm_compute; congruence. Qed.

Lemma exit_queue_spec_witness :
  exists s', (let '(m, c) := ValidatorsMaxExitEpochAndChurn MinimalSpecConfig (toy_state 40 toy_registry) in
              @InitiateValidatorExit MinimalSpecConfig toy_hash no_caches (toy_state 40 toy_registry) 2 m c)
             = Ok (s', 10).
Proof.
  destruct (exit_queue_spec MinimalSpecConfig eq_refl (H := toy_hash) no_caches
    ltac:(vm_compute; reflexivity) ltac:(vm_compute; congruence) ltac:(vm_compute; reflexivity)
    ltac:(vm_compute; congruence) (toy_state 40 toy_registry) 2 (toy_validator 2) 5
    (match @Seed MinimalSpecConfig toy_hash (toy_state 40 toy_registry) 5 (DomainBeaconAttester MinimalSpecConfig) with
     | Ok x => x | _ => [] end)) as [E _].
  - apply toy_state_ok; [vm_compute; split; congruence | vm_compute; split; congruence | exact toy_registry_ok].
  - reflexivity.
  - lia.
  - lia.
  - reflexivity.
  - reflexivity.
  - vm_compute. reflexivity.
  - apply no_caches_faithful.
  - vm_compute. reflexivity.
  - vm_compute. reflexivity.
  - eexists. exact E.
Defined.

Definition toy_slashed : result BeaconState :=
  @SlashValidator MinimalSpecConfig toy_hash no_caches 8 (toy_state 40 toy_registry) 1 64 8.

Lemma slash_validator_effect_witness :
  exists s' p pb, toy_slashed = Ok s' /\
    balances s' = <[Z.to_nat p := pb + 40000000000000 / WhistleBlowerRewardQuotient MinimalSpecConfig]>
                  (<[1%nat := 40000000000000 - 40000000000000 / 64]> (balances (toy_state 40 toy_registry))).
Proof.
  destruct toy_slashed as [s' | e | m] eqn:E; [| vm_compute in E; discriminate E ..].
  unfold toy_slashed in E.
  destruct (@slash_validator_effect MinimalSpecConfig toy_hash no_caches 8 (toy_state 40 toy_registry) s' 1 64 8)
    as (ep & v & v1 & b & x & p & pb & ee & w & _ & Hv & Hb & _ & _ & _ & _ & _ & _ & Hs').
  - apply toy_state_ok; [vm_compute; split; congruence | vm_compute; split; congruence | exact toy_registry_ok].
  - lia.
  - lia.
  - vm_compute. reflexivity.
  - exact E.
  - exists s', p, pb. split; [reflexivity |]. rewrite Hs'. vm_compute in Hv, Hb. injection Hv as <-. injection Hb as <-. reflexivity.
Defined.

Lemma proposer_first_accepted_witness : exists p,
  @ComputeProposerIndex MinimalSpecConfig toy_hash 1 (toy_state 40 toy_registry) [0; 1; 2; 3] (zeros 32) = Ok p /\
  @drawn MinimalSpecConfig toy_hash [0; 1; 2; 3] (zeros 32) 0 p /\
  @takes MinimalSpecConfig toy_hash (toy_state 40 toy_registry) (zeros 32) 0 p.
Proof.
  destruct (@ComputeProposerIndex MinimalSpecConfig toy_hash 1 (toy_state 40 toy_registry) [0; 1; 2; 3] (zeros 32))
    as [p | |] eqn:E; [| vm_compute in E; discriminate E ..].
  exists p. split; [reflexivity |].
  apply (@proposer_first_accepted MinimalSpecConfig toy_hash (toy_state 40 toy_registry) [0; 1; 2; 3] (zeros 32) toy_hash_ok 1 p)
    in E as (k & Hk & Hd & Ht & _).
  - assert (k = 0) as -> by lia. split; assumption.
  - reflexivity.
  - vm_compute. split; congruence.
  - discriminate.
  - vm_compute. congruence.
  - vm_compute. congruence.
  - vm_compute. reflexivity.
  - intros i Hi. repeat (apply elem_of_cons in Hi as [-> | Hi]; [split; [lia | eexists; split; [reflexivity | vm_compute; split; congruence]] |]).
    now apply not_elem_of_nil in Hi.
Defined.

Lemma proposer_found_witness : exists p,
  @ComputeProposerIndex MinimalSpecConfig toy_hash 1 (toy_state 40 toy_registry) [0; 1; 2; 3] (zeros 32) = Ok p /\
  p ∈ [0; 1; 2; 3].
Proof.
  apply (@proposer_found MinimalSpecConfig toy_hash (toy_state 40 toy_registry) [0; 1; 2; 3] (zeros 32) toy_hash_ok).
  - vm_compute. split; congruence.
  - discriminate.
  - vm_compute. congruence.
  - vm_compute. congruence.
  - vm_compute. reflexivity.
  - intros i Hi. repeat (apply elem_of_cons in Hi as [-> | Hi]; [split; [lia | eexists; split; reflexivity] |]).
    now apply not_elem_of_nil in Hi.
Defined.
