(* ===== verification/EpochPrecompute.v ===== *)
(** * Epoch precompute, justification and finalization, inactivity and rewards

    Models [beacon-chain/core/epoch/precompute] ([type.go], [attestation.go],
    [reward_penalty.go], [justification_finalization.go]), the participation
    flags of [core/altair/attestation.go], [core/altair/epoch_precompute.go] and
    [beacon-chain/state/stateutil/unrealized_justification.go].

    The four-bit vector of [go-bitfield] is a parameter ([Bitfield]) with its
    documented behaviour as laws ([BitfieldOk]). *)

From S2P Require Import Prelude Math Config Slots Bytes Shuffle Committee State Validators.

(** ** [go-bitfield]'s [Bitvector4] *)

Class Bitfield := {
  Shift : Z -> Z -> Z;
  SetBitAt : Z -> Z -> bool -> Z;
  BitAt : Z -> Z -> bool;
  Bytes0 : Z -> Z
}.

Class BitfieldOk (B : Bitfield) : Prop := {
  Shift_one : forall b, 0 <= b < 16 -> Shift b 1 = Z.land (Z.shiftl b 1) 15;
  SetBitAt_true : forall b i, 0 <= b < 16 -> 0 <= i < 4 -> SetBitAt b i true = Z.lor b (Z.shiftl 1 i);
  BitAt_testbit : forall b i, 0 <= b < 16 -> 0 <= i < 4 -> BitAt b i = Z.testbit b i;
  Bytes0_id : forall b, 0 <= b < 16 -> Bytes0 b = b
}.

(** The four-bit vector as an integer. *)
Definition bv4 : Bitfield := {|
  Shift b i := Z.land (Z.shiftl b i) 15;
  SetBitAt b i v := if v then Z.lor b (Z.shiftl 1 i) else Z.ldiff b (Z.shiftl 1 i);
  BitAt b i := Z.testbit b i;
  Bytes0 b := b
|}.

#[global] Instance bv4_ok : BitfieldOk bv4.
Proof. split; reflexivity. Qed.

(** ** Precomputed records *)

Record PValidator := mkPValidator {
  IsSlashed : bool;
  IsWithdrawableCurrentEpoch : bool;
  IsActiveCurrentEpoch : bool;
  IsActivePrevEpoch : bool;
  IsCurrentEpochAttester : bool;
  IsCurrentEpochTargetAttester : bool;
  IsPrevEpochAttester : bool;
  IsPrevEpochSourceAttester : bool;
  IsPrevEpochTargetAttester : bool;
  IsPrevEpochHeadAttester : bool;
  CurrentEpochEffectiveBalance : Z;
  InclusionSlot : Z;
  InclusionDistance : Z;
  ProposerIndex : Z;
  BeforeEpochTransitionBalance : Z;
  AfterEpochTransitionBalance : Z;
  InactivityScore : Z
}.

Definition pvalidator_eta (v : PValidator) : PValidator :=
  mkPValidator
    (IsSlashed v) (IsWithdrawableCurrentEpoch v) (IsActiveCurrentEpoch v) (IsActivePrevEpoch v)
    (IsCurrentEpochAttester v) (IsCurrentEpochTargetAttester v) (IsPrevEpochAttester v)
    (IsPrevEpochSourceAttester v) (IsPrevEpochTargetAttester v) (IsPrevEpochHeadAttester v)
    (CurrentEpochEffectiveBalance v) (InclusionSlot v) (InclusionDistance v) (ProposerIndex v)
    (BeforeEpochTransitionBalance v) (AfterEpochTransitionBalance v) (InactivityScore v).

Definition with_IsCurrentEpochAttester (x : bool) (v : PValidator) : PValidator :=
  ltac:(replace_field pvalidator_eta v (IsCurrentEpochAttester v) x).
Definition with_IsCurrentEpochTargetAttester (x : bool) (v : PValidator) : PValidator :=
  ltac:(replace_field pvalidator_eta v (IsCurrentEpochTargetAttester v) x).
Definition with_IsPrevEpochAttester (x : bool) (v : PValidator) : PValidator :=
  ltac:(replace_field pvalidator_eta v (IsPrevEpochAttester v) x).
Definition with_IsPrevEpochSourceAttester (x : bool) (v : PValidator) : PValidator :=
  ltac:(replace_field pvalidator_eta v (IsPrevEpochSourceAttester v) x).
Definition with_IsPrevEpochTargetAttester (x : bool) (v : PValidator) : PValidator :=
  ltac:(replace_field pvalidator_eta v (IsPrevEpochTargetAttester v) x).
Definition with_IsPrevEpochHeadAttester (x : bool) (v : PValidator) : PValidator :=
  ltac:(replace_field pvalidator_eta v (IsPrevEpochHeadAttester v) x).
Definition with_BeforeEpochTransitionBalance (x : Z) (v : PValidator) : PValidator :=
  ltac:(replace_field pvalidator_eta v (BeforeEpochTransitionBalance v) x).
Definition with_AfterEpochTransitionBalance (x : Z) (v : PValidator) : PValidator :=
  ltac:(replace_field pvalidator_eta v (AfterEpochTransitionBalance v) x).
Definition with_InactivityScore (x : Z) (v : PValidator) : PValidator :=
  ltac:(replace_field pvalidator_eta v (InactivityScore v) x).

Record Balance := mkBalance {
  ActiveCurrentEpoch : Z;
  ActivePrevEpoch : Z;
  CurrentEpochAttested : Z;
  CurrentEpochTargetAttested : Z;
  PrevEpochAttested : Z;
  PrevEpochTargetAttested : Z;
  PrevEpochHeadAttested : Z
}.

Definition balance_eta (b : Balance) : Balance :=
  mkBalance
    (ActiveCurrentEpoch b) (ActivePrevEpoch b) (CurrentEpochAttested b)
    (CurrentEpochTargetAttested b) (PrevEpochAttested b) (PrevEpochTargetAttested b)
    (PrevEpochHeadAttested b).

Definition with_ActiveCurrentEpoch (x : Z) (b : Balance) : Balance :=
  ltac:(replace_field balance_eta b (ActiveCurrentEpoch b) x).
Definition with_ActivePrevEpoch (x : Z) (b : Balance) : Balance :=
  ltac:(replace_field balance_eta b (ActivePrevEpoch b) x).
Definition with_CurrentEpochAttested (x : Z) (b : Balance) : Balance :=
  ltac:(replace_field balance_eta b (CurrentEpochAttested b) x).
Definition with_CurrentEpochTargetAttested (x : Z) (b : Balance) : Balance :=
  ltac:(replace_field balance_eta b (CurrentEpochTargetAttested b) x).
Definition with_PrevEpochAttested (x : Z) (b : Balance) : Balance :=
  ltac:(replace_field balance_eta b (PrevEpochAttested b) x).
Definition with_PrevEpochTargetAttested (x : Z) (b : Balance) : Balance :=
  ltac:(replace_field balance_eta b (PrevEpochTargetAttested b) x).
Definition with_PrevEpochHeadAttested (x : Z) (b : Balance) : Balance :=
  ltac:(replace_field balance_eta b (PrevEpochHeadAttested b) x).

Definition zeroBalance : Balance := mkBalance 0 0 0 0 0 0 0.

Definition EligibleForRewards (v : PValidator) : bool :=
  IsActivePrevEpoch v || (IsSlashed v && negb (IsWithdrawableCurrentEpoch v)).

(** ** Participation flags *)

Definition HasValidatorFlag (flag flagPosition : Z) : result bool :=
  if 7 <? flagPosition then Err (New "flag position exceeds length")
  else Ok (Z.land (Z.shiftr flag flagPosition) 1 =? 1).

Definition AddValidatorFlag (flag flagPosition : Z) : result Z :=
  if 7 <? flagPosition then Err (New "flag position exceeds length")
  else Ok (Z.lor flag (Z.shiftl 1 flagPosition)).

Section Precompute.
Context (cfg : BeaconChainConfig).

Definition EnsureBalancesLowerBound (b : Balance) : Balance :=
  let ebi := EffectiveBalanceIncrement cfg in
  let b := if ActiveCurrentEpoch b <? ebi then with_ActiveCurrentEpoch ebi b else b in
  let b := if ActivePrevEpoch b <? ebi then with_ActivePrevEpoch ebi b else b in
  let b := if CurrentEpochAttested b <? ebi then with_CurrentEpochAttested ebi b else b in
  let b := if CurrentEpochTargetAttested b <? ebi then with_CurrentEpochTargetAttested ebi b else b in
  let b := if PrevEpochAttested b <? ebi then with_PrevEpochAttested ebi b else b in
  let b := if PrevEpochTargetAttested b <? ebi then with_PrevEpochTargetAttested ebi b else b in
  if PrevEpochHeadAttested b <? ebi then with_PrevEpochHeadAttested ebi b else b.

Definition update_balance_one (b : Balance) (v : PValidator) : Balance :=
  if negb (IsSlashed v) then
    let eb := CurrentEpochEffectiveBalance v in
    let b := if IsCurrentEpochAttester v then with_CurrentEpochAttested (CurrentEpochAttested b +u eb) b else b in
    let b := if IsCurrentEpochTargetAttester v
             then with_CurrentEpochTargetAttested (CurrentEpochTargetAttested b +u eb) b else b in
    let b := if IsPrevEpochSourceAttester v then with_PrevEpochAttested (PrevEpochAttested b +u eb) b else b in
    let b := if IsPrevEpochTargetAttester v
             then with_PrevEpochTargetAttested (PrevEpochTargetAttested b +u eb) b else b in
    if IsPrevEpochHeadAttester v then with_PrevEpochHeadAttested (PrevEpochHeadAttested b +u eb) b else b
  else b.

Definition UpdateBalance (vp : list PValidator) (bBal : Balance) : Balance :=
  EnsureBalancesLowerBound (fold_left update_balance_one vp bBal).

(** ** Initialisation from the state *)

Definition precompute_one (currentEpoch : Z) (val : Validator) (score : Z) (activeCurrent activePrev : bool)
    : PValidator :=
  {| IsSlashed := Slashed val;
     IsWithdrawableCurrentEpoch := WithdrawableEpoch val <=? currentEpoch;
     IsActiveCurrentEpoch := activeCurrent; IsActivePrevEpoch := activePrev;
     IsCurrentEpochAttester := false; IsCurrentEpochTargetAttester := false;
     IsPrevEpochAttester := false; IsPrevEpochSourceAttester := false;
     IsPrevEpochTargetAttester := false; IsPrevEpochHeadAttester := false;
     CurrentEpochEffectiveBalance := EffectiveBalance val;
     InclusionSlot := 0; InclusionDistance := 0; ProposerIndex := 0;
     BeforeEpochTransitionBalance := 0; AfterEpochTransitionBalance := 0;
     InactivityScore := score |}.

(** The callback of [ReadFromEveryValidator]. *)
Definition initialize_one (scores : list Z) (prevEpoch currentEpoch i : Z) (acc : list PValidator * Balance)
    (val : Validator) : result (list PValidator * Balance) :=
  let '(vals, bal) := acc in
  score ← idx scores i;
  let activeCurrent := IsActiveValidator val currentEpoch in
  let activePrev := IsActiveValidator val prevEpoch in
  ac ← (if activeCurrent then Math.Add64 (ActiveCurrentEpoch bal) (EffectiveBalance val)
        else Ok (ActiveCurrentEpoch bal));
  ap ← (if activePrev then Math.Add64 (ActivePrevEpoch bal) (EffectiveBalance val)
        else Ok (ActivePrevEpoch bal));
  Ok (vals ++ [precompute_one currentEpoch val score activeCurrent activePrev],
      with_ActivePrevEpoch ap (with_ActiveCurrentEpoch ac bal)).

Definition InitializePrecomputeValidators (s : BeaconState) : result (list PValidator * Balance) :=
  prevEpoch ← PrevEpoch cfg (slot s);
  currentEpoch ← CurrentEpoch cfg (slot s);
  let scores := inactivityScores s in
  if negb (NumValidators s =? zlen scores)
  then Err (New "num of validators is different than num of inactivity scores")
  else
    wrap "could not read every validator"
      (ReadFromEveryValidator s (initialize_one scores prevEpoch currentEpoch) ([], zeroBalance)).

(** ** Participation *)

(** [if has && vals[i].<active> { vals[i].<flags> = true }]: the record is only
    read when the flag is set. *)
Definition mark (has : bool) (i : Z) (active : PValidator -> bool) (set : PValidator -> PValidator)
    (vals : list PValidator) : result (list PValidator) :=
  if has then v ← idx vals i; if active v then idx_set vals i (set v) else Ok vals
  else Ok vals.

Definition current_participation (i : Z) (vals : list PValidator) (b : Z) : result (list PValidator) :=
  has ← HasValidatorFlag b (TimelySourceFlagIndex cfg);
  vals ← mark has i IsActiveCurrentEpoch (with_IsCurrentEpochAttester true) vals;
  has ← HasValidatorFlag b (TimelyTargetFlagIndex cfg);
  mark has i IsActiveCurrentEpoch
    (fun v => with_IsCurrentEpochTargetAttester true (with_IsCurrentEpochAttester true v)) vals.

Definition previous_participation (i : Z) (vals : list PValidator) (b : Z) : result (list PValidator) :=
  has ← HasValidatorFlag b (TimelySourceFlagIndex cfg);
  vals ← mark has i IsActivePrevEpoch
           (fun v => with_IsPrevEpochSourceAttester true (with_IsPrevEpochAttester true v)) vals;
  has ← HasValidatorFlag b (TimelyTargetFlagIndex cfg);
  vals ← mark has i IsActivePrevEpoch
           (fun v => with_IsPrevEpochTargetAttester true (with_IsPrevEpochAttester true v)) vals;
  has ← HasValidatorFlag b (TimelyHeadFlagIndex cfg);
  mark has i IsActivePrevEpoch (with_IsPrevEpochHeadAttester true) vals.

Definition ProcessEpochParticipation (s : BeaconState) (bal : Balance) (vals : list PValidator)
    : result (list PValidator * Balance) :=
  vals ← foldMi current_participation 0 vals (currentEpochParticipation s);
  vals ← foldMi previous_participation 0 vals (previousEpochParticipation s);
  Ok (vals, UpdateBalance vals bal).

(** ** Justification and finalization *)

Context {B : Bitfield}.

Definition processJustificationBits (s : BeaconState)
    (totalActiveBalance prevEpochTargetBalance currEpochTargetBalance : Z) : Z :=
  let newBits := Shift (justificationBits s) 1 in
  let newBits := if 2 *u totalActiveBalance <=? 3 *u prevEpochTargetBalance then SetBitAt newBits 1 true else newBits in
  if 2 *u totalActiveBalance <=? 3 *u currEpochTargetBalance then SetBitAt newBits 0 true else newBits.

Definition newJustified (s : BeaconState) (newBits prevEpoch currentEpoch : Z) : result Checkpoint :=
  let justifiedCheckpoint := currentJustifiedCheckpoint s in
  if BitAt newBits 0 && (Epoch_ justifiedCheckpoint <=? currentEpoch) then
    blockRoot ← wrap "could not get block root for current epoch" (BlockRoot cfg s currentEpoch);
    Ok (mkCheckpoint currentEpoch blockRoot)
  else if BitAt newBits 1 && (Epoch_ justifiedCheckpoint <=? prevEpoch) then
    blockRoot ← wrap "could not get block root for previous epoch" (BlockRoot cfg s prevEpoch);
    Ok (mkCheckpoint prevEpoch blockRoot)
  else Ok justifiedCheckpoint.

Definition newFinalized (s : BeaconState) (justification currentEpoch : Z) : Checkpoint :=
  let oldPrev := previousJustifiedCheckpoint s in
  let oldCurr := currentJustifiedCheckpoint s in
  let has (mask : Z) := Z.land justification mask =? mask in
  let fc := finalizedCheckpoint s in
  let fc := if has 14 && (Epoch_ oldPrev +u 3 =? currentEpoch) then oldPrev else fc in
  let fc := if has 6 && (Epoch_ oldPrev +u 2 =? currentEpoch) then oldPrev else fc in
  let fc := if has 7 && (Epoch_ oldCurr +u 2 =? currentEpoch) then oldCurr else fc in
  if has 3 && (Epoch_ oldCurr +u 1 =? currentEpoch) then oldCurr else fc.

Definition computeCheckpoints (s : BeaconState) (newBits : Z) : result (Checkpoint * Checkpoint) :=
  prevEpoch ← PrevEpoch cfg (slot s);
  currentEpoch ← CurrentEpoch cfg (slot s);
  justifiedCheckpoint ← newJustified s newBits prevEpoch currentEpoch;
  Ok (justifiedCheckpoint, newFinalized s (Bytes0 newBits) currentEpoch).

Definition weighJustificationAndFinalization (s : BeaconState) (newBits : Z) : result BeaconState :=
  computeCheckpoints s newBits ≫= fun r : Checkpoint * Checkpoint => let '(jc, fc) := r in
  let s' := with_previousJustifiedCheckpoint (currentJustifiedCheckpoint s) s in
  let s' := with_currentJustifiedCheckpoint jc s' in
  let s' := with_justificationBits newBits s' in
  Ok (with_finalizedCheckpoint fc s').

Definition ProcessJustificationAndFinalizationPreCompute (s : BeaconState) (pBal : Balance) : result BeaconState :=
  canProcessSlot ← EpochStart cfg 2;
  if slot s <=? canProcessSlot then Ok s
  else
    let newBits := processJustificationBits s (ActiveCurrentEpoch pBal) (PrevEpochTargetAttested pBal)
                     (CurrentEpochTargetAttested pBal) in
    weighJustificationAndFinalization s newBits.

(** *** Unrealized checkpoints *)

Definition ensureLowerBound (activeCurrEpoch prevTargetAttested currTargetAttested : Z) : Z * Z * Z :=
  let ebi := EffectiveBalanceIncrement cfg in
  (if activeCurrEpoch <? ebi then ebi else activeCurrEpoch,
   if prevTargetAttested <? ebi then ebi else prevTargetAttested,
   if currTargetAttested <? ebi then ebi else currTargetAttested).

Definition unrealized_one (cp pp : list Z) (currentEpoch i : Z) (acc : Z * Z * Z) (v : Validator)
    : result (Z * Z * Z) :=
  let '(activeBalance, prevTarget, currentTarget) := acc in
  let activeCurrent := (ActivationEpoch v <=? currentEpoch) && (currentEpoch <? ExitEpoch v) in
  activeBalance ← (if activeCurrent then Math.Add64 activeBalance (EffectiveBalance v) else Ok activeBalance);
  if Slashed v then Ok (activeBalance, prevTarget, currentTarget)
  else
    cpi ← (if activeCurrent then idx cp i else Ok 0);
    currentTarget ← (if activeCurrent && (Z.land (Z.shiftr cpi (TimelyTargetFlagIndex cfg)) 1 =? 1)
                     then Math.Add64 currentTarget (EffectiveBalance v) else Ok currentTarget);
    let activePrevious := (ActivationEpoch v <? currentEpoch) && (currentEpoch <=? ExitEpoch v) in
    ppi ← (if activePrevious then idx pp i else Ok 0);
    prevTarget ← (if activePrevious && (Z.land (Z.shiftr ppi (TimelyTargetFlagIndex cfg)) 1 =? 1)
                  then Math.Add64 prevTarget (EffectiveBalance v) else Ok prevTarget);
    Ok (activeBalance, prevTarget, currentTarget).

Definition UnrealizedCheckpointBalances (cp pp : list Z) (vals : list Validator) (currentEpoch : Z)
    : result (Z * Z * Z) :=
  if (zlen cp <? zlen vals) || (zlen pp <? zlen vals)
  then Err (New "participation does not match validator set")
  else
    foldMi (unrealized_one cp pp currentEpoch) 0 (0, 0, 0) vals ≫= fun r : Z * Z * Z =>
    let '(activeBalance, prevTarget, currentTarget) := r in
    Ok (ensureLowerBound activeBalance prevTarget currentTarget).

Definition UnrealizedCheckpoints (s : BeaconState) : result (Checkpoint * Checkpoint) :=
  epoch ← ToEpoch cfg (slot s);
  if epoch <=? GenesisEpoch cfg +u 1 then Ok (currentJustifiedCheckpoint s, finalizedCheckpoint s)
  else
    currentEpoch ← CurrentEpoch cfg (slot s);
    UnrealizedCheckpointBalances (currentEpochParticipation s) (previousEpochParticipation s) (validators s)
      currentEpoch ≫= fun r : Z * Z * Z =>
    let '(activeBalance, prevTarget, currentTarget) := r in
    computeCheckpoints s (processJustificationBits s activeBalance prevTarget currentTarget).
End Precompute.

(** ** What the precomputation computes *)

Section Totals.
Context (cfg : BeaconChainConfig).
Context (Hsrc : TimelySourceFlagIndex cfg <= 7) (Htgt : TimelyTargetFlagIndex cfg <= 7)
        (Hhead : TimelyHeadFlagIndex cfg <= 7).

Definition has_flag (b i : Z) : bool := Z.land (Z.shiftr b i) 1 =? 1.

Definition active_sum (act : Validator -> bool) (vals : list Validator) : Z :=
  zsum (map (fun v => if act v then EffectiveBalance v else 0) vals).

(** The effective balance of the active, unslashed validators that set the flag. *)
Fixpoint flag_sum (flag : Z) (act : Validator -> bool) (bits : list Z) (vals : list Validator) : Z :=
  match bits, vals with
  | b :: bits', v :: vals' =>
      (if act v && negb (Slashed v) && has_flag b flag then EffectiveBalance v else 0)
      + flag_sum flag act bits' vals'
  | _, _ => 0
  end.

Definition balance_sum (vals : list Validator) : Z := zsum (map EffectiveBalance vals).

Lemma active_sum_bounds act vals : Forall validator_ok vals -> 0 <= active_sum act vals <= balance_sum vals.
Proof.
  unfold active_sum, balance_sum, zsum.
  induction 1 as [| v vals [[Hv _] _] _ IH]; cbn [map fold_right]; [lia |]. destruct (act v); lia.
Qed.

Lemma flag_sum_bounds flag act bits vals : Forall validator_ok vals -> 0 <= flag_sum flag act bits vals <= balance_sum vals.
Proof.
  unfold balance_sum, zsum. intros Hok. revert bits.
  induction Hok as [| v vals [[Hv _] _] Hok IH]; intros [| b bits]; cbn [flag_sum map fold_right]; try lia.
  - pose proof (active_sum_bounds (fun _ => true) vals Hok). unfold active_sum, balance_sum, zsum in *. lia.
  - specialize (IH bits). destruct (_ && _); lia.
Qed.

(** The record of a validator after the two participation loops. *)
Definition mark_current (b : Z) (v : PValidator) : PValidator :=
  let v := if has_flag b (TimelySourceFlagIndex cfg) && IsActiveCurrentEpoch v
           then with_IsCurrentEpochAttester true v else v in
  if has_flag b (TimelyTargetFlagIndex cfg) && IsActiveCurrentEpoch v
  then with_IsCurrentEpochTargetAttester true (with_IsCurrentEpochAttester true v) else v.

Definition mark_previous (b : Z) (v : PValidator) : PValidator :=
  let v := if has_flag b (TimelySourceFlagIndex cfg) && IsActivePrevEpoch v
           then with_IsPrevEpochSourceAttester true (with_IsPrevEpochAttester true v) else v in
  let v := if has_flag b (TimelyTargetFlagIndex cfg) && IsActivePrevEpoch v
           then with_IsPrevEpochTargetAttester true (with_IsPrevEpochAttester true v) else v in
  if has_flag b (TimelyHeadFlagIndex cfg) && IsActivePrevEpoch v
  then with_IsPrevEpochHeadAttester true v else v.

Lemma HasValidatorFlag_ok b i : i <= 7 -> HasValidatorFlag b i = Ok (has_flag b i).
Proof. unfold HasValidatorFlag. intros. destruct (Z.ltb_spec 7 i); [lia | reflexivity]. Qed.

Lemma mark_ok has i act set (l : list PValidator) v : 0 <= i -> l !! Z.to_nat i = Some v ->
  mark has i act set l = Ok (<[Z.to_nat i := if has && act v then set v else v]> l).
Proof.
  intros Hi Hl. unfold mark. destruct has; cbn [andb]; [| now rewrite list_insert_id].
  rewrite (idx_Some l i v) by assumption. cbn [mbind result_bind].
  destruct (act v); [| now rewrite list_insert_id].
  apply idx_set_ok. pose proof (lookup_lt_Some _ _ _ Hl). unfold zlen. lia.
Qed.

Ltac mark_step := erewrite mark_ok; [| assumption |
  first [eassumption | apply list_lookup_insert_eq; rewrite ?length_insert; eapply lookup_lt_Some; eassumption]].

Lemma current_participation_ok i v b l : 0 <= i -> l !! Z.to_nat i = Some v ->
  current_participation cfg i l b = Ok (<[Z.to_nat i := mark_current b v]> l).
Proof.
  intros Hi Hl. unfold current_participation.
  rewrite !HasValidatorFlag_ok by assumption. cbn [mbind result_bind]. mark_step. cbn [mbind result_bind].
  mark_step. now rewrite list_insert_insert_eq.
Qed.

Lemma previous_participation_ok i v b l : 0 <= i -> l !! Z.to_nat i = Some v ->
  previous_participation cfg i l b = Ok (<[Z.to_nat i := mark_previous b v]> l).
Proof.
  intros Hi Hl. unfold previous_participation.
  rewrite !HasValidatorFlag_ok by assumption. cbn [mbind result_bind]. mark_step. cbn [mbind result_bind].
  mark_step. cbn [mbind result_bind]. mark_step. now rewrite !list_insert_insert_eq.
Qed.

Lemma Add64_fits x d : 0 <= x -> 0 <= d -> x + d < two64 -> Math.Add64 x d = Ok (x + d).
Proof.
  intros. rewrite Add64_spec by (unfold u64_ok; lia). destruct (Z.ltb_spec (x + d) two64); [reflexivity | lia].
Qed.

(** *** The initial records and active balances *)

Lemma initialize_fold cur prev vals : forall k scores acc bal,
  length (drop k scores) = length vals -> (k <= length scores)%nat -> Forall validator_ok vals ->
  0 <= ActiveCurrentEpoch bal -> 0 <= ActivePrevEpoch bal ->
  ActiveCurrentEpoch bal + balance_sum vals < two64 -> ActivePrevEpoch bal + balance_sum vals < two64 ->
  foldMi (initialize_one scores prev cur) (Z.of_nat k) (acc, bal) vals =
  Ok (acc ++ zip_with (fun v sc => precompute_one cur v sc (IsActiveValidator v cur) (IsActiveValidator v prev))
               vals (drop k scores),
      with_ActivePrevEpoch (ActivePrevEpoch bal + active_sum (fun v => IsActiveValidator v prev) vals)
        (with_ActiveCurrentEpoch (ActiveCurrentEpoch bal + active_sum (fun v => IsActiveValidator v cur) vals) bal)).
Proof.
  induction vals as [| v vals IH]; intros k scores acc bal Hlen Hk Hok Ha Hp Hca Hcp.
  - cbn [foldMi zip_with]. unfold active_sum, zsum. cbn [map fold_right]. rewrite app_nil_r, !Z.add_0_r. now destruct bal.
  - destruct (drop k scores) as [| sc rest] eqn:Ed; [discriminate |].
    assert (scores !! k = Some sc) as Hsc
      by (rewrite <- (Nat.add_0_r k), <- lookup_drop, Ed; reflexivity).
    pose proof (lookup_lt_Some _ _ _ Hsc) as Hlt.
    assert (drop (S k) scores = rest) as Ed'
      by (rewrite <- (Nat.add_1_r k), <- drop_drop, Ed; reflexivity).
    apply Forall_cons in Hok as [[[Hv0 Hv1] _] Hok'].
    pose proof (active_sum_bounds (fun v => IsActiveValidator v cur) vals Hok') as Hbc.
    unfold balance_sum, zsum in *. cbn [map fold_right] in Hca, Hcp.
    set (ac := if IsActiveValidator v cur then ActiveCurrentEpoch bal + EffectiveBalance v else ActiveCurrentEpoch bal).
    set (ap := if IsActiveValidator v prev then ActivePrevEpoch bal + EffectiveBalance v else ActivePrevEpoch bal).
    assert (initialize_one scores prev cur (Z.of_nat k) (acc, bal) v =
      Ok (acc ++ [precompute_one cur v sc (IsActiveValidator v cur) (IsActiveValidator v prev)],
          with_ActivePrevEpoch ap (with_ActiveCurrentEpoch ac bal))) as Hone.
    { unfold initialize_one. rewrite (idx_Some scores (Z.of_nat k) sc) by (lia || now rewrite Nat2Z.id).
      cbn [mbind result_bind]. rewrite !Add64_fits by lia.
      unfold ac, ap. now destruct (IsActiveValidator v cur), (IsActiveValidator v prev). }
    cbn [foldMi zip_with]. rewrite Hone.
    cbn [mbind result_bind]. replace (Z.of_nat k + 1) with (Z.of_nat (S k)) by lia.
    rewrite (IH (S k) scores); try assumption;
      try (unfold ac, ap; cbn; destruct (IsActiveValidator v cur), (IsActiveValidator v prev); lia).
    + rewrite <- app_assoc, Ed'. cbn [app]. do 2 f_equal. unfold active_sum, zsum, ac, ap. destruct bal. unfold with_ActivePrevEpoch, with_ActiveCurrentEpoch. cbn.
      f_equal; [destruct (IsActiveValidator v cur); lia | destruct (IsActiveValidator v prev); lia].
    + rewrite Ed'. cbn in Hlen. lia.
Qed.
(** *** The attested balances *)

Definition row (cur prev : Z) (v : Validator) (sc bc bp : Z) : PValidator :=
  mark_previous bp (mark_current bc (precompute_one cur v sc (IsActiveValidator v cur) (IsActiveValidator v prev))).

Lemma mark_current_spec b v : let r := mark_current b v in
  IsSlashed r = IsSlashed v /\ CurrentEpochEffectiveBalance r = CurrentEpochEffectiveBalance v /\
  InactivityScore r = InactivityScore v /\ IsActivePrevEpoch r = IsActivePrevEpoch v /\
  IsWithdrawableCurrentEpoch r = IsWithdrawableCurrentEpoch v /\
  IsCurrentEpochTargetAttester r =
    (IsActiveCurrentEpoch v && has_flag b (TimelyTargetFlagIndex cfg)) || IsCurrentEpochTargetAttester v /\
  IsPrevEpochSourceAttester r = IsPrevEpochSourceAttester v /\
  IsPrevEpochTargetAttester r = IsPrevEpochTargetAttester v /\
  IsPrevEpochHeadAttester r = IsPrevEpochHeadAttester v.
Proof.
  destruct v as [? ? a]. cbv zeta. unfold mark_current.
  destruct a, (has_flag b (TimelySourceFlagIndex cfg)), (has_flag b (TimelyTargetFlagIndex cfg));
    cbn; split_and!; reflexivity.
Qed.

Lemma mark_previous_spec b v : let r := mark_previous b v in
  IsSlashed r = IsSlashed v /\ CurrentEpochEffectiveBalance r = CurrentEpochEffectiveBalance v /\
  InactivityScore r = InactivityScore v /\ IsActivePrevEpoch r = IsActivePrevEpoch v /\
  IsWithdrawableCurrentEpoch r = IsWithdrawableCurrentEpoch v /\
  IsCurrentEpochTargetAttester r = IsCurrentEpochTargetAttester v /\
  IsPrevEpochSourceAttester r =
    (IsActivePrevEpoch v && has_flag b (TimelySourceFlagIndex cfg)) || IsPrevEpochSourceAttester v /\
  IsPrevEpochTargetAttester r =
    (IsActivePrevEpoch v && has_flag b (TimelyTargetFlagIndex cfg)) || IsPrevEpochTargetAttester v /\
  IsPrevEpochHeadAttester r =
    (IsActivePrevEpoch v && has_flag b (TimelyHeadFlagIndex cfg)) || IsPrevEpochHeadAttester v.
Proof.
  destruct v as [? ? ? a]. cbv zeta. unfold mark_previous.
  destruct a, (has_flag b (TimelySourceFlagIndex cfg)), (has_flag b (TimelyTargetFlagIndex cfg)),
    (has_flag b (TimelyHeadFlagIndex cfg)); cbn; split_and!; reflexivity.
Qed.

Lemma row_spec cur prev v sc bc bp :
  let r := row cur prev v sc bc bp in
  let a := IsActiveValidator v cur in let p := IsActiveValidator v prev in
  IsSlashed r = Slashed v /\ CurrentEpochEffectiveBalance r = EffectiveBalance v /\ InactivityScore r = sc /\
  IsActivePrevEpoch r = p /\ IsWithdrawableCurrentEpoch r = (WithdrawableEpoch v <=? cur) /\
  IsCurrentEpochTargetAttester r = a && has_flag bc (TimelyTargetFlagIndex cfg) /\
  IsPrevEpochSourceAttester r = p && has_flag bp (TimelySourceFlagIndex cfg) /\
  IsPrevEpochTargetAttester r = p && has_flag bp (TimelyTargetFlagIndex cfg) /\
  IsPrevEpochHeadAttester r = p && has_flag bp (TimelyHeadFlagIndex cfg).
Proof.
  cbv zeta. unfold row.
  destruct (mark_previous_spec bp (mark_current bc (precompute_one cur v sc (IsActiveValidator v cur) (IsActiveValidator v prev))))
    as (-> & -> & -> & -> & -> & -> & -> & -> & ->).
  destruct (mark_current_spec bc (precompute_one cur v sc (IsActiveValidator v cur) (IsActiveValidator v prev)))
    as (-> & -> & -> & -> & -> & -> & -> & -> & ->).
  cbn. rewrite !orb_false_r. split_and!; reflexivity.
Qed.

(** The totals that the rewards and the justification read. *)
Definition totals (b : Balance) : Z * Z * Z * Z * Z :=
  (ActiveCurrentEpoch b, CurrentEpochTargetAttested b, PrevEpochAttested b, PrevEpochTargetAttested b,
   PrevEpochHeadAttested b).

Definition bump (c : bool) (x d : Z) : Z := if c then x +u d else x.

Lemma update_balance_one_totals b r : totals (update_balance_one b r) =
  (ActiveCurrentEpoch b,
   bump (negb (IsSlashed r) && IsCurrentEpochTargetAttester r) (CurrentEpochTargetAttested b) (CurrentEpochEffectiveBalance r),
   bump (negb (IsSlashed r) && IsPrevEpochSourceAttester r) (PrevEpochAttested b) (CurrentEpochEffectiveBalance r),
   bump (negb (IsSlashed r) && IsPrevEpochTargetAttester r) (PrevEpochTargetAttested b) (CurrentEpochEffectiveBalance r),
   bump (negb (IsSlashed r) && IsPrevEpochHeadAttester r) (PrevEpochHeadAttested b) (CurrentEpochEffectiveBalance r)).
Proof.
  unfold update_balance_one. destruct (IsSlashed r); [now destruct b |]. cbn [negb andb].
  destruct (IsCurrentEpochAttester r), (IsCurrentEpochTargetAttester r), (IsPrevEpochSourceAttester r),
    (IsPrevEpochTargetAttester r), (IsPrevEpochHeadAttester r); reflexivity.
Qed.

Definition rows (cur prev : Z) (vals : list Validator) (scores cp pp : list Z) : list PValidator :=
  zip_with mark_previous pp (zip_with mark_current cp
    (zip_with (fun v sc => precompute_one cur v sc (IsActiveValidator v cur) (IsActiveValidator v prev)) vals scores)).

Lemma bump_flag a sl f x d : 0 <= x -> 0 <= d -> x + d < two64 ->
  bump (negb sl && (a && f)) x d = x + (if a && negb sl && f then d else 0).
Proof.
  intros. unfold bump. destruct a, sl, f; cbn; try lia. now rewrite u64_small by (unfold u64_ok; lia).
Qed.

Lemma rows_totals cur prev vals : forall scores cp pp b ac ct ps pt ph,
  length scores = length vals -> length cp = length vals -> length pp = length vals -> Forall validator_ok vals ->
  totals b = (ac, ct, ps, pt, ph) -> 0 <= ct -> 0 <= ps -> 0 <= pt -> 0 <= ph ->
  ct + balance_sum vals < two64 -> ps + balance_sum vals < two64 ->
  pt + balance_sum vals < two64 -> ph + balance_sum vals < two64 ->
  let act e v := IsActiveValidator v e in
  totals (fold_left update_balance_one (rows cur prev vals scores cp pp) b) =
  (ac, ct + flag_sum (TimelyTargetFlagIndex cfg) (act cur) cp vals,
   ps + flag_sum (TimelySourceFlagIndex cfg) (act prev) pp vals,
   pt + flag_sum (TimelyTargetFlagIndex cfg) (act prev) pp vals,
   ph + flag_sum (TimelyHeadFlagIndex cfg) (act prev) pp vals).
Proof.
  induction vals as [| v vals IH]; intros [| sc scores] [| bc cp] [| bp pp] b ac ct ps pt ph
    L1 L2 L3 Hok Hb H1 H2 H3 H4 F1 F2 F3 F4 act; try discriminate.
  { cbn. now rewrite !Z.add_0_r. }
  apply Forall_cons in Hok as [[[Hv0 _] _] Hok]. unfold balance_sum, zsum in *. cbn [map fold_right] in *.
  pose proof (active_sum_bounds (fun _ => false) vals Hok) as Hnn. unfold balance_sum, zsum in Hnn.
  cbn [rows zip_with]. fold (rows cur prev vals scores cp pp). cbn [fold_left].
  fold (row cur prev v sc bc bp).
  destruct (row_spec cur prev v sc bc bp) as (Es & Ee & _ & _ & _ & E1 & E2 & E3 & E4).
  injection Hb as Hac Hct Hps Hpt Hph.
  rewrite (IH scores cp pp _ ac (ct + if act cur v && negb (Slashed v) && has_flag bc (TimelyTargetFlagIndex cfg) then EffectiveBalance v else 0)
    (ps + if act prev v && negb (Slashed v) && has_flag bp (TimelySourceFlagIndex cfg) then EffectiveBalance v else 0)
    (pt + if act prev v && negb (Slashed v) && has_flag bp (TimelyTargetFlagIndex cfg) then EffectiveBalance v else 0)
    (ph + if act prev v && negb (Slashed v) && has_flag bp (TimelyHeadFlagIndex cfg) then EffectiveBalance v else 0));
    try assumption; try (cbn in *; lia);
    try (match goal with |- context [if ?c then _ else _] => destruct c end; lia).
  - cbn [flag_sum]. fold act. rewrite !Z.add_assoc. reflexivity.
  - rewrite update_balance_one_totals, Es, Ee, E1, E2, E3, E4, Hac, Hct, Hps, Hpt, Hph.
    unfold act. rewrite !bump_flag by lia. reflexivity.
Qed.
(** *** The unrealized balances *)

Lemma unrealized_one_ok cp pp cur i bc bp v a p c : idx cp i = Ok bc -> idx pp i = Ok bp ->
  0 <= EffectiveBalance v -> 0 <= a -> 0 <= p -> 0 <= c -> a + EffectiveBalance v < two64 ->
  p + EffectiveBalance v < two64 -> c + EffectiveBalance v < two64 ->
  let term (act flag : bool) := if act && negb (Slashed v) && flag then EffectiveBalance v else 0 in
  unrealized_one cfg cp pp cur i (a, p, c) v =
  Ok (a + (if IsActiveValidator v cur then EffectiveBalance v else 0),
      p + term (IsActiveValidator v (cur - 1)) (has_flag bp (TimelyTargetFlagIndex cfg)),
      c + term (IsActiveValidator v cur) (has_flag bc (TimelyTargetFlagIndex cfg))).
Proof.
  intros Hc Hp Hv Ha0 Hp0 Hc0 Fa Fp Fc term. unfold unrealized_one.
  assert (((ActivationEpoch v <? cur) && (cur <=? ExitEpoch v)) = IsActiveValidator v (cur - 1)) as ->.
  { unfold IsActiveValidator, checkValidatorActiveStatus.
    destruct (Z.ltb_spec (ActivationEpoch v) cur), (Z.leb_spec cur (ExitEpoch v)),
      (Z.leb_spec (ActivationEpoch v) (cur - 1)), (Z.ltb_spec (cur - 1) (ExitEpoch v)); reflexivity || lia. }
  change ((ActivationEpoch v <=? cur) && (cur <? ExitEpoch v)) with (IsActiveValidator v cur).
  rewrite Hc, Hp, !Add64_fits by assumption. unfold term.
  destruct (IsActiveValidator v cur), (Slashed v), (IsActiveValidator v (cur - 1)); cbn [mbind result_bind andb negb];
    fold (has_flag bc (TimelyTargetFlagIndex cfg)) (has_flag bp (TimelyTargetFlagIndex cfg));
    destruct (has_flag bc (TimelyTargetFlagIndex cfg)), (has_flag bp (TimelyTargetFlagIndex cfg));
    cbn [mbind result_bind andb negb]; rewrite ?Z.add_0_r; reflexivity.
Qed.

Lemma unrealized_fold cur vals : forall cpre ppre cp pp a p c,
  zlen cpre = zlen ppre -> length cp = length vals -> length pp = length vals -> Forall validator_ok vals ->
  0 <= a -> 0 <= p -> 0 <= c -> a + balance_sum vals < two64 -> p + balance_sum vals < two64 ->
  c + balance_sum vals < two64 ->
  foldMi (unrealized_one cfg (cpre ++ cp) (ppre ++ pp) cur) (zlen cpre) (a, p, c) vals =
  Ok (a + active_sum (fun v => IsActiveValidator v cur) vals,
      p + flag_sum (TimelyTargetFlagIndex cfg) (fun v => IsActiveValidator v (cur - 1)) pp vals,
      c + flag_sum (TimelyTargetFlagIndex cfg) (fun v => IsActiveValidator v cur) cp vals).
Proof.
  induction vals as [| v vals IH]; intros cpre ppre [| bc cp] [| bp pp] a p c Hpre L1 L2 Hok Ha Hp Hc Fa Fp Fc;
    try discriminate.
  { cbn. now rewrite !Z.add_0_r. }
  apply Forall_cons in Hok as [[[Hv0 Hv1] _] Hok]. unfold balance_sum, zsum in *. cbn [map fold_right] in *.
  pose proof (active_sum_bounds (fun _ => false) vals Hok) as Hnn. unfold balance_sum, zsum in Hnn.
  cbn [foldMi]. rewrite (unrealized_one_ok _ _ _ _ bc bp); try lia;
    [| apply idx_app_here | rewrite Hpre; apply idx_app_here].
  cbn [mbind result_bind]. rewrite <- (zlen_snoc cpre bc).
  specialize (IH (cpre ++ [bc]) (ppre ++ [bp]) cp pp). rewrite <- !app_assoc in IH.
  rewrite IH; try (rewrite !zlen_snoc; lia); try (cbn in *; lia); try assumption;
    try (match goal with |- context [if ?x then _ else _] => destruct x end; lia).
  unfold active_sum, zsum. cbn [flag_sum map fold_right]. now rewrite !Z.add_assoc.
Qed.
Lemma ensure_totals b : totals (EnsureBalancesLowerBound cfg b) =
  let m x := Z.max (EffectiveBalanceIncrement cfg) x in
  (m (ActiveCurrentEpoch b), m (CurrentEpochTargetAttested b), m (PrevEpochAttested b),
   m (PrevEpochTargetAttested b), m (PrevEpochHeadAttested b)).
Proof.
  assert (forall x, Z.max (EffectiveBalanceIncrement cfg) x = if x <? EffectiveBalanceIncrement cfg then EffectiveBalanceIncrement cfg else x) as Hm
    by (intros x; destruct (Z.ltb_spec x (EffectiveBalanceIncrement cfg)); lia).
  cbv zeta. rewrite !Hm. unfold EnsureBalancesLowerBound. destruct b as [a b c d e f g]. cbn.
  destruct (a <? _); cbn; destruct (b <? _); cbn; destruct (c <? _); cbn; destruct (d <? _); cbn;
    destruct (e <? _); cbn; destruct (f <? _); cbn; destruct (g <? _); reflexivity.
Qed.

Definition precompute (s : BeaconState) : result (list PValidator * Balance) :=
  InitializePrecomputeValidators cfg s ≫= fun r : list PValidator * Balance =>
  ProcessEpochParticipation cfg s r.2 r.1.

(** The first two steps of [ProcessEpoch] succeed on a well-formed state and
    compute the per-validator rows and the floored totals. *)
Lemma precompute_ok s cur prev : state_ok s -> CurrentEpoch cfg (slot s) = Ok cur ->
  PrevEpoch cfg (slot s) = Ok prev -> balance_sum (validators s) < two64 ->
  let vals := validators s in
  let act e v := IsActiveValidator v e in
  let m x := Z.max (EffectiveBalanceIncrement cfg) x in
  exists bp, precompute s =
    Ok (rows cur prev vals (inactivityScores s) (currentEpochParticipation s) (previousEpochParticipation s), bp) /\
  totals bp =
    (m (active_sum (act cur) vals),
     m (flag_sum (TimelyTargetFlagIndex cfg) (act cur) (currentEpochParticipation s) vals),
     m (flag_sum (TimelySourceFlagIndex cfg) (act prev) (previousEpochParticipation s) vals),
     m (flag_sum (TimelyTargetFlagIndex cfg) (act prev) (previousEpochParticipation s) vals),
     m (flag_sum (TimelyHeadFlagIndex cfg) (act prev) (previousEpochParticipation s) vals)).
Proof.
  intros Hok Hcur Hprev Hfit vals act m.
  pose proof (ok_scores_len _ Hok) as Ls. pose proof (ok_prev_len _ Hok) as Lp.
  pose proof (ok_curr_len _ Hok) as Lc. pose proof (ok_validators _ Hok) as Hvs.
  assert (0 <= balance_sum (validators s)) by (pose proof (active_sum_bounds (fun _ => false) _ Hvs); lia).
  unfold precompute, InitializePrecomputeValidators. rewrite Hprev, Hcur. cbn [mbind result_bind].
  destruct (Z.eqb_spec (NumValidators s) (zlen (inactivityScores s))); [| unfold NumValidators, zlen in *; lia].
  cbn [negb]. unfold ReadFromEveryValidator.
  pose proof (initialize_fold cur prev (validators s) 0 (inactivityScores s) [] zeroBalance) as Hinit.
  change (Z.of_nat 0) with 0 in Hinit. rewrite Hinit by (cbn; lia || assumption). clear Hinit.
  cbn [wrap mbind result_bind fst snd app]. unfold ProcessEpochParticipation.
  pose proof (foldMi_pointwise (current_participation cfg) mark_current) as Hc.
  pose proof (foldMi_pointwise (previous_participation cfg) mark_previous) as Hp.
  specialize (Hc (currentEpochParticipation s) ltac:(intros; now apply current_participation_ok) []).
  specialize (Hp (previousEpochParticipation s) ltac:(intros; now apply previous_participation_ok) []).
  cbn [app] in Hc, Hp. change (zlen (@nil PValidator)) with 0 in *.
  rewrite Hc by (rewrite length_zip_with, drop_0; lia). cbn [mbind result_bind].
  rewrite Hp by (rewrite !length_zip_with, drop_0; lia). cbn [mbind result_bind]. rewrite drop_0.
  fold (rows cur prev (validators s) (inactivityScores s) (currentEpochParticipation s) (previousEpochParticipation s)).
  eexists. split; [reflexivity |]. unfold UpdateBalance. rewrite ensure_totals.
  match goal with |- context [fold_left _ _ ?b] =>
    pose proof (rows_totals cur prev (validators s) (inactivityScores s) (currentEpochParticipation s)
      (previousEpochParticipation s) b (active_sum (act cur) vals) 0 0 0 0 Ls Lc Lp Hvs eq_refl) as Ht end.
  specialize (Ht ltac:(lia) ltac:(lia) ltac:(lia) ltac:(lia) ltac:(lia) ltac:(lia) ltac:(lia) ltac:(lia)).
  set (F := fold_left update_balance_one _ _) in *. clearbody F.
  unfold totals in Ht. cbv zeta in *. injection Ht as E1 E2 E3 E4 E5. rewrite E1, E2, E3, E4, E5. reflexivity.
Qed.

(** The one-pass computation of the balances behind unrealized checkpoints
    agrees with the precomputation of [ProcessEpoch], and neither fails. *)
Lemma unrealized_balances_agree s cur : state_ok s -> CurrentEpoch cfg (slot s) = Ok cur ->
  PrevEpoch cfg (slot s) = Ok (cur - 1) -> balance_sum (validators s) < two64 ->
  exists vp bp, precompute s = Ok (vp, bp) /\
    UnrealizedCheckpointBalances cfg (currentEpochParticipation s) (previousEpochParticipation s) (validators s) cur =
    Ok (ActiveCurrentEpoch bp, PrevEpochTargetAttested bp, CurrentEpochTargetAttested bp).
Proof.
  intros Hok Hcur Hprev Hfit.
  destruct (precompute_ok s cur (cur - 1) Hok Hcur Hprev Hfit) as (bp & E & Ht).
  eexists _, bp. split; [exact E |]. injection Ht as -> -> _ -> _.
  pose proof (ok_prev_len _ Hok) as Lp. pose proof (ok_curr_len _ Hok) as Lc.
  pose proof (active_sum_bounds (fun _ => false) _ (ok_validators _ Hok)).
  unfold UnrealizedCheckpointBalances, zlen. rewrite Lp, Lc, !Z.ltb_irrefl. cbn [orb].
  pose proof (unrealized_fold cur (validators s) [] [] (currentEpochParticipation s) (previousEpochParticipation s)
    0 0 0 eq_refl Lc Lp (ok_validators _ Hok)) as Hu. cbn [app] in Hu. change (zlen (@nil Z)) with 0 in Hu.
  rewrite Hu by lia. cbn [mbind result_bind]. unfold ensureLowerBound.
  assert (forall x, (if x <? EffectiveBalanceIncrement cfg then EffectiveBalanceIncrement cfg else x) = Z.max (EffectiveBalanceIncrement cfg) x) as Hm
    by (intros x; destruct (Z.ltb_spec x (EffectiveBalanceIncrement cfg)); lia).
  now rewrite !Hm, !Z.add_0_l.
Qed.
End Totals.

Definition toy_participating : BeaconState :=
  with_currentEpochParticipation [7; 3; 1; 0]
    (with_previousEpochParticipation [7; 7; 2; 0] (toy_state 47 toy_registry)).

Lemma toy_participating_ok : state_ok toy_participating.
Proof.
  assert (state_ok (toy_state 47 toy_registry)) as []
    by (apply toy_state_ok; [vm_compute; split; congruence | vm_compute; split; congruence | exact toy_registry_ok]).
  split; assumption || reflexivity.
Qed.
