(* ===== verification/Finality.v ===== *)
(** * Justification and finalization

    Theorems on [ProcessJustificationAndFinalizationPreCompute] and
    [UnrealizedCheckpoints] (defined in [EpochPrecompute]): they implement the
    specification's [weigh_justification_and_finalization], finality only moves
    forward, and the unrealized checkpoints are those the epoch transition sets. *)

From S2P Require Import Prelude Math Config Slots Bytes Shuffle Committee State Validators EpochPrecompute.

Section Finality.
Context (cfg : BeaconChainConfig) {B : Bitfield}.

(** The order of the checkpoints of a state in epoch [cur]. *)
Definition ffg_ok (s : BeaconState) (cur : Z) : Prop :=
  Epoch_ (finalizedCheckpoint s) <= Epoch_ (previousJustifiedCheckpoint s) <= Epoch_ (currentJustifiedCheckpoint s) /\
  Epoch_ (currentJustifiedCheckpoint s) <= cur.

Lemma newJustified_cases s bits prev cur jc : newJustified cfg s bits prev cur = Ok jc ->
  jc = currentJustifiedCheckpoint s \/ (Epoch_ jc = cur \/ Epoch_ jc = prev) /\
  Epoch_ (currentJustifiedCheckpoint s) <= Epoch_ jc.
Proof.
  unfold newJustified. intros E.
  destruct (BitAt bits 0 && _) eqn:E0; [| destruct (BitAt bits 1 && _) eqn:E1].
  1, 2: apply andb_prop in E0 as [_ ?] || apply andb_prop in E1 as [_ ?];
        destruct (wrap _ _); try discriminate; cbn [mbind result_bind] in E; injection E as <-; cbn; lia.
  injection E as <-. now left.
Qed.

Lemma newFinalized_cases s j cur :
  newFinalized s j cur ∈ [finalizedCheckpoint s; previousJustifiedCheckpoint s; currentJustifiedCheckpoint s].
Proof. unfold newFinalized. repeat case_match; set_solver. Qed.

Lemma weigh_inv s bits s' : weighJustificationAndFinalization cfg s bits = Ok s' ->
  exists prev cur jc, PrevEpoch cfg (slot s) = Ok prev /\ CurrentEpoch cfg (slot s) = Ok cur /\
    newJustified cfg s bits prev cur = Ok jc /\
    currentJustifiedCheckpoint s' = jc /\ previousJustifiedCheckpoint s' = currentJustifiedCheckpoint s /\
    finalizedCheckpoint s' = newFinalized s (Bytes0 bits) cur /\ justificationBits s' = bits.
Proof.
  unfold weighJustificationAndFinalization, computeCheckpoints. intros E.
  destruct (PrevEpoch _ _) as [prev | |] eqn:Ep; try discriminate. cbn [mbind result_bind] in E.
  destruct (CurrentEpoch _ _) as [cur | |] eqn:Ec; try discriminate. cbn [mbind result_bind] in E.
  destruct (newJustified _ _ _ _ _) as [jc | |] eqn:Ej; try discriminate. cbn [mbind result_bind] in E.
  injection E as <-. exists prev, cur, jc. now split_and!.
Qed.

(** C8. Finality only moves forward: weighing keeps the order of the
    checkpoints, never lowers the justified or the finalized epoch, and every
    finalized checkpoint was justified before. *)
Theorem finality_monotone s bits s' cur : u64_ok (slot s) -> 0 < SlotsPerEpoch cfg < two64 ->
  CurrentEpoch cfg (slot s) = Ok cur -> ffg_ok s cur ->
  weighJustificationAndFinalization cfg s bits = Ok s' ->
  ffg_ok s' cur /\
  Epoch_ (finalizedCheckpoint s) <= Epoch_ (finalizedCheckpoint s') /\
  Epoch_ (currentJustifiedCheckpoint s) <= Epoch_ (currentJustifiedCheckpoint s') /\
  (finalizedCheckpoint s' = finalizedCheckpoint s \/
   finalizedCheckpoint s' = previousJustifiedCheckpoint s \/ finalizedCheckpoint s' = currentJustifiedCheckpoint s).
Proof.
  intros Hs Hspe Hcur [Ho Hc] E. apply weigh_inv in E as (prev & cur' & jc & Hp & Hc' & Hj & Ej & Epj & Ef & _).
  rewrite Hcur in Hc'. injection Hc' as <-. unfold ffg_ok. rewrite Ej, Epj, Ef.
  assert (prev <= cur) as Hpc.
  { unfold PrevEpoch in Hp. rewrite Hcur in Hp. cbn [mbind result_bind] in Hp.
    unfold CurrentEpoch in Hcur. rewrite ToEpoch_ok in Hcur by assumption. injection Hcur as Hcur.
    assert (u64_ok cur) as [Hc0 _] by (rewrite <- Hcur; apply u64_div_ok; [exact Hs | lia]).
    destruct (Z.eqb_spec cur 0); injection Hp as <-; [lia |].
    rewrite u64_small by (unfold u64_ok; rewrite <- Hcur in *; pose proof (u64_div_ok _ _ Hs (proj1 Hspe)) as [_ ?]; lia). lia. }
  pose proof (newFinalized_cases s (Bytes0 bits) cur) as Hf.
  apply newJustified_cases in Hj.
  rewrite !elem_of_cons in Hf. destruct Hf as [-> | [-> | [-> | []%not_elem_of_nil]]];
    destruct Hj as [-> | [[-> | ->] Hle]]; split_and!; auto; lia.
Qed.

(** ** The specification *)

(** [weigh_justification_and_finalization] of the consensus specification, with
    the two supermajority tests and the block roots as arguments: the new
    justified and finalized checkpoints and the four justification bits. *)
Record weighed := mkWeighed { w_justified : Checkpoint; w_finalized : Checkpoint; w_bits : list bool }.

Definition spec_weigh (s : BeaconState) (prev cur : Z) (prevRoot curRoot : list Z) (p c : bool) : weighed :=
  let old i := Z.testbit (justificationBits s) i in
  let b0 := c in let b1 := old 0 || p in let b2 := old 1 in let b3 := old 2 in
  let oldPrev := previousJustifiedCheckpoint s in
  let oldCurr := currentJustifiedCheckpoint s in
  let f := finalizedCheckpoint s in
  let f := if b1 && b2 && b3 && (Epoch_ oldPrev + 3 =? cur) then oldPrev else f in
  let f := if b1 && b2 && (Epoch_ oldPrev + 2 =? cur) then oldPrev else f in
  let f := if b0 && b1 && b2 && (Epoch_ oldCurr + 2 =? cur) then oldCurr else f in
  let f := if b0 && b1 && (Epoch_ oldCurr + 1 =? cur) then oldCurr else f in
  {| w_justified := if c then mkCheckpoint cur curRoot else if p then mkCheckpoint prev prevRoot else oldCurr;
     w_finalized := f; w_bits := [b0; b1; b2; b3] |}.

Definition bits_list (b : Z) : list bool := [Z.testbit b 0; Z.testbit b 1; Z.testbit b 2; Z.testbit b 3].

Context {BO : BitfieldOk B}.

(** Case analysis on a four-bit value. *)
Lemma nibble_in b : 0 <= b < 16 -> b ∈ [0; 1; 2; 3; 4; 5; 6; 7; 8; 9; 10; 11; 12; 13; 14; 15].
Proof. intros. change (b ∈ seqZ 0 16). apply elem_of_seqZ. lia. Qed.

Ltac nibble H :=
  apply nibble_in in H; repeat (apply elem_of_cons in H as [-> | H]); try (now apply not_elem_of_nil in H).

Lemma land15_range x : 0 <= Z.land x 15 < 16.
Proof. change 15 with (Z.ones 4). rewrite Z.land_ones by lia. now apply Z.mod_pos_bound. Qed.

Lemma lor_nibble a i : 0 <= a < 16 -> 0 <= i < 2 -> 0 <= Z.lor a (Z.shiftl 1 i) < 16.
Proof.
  intros Ha Hi. assert (i = 0 \/ i = 1) as [-> | ->] by lia; nibble Ha; vm_compute; split; congruence.
Qed.

Lemma justification_bits s total prevT currT : 0 <= justificationBits s < 16 ->
  0 <= total -> 0 <= prevT -> 0 <= currT -> 2 * total < two64 -> 3 * prevT < two64 -> 3 * currT < two64 ->
  let p := 2 * total <=? 3 * prevT in let c := 2 * total <=? 3 * currT in
  let nb := processJustificationBits s total prevT currT in
  0 <= nb < 16 /\ bits_list nb = w_bits (spec_weigh s 0 0 [] [] p c).
Proof.
  intros Hb H0 H1 H2 F0 F1 F2 p c nb. unfold nb, processJustificationBits.
  rewrite !(u64_small (_ * _)) by (unfold u64_ok; lia). fold p c. clearbody p c.
  rewrite Shift_one by assumption. cbn [w_bits spec_weigh].
  pose proof (land15_range (Z.shiftl (justificationBits s) 1)) as Hr.
  rewrite (SetBitAt_true (Z.land _ _) 1) by lia.
  rewrite !SetBitAt_true by (destruct p; try lia; apply lor_nibble; lia).
  split.
  - destruct p, c; try apply lor_nibble; try apply lor_nibble; lia.
  - clear Hr. generalize dependent (justificationBits s). intros b Hb. nibble Hb; destruct p, c; reflexivity.
Qed.

Lemma bits_list_inv j a b c d : bits_list j = [a; b; c; d] ->
  Z.testbit j 0 = a /\ Z.testbit j 1 = b /\ Z.testbit j 2 = c /\ Z.testbit j 3 = d.
Proof. unfold bits_list. intros E. split_and!; congruence. Qed.

Lemma mask_bits j (b0 b1 b2 b3 : bool) : 0 <= j < 16 -> bits_list j = [b0; b1; b2; b3] ->
  (Z.land j 14 =? 14) = b1 && b2 && b3 /\ (Z.land j 6 =? 6) = b1 && b2 /\
  (Z.land j 7 =? 7) = b0 && b1 && b2 /\ (Z.land j 3 =? 3) = b0 && b1.
Proof. intros Hj E. nibble Hj; injection E as <- <- <- <-; split_and!; reflexivity. Qed.

(** C1. The epoch transition implements the specification's
    [weigh_justification_and_finalization]: from the totals of the
    precomputation it sets exactly the checkpoints and bits prescribed.  The
    hypothesis on bit 0 is what the previous transition established: when the
    last epoch justified itself, its checkpoint is the justified one. *)
Theorem justification_refines_spec s pBal prev cur prevRoot curRoot start :
  EpochStart cfg 2 = Ok start -> start < slot s -> 0 <= justificationBits s < 16 ->
  PrevEpoch cfg (slot s) = Ok prev -> CurrentEpoch cfg (slot s) = Ok cur ->
  BlockRoot cfg s prev = Ok prevRoot -> BlockRoot cfg s cur = Ok curRoot ->
  Epoch_ (currentJustifiedCheckpoint s) <= prev -> prev <= cur ->
  u64_ok (Epoch_ (currentJustifiedCheckpoint s) + 2) -> u64_ok (Epoch_ (previousJustifiedCheckpoint s) + 3) ->
  0 <= Epoch_ (currentJustifiedCheckpoint s) -> 0 <= Epoch_ (previousJustifiedCheckpoint s) ->
  (Z.testbit (justificationBits s) 0 = true -> currentJustifiedCheckpoint s = mkCheckpoint prev prevRoot) ->
  let total := ActiveCurrentEpoch pBal in
  let prevT := PrevEpochTargetAttested pBal in let currT := CurrentEpochTargetAttested pBal in
  0 <= total -> 0 <= prevT -> 0 <= currT -> 2 * total < two64 -> 3 * prevT < two64 -> 3 * currT < two64 ->
  let w := spec_weigh s prev cur prevRoot curRoot (2 * total <=? 3 * prevT) (2 * total <=? 3 * currT) in
  exists s', ProcessJustificationAndFinalizationPreCompute cfg s pBal = Ok s' /\
    currentJustifiedCheckpoint s' = w_justified w /\ finalizedCheckpoint s' = w_finalized w /\
    previousJustifiedCheckpoint s' = currentJustifiedCheckpoint s /\
    bits_list (justificationBits s') = w_bits w.
Proof.
  intros Hst Hslot Hb Hp Hc Hrp Hrc Hjp Hpc Hu1 Hu2 Hn1 Hn2 Hinv total prevT currT T0 T1 T2 F0 F1 F2 w.
  unfold ProcessJustificationAndFinalizationPreCompute. rewrite Hst. cbn [mbind result_bind].
  destruct (Z.leb_spec (slot s) start); [lia |].
  destruct (justification_bits s total prevT currT Hb T0 T1 T2 F0 F1 F2) as [Hr Hbits].
  fold total prevT currT. set (nb := processJustificationBits s total prevT currT) in *. clearbody nb.
  unfold w. set (p := 2 * total <=? 3 * prevT) in *. set (c := 2 * total <=? 3 * currT) in *. clearbody p c.
  cbn [w_bits spec_weigh] in Hbits. destruct (mask_bits _ _ _ _ _ Hr Hbits) as (M1 & M2 & M3 & M4).
  destruct (bits_list_inv _ _ _ _ _ Hbits) as (B0 & B1 & B2 & B3).
  unfold weighJustificationAndFinalization, computeCheckpoints. rewrite Hp, Hc. cbn [mbind result_bind].
  assert (newJustified cfg s nb prev cur = Ok (w_justified (spec_weigh s prev cur prevRoot curRoot p c))) as ->.
  { unfold newJustified. rewrite !BitAt_testbit, B0, B1, Hrp, Hrc by lia. cbn [w_justified spec_weigh].
    destruct (Z.leb_spec (Epoch_ (currentJustifiedCheckpoint s)) cur); [| lia].
    destruct (Z.leb_spec (Epoch_ (currentJustifiedCheckpoint s)) prev); [| lia].
    destruct c; [reflexivity |]. destruct p; [now rewrite orb_true_r |].
    destruct (Z.testbit (justificationBits s) 0); [now rewrite Hinv | reflexivity]. }
  cbn [mbind result_bind]. eexists. split; [reflexivity |]. cbn [currentJustifiedCheckpoint finalizedCheckpoint previousJustifiedCheckpoint justificationBits with_finalizedCheckpoint with_justificationBits with_currentJustifiedCheckpoint with_previousJustifiedCheckpoint].
  split_and!; try reflexivity.
  - unfold newFinalized. rewrite Bytes0_id, M1, M2, M3, M4 by assumption.
    unfold u64_ok in *. rewrite !u64_small by (unfold u64_ok; lia). reflexivity.
  - unfold bits_list. now rewrite B0, B1, B2, B3.
Qed.
End Finality.

(** ** Unrealized checkpoints *)

Lemma prev_of_current cfg sl cur : 0 < SlotsPerEpoch cfg < two64 -> u64_ok sl ->
  CurrentEpoch cfg sl = Ok cur -> 1 <= cur -> PrevEpoch cfg sl = Ok (cur - 1).
Proof.
  intros Hspe Hs Hc H1. unfold PrevEpoch. rewrite Hc. cbn [mbind result_bind].
  destruct (Z.eqb_spec cur 0); [lia |]. unfold CurrentEpoch in Hc. rewrite ToEpoch_ok in Hc by assumption.
  injection Hc as <-. pose proof (u64_div_ok _ _ Hs (proj1 Hspe)) as [_ ?].
  now rewrite u64_small by (unfold u64_ok; lia).
Qed.

(** What the epoch transition of [s] would set, given the epoch totals. *)
Definition realized_checkpoints (cfg : BeaconChainConfig) {B : Bitfield} (s : BeaconState) (bp : Balance)
    : result (Checkpoint * Checkpoint) :=
  s' ← ProcessJustificationAndFinalizationPreCompute cfg s bp;
  Ok (currentJustifiedCheckpoint s', finalizedCheckpoint s').

(** C16. The unrealized checkpoints that fork choice reads from a state are the
    checkpoints the epoch transition of that state would set (after the first
    two epochs), errors included. *)
Theorem unrealized_is_realized cfg {B : Bitfield} s cur start vp bp :
  TimelySourceFlagIndex cfg <= 7 -> TimelyTargetFlagIndex cfg <= 7 -> TimelyHeadFlagIndex cfg <= 7 ->
  0 < SlotsPerEpoch cfg < two64 -> GenesisEpoch cfg = 0 -> state_ok s ->
  CurrentEpoch cfg (slot s) = Ok cur -> 2 <= cur -> EpochStart cfg 2 = Ok start -> start < slot s ->
  balance_sum (validators s) < two64 -> precompute cfg s = Ok (vp, bp) ->
  UnrealizedCheckpoints cfg s = realized_checkpoints cfg s bp.
Proof.
  intros F1 F2 F3 Hspe Hg Hok Hcur H2 Hst Hslot Hfit Hpre.
  pose proof (prev_of_current cfg (slot s) cur Hspe (ok_slot _ Hok) Hcur ltac:(lia)) as Hprev.
  destruct (unrealized_balances_agree cfg F1 F2 F3 s cur Hok Hcur Hprev Hfit) as (vp' & bp' & E & Hu).
  rewrite Hpre in E. injection E as <- <-.
  unfold UnrealizedCheckpoints, realized_checkpoints, ProcessJustificationAndFinalizationPreCompute.
  unfold CurrentEpoch in *. rewrite Hcur, Hst. cbn [mbind result_bind]. rewrite Hg.
  change (0 +u 1) with 1. destruct (Z.leb_spec cur 1); [lia |].
  destruct (Z.leb_spec (slot s) start); [lia |]. rewrite Hu. cbn [mbind result_bind].
  unfold weighJustificationAndFinalization.
  destruct (computeCheckpoints _ _ _) as [[jc fc] | |]; reflexivity.
Qed.

(** ** Concrete runs *)

Lemma finality_monotone_witness :
  exists s', @weighJustificationAndFinalization MinimalSpecConfig bv4 toy_participating 7 = Ok s' /\ ffg_ok s' 5.
Proof.
  destruct (@weighJustificationAndFinalization MinimalSpecConfig bv4 toy_participating 7) as [s' | |] eqn:E;
    [| vm_compute in E; discriminate E ..].
  exists s'. split; [reflexivity |].
  apply (@finality_monotone MinimalSpecConfig bv4 toy_participating 7 s' 5); try exact E.
  - vm_compute. split; congruence.
  - vm_compute. split; congruence.
  - reflexivity.
  - vm_compute. split_and!; congruence.
Defined.

Definition toy_totals : Balance := mkBalance 160 160 160 120 160 130 90.

Lemma justification_refines_spec_witness :
  exists s', @ProcessJustificationAndFinalizationPreCompute MinimalSpecConfig bv4 toy_participating toy_totals = Ok s' /\
    Epoch_ (currentJustifiedCheckpoint s') = 5 /\ bits_list (justificationBits s') = [true; true; false; false].
Proof.
  destruct (@justification_refines_spec MinimalSpecConfig bv4 bv4_ok toy_participating toy_totals 4 5 (zeros 32) (zeros 32) 16)
    as (s' & E & Hj & _ & _ & Hb); try reflexivity; try (vm_compute; split; congruence); try (vm_compute; congruence).
  exists s'. split_and!; [exact E | rewrite Hj; reflexivity | rewrite Hb; reflexivity].
Defined.

Lemma unrealized_is_realized_witness : exists vp bp,
  precompute MinimalSpecConfig toy_participating = Ok (vp, bp) /\
  @UnrealizedCheckpoints MinimalSpecConfig bv4 toy_participating =
  @realized_checkpoints MinimalSpecConfig bv4 toy_participating bp.
Proof.
  destruct (precompute MinimalSpecConfig toy_participating) as [[vp bp] | |] eqn:E; [| vm_compute in E; discriminate E ..].
  exists vp, bp. split; [reflexivity |].
  apply (@unrealized_is_realized MinimalSpecConfig bv4 toy_participating 5 16 vp bp); try exact E;
    try exact toy_participating_ok; try reflexivity; try (vm_compute; split; congruence); vm_compute; congruence.
Defined.
