(* ===== verification/Rewards.v ===== *)
(** * Inactivity scores, attestation rewards and penalties

    Models [ProcessInactivityScores], [AttestationsDelta], [attestationDelta]
    and [ProcessRewardsAndPenaltiesPrecompute] of
    [beacon-chain/core/altair/epoch_precompute.go] and the base reward of
    [core/altair/reward.go].  The process-wide square-root cache of
    [math_helper.go] is threaded through the functions that use it. *)

From S2P Require Import Prelude Math Config Slots Bytes Shuffle Committee State Validators EpochPrecompute Finality.

Record AttDelta := mkAttDelta {
  HeadReward : Z;
  SourceReward : Z;
  SourcePenalty : Z;
  TargetReward : Z;
  TargetPenalty : Z
}.

Definition zeroDelta : AttDelta := mkAttDelta 0 0 0 0 0.

(** [math.CachedSquareRoot] as a step on the cache; the fuel of its loop is
    never exhausted. *)
Definition squareRoot_of (sq : Math.cachedSquareRoot) (bal : Z) : result (Z * Math.cachedSquareRoot) :=
  match Math.CachedSquareRoot sq bal with
  | Some r => r
  | None => Panic "square root loop"
  end.

Section Rewards.
Context (cfg : BeaconChainConfig).

(** ** Base reward *)

Definition BaseRewardPerIncrement (sq : Math.cachedSquareRoot) (activeBalance : Z)
    : result (Z * Math.cachedSquareRoot) :=
  if activeBalance =? 0 then Err (New "active balance can't be 0")
  else
    squareRoot_of sq activeBalance ≫= fun r : Z * Math.cachedSquareRoot =>
    q ← udiv (EffectiveBalanceIncrement cfg *u BaseRewardFactor cfg) r.1;
    Ok (q, r.2).

Definition BaseRewardWithTotalBalance (sq : Math.cachedSquareRoot) (s : BeaconState) (index totalBalance : Z)
    : result (Z * Math.cachedSquareRoot) :=
  val ← ValidatorAtIndexReadOnly s index;
  increments ← udiv (EffectiveBalance val) (EffectiveBalanceIncrement cfg);
  BaseRewardPerIncrement sq totalBalance ≫= fun r : Z * Math.cachedSquareRoot =>
  Ok (increments *u r.1, r.2).

(** ** Inactivity scores *)

Definition newScore (leak : bool) (v : PValidator) : result Z :=
  score ← (if IsPrevEpochTargetAttester v && negb (IsSlashed v) then
             if 0 <? InactivityScore v then Ok (InactivityScore v -u 1) else Ok (InactivityScore v)
           else Math.Add64 (InactivityScore v) (InactivityScoreBias cfg));
  if negb leak then Ok (score -u Z.min (InactivityScoreRecoveryRate cfg) score) else Ok score.

Definition inactivity_step (leak : bool) (i : Z) (acc : list Z * list PValidator) (v : PValidator)
    : result (list Z * list PValidator) :=
  let '(scores, vals) := acc in
  if negb (EligibleForRewards v) then Ok (scores, vals ++ [v])
  else
    score ← newScore leak v;
    scores ← idx_set scores i score;
    Ok (scores, vals ++ [with_InactivityScore score v]).

Definition ProcessInactivityScores (s : BeaconState) (vals : list PValidator)
    : result (BeaconState * list PValidator) :=
  currentEpoch ← CurrentEpoch cfg (slot s);
  if currentEpoch =? GenesisEpoch cfg then Ok (s, vals)
  else
    prevEpoch ← PrevEpoch cfg (slot s);
    let leak := IsInInactivityLeak cfg prevEpoch (Epoch_ (finalizedCheckpoint s)) in
    foldMi (inactivity_step leak) 0 (inactivityScores s, []) vals ≫= fun r : list Z * list PValidator =>
    Ok (SetInactivityScores s r.1, r.2).

(** ** Attestation deltas *)

Definition flag_reward (baseReward weight attested rewardDenominator : Z) : result Z :=
  inc ← udiv attested (EffectiveBalanceIncrement cfg);
  udiv (baseReward *u weight *u inc) rewardDenominator.

Definition attestationDelta (bal : Balance) (val : PValidator)
    (baseRewardMultiplier inactivityDenominator : Z) (inactivityLeak : bool) : result AttDelta :=
  let eligible := IsActivePrevEpoch val || (IsSlashed val && negb (IsWithdrawableCurrentEpoch val)) in
  if negb eligible || (ActiveCurrentEpoch bal =? 0) then Ok zeroDelta
  else
    let effectiveBalance := CurrentEpochEffectiveBalance val in
    increments ← udiv effectiveBalance (EffectiveBalanceIncrement cfg);
    let baseReward := increments *u baseRewardMultiplier in
    activeIncrement ← udiv (ActiveCurrentEpoch bal) (EffectiveBalanceIncrement cfg);
    rewardDenominator ← wrap "could not compute attestation reward denominator"
                          (Math.Mul64 activeIncrement (WeightDenominator cfg));
    if rewardDenominator =? 0 then Err (New "attestation reward denominator must be non-zero")
    else
      sourceReward ← (if IsPrevEpochSourceAttester val && negb (IsSlashed val) && negb inactivityLeak
                      then flag_reward baseReward (TimelySourceWeight cfg) (PrevEpochAttested bal) rewardDenominator
                      else Ok 0);
      sourcePenalty ← (if IsPrevEpochSourceAttester val && negb (IsSlashed val) then Ok 0
                       else udiv (baseReward *u TimelySourceWeight cfg) (WeightDenominator cfg));
      targetReward ← (if IsPrevEpochTargetAttester val && negb (IsSlashed val) && negb inactivityLeak
                      then flag_reward baseReward (TimelyTargetWeight cfg) (PrevEpochTargetAttested bal) rewardDenominator
                      else Ok 0);
      targetPenalty ← (if IsPrevEpochTargetAttester val && negb (IsSlashed val) then Ok 0
                       else udiv (baseReward *u TimelyTargetWeight cfg) (WeightDenominator cfg));
      headReward ← (if IsPrevEpochHeadAttester val && negb (IsSlashed val) && negb inactivityLeak
                    then flag_reward baseReward (TimelyHeadWeight cfg) (PrevEpochHeadAttested bal) rewardDenominator
                    else Ok 0);
      inactivityPenalty ← (if negb (IsPrevEpochTargetAttester val) || IsSlashed val then
                             n ← Math.Mul64 effectiveBalance (InactivityScore val);
                             udiv n inactivityDenominator
                           else Ok 0);
      Ok {| HeadReward := headReward; SourceReward := sourceReward; SourcePenalty := sourcePenalty;
            TargetReward := targetReward; TargetPenalty := targetPenalty +u inactivityPenalty |}.

Definition AttestationsDelta (sq : Math.cachedSquareRoot) (s : BeaconState) (bal : Balance) (vals : list PValidator)
    : result (list AttDelta * Math.cachedSquareRoot) :=
  prevEpoch ← PrevEpoch cfg (slot s);
  squareRoot_of sq (ActiveCurrentEpoch bal) ≫= fun r : Z * Math.cachedSquareRoot =>
  baseRewardMultiplier ← udiv (EffectiveBalanceIncrement cfg *u BaseRewardFactor cfg) r.1;
  let leak := IsInInactivityLeak cfg prevEpoch (Epoch_ (finalizedCheckpoint s)) in
  inactivityPenaltyQuotient ← InactivityPenaltyQuotient_of cfg s;
  let inactivityDenominator := InactivityScoreBias cfg *u inactivityPenaltyQuotient in
  deltas ← mapM (fun v => attestationDelta bal v baseRewardMultiplier inactivityDenominator leak) vals;
  Ok (deltas, r.2).

(** Source, target and head deltas are applied in this order. *)
Definition apply_delta (balance : Z) (delta : AttDelta) : result Z :=
  b ← IncreaseBalanceWithVal balance (SourceReward delta);
  let b := DecreaseBalanceWithVal b (SourcePenalty delta) in
  b ← IncreaseBalanceWithVal b (TargetReward delta);
  let b := DecreaseBalanceWithVal b (TargetPenalty delta) in
  IncreaseBalanceWithVal b (HeadReward delta).

Definition reward_step (deltas : list AttDelta) (acc : list Z * list PValidator) (i : Z)
    : result (list Z * list PValidator) :=
  let '(balances, vals) := acc in
  before ← idx balances i;
  v ← idx vals i;
  delta ← idx deltas i;
  after ← apply_delta before delta;
  balances ← idx_set balances i after;
  vals ← idx_set vals i (with_AfterEpochTransitionBalance after (with_BeforeEpochTransitionBalance before v));
  Ok (balances, vals).

Definition ProcessRewardsAndPenaltiesPrecompute (sq : Math.cachedSquareRoot) (s : BeaconState) (bal : Balance)
    (vals : list PValidator) : result (BeaconState * list PValidator * Math.cachedSquareRoot) :=
  currentEpoch ← CurrentEpoch cfg (slot s);
  if currentEpoch =? GenesisEpoch cfg then Ok (s, vals, sq)
  else
    let numOfVals := NumValidators s in
    if negb (zlen vals =? numOfVals) || negb (zlen vals =? zlen (balances s))
    then Err (New "validator registries not the same length as state's validator registries")
    else
      wrap "could not get attestation delta" (AttestationsDelta sq s bal vals)
        ≫= fun r : list AttDelta * Math.cachedSquareRoot =>
      foldM (reward_step r.1) (balances s, vals) (seqZ 0 numOfVals) ≫= fun p : list Z * list PValidator =>
      Ok (SetBalances s p.1, p.2, r.2).
End Rewards.

(** ** Exactness of the deltas *)

Section Exact.
Context (cfg : BeaconChainConfig).

(** The deltas of the specification, in unbounded integers. *)
Definition spec_delta (bal : Balance) (v : PValidator) (mult denom : Z) (leak : bool) : AttDelta :=
  let inc := EffectiveBalanceIncrement cfg in
  let wd := WeightDenominator cfg in
  let base := CurrentEpochEffectiveBalance v / inc * mult in
  let rd := ActiveCurrentEpoch bal / inc * wd in
  let reward (part : bool) w att := if part && negb (IsSlashed v) && negb leak then base * w * (att / inc) / rd else 0 in
  let penalty (part : bool) w := if part && negb (IsSlashed v) then 0 else base * w / wd in
  {| HeadReward := reward (IsPrevEpochHeadAttester v) (TimelyHeadWeight cfg) (PrevEpochHeadAttested bal);
     SourceReward := reward (IsPrevEpochSourceAttester v) (TimelySourceWeight cfg) (PrevEpochAttested bal);
     SourcePenalty := penalty (IsPrevEpochSourceAttester v) (TimelySourceWeight cfg);
     TargetReward := reward (IsPrevEpochTargetAttester v) (TimelyTargetWeight cfg) (PrevEpochTargetAttested bal);
     TargetPenalty := penalty (IsPrevEpochTargetAttester v) (TimelyTargetWeight cfg) +
       (if negb (IsPrevEpochTargetAttester v) || IsSlashed v
        then CurrentEpochEffectiveBalance v * InactivityScore v / denom else 0) |}.

(** The bound that keeps every intermediate product within a machine word, for a total
    active balance and a bound on the attested totals.  These count validators that were
    active in the previous epoch and may have left since, so they can exceed the active
    balance. *)
Definition reward_bound (active attested : Z) : Prop :=
  MaxEffectiveBalance cfg / EffectiveBalanceIncrement cfg * WeightDenominator cfg
    * (EffectiveBalanceIncrement cfg * BaseRewardFactor cfg / Z.sqrt active)
    * (attested / EffectiveBalanceIncrement cfg) < two64 /\
  active / EffectiveBalanceIncrement cfg * WeightDenominator cfg < two64.

Context (Hinc : 0 < EffectiveBalanceIncrement cfg) (Hfac : 0 <= BaseRewardFactor cfg)
        (Hwd : 2 <= WeightDenominator cfg) (Hmax : 0 <= MaxEffectiveBalance cfg).

Lemma multiplier_bound A : EffectiveBalanceIncrement cfg <= A ->
  let r := Z.sqrt A in let mult := EffectiveBalanceIncrement cfg * BaseRewardFactor cfg / r in
  0 <= mult /\ mult * (A / EffectiveBalanceIncrement cfg) <= BaseRewardFactor cfg * (r + 2) /\
  1 <= A / EffectiveBalanceIncrement cfg.
Proof.
  intros HA r mult. set (inc := EffectiveBalanceIncrement cfg) in *. set (f := BaseRewardFactor cfg) in *.
  pose proof (Z.sqrt_spec A ltac:(lia)) as [Hr1 Hr2]. fold r in Hr1, Hr2.
  assert (0 < r) as Hr by (apply Z.sqrt_pos; lia).
  assert (0 <= mult) by (apply Z.div_pos; nia).
  assert (mult * r <= inc * f) by (unfold mult; pose proof (Z.mul_div_le (inc * f) r Hr); lia).
  pose proof (Z.mul_div_le A inc Hinc) as Hq. assert (1 <= A / inc) by (apply Z.div_le_lower_bound; lia).
  split_and!; try lia. apply Z.mul_le_mono_pos_r with r; [exact Hr |].
  assert (mult * r * (A / inc) <= inc * f * (A / inc)) by (apply Z.mul_le_mono_nonneg_r; lia).
  assert (f * (inc * (A / inc)) <= f * A) by (apply Z.mul_le_mono_nonneg_l; lia).
  assert (f * A <= f * (r * (r + 2))) by (apply Z.mul_le_mono_nonneg_l; nia). nia.
Qed.

Lemma product_bound A T e w q : EffectiveBalanceIncrement cfg <= A -> EffectiveBalanceIncrement cfg <= T -> reward_bound A T ->
  0 <= e <= MaxEffectiveBalance cfg / EffectiveBalanceIncrement cfg -> 0 <= w <= WeightDenominator cfg ->
  0 <= q <= T / EffectiveBalanceIncrement cfg ->
  let mult := EffectiveBalanceIncrement cfg * BaseRewardFactor cfg / Z.sqrt A in
  0 <= e * mult * w * q < two64 /\ 0 <= e * mult * w < two64 /\ e * mult * WeightDenominator cfg < two64.
Proof.
  intros HA HT [Hb _] He Hw Hq mult. destruct (multiplier_bound A HA) as (Hm0 & _ & _). fold mult in Hb, Hm0.
  assert (1 <= T / EffectiveBalanceIncrement cfg) by (apply Z.div_le_lower_bound; lia).
  set (E := MaxEffectiveBalance cfg / EffectiveBalanceIncrement cfg) in *. set (Q := T / EffectiveBalanceIncrement cfg) in *.
  set (D := WeightDenominator cfg) in *. clearbody E Q D mult.
  assert (forall x y, 0 <= x <= D -> 0 <= y <= Q -> 0 <= e * mult * x * y <= E * D * mult * Q) as Hgen.
  { intros x y Hx Hy. assert (0 <= mult * y <= mult * Q) by nia. assert (0 <= e * x <= E * D) by nia.
    replace (e * mult * x * y) with (e * x * (mult * y)) by ring. nia. }
  pose proof (Hgen w q Hw Hq). pose proof (Hgen w 1 Hw ltac:(lia)). pose proof (Hgen D 1 ltac:(lia) ltac:(lia)). lia.
Qed.

(** The parts of [attestationDelta], each under a condition of the validator. *)
Lemma flag_reward_ok (c : bool) b w att rd : u64_ok (b * w) -> u64_ok (b * w * (att / EffectiveBalanceIncrement cfg)) -> rd <> 0 ->
  (if c then flag_reward cfg b w att rd else Ok 0) =
  Ok (if c then b * w * (att / EffectiveBalanceIncrement cfg) / rd else 0).
Proof.
  intros P1 P2 Hrd. destruct c; [| reflexivity]. unfold flag_reward. rewrite udiv_ok by lia.
  cbn [mbind result_bind]. rewrite !u64_small by (rewrite ?u64_small; assumption). now apply udiv_ok.
Qed.

Lemma flag_penalty_ok (c : bool) b w : u64_ok (b * w) -> WeightDenominator cfg <> 0 ->
  (if c then Ok 0 else udiv (b *u w) (WeightDenominator cfg)) = Ok (if c then 0 else b * w / WeightDenominator cfg).
Proof. intros P Hw. destruct c; [reflexivity |]. rewrite u64_small by assumption. now apply udiv_ok. Qed.

Lemma inactivity_penalty_ok (c : bool) e sc denom : u64_ok e -> u64_ok sc -> denom <> 0 ->
  (if c then n ← Math.Mul64 e sc; udiv n denom else Ok 0) =
  if c && (two64 <=? e * sc) then Err Math.ErrMulOverflow else Ok (if c then e * sc / denom else 0).
Proof.
  intros He Hs Hd. destruct c; [| reflexivity]. rewrite Mul64_spec by assumption. cbn [andb].
  destruct (Z.ltb_spec (e * sc) two64), (Z.leb_spec two64 (e * sc)); try lia; [now apply udiv_ok | reflexivity].
Qed.

(** C20. Attestation rewards and penalties are those of the specification over unbounded
    integers: an eligible validator gets them, another gets none, and the only failure is
    that of the checked product of effective balance and inactivity score, when this
    penalty applies and the product does not fit a word.  Assumed are a total active
    balance of at least an increment, totals of the attesters bounded by some [T], which
    may exceed the active balance because validators that attested may have left, and that
    the product of the increments of the maximal balance, the weight denominator, the
    reward multiplier and the increments of [T] fits a word, as does the reward
    denominator; the weights are at most their denominator. *)
Theorem attestation_delta_exact bal v denom leak T :
  let A := ActiveCurrentEpoch bal in
  let mult := EffectiveBalanceIncrement cfg * BaseRewardFactor cfg / Z.sqrt A in
  EffectiveBalanceIncrement cfg <= A -> EffectiveBalanceIncrement cfg <= T -> reward_bound A T ->
  0 <= PrevEpochAttested bal <= T -> 0 <= PrevEpochTargetAttested bal <= T -> 0 <= PrevEpochHeadAttested bal <= T ->
  0 <= TimelySourceWeight cfg <= WeightDenominator cfg -> 0 <= TimelyTargetWeight cfg <= WeightDenominator cfg ->
  0 <= TimelyHeadWeight cfg <= WeightDenominator cfg ->
  0 <= CurrentEpochEffectiveBalance v <= MaxEffectiveBalance cfg -> MaxEffectiveBalance cfg < two64 ->
  u64_ok (InactivityScore v) -> 2 <= denom -> WeightDenominator cfg < two64 ->
  attestationDelta cfg bal v mult denom leak =
  if negb (EligibleForRewards v) then Ok zeroDelta
  else if (negb (IsPrevEpochTargetAttester v) || IsSlashed v) && (two64 <=? CurrentEpochEffectiveBalance v * InactivityScore v)
  then Err Math.ErrMulOverflow
  else Ok (spec_delta bal v mult denom leak).
Proof.
  intros A mult HA HT HB H1 H2 H3 W1 W2 W3 Hev Hmw Hscu Hden Hwdw.
  unfold attestationDelta. fold (EligibleForRewards v). fold A.
  destruct (EligibleForRewards v); cbn [negb orb]; [| reflexivity].
  destruct (Z.eqb_spec A 0); [lia |]. rewrite !(udiv_ok _ (EffectiveBalanceIncrement cfg)) by lia. cbn [mbind result_bind].
  set (inc := EffectiveBalanceIncrement cfg) in *. set (e := CurrentEpochEffectiveBalance v / inc) in *.
  assert (0 <= e <= MaxEffectiveBalance cfg / inc) as He
    by (unfold e; split; [apply Z.div_pos; lia | apply Z.div_le_mono; lia]).
  assert (forall a, 0 <= a <= T -> 0 <= a / inc <= T / inc) as Hq
    by (intros a Ha; split; [apply Z.div_pos; lia | apply Z.div_le_mono; lia]).
  assert (forall w q, 0 <= w <= WeightDenominator cfg -> 0 <= q <= T / inc ->
     0 <= e * mult * w * q < two64 /\ 0 <= e * mult * w < two64 /\ e * mult * WeightDenominator cfg < two64) as Hp'
    by (intros; now apply (product_bound A T)).
  destruct (multiplier_bound A HA) as (Hm0 & _ & Hq1). fold inc mult in Hm0, Hq1.
  assert (0 <= e * mult) as Hb0 by nia.
  destruct (Hp' 0 0 ltac:(lia) (Hq 0 ltac:(lia))) as (_ & _ & Hwdb).
  assert (e * mult < two64) as Hb1 by nia.
  rewrite (u64_small (e * mult)) by (unfold u64_ok; lia).
  destruct HB as [_ Hrd]. fold inc in Hrd.
  assert (A / inc * 1 <= A / inc * WeightDenominator cfg) by (apply Z.mul_le_mono_nonneg_l; lia).
  rewrite (Mul64_spec (A / inc)) by (unfold u64_ok; lia). destruct (Z.ltb_spec (A / inc * WeightDenominator cfg) two64); [| lia].
  cbn [wrap mbind result_bind]. set (rd := A / inc * WeightDenominator cfg) in *.
  assert (0 < rd) by (unfold rd; nia). destruct (Z.eqb_spec rd 0); [lia |].
  assert (forall (c : bool) w att, 0 <= w <= WeightDenominator cfg -> 0 <= att <= T ->
    (if c then flag_reward cfg (e * mult) w att rd else Ok 0) = Ok (if c then e * mult * w * (att / inc) / rd else 0)) as Hrew
    by (intros c w att Hw Ha; destruct (Hp' w (att / inc) Hw (Hq _ Ha)) as (P1 & P2 & _); apply flag_reward_ok; fold inc; unfold u64_ok; lia).
  assert (forall (c : bool) w, 0 <= w <= WeightDenominator cfg ->
    (if c then Ok 0 else udiv (e * mult *u w) (WeightDenominator cfg)) =
    Ok (if c then 0 else e * mult * w / WeightDenominator cfg)) as Hpen
    by (intros c w Hw; destruct (Hp' w 0 Hw (Hq 0 ltac:(lia))) as (_ & P2 & _); apply flag_penalty_ok; unfold u64_ok; lia).
  do 2 (rewrite Hrew by assumption; cbn [mbind result_bind]; rewrite Hpen by assumption; cbn [mbind result_bind]).
  rewrite Hrew by assumption. cbn [mbind result_bind].
  rewrite inactivity_penalty_ok by (assumption || unfold u64_ok; lia).
  set (prod := CurrentEpochEffectiveBalance v * InactivityScore v).
  destruct ((negb (IsPrevEpochTargetAttester v) || IsSlashed v) && (two64 <=? prod)) eqn:Eover; [reflexivity |].
  cbn [mbind result_bind]. unfold spec_delta. fold inc e A rd prod. do 2 f_equal. apply u64_small.
  assert (0 <= e * mult * TimelyTargetWeight cfg / WeightDenominator cfg <= e * mult)
    by (split; [apply Z.div_pos; nia | apply Z.div_le_upper_bound; nia]).
  assert (2 * (e * mult) < two64) by nia.
  assert (0 <= prod) by (unfold prod, u64_ok in *; nia).
  pose proof (Z.mul_div_le prod denom ltac:(lia)). assert (0 <= prod / denom) by (apply Z.div_pos; lia).
  destruct (negb (IsPrevEpochTargetAttester v) || IsSlashed v); cbn [andb] in Eover.
  - apply Z.leb_gt in Eover. assert (2 * (prod / denom) < two64) by nia. unfold u64_ok. destruct (_ && _); lia.
  - unfold u64_ok. destruct (_ && _); lia.
Qed.
End Exact.

(** Mainnet up to the validator capacity of the configuration, 4096 validators with the
    maximal effective balance, and with totals of up to four times the active balance. *)
Lemma mainnet_reward_bound A T : EffectiveBalanceIncrement mainnetBeaconConfig <= A <= 4096 * MaxEffectiveBalance mainnetBeaconConfig ->
  0 <= T <= 4 * A -> reward_bound mainnetBeaconConfig A T.
Proof.
  intros HA HT. destruct (multiplier_bound mainnetBeaconConfig ltac:(reflexivity) ltac:(discriminate) ltac:(discriminate) A) as (Hm0 & Hm & Hq); [lia |].
  unfold reward_bound. set (mult := EffectiveBalanceIncrement _ * BaseRewardFactor _ / Z.sqrt A) in *.
  assert (Z.sqrt A <= Z.sqrt (4096 * MaxEffectiveBalance mainnetBeaconConfig)) as Hs by (apply Z.sqrt_le_mono; lia).
  change (Z.sqrt (4096 * MaxEffectiveBalance mainnetBeaconConfig)) with 404771540 in Hs.
  change (MaxEffectiveBalance mainnetBeaconConfig / EffectiveBalanceIncrement mainnetBeaconConfig) with 40000.
  change (MaxEffectiveBalance mainnetBeaconConfig) with 40000000000000 in *.
  change (WeightDenominator mainnetBeaconConfig) with 64. change (BaseRewardFactor mainnetBeaconConfig) with 2048 in *.
  change (EffectiveBalanceIncrement mainnetBeaconConfig) with 1000000000 in *. clearbody mult. unfold two64.
  assert (T / 1000000000 <= 7 * (A / 1000000000)) by dlia. assert (A / 1000000000 <= 163840000) by dlia.
  assert (0 <= T / 1000000000) by (apply Z.div_pos; lia).
  assert (mult * (T / 1000000000) <= 7 * (mult * (A / 1000000000))) by nia. split; lia.
Qed.

Definition toy_row : PValidator :=
  with_IsPrevEpochHeadAttester true (with_IsPrevEpochTargetAttester true (with_IsPrevEpochSourceAttester true
    (precompute_one 5 (with_EffectiveBalance 40000000000000 (toy_validator 0)) 0 true true))).

(** Half of the validators that attested have left. *)
Definition halved_totals : Balance :=
  let A := 2048 * MaxEffectiveBalance mainnetBeaconConfig in mkBalance A (2 * A) A A (2 * A) (2 * A) (2 * A).

Lemma attestation_delta_exact_witness :
  exists d, attestationDelta mainnetBeaconConfig halved_totals toy_row
    (EffectiveBalanceIncrement mainnetBeaconConfig * BaseRewardFactor mainnetBeaconConfig /
     Z.sqrt (ActiveCurrentEpoch halved_totals)) 262144 false = Ok d /\ 0 < HeadReward d.
Proof.
  eexists. split.
  - etransitivity.
    + apply (attestation_delta_exact mainnetBeaconConfig) with (T := 2 * ActiveCurrentEpoch halved_totals); first
        [apply mainnet_reward_bound; vm_compute; split; congruence | vm_compute; congruence | vm_compute; split; congruence].
    + vm_compute. reflexivity.
  - vm_compute. reflexivity.
Defined.

(** ** Inactivity scores *)

Section Inactivity.
Context (cfg : BeaconChainConfig).
Context (Hbias : 0 <= InactivityScoreBias cfg) (Hrate : 0 <= InactivityScoreRecoveryRate cfg).

(** The specification's [process_inactivity_updates] on one validator. *)
Definition spec_score (leak : bool) (v : PValidator) : Z :=
  let x := if IsPrevEpochTargetAttester v && negb (IsSlashed v) then Z.max 0 (InactivityScore v - 1)
           else InactivityScore v + InactivityScoreBias cfg in
  if leak then x else Z.max 0 (x - InactivityScoreRecoveryRate cfg).

Definition update_score (leak : bool) (v : PValidator) : PValidator :=
  if EligibleForRewards v then with_InactivityScore (spec_score leak v) v else v.

Lemma newScore_ok leak v : 0 <= InactivityScore v -> InactivityScore v + InactivityScoreBias cfg < two64 ->
  newScore cfg leak v = Ok (spec_score leak v).
Proof.
  intros H0 Hf. unfold newScore, spec_score.
  set (x := if _ && _ then Z.max _ _ else _).
  assert ((if IsPrevEpochTargetAttester v && negb (IsSlashed v)
           then if 0 <? InactivityScore v then Ok (InactivityScore v -u 1) else Ok (InactivityScore v)
           else Math.Add64 (InactivityScore v) (InactivityScoreBias cfg)) = Ok x) as ->.
  { unfold x. rewrite Add64_fits by lia. destruct (_ && _); [| reflexivity].
    destruct (Z.ltb_spec 0 (InactivityScore v)); [rewrite u64_small by (unfold u64_ok; lia) |]; f_equal; lia. }
  assert (0 <= x < two64) by (unfold x; destruct (_ && _); lia).
  cbn [mbind result_bind]. destruct leak; cbn [negb]; [reflexivity |].
  f_equal. rewrite u64_small by (unfold u64_ok; lia). lia.
Qed.

Lemma inactivity_fold leak vals : forall pre acc,
  Forall (fun v => 0 <= InactivityScore v /\ InactivityScore v + InactivityScoreBias cfg < two64) vals ->
  foldMi (inactivity_step cfg leak) (zlen pre) (pre ++ map InactivityScore vals, acc) vals =
  Ok (pre ++ map (fun v => InactivityScore (update_score leak v)) vals, acc ++ map (update_score leak) vals).
Proof.
  induction vals as [| v vals IH]; intros pre acc Hok; [cbn; now rewrite !app_nil_r |].
  apply Forall_cons in Hok as [[H0 Hf] Hok]. cbn [foldMi map].
  assert (inactivity_step cfg leak (zlen pre) (pre ++ InactivityScore v :: map InactivityScore vals, acc) v =
    Ok (pre ++ InactivityScore (update_score leak v) :: map InactivityScore vals, acc ++ [update_score leak v])) as ->.
  { unfold inactivity_step, update_score. destruct (EligibleForRewards v); cbn [negb]; [| reflexivity].
    rewrite newScore_ok by assumption. cbn [mbind result_bind].
    rewrite idx_set_ok by (unfold zlen; rewrite length_app; cbn [length]; lia). cbn [mbind result_bind].
    unfold zlen. rewrite Nat2Z.id, insert_app_r_alt, Nat.sub_diag by lia. reflexivity. }
  cbn [mbind result_bind]. specialize (IH (pre ++ [InactivityScore (update_score leak v)]) (acc ++ [update_score leak v]) Hok).
  rewrite zlen_snoc, <- !app_assoc in IH. exact IH.
Qed.

(** C22. [ProcessInactivityScores] gives every eligible validator the score of
    the specification, and leaves the others alone; scores never wrap below
    zero, and the precomputed records keep the scores of the state. *)
Theorem inactivity_scores_exact s vals cur prev :
  CurrentEpoch cfg (slot s) = Ok cur -> PrevEpoch cfg (slot s) = Ok prev -> cur <> GenesisEpoch cfg ->
  map InactivityScore vals = inactivityScores s ->
  Forall (fun v => 0 <= InactivityScore v /\ InactivityScore v + InactivityScoreBias cfg < two64) vals ->
  let leak := IsInInactivityLeak cfg prev (Epoch_ (finalizedCheckpoint s)) in
  ProcessInactivityScores cfg s vals =
  Ok (SetInactivityScores s (map InactivityScore (map (update_score leak) vals)), map (update_score leak) vals).
Proof.
  intros Hc Hp Hg Hm Hok leak. unfold ProcessInactivityScores. rewrite Hc, Hp. cbn [mbind result_bind].
  destruct (Z.eqb_spec cur (GenesisEpoch cfg)); [contradiction |]. fold leak.
  pose proof (inactivity_fold leak vals [] [] Hok) as Hf. cbn [app] in Hf. change (zlen (@nil Z)) with 0 in Hf.
  rewrite <- Hm, Hf. cbn [mbind result_bind fst snd]. now rewrite map_map.
Qed.
End Inactivity.

Lemma inactivity_scores_exact_witness : exists vals,
  ProcessInactivityScores MinimalSpecConfig (toy_state 47 [toy_validator 0]) [toy_row] =
  Ok (SetInactivityScores (toy_state 47 [toy_validator 0]) [0], vals).
Proof.
  eexists.
  rewrite (inactivity_scores_exact MinimalSpecConfig ltac:(vm_compute; congruence) ltac:(vm_compute; congruence)
    (toy_state 47 [toy_validator 0]) [toy_row] 5 4); try reflexivity; [vm_compute; congruence |].
  repeat constructor; vm_compute; congruence.
Defined.
