(* ===== verification/EpochProcessing.v ===== *)
(** * Epoch processing

    Models [beacon-chain/core/epoch/epoch_processing.go] (registry updates,
    slashings, effective balances and the resets),
    [core/altair/epoch_spec.go], [NextSyncCommittee] of
    [core/altair/sync_committee.go] and [ProcessEpoch] of
    [core/altair/transition.go].

    The Merkle root of a vector of roots ([stateutil.ArraysRoot]) is an argument
    of [ProcessHistoricalDataUpdate]. *)

From stdpp Require Import sorting.
From S2P Require Import Prelude Math Config Slots Bytes Shuffle Committee State Validators EpochPrecompute Finality Rewards.

Section Epoch.
Context (cfg : BeaconChainConfig) (fp : FieldParams) {H : Hasher} (caches : Caches).

(** ** Registry updates *)

Definition activeValidatorCountAtEpoch (s : BeaconState) (epoch : Z) : result Z :=
  ReadFromEveryValidator s (fun _ count v => if IsActiveValidator v epoch then Ok (count +u 1) else Ok count) 0.

(** The first loop, over the snapshot [vals] of the registry: queue the eligible
    validators, eject the underfunded ones.  The snapshot keeps the eligibility
    epochs the loop assigns. *)
Definition registry_step (currentEpoch i : Z) (acc : BeaconState * list Validator) (validator : Validator)
    : result (BeaconState * list Validator) :=
  let '(s, vals) := acc in
  let eligible := IsEligibleForActivationQueue cfg validator in
  let validator' := if eligible then with_ActivationEligibilityEpoch (currentEpoch +u 1) validator else validator in
  s ← (if eligible then UpdateValidatorAtIndex s i validator' else Ok s);
  s ← (if IsActiveValidator validator' currentEpoch && (EffectiveBalance validator' <=? EjectionBalance cfg)
       then exit_or_skip cfg caches "could not initiate exit for validator" s i else Ok s);
  Ok (s, vals ++ [validator']).

(** The order of the activation queue, [sortableIndices.Less] with equality. *)
Definition eligibility (vals : list Validator) (i : Z) : Z :=
  match vals !! Z.to_nat i with Some v => ActivationEligibilityEpoch v | None => 0 end.

Definition queue_le (vals : list Validator) (i j : Z) : Prop :=
  if eligibility vals i =? eligibility vals j then i <= j else eligibility vals i < eligibility vals j.

#[global] Instance queue_le_dec vals : RelDecision (queue_le vals).
Proof. intros i j. unfold queue_le. destruct (_ =? _); apply _. Defined.

Definition activationQueue (s : BeaconState) (vals : list Validator) : list Z :=
  merge_sort (queue_le vals) (positions (fun _ v => IsEligibleForActivation cfg s v) 0 vals).

(** How many of the queued validators are activated. *)
Definition activationLimit (queued churnLimit futureActive maxActive : Z) : Z :=
  let limit := if churnLimit <? queued then churnLimit else queued in
  if maxActive <=? futureActive then 0
  else
    let remainingCapacity := maxActive -u futureActive in
    if remainingCapacity <? limit then remainingCapacity else limit.

Definition activate (activationEpoch : Z) (s : BeaconState) (index : Z) : result BeaconState :=
  validator ← ValidatorAtIndex s index;
  UpdateValidatorAtIndex s index (with_ActivationEpoch activationEpoch validator).

Definition ProcessRegistryUpdates (s : BeaconState) : result BeaconState :=
  currentEpoch ← CurrentEpoch cfg (slot s);
  foldMi (registry_step currentEpoch) 0 (s, []) (validators s) ≫= fun r : BeaconState * list Validator =>
  let '(s, vals) := r in
  let activationQ := activationQueue s vals in
  activeValidatorCount ← wrap "could not get active validator count" (ActiveValidatorCount cfg caches s currentEpoch);
  churnLimit ← ValidatorActivationChurnLimit cfg activeValidatorCount;
  let activationExitEpoch := ActivationExitEpoch cfg currentEpoch in
  maxActiveValidators ← wrap "could not determine active validator capacity" (MaxActiveValidators fp cfg);
  futureActiveValidatorCount ← wrap "could not count active validators at activation epoch"
                                 (activeValidatorCountAtEpoch s activationExitEpoch);
  let limit := activationLimit (zlen activationQ) churnLimit futureActiveValidatorCount maxActiveValidators in
  activated ← slice activationQ 0 limit;
  foldM (activate activationExitEpoch) s activated.

(** ** Slashings *)

(** [bits.Div64] panics unless the high word is below the divisor. *)
Definition bits_Div64 (hi lo y : Z) : result Z :=
  if y =? 0 then Panic "integer divide by zero"
  else if y <=? hi then Panic "integer overflow"
  else Ok ((hi * two64 + lo) / y).

Definition slashing_penalty (effectiveBalance minSlashing totalBalance : Z) : result Z :=
  increments ← udiv effectiveBalance (EffectiveBalanceIncrement cfg);
  let '(hi, lo) := Math.bits_Mul64 increments minSlashing in
  quotient ← bits_Div64 hi lo totalBalance;
  Ok (quotient *u EffectiveBalanceIncrement cfg).

Definition ProcessSlashings (s : BeaconState) (slashingMultiplier : Z) : result BeaconState :=
  currentEpoch ← CurrentEpoch cfg (slot s);
  totalBalance ← wrap "could not get total active balance" (TotalActiveBalance cfg caches s);
  let exitLength := EpochsPerSlashingsVector cfg in
  totalSlashing ← foldM (fun total slashing => Math.Add64 total slashing) 0 (slashings s);
  let minSlashing := match Math.Mul64 totalSlashing slashingMultiplier with
                     | Ok adjusted => Z.min adjusted totalBalance
                     | _ => totalBalance
                     end in
  ApplyToEveryValidator s (fun i val s =>
    let correctEpoch := currentEpoch +u exitLength / 2 =? WithdrawableEpoch val in
    if Slashed val && correctEpoch then
      penalty ← slashing_penalty (EffectiveBalance val) minSlashing totalBalance;
      s ← DecreaseBalance s i penalty;
      Ok (true, val, s)
    else Ok (false, val, s)).

Definition ProcessExecutionDataReset (s : BeaconState) : result BeaconState :=
  currentEpoch ← CurrentEpoch cfg (slot s);
  m ← umod (currentEpoch +u 1) (EpochsPerExecutionVotingPeriod cfg);
  if m =? 0 then Ok (with_executionDataVotes [] s) else Ok s.

(** ** Effective balances *)

Definition effective_balance_step (bals : list Z) (downwardThreshold upwardThreshold i : Z) (val : Validator)
    (s : BeaconState) : result (bool * Validator * BeaconState) :=
  if zlen bals <=? i then Err (New "validator index exceeds validator length in state")
  else
    balance ← idx bals i;
    if (balance +u downwardThreshold <? EffectiveBalance val) || (EffectiveBalance val +u upwardThreshold <? balance) then
      r ← umod balance (EffectiveBalanceIncrement cfg);
      let effectiveBal := Z.min (MaxEffectiveBalance cfg) (balance -u r) in
      if negb (effectiveBal =? EffectiveBalance val)
      then Ok (true, with_EffectiveBalance effectiveBal val, s)
      else Ok (false, val, s)
    else Ok (false, val, s).

Definition ProcessEffectiveBalanceUpdates (s : BeaconState) : result BeaconState :=
  hysteresisInc ← udiv (EffectiveBalanceIncrement cfg) (HysteresisQuotient cfg);
  let downwardThreshold := hysteresisInc *u HysteresisDownwardMultiplier cfg in
  let upwardThreshold := hysteresisInc *u HysteresisUpwardMultiplier cfg in
  ApplyToEveryValidator s (effective_balance_step (balances s) downwardThreshold upwardThreshold).

(** ** Resets *)

Definition ProcessSlashingsReset (s : BeaconState) : result BeaconState :=
  currentEpoch ← CurrentEpoch cfg (slot s);
  slashedEpoch ← umod (currentEpoch +u 1) (EpochsPerSlashingsVector cfg);
  if negb (zlen (slashings s) =? EpochsPerSlashingsVector cfg)
  then Err (New "state slashing length different than EpochsPerHistoricalVector")
  else UpdateSlashingsAtIndex s slashedEpoch 0.

(** The conversion [[32]byte(mix)] of a slice. *)
Definition array32 (b : list Z) : result (list Z) :=
  if zlen b <? 32 then Panic "cannot convert slice to array" else Ok (take 32 b).

Definition ProcessRandaoMixesReset (s : BeaconState) : result BeaconState :=
  currentEpoch ← CurrentEpoch cfg (slot s);
  let nextEpoch := currentEpoch +u 1 in
  if negb (zlen (randaoMixes s) =? EpochsPerHistoricalVector cfg)
  then Err (New "state randao length different than EpochsPerHistoricalVector")
  else
    mix ← RandaoMix cfg s currentEpoch;
    i ← umod nextEpoch (EpochsPerHistoricalVector cfg);
    mix ← array32 mix;
    UpdateRandaoMixesAtIndex s i mix.

Definition ProcessHistoricalDataUpdate (ArraysRoot : list (list Z) -> Z -> result (list Z)) (s : BeaconState)
    : result BeaconState :=
  currentEpoch ← CurrentEpoch cfg (slot s);
  let nextEpoch := currentEpoch +u 1 in
  epochsPerHistoricalRoot ← Slot.DivSlot (SlotsPerHistoricalRoot cfg) (SlotsPerEpoch cfg);
  m ← Epoch.Mod nextEpoch epochsPerHistoricalRoot;
  if m =? 0 then
    br ← ArraysRoot (blockRoots s) (fp_BlockRootsLength fp);
    sr ← ArraysRoot (stateRoots s) (fp_StateRootsLength fp);
    Ok (AppendHistoricalSummaries s {| BlockSummaryRoot := br; StateSummaryRoot := sr |})
  else Ok s.

Definition ProcessParticipationFlagUpdates (s : BeaconState) : BeaconState :=
  let s := with_previousEpochParticipation (currentEpochParticipation s) s in
  with_currentEpochParticipation (replicate (Z.to_nat (NumValidators s)) 0) s.

(** ** Sync committees *)

Definition PubkeyLength : nat := 2592.

Definition PubkeyAtIndex (s : BeaconState) (i : Z) : list Z :=
  match validators s !! Z.to_nat i with
  | Some v => take PubkeyLength (PublicKey v ++ zeros PubkeyLength)
  | None => zeros PubkeyLength
  end.

(** One round of the sampling: the candidate and whether it is taken. *)
Definition sync_candidate (s : BeaconState) (indices seed : list Z) (i : Z) : result (Z * bool) :=
  let count := zlen indices in
  m ← umod i count;
  sIndex ← ComputeShuffledIndex cfg m count seed true;
  randomByte ← idx (hash (seed ++ Bytes8 (i / 32))) (i mod 32);
  cIndex ← idx indices sIndex;
  v ← ValidatorAtIndexReadOnly s cIndex;
  Ok (cIndex, MaxEffectiveBalance cfg *u randomByte <=? EffectiveBalance v *u 255).

(** The sampling loop; one candidate per unit of fuel. *)
Fixpoint sync_loop (fuel : nat) (s : BeaconState) (indices seed : list Z) (i : Z) (cIndices : list Z)
    : result (list Z) :=
  if SyncCommitteeSize cfg <=? zlen cIndices then Ok cIndices
  else match fuel with
  | O => Panic "sync committee sampling did not stop within the fuel"
  | S fuel' =>
      sync_candidate s indices seed i ≫= fun r : Z * bool =>
      sync_loop fuel' s indices seed (i +u 1) (if r.2 then cIndices ++ [r.1] else cIndices)
  end.

Definition NextSyncCommitteeIndices (fuel : nat) (s : BeaconState) : result (list Z) :=
  epoch ← NextEpoch cfg (slot s);
  indices ← ActiveValidatorIndices cfg caches s epoch;
  seed ← Seed cfg s epoch (DomainSyncCommittee cfg);
  sync_loop fuel s indices seed 0 [].

Definition NextSyncCommittee (fuel : nat) (s : BeaconState) : result (list (list Z)) :=
  indices ← NextSyncCommitteeIndices fuel s;
  Ok (map (PubkeyAtIndex s) indices).

Definition ProcessSyncCommitteeUpdates (fuel : nat) (s : BeaconState) : result BeaconState :=
  nextEpoch ← NextEpoch cfg (slot s);
  m ← umod nextEpoch (EpochsPerSyncCommitteePeriod cfg);
  if m =? 0 then
    let s := with_currentSyncCommittee (nextSyncCommittee s) s in
    next ← NextSyncCommittee fuel s;
    Ok (with_nextSyncCommittee next s)
  else Ok s.

(** ** The epoch transition *)

Context {B : Bitfield}.

Definition ProcessEpoch (ArraysRoot : list (list Z) -> Z -> result (list Z)) (fuel : nat)
    (sq : Math.cachedSquareRoot) (s : BeaconState) : result (BeaconState * Math.cachedSquareRoot) :=
  InitializePrecomputeValidators cfg s ≫= fun r : list PValidator * Balance =>
  ProcessEpochParticipation cfg s r.2 r.1 ≫= fun r : list PValidator * Balance =>
  let '(vp, bp) := r in
  s ← wrap "could not process justification" (ProcessJustificationAndFinalizationPreCompute cfg s bp);
  wrap "could not process inactivity updates" (ProcessInactivityScores cfg s vp) ≫=
    fun r : BeaconState * list PValidator =>
  wrap "could not process rewards and penalties" (ProcessRewardsAndPenaltiesPrecompute cfg sq r.1 bp r.2) ≫=
    fun r : BeaconState * list PValidator * Math.cachedSquareRoot =>
  let '(s, _, sq) := r in
  s ← wrap "could not process registry updates" (ProcessRegistryUpdates s);
  proportionalSlashingMultiplier ← ProportionalSlashingMultiplier_of cfg s;
  s ← ProcessSlashings s proportionalSlashingMultiplier;
  s ← ProcessExecutionDataReset s;
  s ← ProcessEffectiveBalanceUpdates s;
  s ← ProcessSlashingsReset s;
  s ← ProcessRandaoMixesReset s;
  s ← ProcessHistoricalDataUpdate ArraysRoot s;
  let s := ProcessParticipationFlagUpdates s in
  s ← ProcessSyncCommitteeUpdates fuel s;
  Ok (s, sq).
End Epoch.

(** ** Callbacks over the registry *)

(** A callback of [ApplyToEveryValidator] that acts on the record and the
    balance of its own validator. *)
Lemma state_same s : with_balances (balances s) (with_validators (validators s) s) = s.
Proof. now destruct s. Qed.

Section Pointwise.
Context (s : BeaconState) (g : Validator -> Z -> Z) (h : Validator -> Z -> Validator).
Context (f : Z -> Validator -> BeaconState -> result (bool * Validator * BeaconState)).

Definition st (vs : list Validator) (bs : list Z) : BeaconState := with_balances bs (with_validators vs s).

Hypothesis Hf : forall i v b vs bs, 0 <= i -> vs !! Z.to_nat i = Some v -> bs !! Z.to_nat i = Some b ->
  validators s !! Z.to_nat i = Some v -> balances s !! Z.to_nat i = Some b ->
  exists changed v', f i v (st vs bs) = Ok (changed, v', st vs (<[Z.to_nat i := g v b]> bs)) /\
    (if changed then normalizeRandaoCommitment v' else v) = h v b.
Hypothesis Hlen : length (balances s) = length (validators s).

Let hs := zip_with h (validators s) (balances s).
Let gs := zip_with g (validators s) (balances s).

Lemma apply_prefix k : (k <= length (validators s))%nat ->
  foldM (fun s i =>
    val ← ValidatorAtIndex s i;
    f i val s ≫= fun r : bool * Validator * BeaconState => let '(changed, newVal, s') := r in
    if changed then wrap "could not update validator" (UpdateValidatorAtIndex s' i newVal) else Ok s')
    (st (validators s) (balances s)) (seqZ 0 (Z.of_nat k)) =
  Ok (st (take k hs ++ drop k (validators s)) (take k gs ++ drop k (balances s))).
Proof.
  induction k as [| k IH]; intros Hk; [reflexivity |].
  rewrite Nat2Z.inj_succ. replace (Z.succ (Z.of_nat k)) with (Z.of_nat k + 1) by lia.
  rewrite seqZ_app, foldM_app, IH by lia. cbn [mbind result_bind].
  change (seqZ (0 + Z.of_nat k) 1) with [0 + Z.of_nat k]. rewrite Z.add_0_l. cbn [foldM].
  destruct (lookup_lt_is_Some_2 (validators s) k) as [v Hv]; [lia |].
  destruct (lookup_lt_is_Some_2 (balances s) k) as [b Hb]; [lia |].
  assert (length hs = length (validators s) /\ length gs = length (validators s)) as [Hlh Hlg]
    by (unfold hs, gs; rewrite !length_zip_with; lia).
  assert ((take k hs ++ drop k (validators s)) !! k = Some v) as Hv'
    by (rewrite lookup_app_r by (rewrite length_take; lia); rewrite length_take, Nat.min_l, Nat.sub_diag, lookup_drop, Nat.add_0_r by lia; exact Hv).
  assert ((take k gs ++ drop k (balances s)) !! k = Some b) as Hb'
    by (rewrite lookup_app_r by (rewrite length_take; lia); rewrite length_take, Nat.min_l, Nat.sub_diag, lookup_drop, Nat.add_0_r by lia; exact Hb).
  destruct (Hf (Z.of_nat k) v b (take k hs ++ drop k (validators s)) (take k gs ++ drop k (balances s)))
    as (ch & v' & Ef & Eh); rewrite ?Nat2Z.id; try assumption; [lia |].
  unfold ValidatorAtIndex. cbn [validators st with_balances with_validators].
  rewrite (at_index_ok _ _ _ v) by (try lia; now rewrite Nat2Z.id). cbn [mbind result_bind].
  rewrite Ef, Nat2Z.id. cbn [mbind result_bind].
  assert (forall {A} (l l' : list A) x y, length l' = length l -> l !! k = Some x -> l' !! k = Some y ->
    <[k := y]> (take k l' ++ drop k l) = take (S k) l' ++ drop (S k) l) as Hsplice.
  { intros A l l' x y Hll Hx Hy. rewrite (drop_S _ _ _ Hx), (take_S_r _ _ _ Hy), <- app_assoc.
    rewrite insert_app_r_alt by (rewrite length_take; lia). pose proof (lookup_lt_Some _ _ _ Hy).
    now rewrite length_take, Nat.min_l, Nat.sub_diag by lia. }
  assert (hs !! k = Some (h v b)) as Hhk by (unfold hs; rewrite lookup_zip_with, Hv, Hb; reflexivity).
  assert (gs !! k = Some (g v b)) as Hgk by (unfold gs; rewrite lookup_zip_with, Hv, Hb; reflexivity).
  rewrite (Hsplice _ _ _ b) by (assumption || lia).
  destruct ch.
  - unfold UpdateValidatorAtIndex. cbn [validators st with_balances with_validators]. rewrite Eh.
    rewrite (update_at_ok _ _ _ _ v) by (try lia; now rewrite Nat2Z.id). cbn [wrap mbind result_bind].
    rewrite Nat2Z.id, (Hsplice _ _ _ v) by (assumption || lia). reflexivity.
  - cbn [mbind result_bind]. rewrite <- (Hsplice _ (validators s) hs v (h v b)) by (assumption || lia).
    rewrite <- Eh, list_insert_id by exact Hv'. reflexivity.
Qed.

Lemma apply_pointwise : ApplyToEveryValidator s f = Ok (st hs gs).
Proof.
  pose proof (apply_prefix (length (validators s)) ltac:(lia)) as E.
  assert (length hs = length (validators s) /\ length gs = length (validators s)) as [Hlh Hlg]
    by (unfold hs, gs; rewrite !length_zip_with; lia).
  rewrite !take_ge, !drop_ge, !app_nil_r in E by lia.
  unfold ApplyToEveryValidator, NumValidators, zlen.
  etransitivity; [| exact E]. f_equal. symmetry. apply state_same.
Qed.
End Pointwise.

Lemma zip_with_left {A B} (l : list A) (k : list B) : length k = length l -> zip_with (fun a _ => a) l k = l.
Proof. revert k. induction l as [| a l IH]; intros [| b k] E; cbn in *; try discriminate; [reflexivity |]. f_equal. apply IH. lia. Qed.

Lemma zip_with_right {A B} (l : list A) (k : list B) : length k = length l -> zip_with (fun _ b => b) l k = k.
Proof. revert k. induction l as [| a l IH]; intros [| b k] E; cbn in *; try discriminate; [reflexivity |]. f_equal. apply IH. lia. Qed.

Lemma foldM_Add64 l : forall a, 0 <= a -> Forall u64_ok l -> a + zsum l < two64 ->
  foldM (fun total x => Math.Add64 total x) a l = Ok (a + zsum l).
Proof.
  unfold zsum. induction l as [| x l IH]; intros a Ha Hok Hf; cbn [foldM fold_right] in *; [now rewrite Z.add_0_r |].
  apply Forall_cons in Hok as [[Hx _] Hok].
  assert (0 <= fold_right Z.add 0 l) by (clear - Hok; induction Hok as [| y l [Hy _] _ IH]; cbn; lia).
  rewrite Add64_fits by lia. cbn [mbind result_bind]. rewrite IH by (assumption || lia). f_equal. lia.
Qed.

(** ** Slashings *)

Section Slashings.
Context (cfg : BeaconChainConfig) {H : Hasher} (caches : Caches).
Context (Hinc : 0 < EffectiveBalanceIncrement cfg < two64).

Definition spec_penalty (eff adjusted total : Z) : Z :=
  eff / EffectiveBalanceIncrement cfg * adjusted / total * EffectiveBalanceIncrement cfg.

Lemma slashing_penalty_ok eff adj total : u64_ok eff -> 0 <= adj <= total -> 0 < total < two64 ->
  slashing_penalty cfg eff adj total = Ok (spec_penalty eff adj total) /\ 0 <= spec_penalty eff adj total <= eff.
Proof.
  intros Heff Hadj Htot. unfold slashing_penalty, spec_penalty.
  set (inc := EffectiveBalanceIncrement cfg) in *. rewrite udiv_ok by lia. cbn [mbind result_bind].
  pose proof (u64_div_ok eff inc Heff ltac:(lia)) as He. set (e := eff / inc) in *.
  assert (e * inc <= eff) as Hle by (unfold e; pose proof (Z.mul_div_le eff inc ltac:(lia)); lia).
  unfold u64_ok in *. unfold Math.bits_Mul64.
  assert (0 <= e * adj / total <= e) as Hq.
  { split; [apply Z.div_pos; nia |]. apply Z.div_le_upper_bound; [lia |]. nia. }
  assert (e * adj / two64 < total) as Hhi.
  { apply Z.div_lt_upper_bound; [reflexivity |]. assert (e * adj <= e * total) by nia. assert (e * total < two64 * total) by nia. lia. }
  unfold bits_Div64. destruct (Z.eqb_spec total 0); [lia |].
  destruct (Z.leb_spec total (e * adj / two64)); [lia |]. cbn [mbind result_bind].
  replace (e * adj / two64 * two64 + u64 (e * adj)) with (e * adj)
    by (unfold u64; pose proof (Z.div_mod (e * adj) two64 ltac:(discriminate)); lia).
  rewrite u64_small by (unfold u64_ok; nia). split; [reflexivity | nia].
Qed.

(** C7. [ProcessSlashings] charges every slashed validator in the middle of its
    withdrawal delay exactly the proportional penalty of the specification,
    computed in 128 bits; the division never panics, the penalty never exceeds
    the effective balance, and nothing else changes. *)
Theorem process_slashings_exact s cur total mult :
  state_ok s -> CurrentEpoch cfg (slot s) = Ok cur -> TotalActiveBalance cfg caches s = Ok total ->
  0 < total < two64 -> zsum (slashings s) < two64 -> u64_ok mult ->
  let adjusted := Z.min (zsum (slashings s) * mult) total in
  let penalty v := if Slashed v && (cur +u EpochsPerSlashingsVector cfg / 2 =? WithdrawableEpoch v)
                   then spec_penalty (EffectiveBalance v) adjusted total else 0 in
  ProcessSlashings cfg caches s mult =
    Ok (with_balances (zip_with (fun v b => Z.max 0 (b - penalty v)) (validators s) (balances s)) s) /\
  forall v, v ∈ validators s -> 0 <= penalty v <= EffectiveBalance v.
Proof.
  intros Hok Hcur Htot Ht Hs Hm adjusted penalty.
  pose proof (ok_validators _ Hok) as Hvs. pose proof (ok_slashings _ Hok) as Hsl.
  assert (0 <= zsum (slashings s)) as Hs0
    by (clear - Hsl; unfold zsum; induction Hsl as [| y l [Hy _] _ IH]; cbn; lia).
  assert (0 <= adjusted <= total) as Hadj by (unfold adjusted, u64_ok in *; nia).
  assert (forall v, v ∈ validators s -> 0 <= penalty v <= EffectiveBalance v) as Hpen.
  { intros v Hv. rewrite Forall_forall in Hvs. destruct (Hvs v Hv) as (Heff & _). unfold penalty.
    destruct (_ && _); [| unfold u64_ok in *; lia]. now apply slashing_penalty_ok. }
  split; [| exact Hpen]. unfold ProcessSlashings. rewrite Hcur, Htot. cbn [wrap mbind result_bind].
  rewrite foldM_Add64 by (assumption || lia). rewrite Z.add_0_l. cbn [mbind result_bind].
  assert (match Math.Mul64 (zsum (slashings s)) mult with Ok a => Z.min a total | _ => total end = adjusted) as ->.
  { rewrite Mul64_spec by (assumption || unfold u64_ok; lia). unfold adjusted.
    destruct (Z.ltb_spec (zsum (slashings s) * mult) two64); lia. }
  rewrite (apply_pointwise s (fun v b => Z.max 0 (b - penalty v)) (fun v _ => v)).
  - unfold st. now rewrite zip_with_left by apply Hok.
  - intros i v b vs bs Hi Hvs' Hbs' Hv Hb.
    pose proof (Forall_lookup_1 _ _ _ _ Hvs Hv) as (Heff & _ & _ & _ & _ & Hrc).
    pose proof (Forall_lookup_1 _ _ _ _ (ok_balances _ Hok) Hb) as Hub.
    unfold penalty. destruct (_ && _).
    + destruct (slashing_penalty_ok (EffectiveBalance v) adjusted total Heff Hadj Ht) as [E Hr]. rewrite E.
      cbn [mbind result_bind]. unfold DecreaseBalance, BalanceAtIndex, UpdateBalancesAtIndex.
      cbn [balances st with_balances]. rewrite (at_index_ok _ _ _ b) by assumption. cbn [mbind result_bind].
      rewrite (update_at_ok _ _ _ _ b) by assumption. cbn [mbind result_bind].
      rewrite DecreaseBalanceWithVal_max by (assumption || lia).
      exists true, v. split; [reflexivity | now apply normalize_ok].
    + exists false, v. split; [| reflexivity]. rewrite Z.sub_0_r, Z.max_r by (unfold u64_ok in *; lia).
      now rewrite list_insert_id.
  - apply Hok.
Qed.
End Slashings.

(** ** Effective balances *)

Section EffectiveBalances.
Context (cfg : BeaconChainConfig).
Let inc := EffectiveBalanceIncrement cfg.
Let down := inc / HysteresisQuotient cfg * HysteresisDownwardMultiplier cfg.
Let up := inc / HysteresisQuotient cfg * HysteresisUpwardMultiplier cfg.
Context (Hinc : 0 < inc) (HQ : 0 < HysteresisQuotient cfg)
        (HD : 0 <= HysteresisDownwardMultiplier cfg) (HU : 0 <= HysteresisUpwardMultiplier cfg)
        (Hmax : 0 <= MaxEffectiveBalance cfg) (Hmul : MaxEffectiveBalance cfg mod inc = 0).

Definition new_effective (v : Validator) (b : Z) : Z :=
  if (b + down <? EffectiveBalance v) || (EffectiveBalance v + up <? b)
  then Z.min (MaxEffectiveBalance cfg) (b - b mod inc) else EffectiveBalance v.

Definition update_effective (v : Validator) (b : Z) : Validator := with_EffectiveBalance (new_effective v b) v.

(** What the thresholds need: no sum wraps around. *)
Definition hysteresis_fits (s : BeaconState) : Prop :=
  Forall (fun b => b + down < two64) (balances s) /\
  Forall (fun v => EffectiveBalance v + up < two64) (validators s).

Lemma thresholds_nonneg : 0 <= down /\ 0 <= up.
Proof.
  assert (0 <= inc / HysteresisQuotient cfg) by (apply Z.div_pos; lia).
  unfold down, up. split; apply Z.mul_nonneg_nonneg; assumption.
Qed.

Lemma effective_updates_ok s : state_ok s -> hysteresis_fits s -> down < two64 -> up < two64 ->
  ProcessEffectiveBalanceUpdates cfg s =
  Ok (with_validators (zip_with update_effective (validators s) (balances s)) s).
Proof.
  intros Hok [Hb Hv] Hd Hu. destruct thresholds_nonneg as [Hd0 Hu0].
  unfold ProcessEffectiveBalanceUpdates. rewrite udiv_ok by lia. cbn [mbind result_bind]. fold inc.
  rewrite !(u64_small (inc / HysteresisQuotient cfg * _)) by (unfold u64_ok; fold down up; lia). fold down up.
  rewrite (apply_pointwise s (fun _ b => b) update_effective).
  - unfold st. now rewrite zip_with_right by apply Hok.
  - intros i v b vs bs Hi Hvs Hbs Hv' Hb'.
    pose proof (Forall_lookup_1 _ _ _ _ Hb Hb') as Hbd. pose proof (Forall_lookup_1 _ _ _ _ Hv Hv') as Hvu.
    pose proof (Forall_lookup_1 _ _ _ _ (ok_validators _ Hok) Hv') as ([Hev _] & _ & _ & _ & _ & Hrc).
    pose proof (Forall_lookup_1 _ _ _ _ (ok_balances _ Hok) Hb') as [Hb0 Hb1]. cbn in Hbd, Hvu.
    rewrite (list_insert_id bs) by assumption.
    unfold effective_balance_step. destruct (Z.leb_spec (zlen (balances s)) i) as [Hge | _].
    { apply lookup_lt_Some in Hb'. unfold zlen in Hge. lia. }
    rewrite (idx_Some _ _ b) by assumption. cbn [mbind result_bind]. fold inc.
    rewrite !(u64_small (_ + _)) by (unfold u64_ok; lia).
    unfold update_effective, new_effective. fold inc.
    pose proof (Z.mod_pos_bound b inc Hinc) as Hmod. pose proof (Z.mod_le b inc Hb0 Hinc) as Hmle.
    destruct (_ || _).
    + rewrite umod_ok by lia. cbn [mbind result_bind]. rewrite (u64_small (b - b mod inc)) by (unfold u64_ok; lia).
      destruct (Z.eqb_spec (Z.min (MaxEffectiveBalance cfg) (b - b mod inc)) (EffectiveBalance v)) as [E | E]; cbn [negb].
      * exists false, v. split; [reflexivity |]. rewrite E. now destruct v.
      * eexists true, _. split; [reflexivity |]. now apply normalize_ok.
    + exists false, v. split; [reflexivity |]. now destruct v.
  - apply Hok.
Qed.

Lemma new_effective_stable v b : 0 <= b -> new_effective (update_effective v b) b = new_effective v b.
Proof.
  intros Hb. unfold update_effective, new_effective. cbn [EffectiveBalance with_EffectiveBalance].
  destruct ((b + down <? EffectiveBalance v) || (EffectiveBalance v + up <? b)) eqn:E; [| now rewrite E].
  clear E. now destruct (_ || _).
Qed.

Lemma update_effective_idem s : state_ok s ->
  let vs' := zip_with update_effective (validators s) (balances s) in
  zip_with update_effective vs' (balances s) = vs'.
Proof.
  intros Hok vs'. unfold vs'. apply list_eq. intros i. rewrite !lookup_zip_with.
  destruct (validators s !! i) as [v |] eqn:Ev; [| reflexivity]. cbn.
  destruct (balances s !! i) as [b |] eqn:Eb; [| reflexivity]. cbn. f_equal.
  pose proof (Forall_lookup_1 _ _ _ _ (ok_balances _ Hok) Eb) as [? _].
  unfold update_effective at 1. rewrite new_effective_stable by assumption.
  unfold update_effective. now destruct v.
Qed.

Lemma new_effective_tracks v b : 0 <= b -> inc - 1 <= up ->
  new_effective v b <= b + down /\ (b <= new_effective v b + up \/ new_effective v b = MaxEffectiveBalance cfg).
Proof.
  intros Hb Hup. destruct thresholds_nonneg. unfold new_effective.
  pose proof (Z.mod_pos_bound b inc Hinc). pose proof (Z.mod_le b inc Hb Hinc).
  destruct (Z.ltb_spec (b + down) (EffectiveBalance v)); cbn [orb]; [lia |].
  destruct (Z.ltb_spec (EffectiveBalance v + up) b); lia.
Qed.

Lemma new_effective_multiple v b : EffectiveBalance v mod inc = 0 -> EffectiveBalance v <= MaxEffectiveBalance cfg ->
  new_effective v b mod inc = 0 /\ new_effective v b <= MaxEffectiveBalance cfg.
Proof.
  intros Hv Hle. unfold new_effective. destruct (_ || _); [| auto]. split; [| lia].
  destruct (Z.min_spec (MaxEffectiveBalance cfg) (b - b mod inc)) as [[_ ->] | [_ ->]]; [exact Hmul |].
  rewrite Zminus_mod_idemp_r, Z.sub_diag. apply Z.mod_0_l. lia.
Qed.

(** C23. Effective balances follow balances with hysteresis, exactly: the effective balance of
    a validator stays as it is while its balance is within the thresholds around it, and
    becomes the balance rounded down to a whole number of increments, at most the maximum,
    when the balance is below or above them; no other field of a record and no other field
    of the state changes.  After the update every effective balance is a whole number of
    increments within the maximum and within the thresholds of its balance, or capped, and
    running the update again changes nothing.  Assumed are sums with the thresholds that
    fit a word, effective balances that are whole numbers of increments within the maximum
    before, and an upward threshold of at least an increment less one. *)
Theorem effective_balances_hysteresis s : state_ok s -> hysteresis_fits s -> down < two64 -> up < two64 ->
  inc - 1 <= up -> MaxEffectiveBalance cfg + up < two64 ->
  Forall (fun v => EffectiveBalance v mod inc = 0 /\ 0 <= EffectiveBalance v <= MaxEffectiveBalance cfg) (validators s) ->
  exists vs', ProcessEffectiveBalanceUpdates cfg s = Ok (with_validators vs' s) /\
    length vs' = length (validators s) /\
    (forall i v b, validators s !! i = Some v -> balances s !! i = Some b ->
       vs' !! i = Some (with_EffectiveBalance
         (if (b + down <? EffectiveBalance v) || (EffectiveBalance v + up <? b)
          then Z.min (MaxEffectiveBalance cfg) (b - b mod inc) else EffectiveBalance v) v)) /\
    ProcessEffectiveBalanceUpdates cfg (with_validators vs' s) = Ok (with_validators vs' s) /\
    forall i v' b, vs' !! i = Some v' -> balances s !! i = Some b ->
      EffectiveBalance v' mod inc = 0 /\ EffectiveBalance v' <= MaxEffectiveBalance cfg /\
      EffectiveBalance v' <= b + down /\ (b <= EffectiveBalance v' + up \/ EffectiveBalance v' = MaxEffectiveBalance cfg).
Proof.
  intros Hok Hfit Hd Hu Hup Hmu Hvs. eexists. split; [now apply effective_updates_ok |].
  set (vs' := zip_with update_effective (validators s) (balances s)).
  assert (length vs' = length (validators s)) as Hl
    by (unfold vs'; rewrite length_zip_with, (ok_balances_len _ Hok); lia).
  split; [exact Hl |].
  split.
  { intros i v b Hv Hb. unfold vs'. rewrite lookup_zip_with, Hv, Hb. reflexivity. }
  assert (forall i v' b, vs' !! i = Some v' -> balances s !! i = Some b -> exists v,
    validators s !! i = Some v /\ v' = update_effective v b) as Hinv.
  { intros i v' b Hv' Hb. unfold vs' in Hv'. apply lookup_zip_with_Some in Hv' as (v & b' & -> & Hv & Hb').
    rewrite Hb in Hb'. injection Hb' as <-. eauto. }
  assert (forall i v b, validators s !! i = Some v -> balances s !! i = Some b -> 0 <= b /\ validator_ok v /\
    EffectiveBalance v mod inc = 0 /\ 0 <= EffectiveBalance v <= MaxEffectiveBalance cfg) as Hall.
  { intros i v b Hv Hb. pose proof (Forall_lookup_1 _ _ _ _ (ok_balances _ Hok) Hb) as [? _].
    pose proof (Forall_lookup_1 _ _ _ _ (ok_validators _ Hok) Hv). destruct (Forall_lookup_1 _ _ _ _ Hvs Hv) as [? ?]. auto. }
  assert (forall v b, 0 <= b -> 0 <= EffectiveBalance v -> 0 <= new_effective v b) as Hnn.
  { intros v b Hb Hv. unfold new_effective. destruct (_ || _); [| exact Hv].
    pose proof (Z.mod_le b inc Hb Hinc). lia. }
  pose proof (update_effective_idem s Hok : zip_with update_effective vs' (balances s) = vs') as Hidem.
  assert (forall v', v' ∈ vs' -> validator_ok v' /\ EffectiveBalance v' + up < two64) as Hvs'.
  { intros v' [i Hi]%list_elem_of_lookup_1.
    destruct (lookup_lt_is_Some_2 (balances s) i) as [b Hb].
    { apply lookup_lt_Some in Hi. rewrite (ok_balances_len _ Hok). lia. }
    destruct (Hinv i v' b Hi Hb) as (v & Hv & ->). destruct (Hall i v b Hv Hb) as (Hb0 & Hvo & Hm & Hr).
    destruct (new_effective_multiple v b Hm (proj2 Hr)) as [_ Hle]. specialize (Hnn v b Hb0 (proj1 Hr)).
    destruct thresholds_nonneg. destruct Hvo as (_ & ? & ? & ? & ? & ?).
    split; [| cbn; lia]. split_and!; cbn; try assumption; unfold u64_ok; lia. }
  split.
  - rewrite effective_updates_ok; try assumption.
    + cbn [validators balances with_validators]. now rewrite Hidem.
    + destruct Hok. split; cbn [slot validators balances inactivityScores previousEpochParticipation
        currentEpochParticipation slashings justificationBits with_validators]; rewrite ?Hl; try assumption.
      * apply Forall_forall. intros v' Hv'. now apply Hvs'.
      * unfold NumValidators, zlen in *. cbn. now rewrite Hl.
    + destruct Hfit as [Hfb _]. split; [exact Hfb |]. apply Forall_forall. intros v' Hv'. now apply Hvs'.
  - intros i v' b Hv' Hb. destruct (Hinv i v' b Hv' Hb) as (v & Hv & ->).
    destruct (Hall i v b Hv Hb) as (Hb0 & Hvo & Hm & Hr). cbn [EffectiveBalance update_effective with_EffectiveBalance].
    destruct (new_effective_multiple v b Hm (proj2 Hr)). destruct (new_effective_tracks v b Hb0 Hup). auto.
Qed.
End EffectiveBalances.

(** ** Witnesses *)

(** Validator 1 was slashed half a slashings vector before its withdrawal. *)
Definition toy_offender : Validator :=
  with_WithdrawableEpoch (5 + EpochsPerSlashingsVector MinimalSpecConfig / 2) (with_Slashed true (toy_validator 1)).

Definition toy_punished : BeaconState :=
  with_slashings [40000000000000] (toy_state 40 [toy_validator 0; toy_offender; toy_validator 2]).

Lemma toy_punished_ok : state_ok toy_punished.
Proof.
  assert (Forall validator_ok [toy_validator 0; toy_offender; toy_validator 2]) as Hv.
  { apply Forall_cons_2; [apply toy_validator_ok |]. apply Forall_cons_2; [| apply Forall_cons_2; [apply toy_validator_ok | constructor]].
    unfold validator_ok, u64_ok. split_and!; vm_compute; congruence. }
  assert (state_ok (toy_state 40 [toy_validator 0; toy_offender; toy_validator 2])) as []
    by (apply toy_state_ok; [vm_compute; split; congruence | vm_compute; split; congruence | exact Hv]).
  split; try assumption. repeat constructor; vm_compute; congruence.
Qed.

Lemma process_slashings_exact_witness :
  ProcessSlashings MinimalSpecConfig no_caches toy_punished 1 =
  Ok (with_balances [40000000000000; 26667000000000; 40000000000000] toy_punished).
Proof.
  destruct (process_slashings_exact MinimalSpecConfig no_caches ltac:(vm_compute; split; congruence)
    toy_punished 5 120000000000000 1) as [E _].
  - exact toy_punished_ok.
  - reflexivity.
  - vm_compute. reflexivity.
  - vm_compute. split; congruence.
  - vm_compute. congruence.
  - vm_compute. split; congruence.
  - etransitivity; [exact E |]. vm_compute. reflexivity.
Defined.

Lemma effective_balances_hysteresis_witness :
  exists vs', ProcessEffectiveBalanceUpdates MinimalSpecConfig
                (with_balances [39000000000000; 40000000000000; 12345000000000] toy_punished) =
              Ok (with_validators vs' (with_balances [39000000000000; 40000000000000; 12345000000000] toy_punished)) /\
    length vs' = 3%nat.
Proof.
  destruct (effective_balances_hysteresis MinimalSpecConfig ltac:(vm_compute; reflexivity) ltac:(vm_compute; reflexivity)
    ltac:(vm_compute; congruence) ltac:(vm_compute; congruence) ltac:(vm_compute; congruence) ltac:(vm_compute; reflexivity)
    (with_balances [39000000000000; 40000000000000; 12345000000000] toy_punished)) as (vs' & E & Hlen & _).
  - destruct toy_punished_ok. split; try assumption. repeat constructor; vm_compute; congruence.
  - split; repeat constructor; vm_compute; congruence.
  - vm_compute. reflexivity.
  - vm_compute. reflexivity.
  - vm_compute. congruence.
  - vm_compute. reflexivity.
  - repeat constructor; vm_compute; congruence.
  - exists vs'. split; [exact E | exact Hlen].
Defined.
