(* ===== verification/Registry.v ===== *)
(** * The validator registry over an epoch

    What [ProcessRegistryUpdates] of
    [beacon-chain/core/epoch/epoch_processing.go] guarantees: which validators
    are queued, ejected and activated, in which order, and that the activations
    keep the active set within the committee capacity. *)

From stdpp Require Import sorting.
From S2P Require Import Prelude Math Config Slots Bytes Shuffle Committee State Validators EpochPrecompute Finality Rewards EpochProcessing.

Section Registry.
Context (cfg : BeaconChainConfig) (fp : FieldParams) {H : Hasher} (caches : Caches).

(** ** The first loop *)

(** The record of a validator after the eligibility check of the loop. *)
Definition queued (cur : Z) (v : Validator) : Validator :=
  if IsEligibleForActivationQueue cfg v then with_ActivationEligibilityEpoch (cur +u 1) v else v.

(** What the loop does to one validator: the eligibility check, and an exit of
    an active validator that is not above the ejection balance. *)
Definition loop_effect (cur : Z) (v v' : Validator) : Prop :=
  v' = queued cur v \/
  exists e w, v' = with_WithdrawableEpoch w (with_ExitEpoch e (queued cur v)) /\
    ExitEpoch v = FarFutureEpoch cfg /\ u64_ok e /\ u64_ok w /\
    IsActiveValidator v cur = true /\ EffectiveBalance v <= EjectionBalance cfg.

Lemma queued_ok cur v : validator_ok v -> validator_ok (queued cur v).
Proof.
  intros (? & ? & ? & ? & ? & ?). unfold queued. destruct (IsEligibleForActivationQueue cfg v); split_and!; cbn; auto.
  apply u64_range.
Qed.

Lemma queued_fields cur v : ActivationEpoch (queued cur v) = ActivationEpoch v /\ ExitEpoch (queued cur v) = ExitEpoch v /\
  EffectiveBalance (queued cur v) = EffectiveBalance v.
Proof. unfold queued. now destruct (IsEligibleForActivationQueue cfg v). Qed.

Lemma loop_effect_ok cur v v' : validator_ok v -> loop_effect cur v v' -> validator_ok v'.
Proof.
  intros Hv [-> | (e & w & -> & _ & He & Hw & _)]; [now apply queued_ok |].
  destruct (queued_ok cur v Hv) as (? & ? & ? & ? & ? & ?). split_and!; cbn; auto.
Qed.

Lemma loop_effect_fields cur v v' : loop_effect cur v v' ->
  ActivationEpoch v' = ActivationEpoch v /\ ActivationEligibilityEpoch v' = ActivationEligibilityEpoch (queued cur v).
Proof.
  destruct (queued_fields cur v) as (? & _). intros [-> | (e & w & -> & _)]; cbn; auto.
Qed.

Lemma queue_update s pre v rest cur : validator_ok v ->
  (if IsEligibleForActivationQueue cfg v then UpdateValidatorAtIndex (with_validators (pre ++ v :: rest) s) (zlen pre) (queued cur v)
   else Ok (with_validators (pre ++ v :: rest) s)) = Ok (with_validators (pre ++ queued cur v :: rest) s).
Proof.
  intros Hv. pose proof (queued_ok cur v Hv) as (_ & _ & _ & _ & _ & Hrc). unfold queued in *.
  destruct (IsEligibleForActivationQueue cfg v); [| reflexivity].
  unfold UpdateValidatorAtIndex. rewrite normalize_ok by exact Hrc. cbn [validators with_validators].
  rewrite (update_at_ok _ _ _ _ v) by (unfold zlen; rewrite ?Nat2Z.id, ?list_lookup_middle by reflexivity; lia || reflexivity).
  cbn [mbind result_bind]. unfold zlen. rewrite Nat2Z.id, insert_app_r_alt, Nat.sub_diag by lia. reflexivity.
Qed.

Lemma registry_step_inv s pre v rest cur acc s1 acc1 : Forall validator_ok (pre ++ v :: rest) ->
  registry_step cfg caches cur (zlen pre) (with_validators (pre ++ v :: rest) s, acc) v = Ok (s1, acc1) ->
  exists v', s1 = with_validators (pre ++ v' :: rest) s /\ loop_effect cur v v' /\ acc1 = acc ++ [queued cur v].
Proof.
  intros Hok. apply Forall_app in Hok as [Hpre Hok]. apply Forall_cons in Hok as [Hv Hrest].
  unfold registry_step. fold (queued cur v). rewrite queue_update by exact Hv. cbn [mbind result_bind].
  destruct (queued_fields cur v) as (Ha & He & Hb).
  replace (IsActiveValidator (queued cur v) cur) with (IsActiveValidator v cur)
    by (unfold IsActiveValidator; now rewrite Ha, He).
  rewrite Hb. destruct (IsActiveValidator v cur && (EffectiveBalance v <=? EjectionBalance cfg)) eqn:Ec.
  - destruct (exit_or_skip _ _ _ _ _) as [s2 | |] eqn:Ex; try discriminate. cbn [mbind result_bind]. intros [= <- <-].
    apply exit_or_skip_inv in Ex as [-> | (v0 & e & w & _ & Hl & Hfar & Hue & Huw & ->)].
    + exists (queued cur v). split_and!; [reflexivity | now left | reflexivity].
    + cbn [validators with_validators] in *. unfold zlen in *. rewrite Nat2Z.id in *.
      rewrite list_lookup_middle in Hl by reflexivity. injection Hl as <-.
      rewrite insert_app_r_alt, Nat.sub_diag by lia. bool_to_prop.
      eexists. split; [reflexivity |]. split; [| reflexivity]. right. exists e, w. rewrite He in Hfar. auto 10.
    + apply Forall_app_2; [exact Hpre |]. apply Forall_cons_2; [now apply queued_ok | exact Hrest].
  - cbn [mbind result_bind]. intros [= <- <-]. exists (queued cur v). split_and!; [reflexivity | now left | reflexivity].
Qed.

Lemma registry_loop s cur rest : forall pre acc s' vals, Forall validator_ok (pre ++ rest) ->
  foldMi (registry_step cfg caches cur) (zlen pre) (with_validators (pre ++ rest) s, acc) rest = Ok (s', vals) ->
  exists vs, s' = with_validators (pre ++ vs) s /\ Forall2 (loop_effect cur) rest vs /\ vals = acc ++ map (queued cur) rest.
Proof.
  induction rest as [| v rest IH]; intros pre acc s' vals Hok E; cbn [foldMi] in E.
  - injection E as <- <-. exists []. split_and!; [reflexivity | constructor | now rewrite app_nil_r].
  - destruct (registry_step _ _ _ _ _ _) as [[s1 acc1] | |] eqn:E1; try discriminate. cbn [mbind result_bind] in E.
    apply registry_step_inv in E1 as (v' & -> & Hv' & ->); [| exact Hok].
    rewrite <- (zlen_snoc pre v') in E.
    replace (pre ++ v' :: rest) with ((pre ++ [v']) ++ rest) in E by (now rewrite <- app_assoc).
    apply IH in E as (vs & -> & Hvs & ->).
    + exists (v' :: vs). rewrite <- !app_assoc. split_and!; [reflexivity | now constructor | reflexivity].
    + apply Forall_app in Hok as [Hpre Hok]. apply Forall_cons in Hok as [Hv Hrest].
      apply Forall_app_2; [apply Forall_app_2; [exact Hpre |] | exact Hrest].
      apply Forall_singleton. eapply loop_effect_ok; eassumption.
Qed.

(** ** The activations *)

Definition activate_all (E : Z) (vs : list Validator) (l : list Z) : list Validator :=
  fold_left (fun vs i => alter (with_ActivationEpoch E) (Z.to_nat i) vs) l vs.

Lemma activate_inv E s vs i s' : Forall (fun v => RandaoCommitment v <> []) vs ->
  activate E (with_validators vs s) i = Ok s' ->
  0 <= i < zlen vs /\ s' = with_validators (alter (with_ActivationEpoch E) (Z.to_nat i) vs) s.
Proof.
  intros Hrc. unfold activate, ValidatorAtIndex, UpdateValidatorAtIndex. cbn [validators with_validators].
  destruct (at_index _ _ _) as [v | |] eqn:Ev; try discriminate. cbn [mbind result_bind].
  apply at_index_inv in Ev as [Hi Hv]. pose proof (Forall_lookup_1 _ _ _ _ Hrc Hv) as Hn. cbn in Hn.
  rewrite normalize_ok by exact Hn. rewrite (update_at_ok _ _ _ _ v) by assumption. cbn [mbind result_bind].
  intros [= <-]. pose proof (lookup_lt_Some _ _ _ Hv). split; [unfold zlen; lia |].
  change (with_validators ?a (with_validators _ s)) with (with_validators a s). f_equal.
  rewrite list_insert_alter. apply list_alter_ext; [| reflexivity]. intros x Hx. congruence.
Qed.

Lemma alter_activation_rc E vs i : Forall (fun v => RandaoCommitment v <> []) vs ->
  Forall (fun v => RandaoCommitment v <> []) (alter (with_ActivationEpoch E) i vs).
Proof. intros Hrc. apply Forall_alter; auto. Qed.

Lemma activate_loop E s l : forall vs s', Forall (fun v => RandaoCommitment v <> []) vs ->
  foldM (activate E) (with_validators vs s) l = Ok s' -> s' = with_validators (activate_all E vs l) s.
Proof.
  induction l as [| i l IH]; intros vs s' Hrc Ef; cbn [foldM] in Ef; [now injection Ef as <- |].
  destruct (activate _ _ _) as [s1 | |] eqn:E1; try discriminate. cbn [mbind result_bind] in Ef.
  apply activate_inv in E1 as [_ ->]; [| exact Hrc]. apply IH in Ef; [exact Ef |]. now apply alter_activation_rc.
Qed.

Lemma activate_all_count E f l : forall vs, countb f (activate_all E vs l) <= countb f vs + zlen l.
Proof.
  unfold activate_all, zlen. induction l as [| i l IH]; intros vs; cbn [fold_left length]; [lia |].
  etransitivity; [apply IH |]. enough (countb f (alter (with_ActivationEpoch E) (Z.to_nat i) vs) <= countb f vs + 1) by lia.
  destruct (vs !! Z.to_nat i) as [v |] eqn:Ev.
  - replace (alter (with_ActivationEpoch E) (Z.to_nat i) vs) with (<[Z.to_nat i := with_ActivationEpoch E v]> vs).
    + rewrite (countb_insert _ _ _ v) by exact Ev. destruct (f v), (f _); lia.
    + rewrite list_insert_alter. apply list_alter_ext; [| reflexivity]. intros x Hx. congruence.
  - replace (alter (with_ActivationEpoch E) (Z.to_nat i) vs) with vs; [lia |].
    apply list_eq. intros j. rewrite list_lookup_alter. destruct (decide _) as [<- |]; [now rewrite Ev | reflexivity].
Qed.

Lemma activate_all_lookup E l : forall vs j, Forall (fun i => 0 <= i) l ->
  activate_all E vs l !! j = (if decide (Z.of_nat j ∈ l) then with_ActivationEpoch E <$> vs !! j else vs !! j).
Proof.
  unfold activate_all. induction l as [| i l IH]; intros vs j Hl; cbn [fold_left].
  - destruct (decide _) as [Hin |]; [now apply not_elem_of_nil in Hin | reflexivity].
  - apply Forall_cons in Hl as [Hi Hl]. rewrite IH by exact Hl. rewrite list_lookup_alter.
    destruct (decide (Z.to_nat i = j)) as [<- | Hne].
    + rewrite (decide_True (P := Z.of_nat (Z.to_nat i) ∈ i :: l)) by (rewrite Z2Nat.id by exact Hi; apply list_elem_of_here).
      destruct (decide _); [| reflexivity]. destruct (vs !! Z.to_nat i); reflexivity.
    + destruct (decide (Z.of_nat j ∈ l)) as [Hin | Hn].
      * now rewrite decide_True by now apply list_elem_of_further.
      * rewrite decide_False; [reflexivity |]. intros [E' | ?]%elem_of_cons; [lia | auto].
Qed.

Lemma active_at_epoch_count s E : u64_ok (NumValidators s) ->
  activeValidatorCountAtEpoch s E = Ok (count_active E (validators s)).
Proof.
  intros Hn. unfold activeValidatorCountAtEpoch, ReadFromEveryValidator, count_active.
  assert (forall l k a, 0 <= a -> a + zlen l < two64 ->
    foldMi (fun _ count v => if IsActiveValidator v E then Ok (count +u 1) else Ok count) k a l =
    Ok (a + countb (fun v => IsActiveValidator v E) l)) as Hgen.
  { unfold zlen. induction l as [| v l IH]; intros k a Ha Hlt; cbn [foldMi countb length] in *; [now rewrite Z.add_0_r |].
    destruct (IsActiveValidator v E); cbn [mbind result_bind].
    - rewrite u64_small by (unfold u64_ok; lia). rewrite IH by lia. f_equal. lia.
    - rewrite IH by lia. reflexivity. }
  apply Hgen; [lia |]. unfold u64_ok, NumValidators in Hn. lia.
Qed.

(** ** The whole pass *)

Lemma activationLimit_ok q lim fut cap : u64_ok cap -> 0 <= fut -> 0 <= q ->
  0 <= activationLimit q lim fut cap ->
  activationLimit q lim fut cap = Z.min (Z.min q (Z.max 0 lim)) (Z.max 0 (cap - fut)).
Proof.
  intros [Hc0 Hc1] Hf Hq. unfold activationLimit. destruct (Z.leb_spec cap fut); [destruct (lim <? q); lia |].
  rewrite u64_small by (unfold u64_ok; lia).
  destruct (Z.ltb_spec lim q), (Z.ltb_spec (cap - fut) lim), (Z.ltb_spec (cap - fut) q); lia.
Qed.

Lemma slice_prefix_inv {A} (l l' : list A) n : slice l 0 n = Ok l' ->
  0 <= n <= zlen l /\ l' = take (Z.to_nat n) l.
Proof.
  unfold slice. destruct (_ && _) eqn:E; [| discriminate]. bool_to_prop. intros [= <-].
  rewrite Z.sub_0_r, drop_0. split; [lia | reflexivity].
Qed.

(** Every intermediate quantity of the pass. *)
Lemma registry_inv s s' cur : state_ok s -> CurrentEpoch cfg (slot s) = Ok cur ->
  ProcessRegistryUpdates cfg fp caches s = Ok s' ->
  let E := ActivationExitEpoch cfg cur in
  let Q := activationQueue cfg s (map (queued cur) (validators s)) in
  exists cap vs n lim activated, MaxActiveValidators fp cfg = Ok cap /\
    Forall2 (loop_effect cur) (validators s) vs /\
    ActiveValidatorCount cfg caches (with_validators vs s) cur = Ok n /\
    ValidatorActivationChurnLimit cfg n = Ok lim /\
    (u64_ok cap -> zlen activated = Z.min (Z.min (zlen Q) (Z.max 0 lim)) (Z.max 0 (cap - count_active E vs))) /\
    activated = take (length activated) Q /\
    s' = with_validators (activate_all E vs activated) s.
Proof.
  intros Hok Hcur HP E Q. unfold ProcessRegistryUpdates in HP. rewrite Hcur in HP. cbn [mbind result_bind] in HP.
  destruct (foldMi _ _ _ _) as [[s1 vals] | |] eqn:Eloop; try discriminate. cbn [mbind result_bind] in HP.
  replace (s, []) with (with_validators ([] ++ validators s) s, @nil Validator) in Eloop by now destruct s.
  apply (registry_loop s cur (validators s) [] []) in Eloop as (vs & -> & Hvs & ->); [| apply Hok].
  cbn [app] in *. fold E in HP. fold Q in HP.
  change (activationQueue cfg (with_validators vs s) ?l) with (activationQueue cfg s l) in HP. fold Q in HP.
  destruct (wrap _ (ActiveValidatorCount _ _ _ _)) as [n | |] eqn:En; try discriminate. cbn [mbind result_bind] in HP.
  destruct (ActiveValidatorCount _ _ _ _) as [n' | |] eqn:En'; try discriminate. injection En as ->.
  destruct (ValidatorActivationChurnLimit cfg n) as [lim | |] eqn:El; try discriminate. cbn [mbind result_bind] in HP.
  destruct (MaxActiveValidators fp cfg) as [cap | |]; try discriminate. cbn [wrap mbind result_bind] in HP.
  pose proof (Forall2_length _ _ _ Hvs) as Hlen.
  rewrite active_at_epoch_count in HP
    by (unfold NumValidators, zlen; cbn [validators with_validators]; rewrite <- Hlen; apply Hok).
  cbn [wrap mbind result_bind validators with_validators] in HP.
  destruct (slice _ _ _) as [activated | |] eqn:Es; try discriminate. cbn [mbind result_bind] in HP.
  apply slice_prefix_inv in Es as [Hrange Ha].
  assert (Forall (fun v => RandaoCommitment v <> []) vs) as Hrc.
  { pose proof (ok_validators _ Hok) as Hv. clear - Hvs Hv. induction Hvs as [| v v' l l' Hr _ IH]; [constructor |].
    apply Forall_cons in Hv as [Hv Hl]. constructor; [| now apply IH]. now apply (loop_effect_ok cur v v'). }
  apply activate_loop in HP; [| exact Hrc].
  assert (0 <= count_active E vs) as Hfut by apply countb_bounds.
  exists cap, vs, n, lim, activated. split_and!; try assumption; try reflexivity.
  - intros Hcapu. rewrite Ha. unfold zlen at 1. rewrite length_take.
    rewrite <- (activationLimit_ok (zlen Q) lim _ _ Hcapu Hfut ltac:(unfold zlen; lia) (proj1 Hrange)).
    unfold zlen in *. lia.
  - rewrite Ha at 1. f_equal. rewrite Ha, length_take. unfold zlen in *. lia.
Qed.

Lemma loop_effect_active cur E v v' : FarFutureEpoch cfg = MaxUint64 -> loop_effect cur v v' ->
  IsActiveValidator v' E = true -> IsActiveValidator v E = true.
Proof.
  intros Hfar Hr. destruct (queued_fields cur v) as (Ha & He & _).
  destruct Hr as [-> | (e & w & -> & Hx & [_ Hu] & _)]; unfold IsActiveValidator, checkValidatorActiveStatus; cbn;
    rewrite ?Ha, ?He; [trivial |].
  unfold MaxUint64, two64 in *. intros. bool_to_prop. rewrite Hx, Hfar. apply andb_true_intro.
  rewrite Z.leb_le, Z.ltb_lt. lia.
Qed.

Lemma ejection_count cur E l l' : FarFutureEpoch cfg = MaxUint64 -> Forall2 (loop_effect cur) l l' ->
  count_active E l' <= count_active E l.
Proof.
  intros Hfar. unfold count_active. induction 1 as [| v v' l l' Hr _ IH]; cbn [countb]; [lia |].
  pose proof (loop_effect_active cur E v v' Hfar Hr).
  destruct (IsActiveValidator v' E), (IsActiveValidator v E); try lia; intuition discriminate.
Qed.

(** How large the active set of epoch [E] may become: the capacity, or what it
    was before if that exceeded the capacity already. *)
Definition active_bound (cap E : Z) (vs : list Validator) : Z := Z.max cap (count_active E vs).

(** C6. The registry pass never lets the active set of the activation epoch
    outgrow the committee capacity [MaxActiveValidators]: after it there are at
    most as many active validators as the capacity, or as there were before if
    those exceeded it already. *)
Theorem registry_capacity s s' cur cap : FarFutureEpoch cfg = MaxUint64 -> state_ok s ->
  CurrentEpoch cfg (slot s) = Ok cur -> MaxActiveValidators fp cfg = Ok cap -> u64_ok cap ->
  ProcessRegistryUpdates cfg fp caches s = Ok s' ->
  count_active (ActivationExitEpoch cfg cur) (validators s') <=
  active_bound cap (ActivationExitEpoch cfg cur) (validators s).
Proof.
  intros Hfar Hok Hcur Hcap Hu HP.
  destruct (registry_inv s s' cur Hok Hcur HP) as (cap' & vs & n & lim & act & Hc & Hvs & _ & _ & Hlen & _ & ->).
  assert (cap' = cap) as -> by congruence. specialize (Hlen Hu).
  set (E := ActivationExitEpoch cfg cur) in *. cbn [validators with_validators].
  pose proof (ejection_count cur E _ _ Hfar Hvs) as Hej.
  pose proof (activate_all_count E (fun v => IsActiveValidator v E) act vs) as Ha.
  unfold active_bound, count_active in *. lia.
Qed.

#[local] Instance queue_le_trans vals : Transitive (queue_le vals).
Proof.
  intros i j k. unfold queue_le. destruct (Z.eqb_spec (eligibility vals i) (eligibility vals j)),
    (Z.eqb_spec (eligibility vals j) (eligibility vals k)), (Z.eqb_spec (eligibility vals i) (eligibility vals k)); lia.
Qed.

#[local] Instance queue_le_total vals : Total (queue_le vals).
Proof. intros i j. unfold queue_le. rewrite (Z.eqb_sym (eligibility vals j)). destruct (Z.eqb_spec (eligibility vals i) (eligibility vals j)); lia. Qed.

Lemma sorted_split {A} (R : relation A) l1 l2 x y : StronglySorted R (l1 ++ l2) -> x ∈ l1 -> y ∈ l2 -> R x y.
Proof.
  induction l1 as [| a l1 IH]; intros Hs Hx Hy; [now apply not_elem_of_nil in Hx |].
  cbn in Hs. apply StronglySorted_inv in Hs as [Hs Ha]. apply elem_of_cons in Hx as [-> | Hx]; [| now apply IH].
  rewrite Forall_app, !Forall_forall in Ha. now apply Ha.
Qed.

(** C10. Activations respect the queue: the eligible validators (queued at a
    finalized epoch, not yet activated) are split into those activated by this
    pass and those left waiting; everyone activated precedes everyone waiting in
    the order of eligibility epoch and index; the number of activations is
    exactly what queue length, churn limit and remaining capacity allow; and
    the activation epoch of every other validator is untouched. *)
Theorem activation_order s s' cur cap : state_ok s ->
  CurrentEpoch cfg (slot s) = Ok cur -> MaxActiveValidators fp cfg = Ok cap -> u64_ok cap ->
  ProcessRegistryUpdates cfg fp caches s = Ok s' ->
  let E := ActivationExitEpoch cfg cur in
  let vals := map (queued cur) (validators s) in
  exists vs n lim activated waiting,
    Forall2 (loop_effect cur) (validators s) vs /\
    ActiveValidatorCount cfg caches (with_validators vs s) cur = Ok n /\ ValidatorActivationChurnLimit cfg n = Ok lim /\
    Permutation (activated ++ waiting) (positions (fun _ v => IsEligibleForActivation cfg s v) 0 vals) /\
    (forall i j, i ∈ activated -> j ∈ waiting -> queue_le vals i j) /\
    zlen activated = Z.min (Z.min (zlen activated + zlen waiting) (Z.max 0 lim)) (Z.max 0 (cap - count_active E vs)) /\
    (forall i v, validators s !! i = Some v -> exists v', validators s' !! i = Some v' /\
       ActivationEpoch v' = if decide (Z.of_nat i ∈ activated) then E else ActivationEpoch v).
Proof.
  intros Hok Hcur Hcap Hu HP E vals.
  destruct (registry_inv s s' cur Hok Hcur HP) as (cap' & vs & n & lim & act & Hc & Hvs & Hn & Hlim & Hlen & Hact & ->).
  assert (cap' = cap) as -> by congruence. specialize (Hlen Hu).
  fold E in Hlen. fold vals in Hact, Hlen. set (Q := activationQueue cfg s vals) in *.
  exists vs, n, lim, act, (drop (length act) Q).
  assert (act ++ drop (length act) Q = Q) as HQ by (rewrite Hact at 1; apply take_drop).
  assert (Permutation Q (positions (fun _ v => IsEligibleForActivation cfg s v) 0 vals)) as HpQ
    by apply merge_sort_Permutation.
  split_and!; try assumption.
  - now rewrite HQ.
  - intros i j. apply sorted_split. rewrite HQ. apply StronglySorted_merge_sort; apply _.
  - replace (zlen act + _) with (zlen Q); [exact Hlen |]. unfold zlen. rewrite <- HQ at 1. rewrite length_app. lia.
  - intros i v Hv. destruct (Forall2_lookup_l _ _ _ _ _ Hvs Hv) as (w & Hw & Hr).
    apply loop_effect_fields in Hr as [Ha _]. cbn [validators with_validators].
    rewrite activate_all_lookup, Hw.
    + destruct (decide _); eexists; (split; [reflexivity |]); cbn; auto.
    + apply Forall_forall. intros j Hj. assert (j ∈ Q) as Hq by (rewrite <- HQ; apply elem_of_app; auto).
      rewrite HpQ, elem_of_positions in Hq. destruct Hq as (? & ? & _). lia.
Qed.
End Registry.

(** ** Witnesses *)

(** Two validators wait for activation, the third is not yet eligible. *)
Definition waiting_validator (i eligible : Z) : Validator :=
  with_ActivationEligibilityEpoch eligible (with_ActivationEpoch MaxUint64 (toy_validator i)).

Definition toy_waiting : list Validator :=
  [toy_validator 0; waiting_validator 1 1; waiting_validator 2 0; waiting_validator 3 MaxUint64].

Definition toy_queue_state : BeaconState :=
  with_finalizedCheckpoint (mkCheckpoint 3 (zeros 32)) (toy_state 40 toy_waiting).

Lemma toy_queue_ok : state_ok toy_queue_state.
Proof.
  assert (Forall validator_ok toy_waiting) as Hv.
  { unfold toy_waiting. repeat (apply Forall_cons_2; [unfold validator_ok, u64_ok; split_and!; vm_compute; congruence |]). constructor. }
  assert (state_ok (toy_state 40 toy_waiting)) as []
    by (apply toy_state_ok; [vm_compute; split; congruence | vm_compute; split; congruence | exact Hv]).
  split; assumption.
Qed.

Lemma registry_capacity_witness :
  exists s', @ProcessRegistryUpdates MinimalSpecConfig minimalFieldParams toy_hash no_caches toy_queue_state = Ok s' /\
    count_active 10 (validators s') <= 1024.
Proof.
  destruct (@ProcessRegistryUpdates MinimalSpecConfig minimalFieldParams toy_hash no_caches toy_queue_state)
    as [s' | |] eqn:E; [| vm_compute in E; discriminate E ..].
  exists s'. split; [reflexivity |].
  apply (registry_capacity (H := toy_hash) MinimalSpecConfig minimalFieldParams no_caches toy_queue_state s' 5 1024);
    [reflexivity | exact toy_queue_ok | reflexivity | vm_compute; reflexivity | vm_compute; split; congruence | exact E].
Defined.

Lemma activation_order_witness :
  exists s' activated waiting,
    @ProcessRegistryUpdates MinimalSpecConfig minimalFieldParams toy_hash no_caches toy_queue_state = Ok s' /\
    Permutation (activated ++ waiting) [1; 2].
Proof.
  destruct (@ProcessRegistryUpdates MinimalSpecConfig minimalFieldParams toy_hash no_caches toy_queue_state)
    as [s' | |] eqn:E; [| vm_compute in E; discriminate E ..].
  destruct (activation_order (H := toy_hash) MinimalSpecConfig minimalFieldParams no_caches toy_queue_state s' 5 1024)
    as (vs & n & lim & act & wait & _ & _ & _ & Hp & _);
    [exact toy_queue_ok | reflexivity | vm_compute; reflexivity | vm_compute; split; congruence | exact E |].
  exists s', act, wait. split; [reflexivity | exact Hp].
Defined.
