(* ===== verification/EpochInvariant.v ===== *)
(** * The registry invariant over the epoch transition

    Every step of [ProcessEpoch] ([beacon-chain/core/altair/transition.go])
    keeps the state well formed: the per-validator lists stay aligned with the
    registry and every number stays a machine word. *)

From stdpp Require Import sorting.
From S2P Require Import Prelude Math Config Slots Bytes Shuffle Committee State Validators EpochPrecompute Finality Rewards EpochProcessing Registry.

(** The types of the fields that [state_ok] leaves open: flags are bytes, the epochs of
    checkpoints and the counters are machine words. *)
Record state_typed (s : BeaconState) : Prop := {
  ty_prev_flags : Forall byte_ok (previousEpochParticipation s);
  ty_curr_flags : Forall byte_ok (currentEpochParticipation s);
  ty_previous : u64_ok (Epoch_ (previousJustifiedCheckpoint s));
  ty_current : u64_ok (Epoch_ (currentJustifiedCheckpoint s));
  ty_finalized : u64_ok (Epoch_ (finalizedCheckpoint s));
  ty_genesis : u64_ok (genesisTime s);
  ty_deposits : u64_ok (executionDepositIndex s);
  ty_withdrawals : u64_ok (nextWithdrawalIndex s);
  ty_sweep : u64_ok (nextWithdrawalValidatorIndex s)
}.

(** What a step may change: everything but the slot and the registry's size. *)
Definition preserves (s s' : BeaconState) : Prop :=
  state_ok s' /\ slot s' = slot s /\ length (validators s') = length (validators s) /\ (state_typed s -> state_typed s').

(** The new values of fields that [state_typed] does not mention. *)
Ltac same_types := let T := fresh in intros T; destruct T; split; assumption.

Lemma preserves_refl s : state_ok s -> preserves s s.
Proof. now split. Qed.

Lemma preserves_trans s1 s2 s3 : preserves s1 s2 -> preserves s2 s3 -> preserves s1 s3.
Proof. intros (_ & Hs & Hl & Ht) (Hok & Hs' & Hl' & Ht'). split_and!; [exact Hok | congruence | congruence | auto]. Qed.

Lemma with_validators_ok s vs : state_ok s -> Forall validator_ok vs -> length vs = length (validators s) ->
  preserves s (with_validators vs s).
Proof.
  intros [] Hvs Hl. split_and!; [| reflexivity | exact Hl | same_types].
  split; cbn [slot validators balances inactivityScores previousEpochParticipation currentEpochParticipation slashings
    justificationBits with_validators]; try assumption; rewrite ?Hl; try assumption.
  unfold NumValidators, zlen in *. cbn. now rewrite Hl.
Qed.

Lemma with_balances_ok s bs : state_ok s -> Forall u64_ok bs -> length bs = length (balances s) ->
  preserves s (with_balances bs s).
Proof.
  intros [] Hbs Hl. split_and!; [| reflexivity | reflexivity | same_types]. split; try assumption. cbn. congruence.
Qed.

(** A step of [ApplyToEveryValidator] whose callback keeps the invariant and
    returns a well-formed record. *)
Lemma apply_preserves s s' f :
  (forall i v s1 ch v' s2, state_ok s1 -> validator_ok v -> f i v s1 = Ok (ch, v', s2) ->
     preserves s1 s2 /\ validator_ok v') ->
  state_ok s -> ApplyToEveryValidator s f = Ok s' -> preserves s s'.
Proof.
  intros Hf Hok. unfold ApplyToEveryValidator. apply foldM_inv; [| now apply preserves_refl].
  intros s1 i s2 _ Hp E. assert (state_ok s1) as Hok1 by apply Hp. unfold ValidatorAtIndex in E.
  destruct (at_index _ _ _) as [v | |] eqn:Ev; try discriminate. cbn [mbind result_bind] in E.
  apply at_index_inv in Ev as [Hi Hv]. pose proof (Forall_lookup_1 _ _ _ _ (ok_validators _ Hok1) Hv) as Hvo.
  destruct (f i v s1) as [[[ch v'] s3] | |] eqn:Ef; try discriminate. cbn [mbind result_bind] in E.
  destruct (Hf _ _ _ _ _ _ Hok1 Hvo Ef) as [Hp3 Hv']. assert (preserves s s3) as Hps by (eapply preserves_trans; eassumption).
  destruct ch; [| now injection E as <-].
  unfold UpdateValidatorAtIndex in E. rewrite normalize_ok in E by apply Hv'.
  destruct (update_at _ _ _ _) as [vs | |] eqn:Eu; try discriminate. injection E as <-.
  apply update_at_inv in Eu as [_ ->]. eapply preserves_trans; [exact Hps |].
  apply with_validators_ok; [apply Hps | | apply length_insert].
  apply Forall_insert; [apply (ok_validators s3), Hps | exact Hv'].
Qed.

(** Takes the next step [m] of a transition off the hypothesis [E] and chains
    its preservation lemma to [P : preserves s _]. *)
Ltac unwrap_step E :=
  match type of E with
  | (wrap ?msg ?m ≫= _) = Ok _ => let F := fresh "F" in destruct m eqn:F; try discriminate E; cbn [wrap mbind result_bind] in E
  | (?m ≫= _) = Ok _ => let F := fresh "F" in destruct m eqn:F; try discriminate E; cbn [mbind result_bind] in E
  end.

Ltac chain P lem :=
  match goal with
  | F : _ = Ok _ |- _ => apply lem in F; [| apply P | assumption ..];
      let Q := fresh "Q" in pose proof (preserves_trans _ _ _ P F) as Q; clear P F; rename Q into P
  end.

Section Invariant.
Context (cfg : BeaconChainConfig) (fp : FieldParams) {H : Hasher} (caches : Caches).
Context {B : Bitfield} {BO : BitfieldOk B}.
Context (Hmax : 0 <= MaxEffectiveBalance cfg) (Hspe : 0 < SlotsPerEpoch cfg).

(** ** Rows of the precomputation *)

Definition scored (p : PValidator) : Prop := u64_ok (InactivityScore p).

Lemma initialize_scored s vp bp : state_ok s -> InitializePrecomputeValidators cfg s = Ok (vp, bp) -> Forall scored vp.
Proof.
  intros Hok E. unfold InitializePrecomputeValidators in E.
  destruct (PrevEpoch _ _); try discriminate. cbn [mbind result_bind] in E.
  destruct (CurrentEpoch _ _); try discriminate. cbn [mbind result_bind] in E.
  destruct (negb _); [discriminate |]. unfold wrap, ReadFromEveryValidator in E.
  destruct (foldMi _ _ _ _) as [r | |] eqn:R; try discriminate. injection E as ->.
  refine (foldMi_inv (fun acc => Forall scored acc.1) _ _ _ ([], _) (vp, bp) _ _ R); [| constructor].
  intros j [vals bal] v [vals' bal'] _ Hacc E1. cbn [fst] in *. unfold initialize_one in E1.
  destruct (idx _ _) as [score | |] eqn:Es; try discriminate. cbn [mbind result_bind] in E1.
  apply idx_inv in Es as [_ Hs]. result_inv; apply Forall_app_2; auto;
    apply Forall_singleton; exact (Forall_lookup_1 _ _ _ _ (ok_scores _ Hok) Hs).
Qed.

Lemma mark_scored has i act set l l' : (forall v, InactivityScore (set v) = InactivityScore v) ->
  Forall scored l -> mark has i act set l = Ok l' -> Forall scored l'.
Proof.
  intros Hset Hl. unfold mark. destruct has; [| congruence].
  destruct (idx l i) as [v | |] eqn:Ev; try discriminate. cbn [mbind result_bind]. destruct (act v); [| congruence].
  intros E. apply idx_set_inv in E as [_ ->]. apply idx_inv in Ev as [_ Hv].
  apply Forall_insert; [exact Hl |]. unfold scored. rewrite Hset. exact (Forall_lookup_1 _ _ _ _ Hl Hv).
Qed.

Lemma participation_scored s vp bp vp' bp' : Forall scored vp -> ProcessEpochParticipation cfg s bp vp = Ok (vp', bp') ->
  Forall scored vp'.
Proof.
  intros Hv E. unfold ProcessEpochParticipation in E.
  destruct (foldMi (current_participation cfg) _ _ _) as [l | |] eqn:E1; try discriminate. cbn [mbind result_bind] in E.
  destruct (foldMi (previous_participation cfg) _ _ _) as [l' | |] eqn:E2; try discriminate. injection E as <- <-.
  assert (Forall scored l) as Hl.
  { refine (foldMi_inv (Forall scored) _ _ _ _ _ _ Hv E1). clear. intros j l b l' _ Hl E.
    unfold current_participation in E. result_inv. repeat (eapply mark_scored; [| | eassumption]; try easy). }
  refine (foldMi_inv (Forall scored) _ _ _ _ _ _ Hl E2). clear. intros j l b l' _ Hl E.
  unfold previous_participation in E. result_inv. repeat (eapply mark_scored; [| | eassumption]; try easy).
Qed.

(** ** The steps *)

(** The checkpoints are old ones or have the epoch of the slot or the one before. *)
Lemma weigh_typed s bits s' : u64_ok (slot s) -> state_typed s -> weighJustificationAndFinalization cfg s bits = Ok s' ->
  u64_ok (Epoch_ (previousJustifiedCheckpoint s')) /\ u64_ok (Epoch_ (currentJustifiedCheckpoint s')) /\
  u64_ok (Epoch_ (finalizedCheckpoint s')).
Proof.
  intros Hslot Ht E. apply weigh_inv in E as (prev & cur & jc & Eprev & Ecur & Enew & -> & -> & -> & _).
  pose proof Ecur as Ecur'. unfold CurrentEpoch, ToEpoch, Slot.DivSlot, Slot.Div, Slot.SafeDiv, Math.Div64 in Ecur'.
  destruct (Z.eqb_spec (SlotsPerEpoch cfg) 0); [lia |]. injection Ecur' as Hcur.
  assert (u64_ok cur) as Huc by (subst cur; now apply u64_div_ok).
  assert (u64_ok prev) as Hup.
  { unfold PrevEpoch in Eprev. rewrite Ecur in Eprev. cbn [mbind result_bind] in Eprev.
    destruct (cur =? 0); injection Eprev as <-; [unfold u64_ok, two64; lia | apply u64_range]. }
  destruct Ht. split_and!; [assumption | |].
  - apply newJustified_cases in Enew as [-> | [[-> | ->] _]]; assumption.
  - pose proof (newFinalized_cases s (Bytes0 bits) cur) as Hin. rewrite !elem_of_cons in Hin.
    destruct Hin as [-> | [-> | [-> | Hin]]]; [assumption.. | now apply not_elem_of_nil in Hin].
Qed.

Lemma justification_preserves s s' bp : state_ok s -> ProcessJustificationAndFinalizationPreCompute cfg s bp = Ok s' ->
  preserves s s'.
Proof.
  intros Hok E. unfold ProcessJustificationAndFinalizationPreCompute in E.
  destruct (EpochStart cfg 2); try discriminate. cbn [mbind result_bind] in E.
  destruct (slot s <=? _); [injection E as <-; now apply preserves_refl |].
  pose proof (fun Ht => weigh_typed _ _ _ (ok_slot _ Hok) Ht E) as Hck.
  unfold weighJustificationAndFinalization in E.
  destruct (computeCheckpoints _ _ _) as [[jc fc] | |]; try discriminate. injection E as <-.
  split_and!; [| reflexivity | reflexivity | intros Ht; destruct (Hck Ht) as (? & ? & ?); destruct Ht; split; assumption]. pose proof (ok_bits _ Hok) as Hb. destruct Hok. split; try assumption. cbn.
  unfold processJustificationBits. rewrite Shift_one by assumption.
  pose proof (land15_range (Z.shiftl (justificationBits s) 1)) as Hr.
  assert (forall a i, 0 <= a < 16 -> 0 <= i < 2 -> 0 <= SetBitAt a i true < 16) as Hset
    by (intros; rewrite SetBitAt_true by lia; now apply lor_nibble).
  destruct (_ <=? _), (_ <=? _); try apply Hset; try apply Hset; lia.
Qed.

Lemma newScore_u64 leak v x : scored v -> newScore cfg leak v = Ok x -> u64_ok x.
Proof.
  unfold newScore, scored. intros Hv E.
  destruct (if _ && _ then _ else _) as [sc | |] eqn:Es; try discriminate. cbn [mbind result_bind] in E.
  destruct leak; cbn [negb] in E; injection E as <-; [| apply u64_range].
  destruct (_ && _); [| now apply Add64_range in Es]. destruct (_ <? _); injection Es as <-; [apply u64_range | exact Hv].
Qed.

Lemma inactivity_preserves s vp s' vp' : state_ok s -> Forall scored vp ->
  ProcessInactivityScores cfg s vp = Ok (s', vp') -> preserves s s'.
Proof.
  intros Hok Hvp E. unfold ProcessInactivityScores in E.
  destruct (CurrentEpoch _ _); try discriminate. cbn [mbind result_bind] in E.
  destruct (_ =? _); [injection E as <- <-; now apply preserves_refl |].
  destruct (PrevEpoch _ _); try discriminate. cbn [mbind result_bind] in E.
  destruct (foldMi _ _ _ _) as [[scores l] | |] eqn:Ef; try discriminate. cbn in E. injection E as <- <-.
  assert (Forall u64_ok scores /\ length scores = length (inactivityScores s)) as [Hu Hl].
  { refine (foldMi_inv (fun acc => Forall u64_ok acc.1 /\ length acc.1 = length (inactivityScores s)) _ _ _ _ _ _ _ Ef);
      [| split; [apply Hok | reflexivity]].
    intros j [sc vs] v [sc' vs'] Hin [Ha Hb] E1. cbn [fst] in *. unfold inactivity_step in E1.
    destruct (negb _); [injection E1 as <- <-; auto |].
    destruct (newScore _ _ _) as [x | |] eqn:Ex; try discriminate. cbn [mbind result_bind] in E1.
    destruct (idx_set _ _ _) as [sc1 | |] eqn:Ei; try discriminate. injection E1 as <- <-.
    apply idx_set_inv in Ei as [_ ->]. rewrite length_insert. split; [| exact Hb]. apply Forall_insert; [exact Ha |].
    eapply newScore_u64; [| exact Ex]. rewrite Forall_forall in Hvp. now apply Hvp. }
  split_and!; [| reflexivity | reflexivity | same_types]. destruct Hok. split; try assumption. cbn. congruence.
Qed.

Lemma apply_delta_u64 b d x : apply_delta b d = Ok x -> u64_ok x.
Proof.
  unfold apply_delta, IncreaseBalanceWithVal. intros E.
  destruct (Math.Add64 b _); try discriminate. cbn [mbind result_bind] in E.
  destruct (Math.Add64 _ (TargetReward d)); try discriminate. cbn [mbind result_bind] in E. now apply Add64_range in E.
Qed.

Lemma rewards_preserves sq s bp vp s' vp' sq' : state_ok s ->
  ProcessRewardsAndPenaltiesPrecompute cfg sq s bp vp = Ok (s', vp', sq') -> preserves s s'.
Proof.
  intros Hok E. unfold ProcessRewardsAndPenaltiesPrecompute in E.
  destruct (CurrentEpoch _ _); try discriminate. cbn [mbind result_bind] in E.
  destruct (_ =? _); [injection E as <- <- <-; now apply preserves_refl |].
  destruct (_ || _); [discriminate |]. destruct (wrap _ _) as [[deltas sq1] | |]; try discriminate.
  cbn [mbind result_bind] in E. destruct (foldM _ _ _) as [[bs l] | |] eqn:Ef; try discriminate. cbn in E.
  injection E as <- <- <-.
  assert (Forall u64_ok bs /\ length bs = length (balances s)) as [Hu Hl].
  { refine (foldM_inv (fun acc => Forall u64_ok acc.1 /\ length acc.1 = length (balances s)) _ _ _ _ _ _ Ef);
      [| split; [apply Hok | reflexivity]].
    intros [sc vs] j [sc' vs'] Hin [Ha Hb] E1. cbn [fst] in *. unfold reward_step in E1.
    destruct (idx sc j); try discriminate. cbn [mbind result_bind] in E1.
    destruct (idx vs j); try discriminate. cbn [mbind result_bind] in E1.
    destruct (idx _ j); try discriminate. cbn [mbind result_bind] in E1.
    destruct (apply_delta _ _) as [x | |] eqn:Ex; try discriminate. cbn [mbind result_bind] in E1.
    destruct (idx_set sc _ _) as [sc1 | |] eqn:Ei; try discriminate. cbn [mbind result_bind] in E1.
    destruct (idx_set vs _ _); try discriminate. injection E1 as <- <-.
    apply idx_set_inv in Ei as [_ ->]. rewrite length_insert. split; [| exact Hb].
    apply Forall_insert; [exact Ha | now apply apply_delta_u64 in Ex]. }
  now apply with_balances_ok.
Qed.

Lemma activate_all_ok E l : u64_ok E -> forall vs, Forall validator_ok vs ->
  Forall validator_ok (activate_all E vs l) /\ length (activate_all E vs l) = length vs.
Proof.
  intros HE. unfold activate_all. induction l as [| i l IH]; intros vs Hvs; cbn [fold_left]; [auto |].
  destruct (IH (alter (with_ActivationEpoch E) (Z.to_nat i) vs)) as [Ha Hl].
  - apply Forall_alter; [exact Hvs |]. intros v _ (? & ? & ? & ? & ? & ?). split_and!; cbn; assumption.
  - split; [exact Ha |]. now rewrite Hl, length_alter.
Qed.

Lemma registry_preserves s s' : state_ok s -> ProcessRegistryUpdates cfg fp caches s = Ok s' -> preserves s s'.
Proof.
  intros Hok HP. destruct (CurrentEpoch cfg (slot s)) as [cur | |] eqn:Hcur;
    [| unfold ProcessRegistryUpdates in HP; rewrite Hcur in HP; discriminate ..].
  destruct (registry_inv cfg fp caches s s' cur Hok Hcur HP) as (cap & vs & n & lim & act & _ & Hvs & _ & _ & _ & _ & ->).
  assert (Forall validator_ok vs) as Hv.
  { pose proof (ok_validators _ Hok) as Hv. clear - Hvs Hv. induction Hvs as [| v v' l l' Hr _ IH]; [constructor |].
    apply Forall_cons in Hv as [Hv Hl]. constructor; [eapply loop_effect_ok; eassumption | now apply IH]. }
  destruct (activate_all_ok (ActivationExitEpoch cfg cur) act (u64_range _) vs Hv) as [Ha Hl].
  apply with_validators_ok; [exact Hok | exact Ha |]. rewrite Hl. symmetry. exact (Forall2_length _ _ _ Hvs).
Qed.

Lemma slashing_penalty_u64 eff adj total p : slashing_penalty cfg eff adj total = Ok p -> u64_ok p.
Proof.
  unfold slashing_penalty. intros E. destruct (udiv _ _); try discriminate. cbn [mbind result_bind] in E.
  destruct (Math.bits_Mul64 _ _). destruct (bits_Div64 _ _ _); try discriminate. injection E as <-. apply u64_range.
Qed.

Lemma slashings_preserves s s' m : state_ok s -> ProcessSlashings cfg caches s m = Ok s' -> preserves s s'.
Proof.
  intros Hok E. unfold ProcessSlashings in E.
  destruct (CurrentEpoch _ _) as [cur | |]; try discriminate. cbn [mbind result_bind] in E.
  destruct (wrap _ (TotalActiveBalance _ _ _)) as [total | |]; try discriminate. cbn [mbind result_bind] in E.
  destruct (foldM _ 0 _) as [tot | |]; try discriminate. cbn [mbind result_bind] in E.
  revert E. apply apply_preserves; [| exact Hok].
  intros i v s1 ch v' s2 Hok1 Hv E. destruct (_ && _); [| injection E as <- <- <-; split; [now apply preserves_refl | exact Hv]].
  destruct (slashing_penalty _ _ _ _) as [p | |] eqn:Ep; try discriminate. cbn [mbind result_bind] in E.
  apply slashing_penalty_u64 in Ep as [Hp0 Hp1].
  destruct (DecreaseBalance _ _ _) as [s3 | |] eqn:Ed; try discriminate. injection E as <- <- <-. split; [| exact Hv].
  apply (DecreaseBalance_inv s1 (ok_balances _ Hok1)) in Ed as (b & Hi & Hb & ->); [| exact Hp0].
  apply with_balances_ok; [exact Hok1 | | apply length_insert]. apply Forall_insert; [apply Hok1 |].
  pose proof (Forall_lookup_1 _ _ _ _ (ok_balances _ Hok1) Hb) as [? ?]. unfold u64_ok. lia.
Qed.

Lemma effective_preserves s s' : state_ok s -> ProcessEffectiveBalanceUpdates cfg s = Ok s' -> preserves s s'.
Proof.
  intros Hok E. unfold ProcessEffectiveBalanceUpdates in E. destruct (udiv _ _); try discriminate.
  cbn [mbind result_bind] in E. revert E. apply apply_preserves; [| exact Hok].
  intros i v s1 ch v' s2 Hok1 Hv E. unfold effective_balance_step in E. destruct (_ <=? _); [discriminate |].
  destruct (idx _ _) as [b | |]; try discriminate. cbn [mbind result_bind] in E.
  destruct (_ || _); [| injection E as <- <- <-; split; [now apply preserves_refl | exact Hv]].
  destruct (umod _ _) as [r | |]; try discriminate. cbn [mbind result_bind] in E.
  destruct (negb _); injection E as <- <- <-; (split; [now apply preserves_refl |]); [| exact Hv].
  destruct Hv as (_ & ? & ? & ? & ? & ?). split_and!; cbn; try assumption.
  pose proof (u64_range (b - r)) as [? ?]. unfold u64_ok. lia.
Qed.

Lemma execution_reset_preserves s s' : state_ok s -> ProcessExecutionDataReset cfg s = Ok s' -> preserves s s'.
Proof.
  intros Hok E. unfold ProcessExecutionDataReset in E. result_inv; [| now apply preserves_refl].
  split_and!; [| reflexivity | reflexivity | same_types]. destruct Hok. split; assumption.
Qed.

Lemma slashings_reset_preserves s s' : state_ok s -> ProcessSlashingsReset cfg s = Ok s' -> preserves s s'.
Proof.
  intros Hok E. unfold ProcessSlashingsReset, UpdateSlashingsAtIndex in E. result_inv.
  match goal with F : idx_set _ _ _ = Ok _ |- _ => apply idx_set_inv in F as [_ ->] end.
  split_and!; [| reflexivity | reflexivity | same_types]. destruct Hok. split; try assumption. cbn.
  apply Forall_insert; [assumption |]. unfold u64_ok, two64. lia.
Qed.

Lemma randao_reset_preserves s s' : state_ok s -> ProcessRandaoMixesReset cfg s = Ok s' -> preserves s s'.
Proof.
  intros Hok E. unfold ProcessRandaoMixesReset, UpdateRandaoMixesAtIndex in E. result_inv.
  split_and!; [| reflexivity | reflexivity | same_types]. destruct Hok. split; assumption.
Qed.

Lemma historical_preserves ar s s' : state_ok s -> ProcessHistoricalDataUpdate cfg fp ar s = Ok s' -> preserves s s'.
Proof.
  intros Hok E. unfold ProcessHistoricalDataUpdate in E. result_inv; [| now apply preserves_refl].
  split_and!; [| reflexivity | reflexivity | same_types]. destruct Hok. split; assumption.
Qed.

Lemma participation_preserves s : state_ok s -> preserves s (ProcessParticipationFlagUpdates s).
Proof.
  intros Hok. split_and!; [| reflexivity | reflexivity |].
  - destruct Hok. split; try assumption. cbn. rewrite length_replicate. unfold NumValidators, zlen. cbn. lia.
  - intros []. split; try assumption. cbn. apply Forall_replicate. unfold byte_ok. lia.
Qed.

Lemma sync_preserves fuel s s' : state_ok s -> ProcessSyncCommitteeUpdates cfg caches fuel s = Ok s' -> preserves s s'.
Proof.
  intros Hok E. unfold ProcessSyncCommitteeUpdates in E. result_inv; [| now apply preserves_refl].
  split_and!; [| reflexivity | reflexivity | same_types]. destruct Hok. split; assumption.
Qed.

(** C11. The epoch transition keeps the state well formed: whenever [ProcessEpoch] succeeds,
    the balances, inactivity scores and participation lists are still aligned with the
    registry, and neither the slot nor the number of validators has changed.  The effective
    balances and epochs of the validators, the balances, scores and slashings, the epochs of
    the three checkpoints, the deposit and withdrawal indices, the slot and the genesis time
    are still machine words, the participation flags bytes and the justification bits four
    bits, and no validator has an empty commitment. *)
Theorem epoch_preserves_invariant ar fuel sq s s' sq' : state_ok s -> state_typed s ->
  ProcessEpoch cfg fp caches ar fuel sq s = Ok (s', sq') ->
  state_ok s' /\ state_typed s' /\ slot s' = slot s /\ length (validators s') = length (validators s).
Proof.
  intros Hok Hty E. enough (preserves s s') as (? & ? & ? & ?) by auto. unfold ProcessEpoch in E.
  destruct (InitializePrecomputeValidators cfg s) as [[vp bp] | |] eqn:E1; try discriminate. cbn [mbind result_bind] in E.
  destruct (ProcessEpochParticipation _ _ _ _) as [[vp1 bp1] | |] eqn:E2; try discriminate. cbn [mbind result_bind] in E.
  assert (Forall scored vp1) as Hsc by (eapply participation_scored; [eapply initialize_scored; eassumption | exact E2]).
  pose proof (preserves_refl s Hok) as P.
  unwrap_step E. chain P justification_preserves.
  unwrap_step E. match goal with p : BeaconState * list PValidator |- _ => destruct p as [s1 vp2] end.
  chain P inactivity_preserves. cbn [fst snd] in E.
  unwrap_step E. match goal with p : _ * _ * _ |- _ => destruct p as [[s2 vp3] sq1] end. chain P rewards_preserves.
  unwrap_step E. chain P registry_preserves.
  unwrap_step E. clear F.
  unwrap_step E. chain P slashings_preserves.
  unwrap_step E. chain P execution_reset_preserves.
  unwrap_step E. chain P effective_preserves.
  unwrap_step E. chain P slashings_reset_preserves.
  unwrap_step E. chain P randao_reset_preserves.
  unwrap_step E. chain P historical_preserves.
  unwrap_step E. pose proof (preserves_trans _ _ _ P (participation_preserves _ (proj1 P))) as P'. clear P.
  chain P' sync_preserves. injection E as <- <-. exact P'.
Qed.
End Invariant.

Definition toy_root (_ : list (list Z)) (_ : Z) : result (list Z) := Ok (zeros 32).

Lemma epoch_preserves_invariant_witness : exists s' sq',
  @ProcessEpoch MinimalSpecConfig minimalFieldParams toy_hash no_caches bv4 toy_root 8 Math.initialSquareRoot toy_participating
    = Ok (s', sq') /\ state_ok s' /\ state_typed s'.
Proof.
  destruct (@ProcessEpoch MinimalSpecConfig minimalFieldParams toy_hash no_caches bv4 toy_root 8 Math.initialSquareRoot toy_participating)
    as [[s' sq'] | |] eqn:E; [| vm_compute in E; discriminate E ..].
  exists s', sq'. split; [reflexivity |].
  destruct (@epoch_preserves_invariant MinimalSpecConfig minimalFieldParams toy_hash no_caches bv4 bv4_ok
    ltac:(vm_compute; congruence) ltac:(vm_compute; reflexivity) toy_root 8 Math.initialSquareRoot toy_participating s' sq')
    as (? & ? & _); [exact toy_participating_ok | | exact E | auto].
  split; first [vm_compute; split; congruence | repeat constructor; vm_compute; congruence].
Defined.
