(* ===== verification/Withdrawals.v ===== *)
(** * Withdrawals

    [ExpectedWithdrawals] of state-native/getters_withdrawal.go and
    [ProcessWithdrawals] of core/blocks/withdrawals.go.  The length of a withdrawal
    recipient is the address size of a wallet package, and the root of a list of
    withdrawals comes from encoding/ssz: both are arguments, the latter an arbitrary
    function of the list and of the limit.  [ProcessWithdrawals] mutates the state it is
    given; the state left behind by an error is dropped, as its callers do.  A validator
    of the state is never nil. *)

From S2P Require Import Prelude Math Config Slots Bytes Shuffle Committee State Validators EpochInvariant.

Record Withdrawal := mkWithdrawal {
  Withdrawal_Index : Z;
  Withdrawal_ValidatorIndex : Z;
  Withdrawal_Address : list Z;
  Withdrawal_Amount : Z
}.

(** What [ProcessWithdrawals] reads of a payload: the root of a blinded one, the
    withdrawals of a full one. *)
Inductive ExecutionPayload :=
| Blinded (WithdrawalsRoot : result (list Z))
| Full (Withdrawals : result (list Withdrawal)).

Section Withdrawals.
Context (cfg : BeaconChainConfig) (fp : FieldParams) (WithdrawalRecipientLength : Z).

Definition hasExecutionWithdrawalRecipient (val : Validator) : bool := zlen (WithdrawalRecipient val) =? WithdrawalRecipientLength.

Definition isFullyWithdrawableValidator (val : Validator) (epoch : Z) : bool :=
  hasExecutionWithdrawalRecipient val && (WithdrawableEpoch val <=? epoch).

Definition isPartiallyWithdrawableValidator (val : Validator) (balance : Z) : bool :=
  let hasMaxBalance := EffectiveBalance val =? MaxEffectiveBalance cfg in
  let hasExcessBalance := MaxEffectiveBalance cfg <? balance in
  hasExecutionWithdrawalRecipient val && hasExcessBalance && hasMaxBalance.

(** The withdrawal of one validator, if it has one. *)
Definition withdrawal_of (epoch withdrawalIndex validatorIndex : Z) (val : Validator) (balance : Z) : option Withdrawal :=
  if (0 <? balance) && isFullyWithdrawableValidator val epoch
  then Some (mkWithdrawal withdrawalIndex validatorIndex (WithdrawalRecipient val) balance)
  else if isPartiallyWithdrawableValidator val balance
  then Some (mkWithdrawal withdrawalIndex validatorIndex (WithdrawalRecipient val) (balance -u MaxEffectiveBalance cfg))
  else None.

(** The loop of [ExpectedWithdrawals], [bound] iterations at most. *)
Fixpoint sweep (bound : nat) (s : BeaconState) (epoch validatorIndex withdrawalIndex : Z) (withdrawals : list Withdrawal)
    : result (list Withdrawal) :=
  match bound with
  | O => Ok withdrawals
  | S bound' =>
      val ← wrap "could not retrieve validator" (ValidatorAtIndex s validatorIndex);
      balance ← wrap "could not retrieve balance" (BalanceAtIndex s validatorIndex);
      let '(withdrawals, withdrawalIndex) :=
        match withdrawal_of epoch withdrawalIndex validatorIndex val balance with
        | Some w => (withdrawals ++ [w], withdrawalIndex +u 1)
        | None => (withdrawals, withdrawalIndex)
        end in
      if zlen withdrawals =? MaxWithdrawalsPerPayload cfg then Ok withdrawals
      else
        let validatorIndex := validatorIndex +u 1 in
        let validatorIndex := if validatorIndex =? NumValidators s then 0 else validatorIndex in
        sweep bound' s epoch validatorIndex withdrawalIndex withdrawals
  end.

(** [make] refuses a capacity of more than [maxAlloc] bytes; a pointer has eight. *)
Definition make_withdrawals : result (list Withdrawal) :=
  if maxAlloc <? 8 * MaxWithdrawalsPerPayload cfg then Panic "makeslice: cap out of range" else Ok [].

Definition ExpectedWithdrawals (s : BeaconState) : result (list Withdrawal) :=
  withdrawals ← make_withdrawals;
  epoch ← ToEpoch cfg (slot s);
  let bound := Z.min (NumValidators s) (MaxValidatorsPerWithdrawalsSweep cfg) in
  sweep (Z.to_nat bound) s epoch (nextWithdrawalValidatorIndex s) (nextWithdrawalIndex s) withdrawals.

(** [ssz.WithdrawalSliceRoot]: a root of a list with at most so many elements, or an error. *)
Context (WithdrawalSliceRoot : list Withdrawal -> Z -> result (list Z)).

Definition payload_root (p : ExecutionPayload) : result (list Z) :=
  match p with
  | Blinded r => r ← wrap "could not get withdrawals root" r; Ok (take 32 (r ++ zeros 32))
  | Full wds => wds ← wrap "could not get withdrawals" wds; wrap "could not get withdrawals root" (WithdrawalSliceRoot wds (fp_MaxWithdrawalsPerPayload fp))
  end.

Definition pay_withdrawal (s : BeaconState) (w : Withdrawal) : result BeaconState :=
  wrap "could not decrease balance" (DecreaseBalance s (Withdrawal_ValidatorIndex w) (Withdrawal_Amount w)).

(** Where the next sweep starts. *)
Definition next_sweep (s : BeaconState) (withdrawals : list Withdrawal) : result Z :=
  if zlen withdrawals <? MaxWithdrawalsPerPayload cfg
  then umod (nextWithdrawalValidatorIndex s +u MaxValidatorsPerWithdrawalsSweep cfg) (NumValidators s)
  else
    w ← idx withdrawals (zlen withdrawals - 1);
    let next := Withdrawal_ValidatorIndex w +u 1 in
    Ok (if next =? NumValidators s then 0 else next).

Definition ProcessWithdrawals (s : BeaconState) (executionData : option ExecutionPayload) : result BeaconState :=
  match executionData with
  | None => Err (New "nil execution data")
  | Some payload =>
      if NumValidators s =? 0 then Err (New "cannot process withdrawals for a state with no validators")
      else
        expectedWithdrawals ← wrap "could not get expected withdrawals" (ExpectedWithdrawals s);
        wdRoot ← payload_root payload;
        expectedRoot ← wrap "could not get expected withdrawals root" (WithdrawalSliceRoot expectedWithdrawals (fp_MaxWithdrawalsPerPayload fp));
        if negb (bool_decide (expectedRoot = wdRoot)) then Err (New "expected withdrawals root, got another")
        else
          s ← foldM pay_withdrawal s expectedWithdrawals;
          s ← (if 0 <? zlen expectedWithdrawals
               then w ← idx expectedWithdrawals (zlen expectedWithdrawals - 1);
                    Ok (with_nextWithdrawalIndex (Withdrawal_Index w +u 1) s)
               else Ok s);
          next ← next_sweep s expectedWithdrawals;
          Ok (with_nextWithdrawalValidatorIndex next s)
  end.

(** ** Specification of the sweep *)

(** What a validator with an execution address may withdraw: everything once it is
    withdrawable, otherwise the excess over the maximum while its effective balance is
    the maximum. *)
Definition due (s : BeaconState) (epoch i : Z) : option (Z * list Z * Z) :=
  match validators s !! Z.to_nat i, balances s !! Z.to_nat i with
  | Some val, Some balance =>
      if bool_decide (zlen (WithdrawalRecipient val) <> WithdrawalRecipientLength) then None
      else if bool_decide (0 < balance /\ WithdrawableEpoch val <= epoch) then Some (i, WithdrawalRecipient val, balance)
      else if bool_decide (MaxEffectiveBalance cfg < balance /\ EffectiveBalance val = MaxEffectiveBalance cfg)
      then Some (i, WithdrawalRecipient val, balance - MaxEffectiveBalance cfg)
      else None
  | _, _ => None
  end.

(** [n] validators in order, from [from] around a registry of size [size]. *)
Definition around (from size : Z) (n : nat) : list Z := map (fun k => (from + Z.of_nat k) mod size) (seq 0 n).

Definition visited (s : BeaconState) : list Z :=
  around (nextWithdrawalValidatorIndex s) (NumValidators s)
    (Z.to_nat (Z.min (NumValidators s) (MaxValidatorsPerWithdrawalsSweep cfg))).

(** Consecutive withdrawal indices from [i]. *)
Fixpoint numbered (i : Z) (l : list (Z * list Z * Z)) : list Withdrawal :=
  match l with
  | [] => []
  | (v, a, x) :: l' => mkWithdrawal i v a x :: numbered (i +u 1) l'
  end.

(** [get_expected_withdrawals] of the specification. *)
Definition expected (s : BeaconState) (epoch : Z) : list Withdrawal :=
  numbered (nextWithdrawalIndex s) (take (Z.to_nat (MaxWithdrawalsPerPayload cfg)) (omap (due s epoch) (visited s))).

(** Where the next sweep starts: after the last withdrawal of a full list, otherwise
    a whole sweep further. *)
Definition cursor_after (s : BeaconState) (ws : list Withdrawal) : Z :=
  match last ws with
  | Some w => if zlen ws =? MaxWithdrawalsPerPayload cfg
              then (Withdrawal_ValidatorIndex w + 1) mod NumValidators s
              else (nextWithdrawalValidatorIndex s + MaxValidatorsPerWithdrawalsSweep cfg) mod NumValidators s
  | None => (nextWithdrawalValidatorIndex s + MaxValidatorsPerWithdrawalsSweep cfg) mod NumValidators s
  end.

(** ** The loop computes the specification *)

Lemma around_S from size n : 0 <= from < size ->
  around from size (S n) = from :: around (if from + 1 =? size then 0 else from + 1) size n.
Proof.
  intros Hf. unfold around. cbn [seq map]. f_equal; [rewrite Z.add_0_r; apply Z.mod_small, Hf |].
  rewrite <- seq_shift, map_map. apply map_ext. intros k.
  replace (from + Z.of_nat (S k)) with (from + 1 + Z.of_nat k) by lia.
  destruct (Z.eqb_spec (from + 1) size) as [-> |]; [| reflexivity].
  rewrite <- (Z.mod_add (0 + Z.of_nat k) 1 size) by lia. f_equal. lia.
Qed.

Lemma around_NoDup from size n : 0 < size -> Z.of_nat n <= size -> NoDup (around from size n).
Proof.
  intros Hs Hn. apply (NoDup_fmap_2_strong (fun k => (from + Z.of_nat k) mod size)); [| apply NoDup_seq].
  intros a b Ha%elem_of_seq Hb%elem_of_seq E. pose proof (Z.div_mod (from + Z.of_nat a) size). pose proof (Z.div_mod (from + Z.of_nat b) size).
  assert ((from + Z.of_nat a) / size = (from + Z.of_nat b) / size \/
          (from + Z.of_nat a) / size <> (from + Z.of_nat b) / size) as [| ] by lia; nia.
Qed.

Lemma around_range from size n i : 0 < size -> i ∈ around from size n -> 0 <= i < size.
Proof. intros Hs (k & <- & _)%list_elem_of_In%in_map_iff. now apply Z.mod_pos_bound. Qed.

Context (Hmax : 0 < 8 * MaxWithdrawalsPerPayload cfg <= maxAlloc) (Hmeb : 0 <= MaxEffectiveBalance cfg).

Lemma due_withdrawal s epoch w i val b : state_ok s -> validators s !! Z.to_nat i = Some val ->
  balances s !! Z.to_nat i = Some b ->
  withdrawal_of epoch w i val b = (fun d : Z * list Z * Z => mkWithdrawal w d.1.1 d.1.2 d.2) <$> due s epoch i.
Proof.
  intros Hok Hv Hb. pose proof (Forall_lookup_1 _ _ _ _ (ok_balances _ Hok) Hb) as Hub.
  unfold withdrawal_of, due, isFullyWithdrawableValidator, isPartiallyWithdrawableValidator, hasExecutionWithdrawalRecipient.
  rewrite Hv, Hb. repeat case_bool_decide; destruct (Z.eqb_spec (zlen (WithdrawalRecipient val)) WithdrawalRecipientLength);
    try contradiction; destruct (Z.ltb_spec 0 b), (Z.leb_spec (WithdrawableEpoch val) epoch),
      (Z.ltb_spec (MaxEffectiveBalance cfg) b), (Z.eqb_spec (EffectiveBalance val) (MaxEffectiveBalance cfg));
    cbn [andb]; try reflexivity; try lia; cbn; do 2 f_equal; apply u64_sub_small; lia || exact Hub.
Qed.

Lemma sweep_exact s epoch bound v w acc : state_ok s -> 0 <= v < NumValidators s ->
  zlen acc < MaxWithdrawalsPerPayload cfg ->
  sweep bound s epoch v w acc =
  Ok (acc ++ numbered w (take (Z.to_nat (MaxWithdrawalsPerPayload cfg - zlen acc))
                           (omap (due s epoch) (around v (NumValidators s) bound)))).
Proof.
  intros Hok. revert v w acc. induction bound as [| bound IH]; intros v w acc Hv Hacc.
  { cbn. rewrite take_nil. cbn. now rewrite app_nil_r. }
  assert (exists val b, validators s !! Z.to_nat v = Some val /\ balances s !! Z.to_nat v = Some b) as (val & b & Ev & Eb).
  { destruct (lookup_lt_is_Some_2 (validators s) (Z.to_nat v)) as [val Ev]; [unfold NumValidators, zlen in Hv; lia |].
    destruct (lookup_lt_is_Some_2 (balances s) (Z.to_nat v)) as [b Eb]; [| eauto].
    rewrite (ok_balances_len _ Hok). unfold NumValidators, zlen in Hv. lia. }
  rewrite around_S by exact Hv. cbn [sweep omap list_omap].
  unfold ValidatorAtIndex, BalanceAtIndex. rewrite (at_index_ok _ _ _ val), (at_index_ok _ _ _ b) by (try assumption; lia).
  cbn [wrap mbind result_bind]. rewrite (due_withdrawal s epoch w v val b) by assumption.
  pose proof (ok_num _ Hok) as Hn. rewrite (u64_small (v + 1)) by (unfold u64_ok in *; lia).
  set (v' := if v + 1 =? NumValidators s then 0 else v + 1).
  assert (0 <= v' < NumValidators s) as Hv' by (unfold v'; destruct (Z.eqb_spec (v + 1) (NumValidators s)); lia).
  destruct (due s epoch v) as [[[i a] x] |]; cbn [fmap option_fmap option_map fst snd].
  - rewrite zlen_snoc. replace (Z.to_nat (MaxWithdrawalsPerPayload cfg - zlen acc))
      with (S (Z.to_nat (MaxWithdrawalsPerPayload cfg - (zlen acc + 1)))) by lia. cbn [firstn numbered].
    destruct (Z.eqb_spec (zlen acc + 1) (MaxWithdrawalsPerPayload cfg)) as [-> | Hne].
    + rewrite Z.sub_diag. reflexivity.
    + rewrite IH by (rewrite ?zlen_snoc; lia). rewrite zlen_snoc, <- app_assoc. reflexivity.
  - destruct (Z.eqb_spec (zlen acc) (MaxWithdrawalsPerPayload cfg)); [lia |]. now apply IH.
Qed.

Lemma expected_run s epoch : state_ok s -> ToEpoch cfg (slot s) = Ok epoch ->
  0 <= nextWithdrawalValidatorIndex s < NumValidators s ->
  ExpectedWithdrawals s = Ok (expected s epoch).
Proof.
  intros Hok He Hc. unfold ExpectedWithdrawals, make_withdrawals.
  destruct (Z.ltb_spec maxAlloc (8 * MaxWithdrawalsPerPayload cfg)); [lia |]. cbn [mbind result_bind]. rewrite He. cbn [mbind result_bind].
  rewrite sweep_exact by (try assumption; change (zlen (@nil Withdrawal)) with 0; lia).
  change (zlen (@nil Withdrawal)) with 0. now rewrite Z.sub_0_r.
Qed.

(** C39. The sweep computes the specification: from the cursor around the
    registry, at most [MaxValidatorsPerWithdrawalsSweep] validators and none twice
    are visited, and the first [MaxWithdrawalsPerPayload] that have something due (the
    whole balance of a withdrawable validator, else the excess over the maximal
    effective balance) are listed with consecutive indices.  It never fails on a
    well-formed state whose cursor is in the registry, when the limit of the payload
    is positive and its slice can be allocated. *)
Theorem expected_withdrawals_exact s epoch : state_ok s -> ToEpoch cfg (slot s) = Ok epoch ->
  0 <= nextWithdrawalValidatorIndex s < NumValidators s ->
  ExpectedWithdrawals s = Ok (expected s epoch).
Proof. apply expected_run. Qed.

(** ** Paying the withdrawals *)

(** What one validator keeps after a withdrawal of [x]. *)
Definition settled (s : BeaconState) (epoch i x : Z) : Prop :=
  exists val b, 0 <= i < NumValidators s /\ validators s !! Z.to_nat i = Some val /\ balances s !! Z.to_nat i = Some b /\
    0 < x <= b /\
    ((WithdrawableEpoch val <= epoch /\ x = b) \/ b - x = MaxEffectiveBalance cfg).

Lemma due_settled s epoch i j a x : 0 <= i < NumValidators s -> due s epoch i = Some (j, a, x) -> j = i /\ settled s epoch i x.
Proof.
  unfold due. intros Hi. destruct (validators s !! _) as [val |] eqn:Ev; [| discriminate].
  destruct (balances s !! _) as [b |] eqn:Eb; [| discriminate].
  repeat case_bool_decide; try discriminate; injection 1 as <- <- <-; (split; [done |]);
    exists val, b; split_and!; auto; lia.
Qed.

Lemma numbered_triples i l : map (fun w => (Withdrawal_ValidatorIndex w, Withdrawal_Address w, Withdrawal_Amount w)) (numbered i l) = l.
Proof. revert i. induction l as [| [[v a] x] l IH]; intros i; cbn; [reflexivity | now rewrite IH]. Qed.

Lemma numbered_last i l w : last (numbered i l) = Some w -> Withdrawal_Index w +u 1 = i +u zlen l.
Proof.
  revert i. induction l as [| [[v a] x] l IH]; intros i E; [discriminate |].
  replace (zlen ((v, a, x) :: l)) with (zlen l + 1) by (unfold zlen; cbn [length]; lia).
  change (numbered i ((v, a, x) :: l)) with (mkWithdrawal i v a x :: numbered (i +u 1) l) in E. rewrite last_cons in E.
  destruct (last (numbered (i +u 1) l)) as [w' |] eqn:El.
  - injection E as <-. rewrite (IH _ El). unfold u64. rewrite Zplus_mod_idemp_l. f_equal. lia.
  - injection E as <-. apply last_None in El. destruct l as [| [[v' a'] x'] l]; [reflexivity | discriminate El].
Qed.

Lemma omap_due_sublist s epoch l : Forall (fun i => 0 <= i < NumValidators s) l ->
  sublist (map (fun d => d.1.1) (omap (due s epoch) l)) l.
Proof.
  induction 1 as [| i l Hi _ IH]; [constructor |]. cbn [omap list_omap].
  destruct (due s epoch i) as [[[j a] x] |] eqn:E; [| now constructor].
  apply due_settled in E as [-> _]; [| exact Hi]. cbn. now constructor.
Qed.

Lemma expected_settled s epoch w : 0 < NumValidators s -> w ∈ expected s epoch ->
  settled s epoch (Withdrawal_ValidatorIndex w) (Withdrawal_Amount w).
Proof.
  intros Hn Hw. unfold expected in Hw.
  assert ((Withdrawal_ValidatorIndex w, Withdrawal_Address w, Withdrawal_Amount w) ∈ omap (due s epoch) (visited s)) as Ht.
  { eapply elem_of_sublist; [| apply sublist_take]. rewrite <- (numbered_triples (nextWithdrawalIndex s) (take _ _)).
    apply list_elem_of_In, (in_map (fun w => (Withdrawal_ValidatorIndex w, Withdrawal_Address w, Withdrawal_Amount w))).
    apply list_elem_of_In, Hw. }
  apply list_elem_of_omap in Ht as (i & Hi & E). apply around_range in Hi; [| exact Hn].
  apply due_settled in E as [-> ?]; assumption.
Qed.

Lemma expected_NoDup s epoch : 0 < NumValidators s -> NoDup (map Withdrawal_ValidatorIndex (expected s epoch)).
Proof.
  intros Hn. unfold expected. set (l := take _ _).
  replace (map Withdrawal_ValidatorIndex _) with (map (fun d => d.1.1) l).
  - subst l. apply (sublist_NoDup _ (visited s)).
    + unfold visited. apply around_NoDup; lia.
    + etrans; [| apply (omap_due_sublist s epoch)].
      * rewrite <- firstn_map. apply sublist_take.
      * apply Forall_forall. intros i. now apply around_range.
  - rewrite <- (numbered_triples (nextWithdrawalIndex s) l) at 1. now rewrite map_map.
Qed.

Lemma alter_insert {A} (f : A -> A) (k : nat) (l : list A) a : l !! k = Some a -> alter f k l = <[k := f a]> l.
Proof. intros E. rewrite list_insert_alter. apply list_alter_ext; [| reflexivity]. intros x Ex. unfold const. congruence. Qed.

(** The balances after the withdrawals [ws]. *)
Fixpoint paid (ws : list Withdrawal) (bs : list Z) : list Z :=
  match ws with
  | [] => bs
  | w :: ws' => paid ws' (alter (fun b => b - Withdrawal_Amount w) (Z.to_nat (Withdrawal_ValidatorIndex w)) bs)
  end.

(** Each withdrawal is covered by a balance of its own. *)
Definition covered (ws : list Withdrawal) (bs : list Z) : Prop :=
  NoDup (map Withdrawal_ValidatorIndex ws) /\
  Forall (fun w => 0 <= Withdrawal_ValidatorIndex w /\ exists b,
            bs !! Z.to_nat (Withdrawal_ValidatorIndex w) = Some b /\ 0 < Withdrawal_Amount w <= b) ws.

Lemma covered_tail w ws f bs : covered (w :: ws) bs ->
  covered ws (alter f (Z.to_nat (Withdrawal_ValidatorIndex w)) bs).
Proof.
  intros [[Hn Hd]%NoDup_cons [[Hi _] Hc]%Forall_cons]. split; [exact Hd |].
  rewrite Forall_forall in Hc |- *. intros u Hu. destruct (Hc u Hu) as (Hu0 & b & Hb & Hx). split; [exact Hu0 |].
  exists b. split; [| exact Hx]. rewrite list_lookup_alter_ne; [exact Hb |].
  intros E%Z2Nat.inj; [| assumption ..]. apply Hn. rewrite E. apply list_elem_of_In, in_map, list_elem_of_In, Hu.
Qed.

Lemma paid_length ws bs : length (paid ws bs) = length bs.
Proof. revert bs. induction ws as [| w ws IH]; intros bs; cbn [paid]; [reflexivity | now rewrite IH, length_alter]. Qed.

Lemma paid_other ws bs i : ~ i ∈ map Withdrawal_ValidatorIndex ws -> 0 <= i ->
  Forall (fun w => 0 <= Withdrawal_ValidatorIndex w) ws -> paid ws bs !! Z.to_nat i = bs !! Z.to_nat i.
Proof.
  revert bs. induction ws as [| w ws IH]; intros bs Hn Hi Hw; cbn [paid]; [reflexivity |].
  apply Forall_cons in Hw as [Hw0 Hw]. cbn in Hn. rewrite elem_of_cons in Hn.
  rewrite IH by tauto. apply list_lookup_alter_ne. intros E%Z2Nat.inj; [| assumption ..]. apply Hn. now left.
Qed.

Lemma paid_here ws bs w b : covered ws bs -> w ∈ ws ->
  bs !! Z.to_nat (Withdrawal_ValidatorIndex w) = Some b ->
  paid ws bs !! Z.to_nat (Withdrawal_ValidatorIndex w) = Some (b - Withdrawal_Amount w).
Proof.
  revert bs. induction ws as [| u ws IH]; intros bs Hc Hw Hb; [now apply not_elem_of_nil in Hw |]. cbn [paid].
  pose proof Hc as [[Hn Hd]%NoDup_cons [[Hi _] Hf]%Forall_cons]. apply elem_of_cons in Hw as [-> | Hw].
  - rewrite paid_other; [| exact Hn | exact Hi |].
    + rewrite list_lookup_alter_eq, Hb. reflexivity.
    + eapply Forall_impl; [exact Hf |]. now intros ? [].
  - apply IH; [now apply covered_tail | exact Hw |]. rewrite list_lookup_alter_ne; [exact Hb |].
    rewrite Forall_forall in Hf. intros E%Z2Nat.inj; [| exact Hi | apply Hf, Hw].
    apply Hn. rewrite E. apply list_elem_of_In, in_map, list_elem_of_In, Hw.
Qed.

Lemma paid_ok ws bs : covered ws bs -> Forall u64_ok bs -> Forall u64_ok (paid ws bs).
Proof.
  revert bs. induction ws as [| w ws IH]; intros bs Hc Hu; cbn [paid]; [exact Hu |].
  apply IH; [now apply covered_tail |]. destruct Hc as [_ [(_ & b & Hb & Hx) _]%Forall_cons].
  rewrite (alter_insert _ _ _ b) by exact Hb. apply Forall_insert; [exact Hu |].
  pose proof (Forall_lookup_1 _ _ _ _ Hu Hb). unfold u64_ok in *. lia.
Qed.

Lemma paid_sum ws bs : covered ws bs -> zsum (paid ws bs) + zsum (map Withdrawal_Amount ws) = zsum bs.
Proof.
  revert bs. induction ws as [| w ws IH]; intros bs Hc; cbn [paid map]; [cbn; lia |].
  specialize (IH _ (covered_tail _ _ (fun b => b - Withdrawal_Amount w) _ Hc)).
  destruct Hc as [_ [(_ & b & Hb & _) _]%Forall_cons].
  rewrite (alter_insert _ _ _ b) in IH |- * by exact Hb. rewrite (zsum_insert _ _ b) in IH by exact Hb.
  unfold zsum in *. cbn [fold_right]. lia.
Qed.

Lemma pay_one w s b : state_ok s -> 0 <= Withdrawal_ValidatorIndex w ->
  balances s !! Z.to_nat (Withdrawal_ValidatorIndex w) = Some b -> 0 < Withdrawal_Amount w <= b ->
  pay_withdrawal s w =
  Ok (with_balances (<[Z.to_nat (Withdrawal_ValidatorIndex w) := b - Withdrawal_Amount w]> (balances s)) s).
Proof.
  intros Hok Hi Hb Hx. pose proof (Forall_lookup_1 _ _ _ _ (ok_balances _ Hok) Hb) as Hub.
  unfold pay_withdrawal, DecreaseBalance, BalanceAtIndex, UpdateBalancesAtIndex.
  rewrite (at_index_ok _ _ _ b) by assumption. cbn [mbind result_bind].
  rewrite DecreaseBalanceWithVal_max, Z.max_r by (try assumption; lia).
  now rewrite (update_at_ok _ _ _ _ b) by assumption.
Qed.

Lemma pay_all ws s : state_ok s -> covered ws (balances s) ->
  foldM pay_withdrawal s ws = Ok (with_balances (paid ws (balances s)) s).
Proof.
  revert s. induction ws as [| w ws IH]; intros s Hok Hc; cbn [foldM paid]; [now destruct s |].
  pose proof Hc as [_ [(Hi & b & Hb & Hx) _]%Forall_cons].
  pose proof (Forall_lookup_1 _ _ _ _ (ok_balances _ Hok) Hb) as Hub.
  rewrite (pay_one w s b) by assumption. cbn [mbind result_bind].
  rewrite IH.
  - cbn [balances with_balances]. now rewrite (alter_insert _ _ _ b) by exact Hb.
  - apply with_balances_ok; [exact Hok | | apply length_insert].
    apply Forall_insert; [apply Hok | unfold u64_ok in *; lia].
  - cbn [balances with_balances]. rewrite <- (alter_insert (fun b => b - Withdrawal_Amount w) _ _ b) by exact Hb.
    now apply covered_tail.
Qed.

Lemma expected_covered s epoch : 0 < NumValidators s -> covered (expected s epoch) (balances s).
Proof.
  intros Hn. split; [now apply expected_NoDup |]. apply Forall_forall. intros w Hw.
  apply expected_settled in Hw as (val & b & Hi & _ & Hb & Hx & _); [| exact Hn]. split; [lia | eauto].
Qed.

Lemma numbered_length i l : length (numbered i l) = length l.
Proof. revert i. induction l as [| [[v a] x] l IH]; intros i; cbn; [reflexivity | now rewrite IH]. Qed.

Lemma expected_length s epoch : zlen (expected s epoch) <= MaxWithdrawalsPerPayload cfg.
Proof. unfold expected, zlen. rewrite numbered_length, length_take. lia. Qed.

Lemma idx_last {A} (l : list A) w : last l = Some w -> idx l (zlen l - 1) = Ok w.
Proof.
  intros (l' & ->)%last_Some. rewrite zlen_snoc. replace (zlen l' + 1 - 1) with (zlen l') by lia.
  now rewrite idx_app_here.
Qed.

(** The fields a block's withdrawals change. *)
Definition settle (s : BeaconState) (ws : list Withdrawal) : BeaconState :=
  with_nextWithdrawalValidatorIndex (cursor_after s ws)
    (with_nextWithdrawalIndex (nextWithdrawalIndex s +u zlen ws) (with_balances (paid ws (balances s)) s)).

Lemma next_sweep_ok s s1 ws : state_ok s -> 0 <= nextWithdrawalValidatorIndex s < NumValidators s ->
  nextWithdrawalValidatorIndex s + MaxValidatorsPerWithdrawalsSweep cfg < two64 ->
  0 <= MaxValidatorsPerWithdrawalsSweep cfg ->
  nextWithdrawalValidatorIndex s1 = nextWithdrawalValidatorIndex s -> NumValidators s1 = NumValidators s ->
  zlen ws <= MaxWithdrawalsPerPayload cfg ->
  Forall (fun w => 0 <= Withdrawal_ValidatorIndex w < NumValidators s) ws ->
  next_sweep s1 ws = Ok (cursor_after s ws).
Proof.
  intros Hok Hc Hfit Hsw E1 E2 Hlen Hws. unfold next_sweep, cursor_after. rewrite E1, E2.
  rewrite u64_add_small, umod_ok by lia. pose proof (ok_num _ Hok) as Hn.
  destruct (last ws) as [w |] eqn:El.
  - destruct (Z.ltb_spec (zlen ws) (MaxWithdrawalsPerPayload cfg)), (Z.eqb_spec (zlen ws) (MaxWithdrawalsPerPayload cfg));
      try lia; [reflexivity |]. rewrite (idx_last _ w) by exact El. cbn [mbind result_bind]. f_equal.
    assert (0 <= Withdrawal_ValidatorIndex w < NumValidators s) as Hw.
    { rewrite Forall_forall in Hws. apply Hws. now apply last_Some_elem_of. }
    rewrite u64_small by (unfold u64_ok in *; lia).
    destruct (Z.eqb_spec (Withdrawal_ValidatorIndex w + 1) (NumValidators s)) as [-> |].
    + now rewrite Z_mod_same_full.
    + now rewrite Z.mod_small by lia.
  - apply last_None in El as ->. change (zlen (@nil Withdrawal)) with 0.
    destruct (Z.ltb_spec 0 (MaxWithdrawalsPerPayload cfg)); [reflexivity | lia].
Qed.

(** The whole handler: with matching roots the state is settled, with different
    roots the block is rejected. *)
Lemma process_withdrawals_run s p epoch er pr : state_ok s -> ToEpoch cfg (slot s) = Ok epoch ->
  0 <= nextWithdrawalValidatorIndex s < NumValidators s ->
  0 <= MaxValidatorsPerWithdrawalsSweep cfg ->
  nextWithdrawalValidatorIndex s + MaxValidatorsPerWithdrawalsSweep cfg < two64 -> u64_ok (nextWithdrawalIndex s) ->
  WithdrawalSliceRoot (expected s epoch) (fp_MaxWithdrawalsPerPayload fp) = Ok er -> payload_root p = Ok pr ->
  ProcessWithdrawals s (Some p) =
  if bool_decide (er = pr) then Ok (settle s (expected s epoch)) else Err (New "expected withdrawals root, got another").
Proof.
  intros Hok He Hc Hsw Hfit Hwi Her Hpr. unfold ProcessWithdrawals.
  destruct (Z.eqb_spec (NumValidators s) 0); [lia |].
  rewrite (expected_run s epoch), Hpr by assumption. cbn [wrap mbind result_bind]. rewrite Her. cbn [wrap mbind result_bind].
  destruct (bool_decide (er = pr)); [| reflexivity]. cbn [negb].
  rewrite pay_all by (try apply expected_covered; assumption || lia). cbn [mbind result_bind].
  set (ws := expected s epoch) in *. set (s1 := with_balances _ s).
  assert (Forall (fun w => 0 <= Withdrawal_ValidatorIndex w < NumValidators s) ws) as Hws.
  { apply Forall_forall. intros w Hw. apply expected_settled in Hw as (? & ? & Hi & _); [exact Hi | lia]. }
  destruct (last ws) as [w |] eqn:El.
  - rewrite (idx_last _ w) by exact El. cbn [mbind result_bind].
    assert (0 < zlen ws) as Hpos by (apply last_Some in El as [? ->]; rewrite zlen_snoc; unfold zlen; lia).
    destruct (Z.ltb_spec 0 (zlen ws)); [| lia]. cbn [mbind result_bind].
    rewrite (next_sweep_ok s) by (try assumption || reflexivity || apply expected_length). cbn [mbind result_bind].
    unfold settle. apply numbered_last in El. rewrite El. fold s1. do 3 f_equal.
    unfold ws, expected, zlen. now rewrite numbered_length.
  - apply last_None in El. unfold settle. rewrite El. change (zlen (@nil Withdrawal)) with 0. cbn [mbind result_bind Z.ltb Z.compare].
    rewrite <- El. rewrite (next_sweep_ok s) by (try assumption || reflexivity || apply expected_length).
    cbn [mbind result_bind]. rewrite Z.add_0_r, u64_small by exact Hwi. reflexivity.
Qed.

(** C40. Withdrawals leave the chain exactly once.  On a well-formed state whose cursor is
    in the registry (cursor plus sweep length fit 64 bits, the payload limit is positive and
    its slice can be allocated), when both roots can be computed, a payload with the
    expected root is accepted: each listed validator (none is listed twice) loses what it
    withdraws and keeps nothing, if it is withdrawable, or the maximal effective balance;
    every other balance is unchanged; what the balances lose is what the withdrawals carry;
    the next withdrawal index advances by their number; the cursor moves behind the last
    withdrawal of a full list and by a whole sweep otherwise, and stays in the registry;
    nothing else of the state changes.  A payload with another root is rejected. *)
Theorem process_withdrawals_effect s p epoch er pr : state_ok s -> ToEpoch cfg (slot s) = Ok epoch ->
  0 <= nextWithdrawalValidatorIndex s < NumValidators s ->
  0 <= MaxValidatorsPerWithdrawalsSweep cfg ->
  nextWithdrawalValidatorIndex s + MaxValidatorsPerWithdrawalsSweep cfg < two64 -> u64_ok (nextWithdrawalIndex s) ->
  WithdrawalSliceRoot (expected s epoch) (fp_MaxWithdrawalsPerPayload fp) = Ok er -> payload_root p = Ok pr ->
  let ws := expected s epoch in
  (er <> pr -> ProcessWithdrawals s (Some p) = Err (New "expected withdrawals root, got another")) /\
  (er = pr -> exists bs,
     ProcessWithdrawals s (Some p) =
       Ok (with_nextWithdrawalValidatorIndex (cursor_after s ws)
             (with_nextWithdrawalIndex (nextWithdrawalIndex s +u zlen ws) (with_balances bs s))) /\
     Forall u64_ok bs /\ length bs = length (balances s) /\ NoDup (map Withdrawal_ValidatorIndex ws) /\
     (forall w, w ∈ ws -> exists val b b', validators s !! Z.to_nat (Withdrawal_ValidatorIndex w) = Some val /\
        balances s !! Z.to_nat (Withdrawal_ValidatorIndex w) = Some b /\
        bs !! Z.to_nat (Withdrawal_ValidatorIndex w) = Some b' /\ b = b' + Withdrawal_Amount w /\
        (b' = MaxEffectiveBalance cfg \/ b' = 0 /\ WithdrawableEpoch val <= epoch)) /\
     (forall i, 0 <= i -> ~ i ∈ map Withdrawal_ValidatorIndex ws -> bs !! Z.to_nat i = balances s !! Z.to_nat i) /\
     zsum bs + zsum (map Withdrawal_Amount ws) = zsum (balances s) /\
     0 <= cursor_after s ws < NumValidators s).
Proof.
  intros Hok He Hc Hsw Hfit Hwi Her Hpr ws. assert (0 < NumValidators s) as Hn by lia.
  rewrite (process_withdrawals_run s p epoch er pr) by assumption.
  pose proof (expected_covered s epoch Hn) as Hcov. split; intros Hr.
  { now rewrite bool_decide_false. }
  rewrite bool_decide_true by exact Hr. exists (paid ws (balances s)). split; [reflexivity |].
  split; [apply paid_ok; [exact Hcov | apply Hok] |]. split; [apply paid_length |]. split; [apply Hcov |].
  split; [| split; [| split]].
  - intros w Hw. destruct (expected_settled s epoch w Hn Hw) as (val & b & Hi & Hv & Hb & Hx & Hs).
    exists val, b, (b - Withdrawal_Amount w). split_and!; try assumption; try lia. now apply paid_here.
  - intros i Hi Hni. apply paid_other; [exact Hni | exact Hi |].
    eapply Forall_impl; [apply Hcov |]. now intros ? [].
  - now apply paid_sum.
  - unfold cursor_after. destruct (last _) as [? |]; [destruct (_ =? _) |]; apply Z.mod_pos_bound, Hn.
Qed.
End Withdrawals.

(** ** A concrete payload *)

(** Validator 1 is fully withdrawable, validator 2 has an excess. *)
Definition toy_leaving : BeaconState :=
  with_nextWithdrawalValidatorIndex 2 (with_balances [40000000000000; 39000000000000; 40000000000005]
    (toy_state 40 [toy_validator 0; with_WithdrawableEpoch 4 (toy_validator 1); toy_validator 2])).

Definition toy_withdrawals : list Withdrawal :=
  [mkWithdrawal 0 2 (replicate 64 2) 5; mkWithdrawal 1 1 (replicate 64 1) 39000000000000].

Definition toy_payload : ExecutionPayload := Full (Ok toy_withdrawals).

(** A root that tells lists of withdrawals apart by validator and amount. *)
Definition toy_slice_root (ws : list Withdrawal) (_ : Z) : result (list Z) :=
  Ok (flat_map (fun w => [Withdrawal_ValidatorIndex w; Withdrawal_Amount w]) ws).

Lemma toy_leaving_ok : state_ok toy_leaving.
Proof.
  assert (Forall validator_ok [toy_validator 0; with_WithdrawableEpoch 4 (toy_validator 1); toy_validator 2]) as Hv.
  { repeat constructor; vm_compute; congruence. }
  assert (state_ok (toy_state 40 [toy_validator 0; with_WithdrawableEpoch 4 (toy_validator 1); toy_validator 2])) as []
    by (apply toy_state_ok; [vm_compute; split; congruence | vm_compute; split; congruence | exact Hv]).
  split; try assumption. repeat constructor; vm_compute; congruence.
Qed.

Lemma expected_withdrawals_exact_witness :
  ExpectedWithdrawals MinimalSpecConfig 64 toy_leaving = Ok toy_withdrawals.
Proof.
  rewrite (expected_withdrawals_exact MinimalSpecConfig 64 ltac:(vm_compute; split; congruence) ltac:(vm_compute; congruence) toy_leaving 5).
  - vm_compute. reflexivity.
  - exact toy_leaving_ok.
  - reflexivity.
  - vm_compute. split; congruence.
Defined.

Lemma process_withdrawals_effect_witness : exists bs,
  ProcessWithdrawals MinimalSpecConfig minimalFieldParams 64 toy_slice_root toy_leaving (Some toy_payload) =
    Ok (with_nextWithdrawalValidatorIndex 0 (with_nextWithdrawalIndex 2 (with_balances bs toy_leaving))) /\
  zsum bs = 80000000000000.
Proof.
  destruct (process_withdrawals_effect MinimalSpecConfig minimalFieldParams 64 toy_slice_root ltac:(vm_compute; split; congruence)
    ltac:(vm_compute; congruence) toy_leaving toy_payload 5
    [2; 5; 1; 39000000000000] [2; 5; 1; 39000000000000]) as [_ (bs & E & _ & _ & _ & _ & _ & Hz & _)].
  - exact toy_leaving_ok.
  - reflexivity.
  - vm_compute. split; congruence.
  - vm_compute. congruence.
  - vm_compute. reflexivity.
  - vm_compute. split; congruence.
  - vm_compute. reflexivity.
  - vm_compute. reflexivity.
  - reflexivity.
  - exists bs. split; [rewrite E; reflexivity |].
    replace (zsum (map Withdrawal_Amount _)) with 39000000000005 in Hz by (vm_compute; reflexivity).
    replace (zsum (balances toy_leaving)) with 119000000000005 in Hz by (vm_compute; reflexivity). lia.
Defined.
