(* ===== verification/ForkStore.v ===== *)
(** * The fork-choice store

    The data of [beacon-chain/forkchoice/doubly-linked-tree/types.go].  A [*Node]
    is a pointer into the heap of the store: nodes are shared between the tree
    links, the two indexes and the head, updates go through the pointer, and a
    removed node stays reachable through links that still point to it.

    Operations are state transformers that keep the state they reached when they
    return an error ([ST]), since the code mutates the store in place. *)

From S2P Require Import Prelude Math Config Slots Bytes Shuffle State.

(** ** State and errors *)

Definition ST (S A : Type) : Type := S -> result A * S.

#[global] Instance ST_ret S : MRet (ST S) := fun A a s => (Ok a, s).
#[global] Instance ST_bind S : MBind (ST S) := fun A B f m s =>
  match m s with
  | (Ok a, s') => f a s'
  | (Err e, s') => (Err e, s')
  | (Panic p, s') => (Panic p, s')
  end.

Definition get {S} : ST S S := fun s => (Ok s, s).
Definition modify {S} (f : S -> S) : ST S unit := fun s => (Ok tt, f s).
Definition liftR {S A} (r : result A) : ST S A := fun s => (r, s).
Definition throw {S A} (e : error) : ST S A := liftR (Err e).
Definition wrapM {S A} (msg : string) (m : ST S A) : ST S A := fun s =>
  let '(r, s') := m s in (wrap msg r, s').

(** Runs [m] and continues with its result as a value, error or not. *)
Definition try_ {S A} (m : ST S A) : ST S (result A) := fun s =>
  match m s with
  | (Panic p, s') => (Panic p, s')
  | (r, s') => (Ok r, s')
  end.

Fixpoint foldST {S A B} (f : B -> A -> ST S B) (b : B) (l : list A) : ST S B :=
  match l with
  | [] => mret b
  | a :: l' => b' ← f b a; foldST f b' l'
  end.

(** ** Nodes, votes and the store *)

Definition ptr := nat.
Definition ZeroHash : list Z := zeros 32.

Definition ErrNilNode : error := New "invalid nil or unknown node".
Definition errInvalidParentRoot : error := New "invalid parent root".
Definition errUnknownFinalizedRoot : error := New "unknown finalized root".
Definition errUnknownJustifiedRoot : error := New "unknown justified root".
Definition errInvalidOptimisticStatus : error := New "invalid optimistic status".
Definition errInvalidNilCheckpoint : error := New "invalid nil checkpoint".
Definition errInvalidUnrealizedJustifiedEpoch : error := New "invalid unrealized justified epoch".
Definition errInvalidUnrealizedFinalizedEpoch : error := New "invalid unrealized finalized epoch".

Record Node := mkNode {
  slot : Z;
  root : list Z;
  payloadHash : list Z;
  parent : option ptr;
  children : list ptr;
  justifiedEpoch : Z;
  unrealizedJustifiedEpoch : Z;
  unrealizedJustifiedRoot : list Z;
  finalizedEpoch : Z;
  unrealizedFinalizedEpoch : Z;
  unrealizedFinalizedRoot : list Z;
  balance : Z;
  weight : Z;
  bestDescendant : option ptr;
  optimistic : bool;
  timestamp : Z
}.

Definition node_eta (n : Node) : Node :=
  mkNode
    (slot n) (root n) (payloadHash n) (parent n) (children n) (justifiedEpoch n)
    (unrealizedJustifiedEpoch n) (unrealizedJustifiedRoot n) (finalizedEpoch n)
    (unrealizedFinalizedEpoch n) (unrealizedFinalizedRoot n) (balance n) (weight n)
    (bestDescendant n) (optimistic n) (timestamp n).

Definition set_parent (x : option ptr) (n : Node) : Node :=
  ltac:(replace_field node_eta n (parent n) x).
Definition set_children (x : list ptr) (n : Node) : Node :=
  ltac:(replace_field node_eta n (children n) x).
Definition set_justifiedEpoch (x : Z) (n : Node) : Node :=
  ltac:(replace_field node_eta n (justifiedEpoch n) x).
Definition set_unrealizedJustifiedEpoch (x : Z) (n : Node) : Node :=
  ltac:(replace_field node_eta n (unrealizedJustifiedEpoch n) x).
Definition set_unrealizedJustifiedRoot (x : list Z) (n : Node) : Node :=
  ltac:(replace_field node_eta n (unrealizedJustifiedRoot n) x).
Definition set_finalizedEpoch (x : Z) (n : Node) : Node :=
  ltac:(replace_field node_eta n (finalizedEpoch n) x).
Definition set_unrealizedFinalizedEpoch (x : Z) (n : Node) : Node :=
  ltac:(replace_field node_eta n (unrealizedFinalizedEpoch n) x).
Definition set_unrealizedFinalizedRoot (x : list Z) (n : Node) : Node :=
  ltac:(replace_field node_eta n (unrealizedFinalizedRoot n) x).
Definition set_balance (x : Z) (n : Node) : Node :=
  ltac:(replace_field node_eta n (balance n) x).
Definition set_weight (x : Z) (n : Node) : Node :=
  ltac:(replace_field node_eta n (weight n) x).
Definition set_bestDescendant (x : option ptr) (n : Node) : Node :=
  ltac:(replace_field node_eta n (bestDescendant n) x).
Definition set_optimistic (x : bool) (n : Node) : Node :=
  ltac:(replace_field node_eta n (optimistic n) x).

(** [Vote]: the root a validator's balance is counted for, and its latest vote. *)
Record Vote := mkVote { currentRoot : list Z; nextRoot : list Z; nextEpoch : Z }.

Record Store := mkStore {
  justifiedCheckpoint : Checkpoint;
  unrealizedJustifiedCheckpoint : Checkpoint;
  unrealizedFinalizedCheckpoint : Checkpoint;
  prevJustifiedCheckpoint : Checkpoint;
  finalizedCheckpoint : Checkpoint;
  proposerBoostRoot : list Z;
  previousProposerBoostRoot : list Z;
  previousProposerBoostScore : Z;
  finalizedPayloadBlockHash : list Z;
  committeeWeight : Z;
  treeRootNode : option ptr;
  headNode : option ptr;
  nodeByRoot : gmap (list Z) ptr;
  nodeByPayload : gmap (list Z) ptr;
  slashedIndices : gset Z;
  originRoot : list Z;
  storeGenesisTime : Z;
  highestReceivedNode : option ptr;
  receivedBlocksLastEpoch : list Z;
  allTipsAreInvalid : bool;
  heap : gmap ptr Node;
  nextPtr : ptr
}.

Definition store_eta (s : Store) : Store :=
  mkStore
    (justifiedCheckpoint s) (unrealizedJustifiedCheckpoint s) (unrealizedFinalizedCheckpoint s)
    (prevJustifiedCheckpoint s) (finalizedCheckpoint s) (proposerBoostRoot s)
    (previousProposerBoostRoot s) (previousProposerBoostScore s) (finalizedPayloadBlockHash s)
    (committeeWeight s) (treeRootNode s) (headNode s) (nodeByRoot s) (nodeByPayload s)
    (slashedIndices s) (originRoot s) (storeGenesisTime s) (highestReceivedNode s)
    (receivedBlocksLastEpoch s) (allTipsAreInvalid s) (heap s) (nextPtr s).

Definition set_justifiedCheckpoint (x : Checkpoint) (s : Store) : Store :=
  ltac:(replace_field store_eta s (justifiedCheckpoint s) x).
Definition set_unrealizedJustifiedCheckpoint (x : Checkpoint) (s : Store) : Store :=
  ltac:(replace_field store_eta s (unrealizedJustifiedCheckpoint s) x).
Definition set_unrealizedFinalizedCheckpoint (x : Checkpoint) (s : Store) : Store :=
  ltac:(replace_field store_eta s (unrealizedFinalizedCheckpoint s) x).
Definition set_prevJustifiedCheckpoint (x : Checkpoint) (s : Store) : Store :=
  ltac:(replace_field store_eta s (prevJustifiedCheckpoint s) x).
Definition set_finalizedCheckpoint (x : Checkpoint) (s : Store) : Store :=
  ltac:(replace_field store_eta s (finalizedCheckpoint s) x).
Definition set_proposerBoostRoot (x : list Z) (s : Store) : Store :=
  ltac:(replace_field store_eta s (proposerBoostRoot s) x).
Definition set_previousProposerBoostRoot (x : list Z) (s : Store) : Store :=
  ltac:(replace_field store_eta s (previousProposerBoostRoot s) x).
Definition set_previousProposerBoostScore (x : Z) (s : Store) : Store :=
  ltac:(replace_field store_eta s (previousProposerBoostScore s) x).
Definition set_finalizedPayloadBlockHash (x : list Z) (s : Store) : Store :=
  ltac:(replace_field store_eta s (finalizedPayloadBlockHash s) x).
Definition set_committeeWeight (x : Z) (s : Store) : Store :=
  ltac:(replace_field store_eta s (committeeWeight s) x).
Definition set_treeRootNode (x : option ptr) (s : Store) : Store :=
  ltac:(replace_field store_eta s (treeRootNode s) x).
Definition set_headNode (x : option ptr) (s : Store) : Store :=
  ltac:(replace_field store_eta s (headNode s) x).
Definition set_nodeByRoot (x : gmap (list Z) ptr) (s : Store) : Store :=
  ltac:(replace_field store_eta s (nodeByRoot s) x).
Definition set_nodeByPayload (x : gmap (list Z) ptr) (s : Store) : Store :=
  ltac:(replace_field store_eta s (nodeByPayload s) x).
Definition set_slashedIndices (x : gset Z) (s : Store) : Store :=
  ltac:(replace_field store_eta s (slashedIndices s) x).
Definition set_originRoot (x : list Z) (s : Store) : Store :=
  ltac:(replace_field store_eta s (originRoot s) x).
Definition set_storeGenesisTime (x : Z) (s : Store) : Store :=
  ltac:(replace_field store_eta s (storeGenesisTime s) x).
Definition set_highestReceivedNode (x : option ptr) (s : Store) : Store :=
  ltac:(replace_field store_eta s (highestReceivedNode s) x).
Definition set_receivedBlocksLastEpoch (x : list Z) (s : Store) : Store :=
  ltac:(replace_field store_eta s (receivedBlocksLastEpoch s) x).
Definition set_allTipsAreInvalid (x : bool) (s : Store) : Store :=
  ltac:(replace_field store_eta s (allTipsAreInvalid s) x).
Definition set_heap (x : gmap ptr Node) (s : Store) : Store :=
  ltac:(replace_field store_eta s (heap s) x).
Definition set_nextPtr (x : ptr) (s : Store) : Store :=
  ltac:(replace_field store_eta s (nextPtr s) x).

Record ForkChoice := mkForkChoice {
  store : Store;
  votes : list Vote;
  balances : list Z;
  justifiedBalances : list Z;
  numActiveValidators : Z;
  lastProcessedEpoch : Z;
  pendingEpoch : option Z
}.

Definition forkchoice_eta (f : ForkChoice) : ForkChoice :=
  mkForkChoice
    (store f) (votes f) (balances f) (justifiedBalances f) (numActiveValidators f)
    (lastProcessedEpoch f) (pendingEpoch f).

Definition set_store (x : Store) (f : ForkChoice) : ForkChoice :=
  ltac:(replace_field forkchoice_eta f (store f) x).
Definition set_votes (x : list Vote) (f : ForkChoice) : ForkChoice :=
  ltac:(replace_field forkchoice_eta f (votes f) x).
Definition set_balances (x : list Z) (f : ForkChoice) : ForkChoice :=
  ltac:(replace_field forkchoice_eta f (balances f) x).
Definition set_justifiedBalances (x : list Z) (f : ForkChoice) : ForkChoice :=
  ltac:(replace_field forkchoice_eta f (justifiedBalances f) x).
Definition set_numActiveValidators (x : Z) (f : ForkChoice) : ForkChoice :=
  ltac:(replace_field forkchoice_eta f (numActiveValidators f) x).
Definition set_lastProcessedEpoch (x : Z) (f : ForkChoice) : ForkChoice :=
  ltac:(replace_field forkchoice_eta f (lastProcessedEpoch f) x).
Definition set_pendingEpoch (x : option Z) (f : ForkChoice) : ForkChoice :=
  ltac:(replace_field forkchoice_eta f (pendingEpoch f) x).


(** ** Pointers *)

Definition nil_pointer : string := "invalid memory address or nil pointer dereference".

Definition deref (h : gmap ptr Node) (p : ptr) : result Node :=
  match h !! p with Some n => Ok n | None => Panic nil_pointer end.

Definition deref_opt (h : gmap ptr Node) (p : option ptr) : result Node :=
  match p with Some p => deref h p | None => Panic nil_pointer end.

Definition update_node (p : ptr) (f : Node -> Node) : ST Store unit :=
  modify (fun s => set_heap (alter f p (heap s)) s).

(** Runs a store operation on the store of a fork choice. *)
Definition on_store {A} (m : ST Store A) : ST ForkChoice A := fun f =>
  let '(r, s) := m (store f) in (r, set_store s f).

(** The nodes of the index, in an order of the map. *)
Definition indexed (s : Store) : list ptr := (map_to_list (nodeByRoot s)).*2.
Definition indexed_nodes (s : Store) : list Node := omap (fun p => heap s !! p) (indexed s).

(** [bytesutil.ToBytes32]. *)
Definition ToBytes32 (x : list Z) : list Z := take 32 (x ++ zeros 32).

(** [bytes.Compare]. *)
Fixpoint bytes_Compare (a b : list Z) : comparison :=
  match a, b with
  | [], [] => Eq
  | [], _ => Lt
  | _, [] => Gt
  | x :: a', y :: b' => match x ?= y with Eq => bytes_Compare a' b' | c => c end
  end.

(** ** Relations every run stays in

    [moves R m]: whatever [m] returns, the state it leaves is related by [R] to
    the state it started from. *)

Section Moves.
Context {S : Type} (R : relation S) `{!PreOrder R}.

Definition moves {A} (m : ST S A) : Prop := forall s, R s (m s).2.

Lemma moves_liftR {A} (r : result A) : moves (liftR r).
Proof. intros s. reflexivity. Qed.

Lemma moves_get : moves get.
Proof. intros s. reflexivity. Qed.

Lemma moves_ret {A} (a : A) : moves (mret a).
Proof. intros s. reflexivity. Qed.

Lemma moves_bind {A B} (m : ST S A) (k : A -> ST S B) : moves m -> (forall a, moves (k a)) -> moves (m ≫= k).
Proof.
  intros Hm Hk s. specialize (Hm s). unfold mbind, ST_bind. destruct (m s) as [[a | e | e] s'] eqn:E; cbn in *; [| exact Hm | exact Hm].
  etransitivity; [exact Hm | apply Hk].
Qed.

(** The same from one state, with the result of the first step at hand. *)
Lemma moves_bind_at {A B} (m : ST S A) (k : A -> ST S B) s :
  R s (m s).2 -> (forall a s', m s = (Ok a, s') -> R s' (k a s').2) -> R s ((m ≫= k) s).2.
Proof.
  intros Hm Hk. unfold mbind, ST_bind. destruct (m s) as [[a | e | e] s'] eqn:E; cbn in *; [| exact Hm | exact Hm].
  etransitivity; [exact Hm | now apply Hk].
Qed.

Lemma moves_modify (g : S -> S) : (forall s, R s (g s)) -> moves (modify g).
Proof. intros Hg s. apply Hg. Qed.

Lemma moves_wrapM {A} msg (m : ST S A) : moves m -> moves (wrapM msg m).
Proof. intros Hm s. specialize (Hm s). unfold wrapM. now destruct (m s). Qed.

Lemma moves_try {A} (m : ST S A) : moves m -> moves (try_ m).
Proof. intros Hm s. specialize (Hm s). unfold try_. now destruct (m s) as [[] ?]. Qed.

(** A continuation that reads the state it starts from. *)
Lemma moves_with {A} (k : S -> ST S A) : (forall s, R s (k s s).2) -> moves (s ← get; k s).
Proof. intros Hk s. apply Hk. Qed.
End Moves.

(** A relation on stores, on the fork choices that hold them. *)
Definition on_stores (R : relation Store) : relation ForkChoice := fun f g => R (store f) (store g).

Lemma moves_on_store (R : relation Store) {A} (m : ST Store A) : moves R m -> moves (on_stores R) (on_store m).
Proof. intros Hm f. specialize (Hm (store f)). unfold on_store, on_stores. now destruct (m (store f)). Qed.

#[global] Instance on_stores_preorder (R : relation Store) : PreOrder R -> PreOrder (on_stores R).
Proof. intros [Hr Ht]. split; [intros f; apply Hr | intros f g k; apply Ht]. Qed.

(** Splits the goal [moves R m] along the structure of [m]. *)
Ltac moves_step :=
  match goal with
  | |- moves _ (liftR _) => apply moves_liftR; apply _
  | |- moves _ (throw _) => apply moves_liftR; apply _
  | |- moves _ (mret _) => apply moves_ret; apply _
  | |- moves _ get => apply moves_get; apply _
  | |- moves _ (mbind _ _) => apply moves_bind; [apply _ | | intros ?]
  | |- moves _ (wrapM _ _) => apply moves_wrapM
  | |- moves _ (try_ _) => apply moves_try
  | |- moves _ (let '(_, _) := ?x in _) => destruct x
  | |- moves _ (if ?b then _ else _) => destruct b
  | |- moves _ (match ?x with _ => _ end) => destruct x
  end.
