(* ===== verification/ForkChoice.v ===== *)
(** * Fork choice over the doubly linked block tree

    Models [beacon-chain/forkchoice/doubly-linked-tree]: nodes ([node.go]), the
    store ([store.go], [optimistic_sync.go], [proposer_boost.go],
    [unrealized_justification.go]) and the fork choice ([forkchoice.go],
    [on_tick.go], [reorg_late_blocks.go], [last_root.go]).

    The wall clock is the argument [now] in seconds; contexts are never
    cancelled; metrics and logs have no effect.  The recursions over children and
    the walks over parents take as fuel the number of nodes in the heap.  A child
    list never holds a nil pointer, which the code only checks for. *)

From S2P Require Import Prelude Math Config Slots Bytes Shuffle State Validators EpochPrecompute ForkStore.

Definition ProcessAttestationsThreshold : Z := 50.
Definition orphanLateBlockProposingEarly : Z := 2.
Definition out_of_fuel : string := "traversal did not stop within the fuel".

(** ** Nodes *)

Section Nodes.
Context (cfg : BeaconChainConfig).

(** Recomputes the weights below [p], children first. *)
Fixpoint applyWeightChanges (fuel : nat) (p : ptr) (h : gmap ptr Node) : result (gmap ptr Node) :=
  match fuel with
  | O => Panic out_of_fuel
  | S fuel' =>
      n ← deref h p;
      foldM (fun (acc : gmap ptr Node * Z) child =>
               h' ← applyWeightChanges fuel' child acc.1;
               c ← deref h' child;
               Ok (h', acc.2 +u weight c)) (h, 0) (children n) ≫= fun r : gmap ptr Node * Z =>
      let '(h', childrenWeight) := r in
      if decide (root n = ZeroHash) then Ok h'
      else Ok (alter (fun n => set_weight (balance n +u childrenWeight) n) p h')
  end.

Definition viableForHead (n : Node) (justifiedEpoch' currentEpoch : Z) : result bool :=
  if justifiedEpoch' =? 0 then Ok true
  else
    e ← ToEpoch cfg (slot n);
    let votingSource := if e <? currentEpoch then unrealizedJustifiedEpoch n else justifiedEpoch n in
    Ok ((votingSource =? justifiedEpoch') || (currentEpoch <=? votingSource +u 2)).

Definition leadsToViableTip (h : gmap ptr Node) (n : Node) (justifiedEpoch' currentEpoch : Z) : result bool :=
  tip ← match bestDescendant n with Some d => deref h d | None => Ok n end;
  match children tip with
  | [] => viableForHead tip justifiedEpoch' currentEpoch
  | _ => Ok false
  end.

Definition bestChild (h : gmap ptr Node) (n : Node) (justifiedEpoch' currentEpoch : Z) : result (option ptr) :=
  foldM (fun best p =>
    child ← deref h p;
    viable ← leadsToViableTip h child justifiedEpoch' currentEpoch;
    if negb viable then Ok best
    else match best with
    | None => Ok (Some p)
    | Some b =>
        bn ← deref h b;
        if (weight bn <? weight child) ||
           ((weight child =? weight bn) && bool_decide (bytes_Compare (root child) (root bn) = Gt))
        then Ok (Some p) else Ok best
    end) None (children n).

Fixpoint updateBestDescendant (fuel : nat) (p : ptr) (justifiedEpoch' currentEpoch : Z) (h : gmap ptr Node)
    : result (gmap ptr Node) :=
  match fuel with
  | O => Panic out_of_fuel
  | S fuel' =>
      n ← deref h p;
      match children n with
      | [] => Ok (alter (set_bestDescendant None) p h)
      | cs =>
          h ← foldM (fun h child => updateBestDescendant fuel' child justifiedEpoch' currentEpoch h) h cs;
          n ← deref h p;
          best ← bestChild h n justifiedEpoch' currentEpoch;
          match best with
          | None => Ok (alter (set_bestDescendant None) p h)
          | Some b =>
              bn ← deref h b;
              Ok (alter (set_bestDescendant (Some (default b (bestDescendant bn)))) p h)
          end
      end
  end.

(** Marks a node and its optimistic ancestors as validated, ancestors first. *)
Fixpoint setNodeAndParentValidated (fuel : nat) (p : ptr) (h : gmap ptr Node) : result (gmap ptr Node) :=
  match fuel with
  | O => Panic out_of_fuel
  | S fuel' =>
      n ← deref h p;
      if negb (optimistic n) then Ok h
      else
        h ← match parent n with
            | Some q => setNodeAndParentValidated fuel' q h
            | None => Ok h
            end;
        Ok (alter (set_optimistic false) p h)
  end.

Definition arrivedEarly (n : Node) (genesisTime : Z) : result bool :=
  match parent n with
  | None => Ok true
  | Some _ =>
      votingWindow ← udiv (SecondsPerSlot cfg) (IntervalsPerSlot cfg);
      secs ← SecondsSinceSlotStart cfg (slot n) genesisTime (timestamp n);
      Ok (secs <? votingWindow)
  end.

Definition arrivedAfterOrphanCheck (n : Node) (genesisTime : Z) : result bool :=
  match parent n with
  | None => Ok false
  | Some _ =>
      secs ← SecondsSinceSlotStart cfg (slot n) genesisTime (timestamp n);
      Ok (ProcessAttestationsThreshold <=? secs)
  end.

(** The first node on the way to the root, [p] included, that satisfies [stop]. *)
Fixpoint ancestor_until (fuel : nat) (stop : ptr -> Node -> bool) (p : option ptr) (h : gmap ptr Node)
    : result (option ptr) :=
  match p with
  | None => Ok None
  | Some q =>
      match fuel with
      | O => Panic out_of_fuel
      | S fuel' =>
          n ← deref h q;
          if stop q n then Ok (Some q) else ancestor_until fuel' stop (parent n) h
      end
  end.

Fixpoint hasViableTip (fuel : nat) (p : ptr) (justifiedEpoch' currentEpoch : Z) (h : gmap ptr Node) : result bool :=
  match fuel with
  | O => Panic out_of_fuel
  | S fuel' =>
      n ← deref h p;
      match children n with
      | [] => viableForHead n justifiedEpoch' currentEpoch
      | cs => foldM (fun found child => if found : bool then Ok true
                                        else hasViableTip fuel' child justifiedEpoch' currentEpoch h) false cs
      end
  end.

(** The nodes of a subtree, descendants before their parent. *)
Fixpoint subtreeNodes (fuel : nat) (p : ptr) (h : gmap ptr Node) (nodes : list ptr) : result (list ptr) :=
  match fuel with
  | O => Panic out_of_fuel
  | S fuel' =>
      n ← deref h p;
      nodes ← foldM (fun nodes child => subtreeNodes fuel' child h nodes) nodes (children n);
      Ok (nodes ++ [p])
  end.

Fixpoint prunableNodes (fuel : nat) (p finalizedNode : ptr) (h : gmap ptr Node) (nodes : list ptr) : result (list ptr) :=
  match fuel with
  | O => Panic out_of_fuel
  | S fuel' =>
      if decide (p = finalizedNode) then Ok nodes
      else
        n ← deref h p;
        nodes ← foldM (fun nodes child => prunableNodes fuel' child finalizedNode h nodes) nodes (children n);
        Ok (nodes ++ [p])
  end.
End Nodes.

Definition heap_fuel (s : Store) : nat := S (size (heap s)).

(** ** The store *)

(** A read-only block: what the store reads of it. *)
Record ROBlock := mkROBlock {
  blockRoot : list Z;
  blockSlot : Z;
  blockParentRoot : list Z;
  blockExecution : result (list Z)   (* the block hash of the payload *)
}.

Section Store.
Context (cfg : BeaconChainConfig) (now : Z).

(** *** Proposer boost *)

Definition expireProposerBoost (sl : Z) (s : Store) : Store :=
  match nodeByRoot s !! proposerBoostRoot s ≫= (heap s !!.) with
  | Some n => if slot n <? sl then set_proposerBoostRoot ZeroHash s else s
  | None => set_proposerBoostRoot ZeroHash s
  end.

(** *** Unrealized checkpoints *)

Definition preferUnrealizedCheckpoint (best previous : Checkpoint) (epoch : Z) (r : list Z) : Checkpoint :=
  if epoch <? Epoch_ best then best
  else if (epoch =? Epoch_ best) &&
          (bool_decide (Root best = Root previous) ||
           (negb (bool_decide (r = Root previous)) && negb (bool_decide (bytes_Compare r (Root best) = Gt))))
  then best
  else mkCheckpoint epoch r.

(** The candidates among the given nodes, from blocks before [epoch]. *)
Definition justified_before (s : Store) (epoch : Z) (jc : Checkpoint) (n : Node) : result Checkpoint :=
  e ← ToEpoch cfg (slot n);
  if epoch <=? e then Ok jc
  else if (Epoch_ (justifiedCheckpoint s) <? unrealizedJustifiedEpoch n) &&
          (unrealizedJustifiedEpoch n <=? Epoch_ (unrealizedJustifiedCheckpoint s))
  then Ok (preferUnrealizedCheckpoint jc (unrealizedJustifiedCheckpoint s) (unrealizedJustifiedEpoch n) (unrealizedJustifiedRoot n))
  else Ok jc.

Definition finalized_before (s : Store) (epoch : Z) (fc : Checkpoint) (n : Node) : result Checkpoint :=
  e ← ToEpoch cfg (slot n);
  if epoch <=? e then Ok fc
  else if (Epoch_ (finalizedCheckpoint s) <? unrealizedFinalizedEpoch n) &&
          (unrealizedFinalizedEpoch n <=? Epoch_ (unrealizedFinalizedCheckpoint s))
  then Ok (preferUnrealizedCheckpoint fc (unrealizedFinalizedCheckpoint s) (unrealizedFinalizedEpoch n) (unrealizedFinalizedRoot n))
  else Ok fc.

(** The loop over the index, in the order [nodes]; the two candidates are
    selected independently. *)
Definition unrealizedCheckpointsBefore_in (nodes : list Node) (s : Store) (epoch : Z) : result (Checkpoint * Checkpoint) :=
  jc ← foldM (justified_before s epoch) (justifiedCheckpoint s) nodes;
  fc ← foldM (finalized_before s epoch) (finalizedCheckpoint s) nodes;
  Ok (jc, fc).

Definition unrealizedCheckpointsBefore (s : Store) (epoch : Z) : result (Checkpoint * Checkpoint) :=
  unrealizedCheckpointsBefore_in (indexed_nodes s) s epoch.

Definition advanceUnrealizedCheckpoints (jc fc : Checkpoint) (s : Store) : Store :=
  let s := if Epoch_ (unrealizedJustifiedCheckpoint s) <? Epoch_ jc
           then set_unrealizedJustifiedCheckpoint (mkCheckpoint (Epoch_ jc) (ToBytes32 (Root jc))) s else s in
  if Epoch_ (unrealizedFinalizedCheckpoint s) <? Epoch_ fc
  then set_unrealizedFinalizedCheckpoint (mkCheckpoint (Epoch_ fc) (ToBytes32 (Root fc))) s else s.

Definition survivingUnrealizedCheckpoint (s : Store) (best previous : Checkpoint) (epoch : Z) (r : list Z) : Checkpoint :=
  match nodeByRoot s !! r with
  | None => best
  | Some _ => preferUnrealizedCheckpoint best previous epoch r
  end.

Definition recomputeUnrealizedCheckpoints_in (nodes : list Node) (s : Store) : Store :=
  let jc := fold_left (fun jc n =>
    if Epoch_ (justifiedCheckpoint s) <? unrealizedJustifiedEpoch n
    then survivingUnrealizedCheckpoint s jc (unrealizedJustifiedCheckpoint s) (unrealizedJustifiedEpoch n) (unrealizedJustifiedRoot n)
    else jc) nodes (justifiedCheckpoint s) in
  let fc := fold_left (fun fc n =>
    if Epoch_ (finalizedCheckpoint s) <? unrealizedFinalizedEpoch n
    then survivingUnrealizedCheckpoint s fc (unrealizedFinalizedCheckpoint s) (unrealizedFinalizedEpoch n) (unrealizedFinalizedRoot n)
    else fc) nodes (finalizedCheckpoint s) in
  set_unrealizedFinalizedCheckpoint fc (set_unrealizedJustifiedCheckpoint jc s).

Definition recomputeUnrealizedCheckpoints (s : Store) : Store := recomputeUnrealizedCheckpoints_in (indexed_nodes s) s.

Definition setUnrealizedJustifiedEpoch (r : list Z) (epoch : Z) : ST Store unit :=
  s ← get;
  match nodeByRoot s !! r with
  | None => throw (Wrapped "could not set unrealized justified epoch" ErrNilNode)
  | Some p =>
      n ← liftR (deref (heap s) p);
      if epoch <? unrealizedJustifiedEpoch n then throw errInvalidUnrealizedJustifiedEpoch
      else update_node p (set_unrealizedJustifiedEpoch epoch)
  end.

Definition setUnrealizedFinalizedEpoch (r : list Z) (epoch : Z) : ST Store unit :=
  s ← get;
  match nodeByRoot s !! r with
  | None => throw (Wrapped "could not set unrealized finalized epoch" ErrNilNode)
  | Some p =>
      n ← liftR (deref (heap s) p);
      if epoch <? unrealizedFinalizedEpoch n then throw errInvalidUnrealizedFinalizedEpoch
      else update_node p (set_unrealizedFinalizedEpoch epoch)
  end.

(** *** Removal *)

(** The parent's list without the child [p]: the last child takes its place. *)
Definition remove_child (p : ptr) (cs : list ptr) : list ptr :=
  match cs with
  | [_] => []
  | _ => match list_find (fun c => c = p) cs with
         | Some (i, _) => match last cs with
                          | Some l => take (length cs - 1) (<[i := l]> cs)
                          | None => cs
                          end
         | None => cs
         end
  end.

(** Drops a removed node from the indexes and from the boost records. *)
Definition unindex (s : Store) (n : Node) : Store :=
  let s := if bool_decide (root n = proposerBoostRoot s) then set_proposerBoostRoot ZeroHash s else s in
  let s := if bool_decide (root n = previousProposerBoostRoot s)
           then set_previousProposerBoostScore 0 (set_previousProposerBoostRoot ZeroHash s) else s in
  set_nodeByPayload (delete (payloadHash n) (nodeByPayload s)) (set_nodeByRoot (delete (root n) (nodeByRoot s)) s).

Definition removeNode (p : ptr) : ST Store (list (list Z)) :=
  s ← get;
  n ← liftR (deref (heap s) p);
  match parent n with
  | Some q =>
      if negb (optimistic n) then throw errInvalidOptimisticStatus
      else
        nodes ← liftR (subtreeNodes (heap_fuel s) p (heap s) []);
        removed ← liftR (mapM (deref (heap s)) nodes);
        _ ← update_node q (fun m => set_children (remove_child p (children m)) m);
        _ ← modify (fun s => fold_left unindex removed s);
        _ ← modify recomputeUnrealizedCheckpoints;
        mret (map root removed)
  | None => throw errInvalidOptimisticStatus
  end.

(** The node to start the invalidation from; [None] is the early return when the
    parent carries the last valid payload. *)
Definition invalid_start (s : Store) (r parentRoot lastValidHash : list Z) : result (option ptr) :=
  match nodeByRoot s !! r with
  | None =>
      match nodeByRoot s !! parentRoot with
      | None => Err (Wrapped "could not set node to invalid" ErrNilNode)
      | Some p =>
          n ← deref (heap s) p;
          if bool_decide (payloadHash n = lastValidHash) then Ok None else Ok (Some p)
      end
  | Some p =>
      n ← deref (heap s) p;
      match parent n with
      | None => Err errInvalidParentRoot
      | Some q =>
          pn ← deref (heap s) q;
          if bool_decide (root pn = parentRoot) then Ok (Some p) else Err errInvalidParentRoot
      end
  end.

(** The highest ancestor whose parent has the last valid payload.  Without one
    the node itself, or nothing if it was not imported. *)
Definition first_invalid (s : Store) (p : ptr) (parentRoot lastValidHash : list Z) : result (option ptr) :=
  first ← ancestor_until (heap_fuel s) (fun _ n =>
            match parent n ≫= (heap s !!.) with
            | None => true
            | Some q => bool_decide (payloadHash q = lastValidHash)
            end) (Some p) (heap s);
  n ← deref (heap s) p;
  f ← deref_opt (heap s) first;
  match parent f with
  | None => if bool_decide (root n = parentRoot) then Ok None else Ok (Some p)
  | Some _ => Ok first
  end.

Definition setOptimisticToInvalid (r parentRoot lastValidHash : list Z) : ST Store (list (list Z)) :=
  s ← get;
  start ← liftR (invalid_start s r parentRoot lastValidHash);
  match start with
  | None => mret []
  | Some p =>
      firstInvalid ← liftR (first_invalid s p parentRoot lastValidHash);
      match firstInvalid with
      | None => mret []
      | Some firstInvalid =>
          invalidRoots ← removeNode firstInvalid;
          s ← get;
          let justified := match nodeByRoot s !! Root (justifiedCheckpoint s) with
                           | Some j => Some j
                           | None => if Epoch_ (justifiedCheckpoint s) =? GenesisEpoch cfg then treeRootNode s else None
                           end in
          currentEpoch ← liftR (EpochsSinceGenesis cfg now (storeGenesisTime s));
          viable ← match justified with
                   | None => mret false
                   | Some j => liftR (hasViableTip cfg (heap_fuel s) j (Epoch_ (justifiedCheckpoint s)) currentEpoch (heap s))
                   end;
          _ ← modify (set_allTipsAreInvalid (negb viable));
          mret invalidRoots
      end
  end.

(** *** Insertion *)

Definition new_node (roblock : ROBlock) (payload : list Z) (par : option ptr) (jEpoch fEpoch : Z) : Node :=
  {| slot := blockSlot roblock; root := blockRoot roblock; payloadHash := payload; parent := par; children := [];
     justifiedEpoch := jEpoch; unrealizedJustifiedEpoch := jEpoch; unrealizedJustifiedRoot := ZeroHash;
     finalizedEpoch := fEpoch; unrealizedFinalizedEpoch := fEpoch; unrealizedFinalizedRoot := ZeroHash;
     balance := 0; weight := 0; bestDescendant := None; optimistic := true; timestamp := now |}.

Definition allocate (n : Node) : ST Store ptr :=
  s ← get;
  _ ← modify (fun s => set_nextPtr (S (nextPtr s)) (set_heap (<[nextPtr s := n]> (heap s)) s));
  mret (nextPtr s).

(** The boost of a block that arrives early in its slot, and the best
    descendants after its insertion below a parent. *)
Definition boost_and_update (r : list Z) (sl : Z) : ST Store unit :=
  s ← get;
  if now <? storeGenesisTime s then mret tt
  else
    secondsIntoSlot ← liftR (umod (now -u storeGenesisTime s) (SecondsPerSlot cfg));
    currentSlot ← liftR (CurrentSlot cfg now (storeGenesisTime s));
    boostThreshold ← liftR (udiv (SecondsPerSlot cfg) (IntervalsPerSlot cfg));
    _ ← modify (expireProposerBoost currentSlot);
    s ← get;
    _ ← (if (currentSlot =? sl) && (secondsIntoSlot <? boostThreshold) && bool_decide (proposerBoostRoot s = ZeroHash)
         then modify (set_proposerBoostRoot r) else mret tt);
    s ← get;
    currentEpoch ← liftR (ToEpoch cfg currentSlot);
    match treeRootNode s with
    | None => liftR (Panic nil_pointer)
    | Some t =>
        h ← liftR (updateBestDescendant cfg (heap_fuel s) t (Epoch_ (justifiedCheckpoint s)) currentEpoch (heap s));
        modify (set_heap h)
    end.

(** The bookkeeping of received blocks at the end of an insertion. *)
Definition track_received (p : ptr) (sl : Z) : ST Store unit :=
  s ← get;
  currentSlot ← liftR (CurrentSlot cfg now (storeGenesisTime s));
  _ ← (if currentSlot <? sl +u SlotsPerEpoch cfg then
         i ← liftR (umod sl (SlotsPerEpoch cfg));
         l ← liftR (idx_set (receivedBlocksLastEpoch s) i sl);
         modify (set_receivedBlocksLastEpoch l)
       else mret tt);
  high ← liftR (deref_opt (heap s) (highestReceivedNode s));
  if slot high <? sl then modify (set_highestReceivedNode (Some p)) else mret tt.

(** [Store.insert].  A block before genesis is inserted without boost and
    bookkeeping. *)
Definition Store_insert (roblock : ROBlock) (jEpoch fEpoch : Z) : ST Store ptr :=
  execution ← liftR (blockExecution roblock);
  let r := blockRoot roblock in
  let payload := ToBytes32 execution in
  s ← get;
  match nodeByRoot s !! r with
  | Some p => mret p
  | None =>
      let par := nodeByRoot s !! blockParentRoot roblock in
      p ← allocate (new_node roblock payload par jEpoch fEpoch);
      _ ← modify (fun s => set_nodeByRoot (<[r := p]> (nodeByRoot s)) (set_nodeByPayload (<[payload := p]> (nodeByPayload s)) s));
      match par with
      | None =>
          match treeRootNode s with
          | None =>
              _ ← modify (fun s => set_highestReceivedNode (Some p) (set_headNode (Some p) (set_treeRootNode (Some p) s)));
              _ ← track_received p (blockSlot roblock);
              mret p
          | Some _ =>
              _ ← modify (fun s => set_nodeByPayload (delete payload (nodeByPayload s)) (set_nodeByRoot (delete r (nodeByRoot s)) s));
              throw errInvalidParentRoot
          end
      | Some q =>
          _ ← update_node q (fun m => set_children (children m ++ [p]) m);
          _ ← boost_and_update r (blockSlot roblock);
          _ ← (if now <? storeGenesisTime s then mret tt else track_received p (blockSlot roblock));
          mret p
      end
  end.

(** *** Pruning *)

Record pruningPlan := mkPlan { planFinalized : ptr; planRemoved : list ptr; planChildren : list ptr }.

(** Whether a child of the finalized node competes with the checkpoint. *)
Definition incompatible (s : Store) (maxSlot finSlot : Z) (c : ptr) : result bool :=
  n ← deref (heap s) c;
  Ok (negb (finSlot =? maxSlot) && (slot n <=? maxSlot)).

(** One child of the finalized node: its subtree is removed, or it is kept. *)
Definition prune_child (s : Store) (maxSlot finSlot : Z) (acc : list ptr * list ptr) (c : ptr) : result (list ptr * list ptr) :=
  bad ← incompatible s maxSlot finSlot c;
  if bad : bool then
    removed ← wrap "could not prune incompatible finalized child" (subtreeNodes (heap_fuel s) c (heap s) acc.1);
    Ok (removed, acc.2)
  else Ok (acc.1, acc.2 ++ [c]).

Definition preparePrune (checkpoint : Checkpoint) (s : Store) : result pruningPlan :=
  let fin := match nodeByRoot s !! Root checkpoint with
             | Some p => Some p
             | None =>
                 match treeRootNode s ≫= (heap s !!.) with
                 | Some t => if (Epoch_ checkpoint =? GenesisEpoch cfg) && bool_decide (Root checkpoint = ZeroHash) && (slot t =? 0)
                             then treeRootNode s else None
                 | None => None
                 end
             end in
  match fin with
  | None => Err (Wrapped "unknown root" errUnknownFinalizedRoot)
  | Some f =>
      checkpointMaxSlot ← wrap "could not compute epoch start" (EpochStart cfg (Epoch_ checkpoint));
      fn ← deref (heap s) f;
      removed ← match parent fn with
                | None => Ok []
                | Some _ => match treeRootNode s with
                            | Some t => prunableNodes (heap_fuel s) t f (heap s) []
                            | None => Panic nil_pointer
                            end
                end;
      foldM (prune_child s checkpointMaxSlot (slot fn)) (removed, []) (children fn) ≫= fun r : list ptr * list ptr =>
      Ok (mkPlan f r.1 r.2)
  end.

(** Unlinks one removed node and drops it from the indexes. *)
Definition prune_node (s : Store) (p : ptr) : result Store :=
  n ← deref (heap s) p;
  Ok (set_nodeByPayload (delete (payloadHash n) (nodeByPayload s))
       (set_nodeByRoot (delete (root n) (nodeByRoot s))
         (set_heap (alter (set_children []) p (heap s)) s))).

Definition applyPrune (plan : pruningPlan) (s : Store) : result Store :=
  s ← foldM prune_node s (planRemoved plan);
  fn ← deref (heap s) (planFinalized plan);
  let h := alter (fun n => set_children (planChildren plan) (set_parent None n)) (planFinalized plan) (heap s) in
  Ok (set_finalizedPayloadBlockHash (payloadHash fn) (set_treeRootNode (Some (planFinalized plan)) (set_heap h s))).

(** [Store.prune]. *)
Definition Store_prune : ST Store unit :=
  s ← get;
  plan ← liftR (preparePrune (finalizedCheckpoint s) s);
  s ← liftR (applyPrune plan s);
  modify (fun _ => s).

(** *** Head *)

Definition justified_node (s : Store) : result ptr :=
  match nodeByRoot s !! Root (justifiedCheckpoint s) with
  | Some p => Ok p
  | None =>
      if Epoch_ (justifiedCheckpoint s) =? GenesisEpoch cfg
      then match treeRootNode s with Some p => Ok p | None => Panic nil_pointer end
      else Err (Wrapped "unknown root" errUnknownJustifiedRoot)
  end.

(** [Store.head]. *)
Definition Store_head : ST Store (list Z) :=
  s ← get;
  j ← liftR (justified_node s);
  jn ← liftR (deref (heap s) j);
  let best := default j (bestDescendant jn) in
  bn ← liftR (deref (heap s) best);
  currentEpoch ← liftR (EpochsSinceGenesis cfg now (storeGenesisTime s));
  viable ← (if decide (best = j) then mret true else liftR (viableForHead cfg bn (Epoch_ (justifiedCheckpoint s)) currentEpoch));
  if negb viable then
    _ ← modify (set_allTipsAreInvalid true);
    throw (New "head is not eligible")
  else
    tip ← liftR (leadsToViableTip cfg (heap s) jn (Epoch_ (justifiedCheckpoint s)) currentEpoch);
    _ ← (if tip : bool then modify (set_allTipsAreInvalid false) else mret tt);
    _ ← modify (set_headNode (Some best));
    mret (root bn).

Definition HighestReceivedBlockRoot (s : Store) : result (list Z) :=
  match highestReceivedNode s with None => Ok ZeroHash | Some p => n ← deref (heap s) p; Ok (root n) end.

Definition HighestReceivedBlockSlot (s : Store) : result Z :=
  match highestReceivedNode s with None => Ok 0 | Some p => n ← deref (heap s) p; Ok (slot n) end.

Definition ReceivedBlocksLastEpoch (fp : FieldParams) (s : Store) : result Z :=
  currentSlot ← CurrentSlot cfg now (storeGenesisTime s);
  lowerBound ← (if fp_SlotsPerEpoch fp <? currentSlot then Slot.SafeSub currentSlot (fp_SlotsPerEpoch fp) else Ok currentSlot);
  Ok (countb (fun sl => negb (sl =? 0) && (lowerBound <=? sl)) (receivedBlocksLastEpoch s)).
End Store.

(** ** The fork choice *)

(** What [BalancesByRooter] returns: balances by validator index and the total
    active balance. *)
Record JustifiedBalances := mkJustifiedBalances { Balances : list Z; TotalActiveBalance_ : Z }.

Definition zeroCheckpoint : Checkpoint := mkCheckpoint 0 ZeroHash.

Section ForkChoice.
Context (cfg : BeaconChainConfig) (fp : FieldParams) {B : Bitfield} (now : Z).
(** The handler set by [SetBalancesByRooter]; [Ok None] is a nil result. *)
Context (balancesByRoot : Checkpoint -> result (option JustifiedBalances)).

(** [New]. *)
Definition New_forkchoice : ForkChoice :=
  {| store :=
       {| justifiedCheckpoint := zeroCheckpoint; unrealizedJustifiedCheckpoint := zeroCheckpoint;
          unrealizedFinalizedCheckpoint := zeroCheckpoint; prevJustifiedCheckpoint := zeroCheckpoint;
          finalizedCheckpoint := zeroCheckpoint; proposerBoostRoot := ZeroHash; previousProposerBoostRoot := ZeroHash;
          previousProposerBoostScore := 0; finalizedPayloadBlockHash := ZeroHash; committeeWeight := 0;
          treeRootNode := None; headNode := None; nodeByRoot := ∅; nodeByPayload := ∅; slashedIndices := ∅;
          originRoot := ZeroHash; storeGenesisTime := 0; highestReceivedNode := None;
          receivedBlocksLastEpoch := zeros (Z.to_nat (fp_SlotsPerEpoch fp)); allTipsAreInvalid := false;
          heap := ∅; nextPtr := O |};
     votes := []; balances := []; justifiedBalances := []; numActiveValidators := 0;
     lastProcessedEpoch := 0; pendingEpoch := None |}.

Definition NodeCount (f : ForkChoice) : Z := Z.of_nat (size (nodeByRoot (store f))).
Definition HasNode (f : ForkChoice) (r : list Z) : bool := bool_decide (is_Some (nodeByRoot (store f) !! r)).

(** *** Votes *)

Definition zeroVote : Vote := mkVote ZeroHash ZeroHash 0.

(** Appends zero votes until [index] is in range. *)
Definition grow_votes (vs : list Vote) (index : Z) : list Vote :=
  vs ++ replicate (Z.to_nat (index + 1 - zlen vs)) zeroVote.

Definition process_vote (r : list Z) (targetEpoch : Z) (vs : list Vote) (index : Z) : list Vote :=
  let vs := grow_votes vs index in
  alter (fun v =>
    let newVote := bool_decide (nextRoot v = ZeroHash) && bool_decide (currentRoot v = ZeroHash) in
    if newVote || (nextEpoch v <? targetEpoch) then mkVote (currentRoot v) r targetEpoch else v)
    (Z.to_nat index) vs.

Definition ProcessAttestation (validatorIndices : list Z) (r : list Z) (targetEpoch : Z) (f : ForkChoice) : ForkChoice :=
  set_votes (fold_left (process_vote r targetEpoch) validatorIndices (votes f)) f.

(** [balances[index]] if the index is in range, 0 otherwise. *)
Definition balance_or_zero (l : list Z) (i : Z) : Z := default 0 (l !! Z.to_nat i).

Definition add_balance (r : list Z) (d : Z) (s : Store) : Store :=
  match nodeByRoot s !! r with
  | Some p => if bool_decide (r = ZeroHash) then s else set_heap (alter (fun n => set_balance (balance n +u d) n) p (heap s)) s
  | None => s
  end.

Definition sub_node_balance (d : Z) (n : Node) : Node :=
  if balance n <? d then set_balance 0 n else set_balance (balance n -u d) n.

Definition sub_balance (r : list Z) (d : Z) (s : Store) : Store :=
  match nodeByRoot s !! r with
  | Some p => if bool_decide (r = ZeroHash) then s else set_heap (alter (sub_node_balance d) p (heap s)) s
  | None => s
  end.

(** One iteration of the loop: the store and the rotated vote. *)
Definition update_vote (old new : list Z) (i : Z) (s : Store) (vote : Vote) : Store * Vote :=
  if decide (i ∈ slashedIndices s) then (s, vote)
  else if bool_decide (currentRoot vote = ZeroHash) && bool_decide (nextRoot vote = ZeroHash) then (s, vote)
  else
    let oldBalance := balance_or_zero old i in
    let newBalance := balance_or_zero new i in
    let s := if negb (bool_decide (currentRoot vote = nextRoot vote)) || negb (oldBalance =? newBalance)
             then sub_balance (currentRoot vote) oldBalance (add_balance (nextRoot vote) newBalance s)
             else s in
    (s, mkVote (nextRoot vote) (nextRoot vote) (nextEpoch vote)).

Fixpoint update_votes (old new : list Z) (i : Z) (s : Store) (vs : list Vote) : Store * list Vote :=
  match vs with
  | [] => (s, [])
  | v :: vs' =>
      let '(s, v) := update_vote old new i s v in
      let '(s, vs') := update_votes old new (i + 1) s vs' in
      (s, v :: vs')
  end.

Definition updateBalances (f : ForkChoice) : ForkChoice :=
  let newBalances := justifiedBalances f in
  let '(s, vs) := update_votes (balances f) newBalances 0 (store f) (votes f) in
  set_balances newBalances (set_votes vs (set_store s f)).

Definition InsertSlashedIndex (index : Z) (f : ForkChoice) : ForkChoice :=
  let s := store f in
  if decide (index ∈ slashedIndices s) then f
  else
    let s := set_slashedIndices ({[index]} ∪ slashedIndices s) s in
    let f := set_store s f in
    if zlen (balances f) <=? index then f
    else if zlen (votes f) <=? index then f
    else
      match votes f !! Z.to_nat index with
      | None => f
      | Some v =>
          match nodeByRoot s !! currentRoot v with
          | None => f
          | Some p => set_store (set_heap (alter (sub_node_balance (balance_or_zero (balances f) index)) p (heap s)) s) f
          end
      end.

(** *** Proposer boost *)

Definition applyProposerBoostScore (s : Store) : Store :=
  let s := if bool_decide (previousProposerBoostRoot s = ZeroHash) then s
           else match nodeByRoot s !! previousProposerBoostRoot s with
                | None => s
                | Some p => set_heap (alter (sub_node_balance (previousProposerBoostScore s)) p (heap s)) s
                end in
  let '(s, proposerScore) :=
    if bool_decide (proposerBoostRoot s = ZeroHash) then (s, 0)
    else match nodeByRoot s !! proposerBoostRoot s with
         | None => (s, 0)
         | Some p =>
             let score := (committeeWeight s *u ProposerScoreBoost cfg) / 100 in
             (set_heap (alter (fun n => set_balance (balance n +u score) n) p (heap s)) s, score)
         end in
  set_previousProposerBoostScore proposerScore (set_previousProposerBoostRoot (proposerBoostRoot s) s).

(** *** Checkpoints *)

Definition updateJustifiedBalances (jc : Checkpoint) : ST ForkChoice unit :=
  jb ← liftR (wrap "could not get justified balances" (balancesByRoot jc));
  match jb with
  | None => throw (New "nil justified balances")
  | Some jb =>
      _ ← modify (fun f => set_numActiveValidators (countb (fun v => 0 <? v) (Balances jb)) (set_justifiedBalances (Balances jb) f));
      w ← liftR (udiv (TotalActiveBalance_ jb) (SlotsPerEpoch cfg));
      on_store (modify (set_committeeWeight w))
  end.

Definition UpdateJustifiedCheckpoint (jc : option Checkpoint) : ST ForkChoice unit :=
  match jc with
  | None => throw errInvalidNilCheckpoint
  | Some jc =>
      _ ← wrapM "could not update justified balances" (updateJustifiedBalances jc);
      on_store (modify (fun s => set_justifiedCheckpoint jc (set_prevJustifiedCheckpoint (justifiedCheckpoint s) s)))
  end.

Definition UpdateFinalizedCheckpoint (fc : option Checkpoint) : ST ForkChoice unit :=
  match fc with
  | None => throw errInvalidNilCheckpoint
  | Some fc =>
      on_store (modify (fun s =>
        let s := set_finalizedCheckpoint fc s in
        match nodeByRoot s !! Root fc ≫= (heap s !!.) with
        | Some n => set_finalizedPayloadBlockHash (payloadHash n) s
        | None => s
        end))
  end.

Definition updateCheckpoints (jc fc : Checkpoint) : ST ForkChoice unit :=
  f ← get;
  plan ← (if Epoch_ (finalizedCheckpoint (store f)) <? Epoch_ fc then
            let finalized := mkCheckpoint (Epoch_ fc) (ToBytes32 (Root fc)) in
            plan ← liftR (preparePrune cfg finalized (store f));
            mret (Some (plan, finalized))
          else mret None);
  _ ← (if Epoch_ (justifiedCheckpoint (store f)) <? Epoch_ jc
       then UpdateJustifiedCheckpoint (Some (mkCheckpoint (Epoch_ jc) (ToBytes32 (Root jc)))) else mret tt);
  match plan with
  | None => mret tt
  | Some (plan, finalized) =>
      f ← get;
      s ← liftR (applyPrune plan (set_finalizedCheckpoint finalized (store f)));
      modify (set_store s)
  end.

(** [Store.pullTips]: the checkpoints of the block's state pulled up to the
    next epoch, with those of the state as a fallback. *)
Definition pullTips (st : BeaconState) (p : ptr) (jc fc : Checkpoint) : ST Store (Checkpoint * Checkpoint) :=
  s ← get;
  n ← liftR (deref (heap s) p);
  match parent n with
  | None =>
      _ ← update_node p (fun n => set_unrealizedFinalizedRoot (ToBytes32 (Root fc)) (set_unrealizedJustifiedRoot (ToBytes32 (Root jc)) n));
      mret (jc, fc)
  | Some _ =>
      currentSlot ← liftR (CurrentSlot cfg now (storeGenesisTime s));
      currentEpoch ← liftR (ToEpoch cfg currentSlot);
      stateEpoch ← liftR (ToEpoch cfg (State.slot st));
      u ← match UnrealizedCheckpoints cfg st with
          | Ok u => mret u
          | Err _ => mret (jc, fc)
          | Panic m => liftR (Panic m)
          end;
      let '(uj, uf) := u : Checkpoint * Checkpoint in
      _ ← modify (advanceUnrealizedCheckpoints uj uf);
      _ ← update_node p (fun n =>
            set_unrealizedFinalizedRoot (ToBytes32 (Root uf)) (set_unrealizedJustifiedRoot (ToBytes32 (Root uj))
              (set_unrealizedFinalizedEpoch (Epoch_ uf) (set_unrealizedJustifiedEpoch (Epoch_ uj) n))));
      if stateEpoch <? currentEpoch then
        _ ← update_node p (fun n => set_finalizedEpoch (Epoch_ uf) (set_justifiedEpoch (Epoch_ uj) n));
        mret (uj, uf)
      else mret (jc, fc)
  end.

(** [InsertNode]: a failed checkpoint update removes the new node again.  The checkpoints of
    a state are never nil. *)
Definition InsertNode (st : BeaconState) (roblock : ROBlock) : ST ForkChoice unit :=
  let jc := currentJustifiedCheckpoint st in
  let fc := State.finalizedCheckpoint st in
  p ← on_store (Store_insert cfg now roblock (Epoch_ jc) (Epoch_ fc));
  c ← on_store (pullTips st p jc fc);
  r ← try_ (updateCheckpoints c.1 c.2);
  match r with
  | Ok _ => mret tt
  | Err e =>
      _ ← try_ (on_store (removeNode p));
      throw (Wrapped "could not update checkpoints" e)
  | Panic m => liftR (Panic m)
  end.

Definition checkpointRootsKnown (jc fc : Checkpoint) (f : ForkChoice) : result unit :=
  if (Epoch_ (justifiedCheckpoint (store f)) <? Epoch_ jc) && negb (HasNode f (ToBytes32 (Root jc)))
  then Err (Wrapped "unknown root" errUnknownJustifiedRoot)
  else if (Epoch_ (finalizedCheckpoint (store f)) <? Epoch_ fc) && negb (HasNode f (ToBytes32 (Root fc)))
  then Err (Wrapped "unknown root" errUnknownFinalizedRoot)
  else Ok tt.

(** *** Epoch ticks *)

(** Realizes the checkpoints of the node [p] if its block is before [epoch]. *)
Definition realize_node (epoch : Z) (h : gmap ptr Node) (p : ptr) : result (gmap ptr Node) :=
  n ← deref h p;
  e ← ToEpoch cfg (slot n);
  if e <? epoch
  then Ok (alter (fun n => set_finalizedEpoch (unrealizedFinalizedEpoch n) (set_justifiedEpoch (unrealizedJustifiedEpoch n) n)) p h)
  else Ok h.

Definition updateUnrealizedCheckpoints (epoch : Z) : ST ForkChoice unit :=
  f ← get;
  c ← liftR (unrealizedCheckpointsBefore cfg (store f) epoch);
  let '(jc, fc) := c : Checkpoint * Checkpoint in
  _ ← (if Epoch_ (justifiedCheckpoint (store f)) <? Epoch_ jc then UpdateJustifiedCheckpoint (Some jc) else mret tt);
  _ ← on_store (modify (set_finalizedCheckpoint fc));
  f ← get;
  h ← liftR (foldM (realize_node epoch) (heap (store f)) (indexed (store f)));
  on_store (modify (set_heap h)).

Definition NewSlot (sl : Z) : ST ForkChoice unit :=
  _ ← on_store (modify (expireProposerBoost sl));
  epoch ← liftR (ToEpoch cfg sl);
  f ← get;
  if epoch <=? lastProcessedEpoch f then mret tt
  else
    let pending := match pendingEpoch f with Some e => if e <? epoch then epoch else e | None => epoch end in
    _ ← modify (set_pendingEpoch (Some pending));
    if epoch <? pending then mret tt
    else
      c ← liftR (unrealizedCheckpointsBefore cfg (store f) pending);
      plan ← liftR (preparePrune cfg c.2 (store f));
      _ ← wrapM "could not update unrealized checkpoints" (updateUnrealizedCheckpoints pending);
      f ← get;
      s ← liftR (applyPrune plan (store f));
      modify (fun f => set_pendingEpoch None (set_lastProcessedEpoch pending (set_store s f))).

(** *** Head *)

(** The second half of [Head]: weights, best descendants and the walk from the
    justified checkpoint. *)
Definition select_head (currentSlot : Z) : ST ForkChoice (list Z) :=
  f ← get;
  match treeRootNode (store f) with
  | None => liftR (Panic nil_pointer)
  | Some t =>
      h ← liftR (applyWeightChanges (heap_fuel (store f)) t (heap (store f)));
      _ ← on_store (modify (set_heap h));
      currentEpoch ← liftR (ToEpoch cfg currentSlot);
      f ← get;
      h ← liftR (updateBestDescendant cfg (heap_fuel (store f)) t (Epoch_ (justifiedCheckpoint (store f))) currentEpoch
                   (heap (store f)));
      _ ← on_store (modify (set_heap h));
      on_store (Store_head cfg now)
  end.

Definition Head : ST ForkChoice (list Z) :=
  f ← get;
  currentSlot ← liftR (CurrentSlot cfg now (storeGenesisTime (store f)));
  _ ← wrapM "could not process new slot" (NewSlot currentSlot);
  _ ← modify updateBalances;
  _ ← on_store (modify (applyProposerBoostScore));
  select_head currentSlot.

(** *** Queries *)

Definition IsCanonical (f : ForkChoice) (r : list Z) : result bool :=
  let s := store f in
  match nodeByRoot s !! r with
  | None => Ok false
  | Some p =>
      n ← deref (heap s) p;
      a ← ancestor_until (heap_fuel s) (fun q m => bool_decide (q = p) || (slot m <? slot n)) (headNode s) (heap s);
      Ok (bool_decide (a = Some p))
  end.

Definition IsOptimistic (f : ForkChoice) (r : list Z) : result bool :=
  let s := store f in
  if allTipsAreInvalid s then Ok true
  else match nodeByRoot s !! r with
       | None => Err ErrNilNode
       | Some p => n ← deref (heap s) p; Ok (optimistic n)
       end.

Definition AncestorRoot (f : ForkChoice) (r : list Z) (sl : Z) : result (list Z) :=
  let s := store f in
  match nodeByRoot s !! r with
  | None => Err (Wrapped "could not determine ancestor root" ErrNilNode)
  | Some p =>
      a ← ancestor_until (heap_fuel s) (fun _ m => slot m <=? sl) (Some p) (heap s);
      match a with
      | None => Err (Wrapped "could not determine ancestor root" ErrNilNode)
      | Some q => m ← deref (heap s) q; Ok (root m)
      end
  end.

(** [DisableLastEpochTargets] is the feature flag of that name. *)
Definition IsViableForCheckpoint (DisableLastEpochTargets : bool) (f : ForkChoice) (cp : Checkpoint) : result bool :=
  let s := store f in
  match nodeByRoot s !! Root cp with
  | None => Ok false
  | Some p =>
      n ← deref (heap s) p;
      epochStart ← EpochStart cfg (Epoch_ cp);
      if epochStart <? slot n then Ok false
      else if bool_decide (children n = []) then Ok true
      else if slot n =? epochStart then Ok true
      else
        nodeEpoch ← ToEpoch cfg (slot n);
        if negb DisableLastEpochTargets && (nodeEpoch +u 1 =? Epoch_ cp) then Ok true
        else foldM (fun found c => m ← deref (heap s) c; Ok (found || (epochStart <? slot m))) false (children n)
  end.

Definition SetOptimisticToValid (r : list Z) : ST ForkChoice unit :=
  f ← get;
  match nodeByRoot (store f) !! r with
  | None => throw (Wrapped "could not set node to valid" ErrNilNode)
  | Some p =>
      h ← liftR (setNodeAndParentValidated (heap_fuel (store f)) p (heap (store f)));
      on_store (modify (set_heap h))
  end.

Definition SetOptimisticToInvalid (r parentRoot payloadHash : list Z) : ST ForkChoice (list (list Z)) :=
  on_store (setOptimisticToInvalid cfg now r parentRoot payloadHash).

(** The meeting point of two ancestor walks, the higher slot stepping first. *)
Fixpoint common_ancestor (fuel : nat) (h : gmap ptr Node) (p1 p2 : ptr) : result (list Z * Z) :=
  match fuel with
  | O => Panic out_of_fuel
  | S fuel' =>
      n1 ← deref h p1;
      n2 ← deref h p2;
      let next := if slot n2 <? slot n1 then (parent n1, Some p2) else (Some p1, parent n2) in
      match next with
      | (Some q1, Some q2) =>
          if decide (q1 = q2) then n ← deref h q1; Ok (root n, slot n) else common_ancestor fuel' h q1 q2
      | _ => Err (New "unknown common ancestor")
      end
  end.

Definition CommonAncestor (f : ForkChoice) (r1 r2 : list Z) : result (list Z * Z) :=
  let s := store f in
  match nodeByRoot s !! r1 with
  | None => Err (New "unknown common ancestor")
  | Some p1 =>
      if decide (r1 = r2) then n1 ← deref (heap s) p1; Ok (r1, slot n1)
      else match nodeByRoot s !! r2 with
      | None => Err (New "unknown common ancestor")
      | Some p2 => common_ancestor (2 * heap_fuel s) (heap s) p1 p2
      end
  end.

Definition TargetRootForEpoch (f : ForkChoice) (r : list Z) (epoch : Z) : result (list Z) :=
  let s := store f in
  match nodeByRoot s !! r with
  | None => Err ErrNilNode
  | Some p =>
      n ← deref (heap s) p;
      e ← ToEpoch cfg (slot n);
      if e <? epoch then Ok (root n)
      else
        epochStart ← EpochStart cfg epoch;
        a ← ancestor_until (heap_fuel s) (fun _ m => slot m <=? epochStart) (Some p) (heap s);
        match a with
        | None => Err ErrNilNode
        | Some q => m ← deref (heap s) q; Ok (root m)
        end
  end.

Definition LastRoot (f : ForkChoice) (epoch : Z) : result (list Z) :=
  let s := store f in
  hd ← deref_opt (heap s) (headNode s);
  headEpoch ← ToEpoch cfg (slot hd);
  match EpochEnd cfg epoch with
  | Ok epochEnd =>
      if headEpoch <=? epoch then Ok (root hd)
      else
        a ← ancestor_until (heap_fuel s) (fun _ m => slot m <=? epochEnd) (headNode s) (heap s);
        match a with None => Ok ZeroHash | Some q => m ← deref (heap s) q; Ok (root m) end
  | Err _ => Ok ZeroHash
  | Panic m => Panic m
  end.

Definition SetGenesisTime (genesisTime : Z) (f : ForkChoice) : ForkChoice := set_store (set_storeGenesisTime genesisTime (store f)) f.
Definition SetOriginRoot (r : list Z) (f : ForkChoice) : ForkChoice := set_store (set_originRoot r (store f)) f.

(** The roots and slots of the leaves. *)
Definition tips (s : Store) : result (list (list Z * Z)) :=
  foldM (fun acc (rp : list Z * ptr) => n ← deref (heap s) rp.2; Ok (if bool_decide (children n = []) then acc ++ [(rp.1, slot n)] else acc))
    [] (map_to_list (nodeByRoot s)).

Definition CachedHeadRoot (f : ForkChoice) : result (list Z) :=
  match headNode (store f) with None => Ok ZeroHash | Some p => n ← deref (heap (store f)) p; Ok (root n) end.

Definition Weight (f : ForkChoice) (r : list Z) : result Z :=
  match nodeByRoot (store f) !! r with None => Err ErrNilNode | Some p => n ← deref (heap (store f)) p; Ok (weight n) end.

Definition NodeSlot (f : ForkChoice) (r : list Z) : result Z :=
  match nodeByRoot (store f) !! r with None => Err ErrNilNode | Some p => n ← deref (heap (store f)) p; Ok (slot n) end.

Definition payload_of (f : ForkChoice) (r : list Z) : result (list Z) :=
  match nodeByRoot (store f) !! r with None => Ok ZeroHash | Some p => n ← deref (heap (store f)) p; Ok (payloadHash n) end.

Definition JustifiedPayloadBlockHash (f : ForkChoice) : result (list Z) := payload_of f (Root (justifiedCheckpoint (store f))).
Definition UnrealizedJustifiedPayloadBlockHash (f : ForkChoice) : result (list Z) :=
  payload_of f (Root (unrealizedJustifiedCheckpoint (store f))).

(** *** Batches *)

Record BlockAndCheckpoints := mkBlockAndCheckpoints {
  bcp_Block : ROBlock;
  bcp_JustifiedCheckpoint : option Checkpoint;
  bcp_FinalizedCheckpoint : option Checkpoint;
  bcp_UnrealizedJustifiedCheckpoint : option Checkpoint;
  bcp_UnrealizedFinalizedCheckpoint : option Checkpoint
}.

(** The variables of the loop of [InsertChain]. *)
Record Staged := mkStaged {
  staged_node : option ptr;
  staged_jc : option Checkpoint; staged_fc : option Checkpoint;
  staged_ujc : option Checkpoint; staged_ufc : option Checkpoint;
  staged_err : result unit
}.

Definition nothing_staged : Staged := mkStaged None None None None None (Ok tt).

Definition later (best : option Checkpoint) (c : Checkpoint) : Checkpoint :=
  match best with Some b => if Epoch_ b <? Epoch_ c then c else b | None => c end.

(** One block of the chain.  An error is a value, so that the caller can roll
    back what is staged at that point. *)
Definition insert_staged (currentEpoch : Z) (g : Staged) (bcp : BlockAndCheckpoints) : ST ForkChoice (Staged * result unit) :=
  match bcp_JustifiedCheckpoint bcp, bcp_FinalizedCheckpoint bcp with
  | Some jc0, Some fc0 =>
      let uj := default jc0 (bcp_UnrealizedJustifiedCheckpoint bcp) in
      let uf := default fc0 (bcp_UnrealizedFinalizedCheckpoint bcp) in
      blockEpoch ← liftR (ToEpoch cfg (blockSlot (bcp_Block bcp)));
      let '(blockJC, blockFC) := if blockEpoch <? currentEpoch then (uj, uf) else (jc0, fc0) in
      f ← get;
      let alreadyKnown := HasNode f (blockRoot (bcp_Block bcp)) in
      r ← try_ (on_store (Store_insert cfg now (bcp_Block bcp) (Epoch_ blockJC) (Epoch_ blockFC)));
      match r with
      | Ok p =>
          _ ← (if alreadyKnown then mret tt
               else on_store (update_node p (fun n =>
                 set_unrealizedFinalizedRoot (ToBytes32 (Root uf)) (set_unrealizedJustifiedRoot (ToBytes32 (Root uj))
                   (set_unrealizedFinalizedEpoch (Epoch_ uf) (set_unrealizedJustifiedEpoch (Epoch_ uj) n))))));
          let pending := if alreadyKnown then staged_node g else Some (default p (staged_node g)) in
          let jc := later (staged_jc g) blockJC in
          let fc := later (staged_fc g) blockFC in
          let ujc := later (staged_ujc g) uj in
          let ufc := later (staged_ufc g) uf in
          f ← get;
          match checkpointRootsKnown jc fc f, checkpointRootsKnown ujc ufc f with
          | Ok _, Ok _ =>
              u ← try_ (updateCheckpoints jc fc);
              match u with
              | Ok _ =>
                  _ ← on_store (modify (advanceUnrealizedCheckpoints ujc ufc));
                  mret (nothing_staged, Ok tt)
              | e => mret (mkStaged pending (Some jc) (Some fc) (Some ujc) (Some ufc) (Ok tt), e)
              end
          | Ok _, e => mret (mkStaged pending (Some jc) (Some fc) (Some ujc) (Some ufc) e, Ok tt)
          | e, _ => mret (mkStaged pending (Some jc) (Some fc) (Some ujc) (Some ufc) e, Ok tt)
          end
      | Err e => mret (g, Err e)
      | Panic m => liftR (Panic m)
      end
  | _, _ => mret (g, Err errInvalidNilCheckpoint)
  end.

Fixpoint insert_chain (currentEpoch : Z) (g : Staged) (chain : list BlockAndCheckpoints) : ST ForkChoice (Staged * result unit) :=
  match chain with
  | [] => mret (g, staged_err g)
  | b :: chain' =>
      insert_staged currentEpoch g b ≫= fun r : Staged * result unit =>
      match r.2 with
      | Ok _ => insert_chain currentEpoch r.1 chain'
      | e => mret (r.1, e)
      end
  end.

(** [InsertChain]: the deferred function removes what is still staged when the loop returns,
    with or without an error.  That it also runs while a panic unwinds is not modelled. *)
Definition InsertChain (chain : list BlockAndCheckpoints) : ST ForkChoice unit :=
  f ← get;
  currentSlot ← liftR (CurrentSlot cfg now (storeGenesisTime (store f)));
  currentEpoch ← liftR (ToEpoch cfg currentSlot);
  insert_chain currentEpoch nothing_staged chain ≫= fun r : Staged * result unit =>
  _ ← match staged_node r.1 with
      | Some p => _ ← try_ (on_store (removeNode p)); mret tt
      | None => mret tt
      end;
  liftR r.2.

(** *** Late blocks *)

(** The conditions both functions share after their check of the slot: the head
    may be orphaned.  [Ok None] stands for a refusal. *)
Definition orphan_candidate (s : Store) (hd : Node) : result (option Node) :=
  m ← umod (slot hd +u 1) (SlotsPerEpoch cfg);
  if m =? 0 then Ok None
  else match arrivedEarly cfg hd (storeGenesisTime s) with
  | Panic p => Panic p
  | Err _ => Ok None
  | Ok true => Ok None
  | Ok false =>
      e ← ToEpoch cfg (slot hd +u 1);
      if Epoch_ (finalizedCheckpoint s) +u ReorgMaxEpochsSinceFinalization cfg <? e then Ok None
      else match parent hd with
      | None => Ok None
      | Some q =>
          par ← deref (heap s) q;
          if slot par +u 1 <? slot hd then Ok None
          else if negb (unrealizedJustifiedEpoch hd =? unrealizedJustifiedEpoch par) then Ok None
          else if committeeWeight s *u ReorgHeadWeightThreshold cfg <? weight hd *u 100 then Ok None
          else Ok (Some par)
      end
  end.

Definition parent_weak (s : Store) (par : Node) : bool :=
  weight par *u 100 <? committeeWeight s *u ReorgParentWeightThreshold cfg.

Definition ShouldOverrideFCU (f : ForkChoice) : result bool :=
  let s := store f in
  match headNode s with
  | None => Ok false
  | Some p =>
      hd ← deref (heap s) p;
      currentSlot ← CurrentSlot cfg now (storeGenesisTime s);
      if negb (slot hd =? currentSlot) then Ok false
      else
        c ← orphan_candidate s hd;
        match c with
        | None => Ok false
        | Some par =>
            match SecondsSinceSlotStart cfg (slot hd) (storeGenesisTime s) now with
            | Panic m => Panic m
            | Err _ => Ok true
            | Ok secs => if secs <? ProcessAttestationsThreshold then Ok true
                         else Ok (negb (parent_weak s par))
            end
        end
  end.

(** [DisableReorgLateBlocks] is the feature flag of that name. *)
Definition GetProposerHead (DisableReorgLateBlocks : bool) (f : ForkChoice) : result (list Z) :=
  let s := store f in
  if DisableReorgLateBlocks then CachedHeadRoot f
  else match headNode s with
  | None => Ok ZeroHash
  | Some p =>
      hd ← deref (heap s) p;
      currentSlot ← CurrentSlot cfg now (storeGenesisTime s);
      if negb (slot hd +u 1 =? currentSlot) then Ok (root hd)
      else
        c ← orphan_candidate s hd;
        match c with
        | None => Ok (root hd)
        | Some par =>
            if parent_weak s par then Ok (root hd)
            else match SecondsSinceSlotStart cfg (slot hd +u 1) (storeGenesisTime s) now with
                 | Panic m => Panic m
                 | Err _ => Ok (root hd)
                 | Ok secs => if orphanLateBlockProposingEarly <=? secs then Ok (root hd) else Ok (root par)
                 end
        end
  end.
End ForkChoice.
