(* ===== verification/ForkTree.v ===== *)
(** * Block trees in the heap

    The part of the heap reachable from a node through its children is related
    to a rose tree of pointers.  The traversals of [node.go] are total on such
    trees; the weights they compute are subtree sums and the best descendants
    those of the LMD-GHOST rule on the filtered block tree. *)

From S2P Require Import Prelude Math Config Slots Bytes Shuffle State Validators EpochPrecompute ForkStore ForkChoice.

#[local] Set Warnings "-register-all".

Inductive tree := Tree (p : ptr) (kids : list tree).

Definition tptr (t : tree) : ptr := let '(Tree p _) := t in p.
Definition kids (t : tree) : list tree := let '(Tree _ ts) := t in ts.

Fixpoint ptrs (t : tree) : list ptr :=
  match t with Tree p ts => p :: concat (map ptrs ts) end.

Fixpoint height (t : tree) : nat :=
  match t with Tree _ ts => S (foldr Nat.max O (map height ts)) end.

Fixpoint tree_ind' (P : tree -> Prop) (step : forall p ts, Forall P ts -> P (Tree p ts)) (t : tree) : P t :=
  match t with
  | Tree p ts => step p ts ((fix all (ts : list tree) : Forall P ts :=
      match ts with
      | [] => @Forall_nil_2 _ P
      | t :: ts => @Forall_cons_2 _ P t ts (tree_ind' P step t) (all ts)
      end) ts)
  end.

(** The heap [h] holds the tree [t]. *)
Fixpoint rep (h : gmap ptr Node) (t : tree) : Prop :=
  match t with
  | Tree p ts => (exists n, h !! p = Some n /\ children n = map tptr ts) /\ foldr and True (map (rep h) ts)
  end.

Lemma foldr_and_Forall {A} (P : A -> Prop) l : foldr and True (map P l) <-> Forall P l.
Proof.
  induction l as [| a l IH]; cbn; [split; [constructor | trivial] |]. rewrite Forall_cons, IH. reflexivity.
Qed.

Lemma rep_inv h p ts : rep h (Tree p ts) ->
  exists n, h !! p = Some n /\ children n = map tptr ts /\ Forall (rep h) ts.
Proof. cbn. rewrite foldr_and_Forall. intros [(n & E & C) Hf]. eauto. Qed.

Lemma rep_intro h p ts n : h !! p = Some n -> children n = map tptr ts -> Forall (rep h) ts -> rep h (Tree p ts).
Proof. intros. cbn. rewrite foldr_and_Forall. eauto. Qed.

(** [t'] is a subtree of [t]. *)
Inductive subtree : tree -> tree -> Prop :=
| sub_here t : subtree t t
| sub_kid t' k p ts : k ∈ ts -> subtree t' k -> subtree t' (Tree p ts).

Lemma subtree_rep h t' t : subtree t' t -> rep h t -> rep h t'.
Proof.
  induction 1 as [| t' k p ts Hk _ IH]; [trivial |]. intros (n & _ & _ & Hf)%rep_inv. apply IH.
  rewrite Forall_forall in Hf. now apply Hf.
Qed.

Lemma elem_ptrs_kid q p ts k : k ∈ ts -> q ∈ ptrs k -> q ∈ ptrs (Tree p ts).
Proof.
  intros Hk Hq. cbn [ptrs]. apply list_elem_of_further. rewrite list_elem_of_In, in_concat.
  exists (ptrs k). split; [apply in_map | ]; now apply list_elem_of_In.
Qed.

Lemma subtree_ptrs t' t q : subtree t' t -> q ∈ ptrs t' -> q ∈ ptrs t.
Proof. induction 1; [trivial |]. intros. eapply elem_ptrs_kid; eauto. Qed.

Lemma ptrs_subtree t q : q ∈ ptrs t -> exists t', subtree t' t /\ tptr t' = q.
Proof.
  induction t as [p ts IH] using tree_ind'. cbn [ptrs]. intros [-> | Hq]%elem_of_cons; [exists (Tree p ts); split; [constructor | reflexivity] |].
  apply list_elem_of_In, in_concat in Hq as (l & Hl & Hq%list_elem_of_In).
  apply in_map_iff in Hl as (k & <- & Hk%list_elem_of_In).
  rewrite Forall_forall in IH. destruct (IH k Hk Hq) as (t' & Hs & E). exists t'. split; [now apply (sub_kid _ k) | exact E].
Qed.

Lemma elem_tptr t : tptr t ∈ ptrs t.
Proof. destruct t. apply list_elem_of_here. Qed.

(** ** Agreement of heaps *)

Definition agree (P : ptr -> Prop) (h h' : gmap ptr Node) : Prop := forall q, P q -> h !! q = h' !! q.

Lemma rep_agree t : forall h h', agree (.∈ ptrs t) h h' -> rep h t -> rep h' t.
Proof.
  induction t as [p ts IH] using tree_ind'. intros h h' Ha (n & E & C & Hf)%rep_inv.
  apply (rep_intro _ _ _ n); [rewrite <- Ha; [exact E | apply list_elem_of_here] | exact C |].
  rewrite Forall_forall in *. intros k Hk. apply (IH k Hk h); [| now apply Hf].
  intros q Hq. apply Ha. eapply elem_ptrs_kid; eauto.
Qed.

(** Kids of a tree without sharing are disjoint from each other and from the root. *)
Lemma NoDup_kids p ts : NoDup (ptrs (Tree p ts)) -> (p ∉ concat (map ptrs ts)) /\ Forall (fun k => NoDup (ptrs k)) ts.
Proof.
  cbn. intros [Hp Hn]%NoDup_cons. split; [exact Hp |]. clear Hp. induction ts as [| k ts IH]; [constructor |].
  cbn in Hn. apply NoDup_app in Hn as (H1 & _ & H2). constructor; [exact H1 | now apply IH].
Qed.

(** ** Weights *)

Definition node_balance (h : gmap ptr Node) (p : ptr) : Z :=
  match h !! p with Some n => balance n | None => 0 end.

(** The balance that voted for a block or one of its descendants. *)
Fixpoint tsum (h : gmap ptr Node) (t : tree) : Z :=
  match t with Tree p ts => node_balance h p + zsum (map (tsum h) ts) end.

(** [h'] is [h] with the weights of [t] set to the subtree sums. *)
Fixpoint weighed (h h' : gmap ptr Node) (t : tree) : Prop :=
  match t with
  | Tree p ts =>
      h' !! p = set_weight (u64 (tsum h t)) <$> h !! p /\ foldr and True (map (weighed h h') ts)
  end.

Lemma weighed_inv h h' p ts : weighed h h' (Tree p ts) <->
  h' !! p = set_weight (u64 (tsum h (Tree p ts))) <$> h !! p /\ Forall (weighed h h') ts.
Proof. cbn. now rewrite foldr_and_Forall. Qed.

Lemma tsum_agree t : forall h h', agree (.∈ ptrs t) h h' -> tsum h t = tsum h' t.
Proof.
  induction t as [p ts IH] using tree_ind'. intros h h' Ha. cbn [tsum]. f_equal.
  - unfold node_balance. rewrite Ha; [reflexivity | apply list_elem_of_here].
  - f_equal. apply map_ext_in. intros k Hk. apply list_elem_of_In in Hk. rewrite Forall_forall in IH.
    apply (IH k Hk). intros q Hq. apply Ha. eapply elem_ptrs_kid; eauto.
Qed.

Lemma weighed_agree t : forall h1 h1' h2 h2', agree (.∈ ptrs t) h1 h2 -> agree (.∈ ptrs t) h1' h2' ->
  weighed h1 h1' t -> weighed h2 h2' t.
Proof.
  induction t as [p ts IH] using tree_ind'. intros h1 h1' h2 h2' Ha Ha' [E Hf]%weighed_inv. apply weighed_inv. split.
  - rewrite <- Ha', E by apply list_elem_of_here. rewrite <- (Ha p) by apply list_elem_of_here.
    now rewrite (tsum_agree _ h1 h2).
  - rewrite Forall_forall in *. intros k Hk. apply (IH k Hk h1 h1'); [| | now apply Hf];
      intros q Hq; [apply Ha | apply Ha']; eapply elem_ptrs_kid; eauto.
Qed.

(** Roots other than the zero hash, which [applyWeightChanges] skips. *)
Definition proper_roots (h : gmap ptr Node) (t : tree) : Prop :=
  forall q n, q ∈ ptrs t -> h !! q = Some n -> root n <> ZeroHash.

Lemma u64_add_mod a b : u64 (u64 a + u64 b) = u64 (a + b).
Proof. unfold u64. now rewrite <- Z.add_mod. Qed.

(** What one traversal of [t] promises. *)
Definition weighs (fuel : nat) (t : tree) : Prop := forall h,
  rep h t -> NoDup (ptrs t) -> proper_roots h t ->
  exists h', applyWeightChanges fuel (tptr t) h = Ok h' /\ weighed h h' t /\ agree (.∉ ptrs t) h h'.

(** The body of the loop over the children. *)
Definition weigh_step (fuel : nat) (acc : gmap ptr Node * Z) (child : ptr) : result (gmap ptr Node * Z) :=
  h' ← applyWeightChanges fuel child acc.1;
  c ← deref h' child;
  Ok (h', acc.2 +u weight c).

Lemma deref_ok (h : gmap ptr Node) p n : h !! p = Some n -> deref h p = Ok n.
Proof. intros E. unfold deref. now rewrite E. Qed.

Lemma weigh_step_ok fuel h w k h' n : applyWeightChanges fuel k h = Ok h' -> h' !! k = Some n ->
  weigh_step fuel (h, w) k = Ok (h', w +u weight n).
Proof. intros E En. unfold weigh_step. cbn [fst snd]. rewrite E. cbn [mbind result_bind]. unfold deref. now rewrite En. Qed.

Lemma weigh_kids fuel ts : Forall (weighs fuel) ts -> forall h w, Forall (rep h) ts -> NoDup (concat (map ptrs ts)) ->
  (forall k, k ∈ ts -> proper_roots h k) ->
  exists h', foldM (weigh_step fuel) (h, w) (map tptr ts) = Ok (h', fold_left (fun a t => a +u u64 (tsum h t)) ts w) /\
    Forall (weighed h h') ts /\ agree (.∉ concat (map ptrs ts)) h h'.
Proof.
  induction 1 as [| k ts Hk Hts IH]; intros h w Hrep Hnd Hz.
  - exists h. split_and!; [reflexivity | constructor | now intros q _].
  - apply Forall_cons in Hrep as [Hrk Hrts]. cbn [map concat] in Hnd. apply NoDup_app in Hnd as (Hn1 & Hdis & Hn2).
    destruct (Hk h Hrk Hn1 (Hz k (list_elem_of_here _ _))) as (h1 & E1 & Hw1 & Ha1).
    assert (forall k', k' ∈ ts -> agree (.∈ ptrs k') h h1) as Hag.
    { intros k' Hk' q Hq. apply Ha1. intros Hqk. apply (Hdis q Hqk), list_elem_of_In, in_concat.
      exists (ptrs k'). split; [apply in_map |]; now apply list_elem_of_In. }
    destruct (IH h1 (w +u u64 (tsum h k))) as (h2 & E2 & Hw2 & Ha2).
    + apply Forall_forall. intros k' Hk'. apply (rep_agree k' h); [now apply Hag |]. rewrite Forall_forall in Hrts. now apply Hrts.
    + exact Hn2.
    + intros k' Hk' q n Hq Hl. apply (Hz k' (list_elem_of_further _ _ _ Hk') q n Hq). rewrite (Hag k' Hk' q Hq). exact Hl.
    + assert (agree (.∈ ptrs k) h1 h2) as Hk2.
      { intros q Hq. apply Ha2. intros Hq2. now apply (Hdis q Hq). }
      exists h2. split_and!.
      * cbn [map foldM]. destruct k as [p ks]. cbn [tptr] in *.
        apply weighed_inv in Hw1 as [Ep _]. destruct (rep_inv _ _ _ Hrk) as (n & En & _). rewrite En in Ep.
        rewrite (weigh_step_ok _ _ _ _ _ _ E1 Ep). cbn [mbind result_bind weight set_weight].
        rewrite E2. cbn [fold_left]. do 2 f_equal.
        clear - Hag. revert w. generalize (tsum h (Tree p ks)). intros z w. revert z w.
        assert (forall ts', (forall k', k' ∈ ts' -> tsum h1 k' = tsum h k') -> forall a,
          fold_left (fun a t => a +u u64 (tsum h1 t)) ts' a = fold_left (fun a t => a +u u64 (tsum h t)) ts' a) as Hf.
        { induction ts' as [| k' ts' IH]; intros He a; [reflexivity |]. cbn. rewrite (He k') by apply list_elem_of_here.
          apply IH. intros. apply He. now apply list_elem_of_further. }
        intros z w. apply Hf. intros k' Hk'. symmetry. apply tsum_agree. now apply Hag.
      * constructor; [now apply (weighed_agree k h h1) |]. rewrite Forall_forall in *. intros k' Hk'.
        apply (weighed_agree k' h1 h2); [| easy | now apply Hw2]. intros q Hq. symmetry. now apply (Hag k').
      * intros q Hq. cbn in Hq. rewrite not_elem_of_app in Hq. destruct Hq as [Hq1 Hq2].
        rewrite (Ha1 q Hq1). now apply Ha2.
Qed.

Lemma height_kid k ts : k ∈ ts -> (height k <= foldr Nat.max O (map height ts))%nat.
Proof. induction ts as [| a ts IH]; [intros []%not_elem_of_nil |]. intros [-> | Hk]%elem_of_cons; cbn; [lia | specialize (IH Hk); lia]. Qed.

Lemma sum_weights (f : tree -> Z) ts : forall a, fold_left (fun a t => a +u u64 (f t)) ts (u64 a) = u64 (a + zsum (map f ts)).
Proof.
  induction ts as [| t ts IH]; intros a; cbn [fold_left map]; [unfold zsum; cbn; now rewrite Z.add_0_r |].
  rewrite u64_add_mod, IH. f_equal. unfold zsum. cbn. lia.
Qed.

Lemma applyWeightChanges_ok t : forall fuel, (height t <= fuel)%nat -> weighs fuel t.
Proof.
  induction t as [p ts IH] using tree_ind'. intros [| fuel] Hh h Hrep Hnd Hz; [cbn in Hh; lia |].
  cbn [height] in Hh. destruct (rep_inv _ _ _ Hrep) as (n & En & Hc & Hf). cbn [tptr applyWeightChanges].
  pose proof Hnd as Hnd'. cbn [ptrs] in Hnd'. apply NoDup_cons in Hnd' as [Hp Hnd'].
  unfold deref. rewrite En. cbn [mbind result_bind]. fold (deref h p).
  change (foldM _ (h, 0) (children n)) with (foldM (weigh_step fuel) (h, 0) (children n)). rewrite Hc.
  destruct (weigh_kids fuel ts) with (h := h) (w := 0) as (h' & E & Hw & Ha); try assumption.
  - rewrite Forall_forall in *. intros k Hk. apply IH; [exact Hk |]. pose proof (height_kid k ts Hk). lia.
  - intros k Hk q m Hq. apply Hz. eapply elem_ptrs_kid; eauto.
  - rewrite E. cbn [mbind result_bind]. rewrite decide_False by (apply (Hz p n); [apply list_elem_of_here | exact En]).
    assert (h' !! p = Some n) as En' by (rewrite <- (Ha p Hp); exact En).
    eexists. split; [reflexivity |]. split.
    + apply weighed_inv. rewrite lookup_alter, decide_True, En, En' by reflexivity. cbn [fmap option_fmap option_map]. split.
      * do 2 f_equal. cbn [tsum]. change 0 with (u64 0). rewrite sum_weights, Z.add_0_l.
        unfold node_balance. rewrite En. unfold u64. now rewrite Zplus_mod_idemp_r.
      * rewrite Forall_forall in *. intros k Hk. apply (weighed_agree k h h'); [easy | | now apply Hw].
        intros q Hq. rewrite lookup_alter_ne; [reflexivity |]. intros ->. apply Hp, list_elem_of_In, in_concat.
        exists (ptrs k). split; [apply in_map |]; now apply list_elem_of_In.
    + intros q Hq. cbn [ptrs] in Hq. rewrite not_elem_of_cons in Hq. destruct Hq as [Hqp Hq].
      rewrite (Ha q Hq). symmetry. apply lookup_alter_ne. congruence.
Qed.

(** ** The filtered block tree and LMD-GHOST *)

Section Ghost.
Context (cfg : BeaconChainConfig) (Hspe : 0 < SlotsPerEpoch cfg) (jEpoch cEpoch : Z).

(** The condition of [viableForHead] on the epochs of a node. *)
Definition viable (n : Node) : bool :=
  if jEpoch =? 0 then true
  else
    let votingSource := if slot n / SlotsPerEpoch cfg <? cEpoch then unrealizedJustifiedEpoch n else justifiedEpoch n in
    (votingSource =? jEpoch) || (cEpoch <=? votingSource +u 2).

Lemma viableForHead_ok n : viableForHead cfg n jEpoch cEpoch = Ok (viable n).
Proof.
  unfold viableForHead, viable. destruct (jEpoch =? 0); [reflexivity |].
  unfold ToEpoch, Slot.DivSlot, Slot.Div, Slot.SafeDiv, Math.Div64.
  destruct (Z.eqb_spec (SlotsPerEpoch cfg) 0); [lia | reflexivity].
Qed.

Definition node_viable (h : gmap ptr Node) (p : ptr) : bool :=
  match h !! p with Some n => viable n | None => false end.

(** [filter_block_tree] of the specification: a leaf is kept if it is viable, an
    inner block if one of its children is. *)
Fixpoint filtered (h : gmap ptr Node) (t : tree) : bool :=
  match t with
  | Tree p [] => node_viable h p
  | Tree p ts => existsb (filtered h) ts
  end.

(** The order of [get_head]: weight, then root. *)
Definition node_weight (h : gmap ptr Node) (p : ptr) : Z := match h !! p with Some n => weight n | None => 0 end.
Definition node_root (h : gmap ptr Node) (p : ptr) : list Z := match h !! p with Some n => root n | None => [] end.

Definition key_le (h : gmap ptr Node) (a b : ptr) : Prop :=
  node_weight h a < node_weight h b \/
  (node_weight h a = node_weight h b /\ bytes_Compare (node_root h a) (node_root h b) <> Gt).

(** [get_head] of the specification from the root of [t]: follow the greatest
    filtered child until there is none. *)
Inductive ghost (h : gmap ptr Node) : tree -> ptr -> Prop :=
| ghost_stop p ts : Forall (fun k => filtered h k = false) ts -> ghost h (Tree p ts) p
| ghost_step p ts k d : k ∈ ts -> filtered h k = true ->
    (forall k', k' ∈ ts -> filtered h k' = true -> key_le h (tptr k') (tptr k)) ->
    ghost h k d -> ghost h (Tree p ts) d.

Lemma ghost_filtered h t d : ghost h t d -> filtered h t = true -> node_viable h d = true /\ exists t', subtree t' t /\ t' = Tree d [].
Proof.
  induction 1 as [p ts Hn | p ts k d Hk Hf _ _ IH]; intros Ht.
  - destruct ts as [| k ts]; [split; [exact Ht |]; eexists; split; [constructor | reflexivity] |].
    exfalso. change (existsb (filtered h) (k :: ts) = true) in Ht. apply existsb_exists in Ht as (k' & Hk' & Hf).
    rewrite Forall_forall in Hn. apply list_elem_of_In in Hk'. specialize (Hn k' Hk'). cbn in Hn. congruence.
  - destruct (IH Hf) as [Hv (t' & Hs & ->)]. split; [exact Hv |]. eexists. split; [| reflexivity]. now apply (sub_kid _ k).
Qed.

(** *** The key order *)

Lemma bytes_Compare_refl a : bytes_Compare a a = Eq.
Proof. induction a as [| x a IH]; [reflexivity |]. cbn. now rewrite Z.compare_refl. Qed.

Lemma bytes_Compare_antisym a : forall b, bytes_Compare b a = CompOpp (bytes_Compare a b).
Proof.
  induction a as [| x a IH]; intros [| y b]; try reflexivity. cbn. rewrite (Z.compare_antisym x y).
  destruct (x ?= y); cbn; auto.
Qed.

Lemma bytes_Compare_trans a : forall b c, bytes_Compare a b <> Gt -> bytes_Compare b c <> Gt -> bytes_Compare a c <> Gt.
Proof.
  induction a as [| x a IH]; intros [| y b] [| z c]; cbn; try congruence.
  destruct (Z.compare_spec x y), (Z.compare_spec y z), (Z.compare_spec x z); try congruence; try lia.
  intros. eapply IH; eassumption.
Qed.

Lemma bytes_Compare_Eq a : forall b, bytes_Compare a b = Eq -> a = b.
Proof.
  induction a as [| x a IH]; intros [| y b]; cbn; try discriminate; [reflexivity |].
  destruct (Z.compare_spec x y) as [-> | |]; try discriminate. intros E. now rewrite (IH b E).
Qed.

Lemma key_le_refl h a : key_le h a a.
Proof. right. now rewrite bytes_Compare_refl. Qed.

Lemma key_le_trans h a b c : key_le h a b -> key_le h b c -> key_le h a c.
Proof.
  unfold key_le. intros [H1 | [H1 H2]] [H3 | [H3 H4]]; [left; lia .. |]. right. split; [lia |].
  eapply bytes_Compare_trans; eassumption.
Qed.

Lemma key_le_flip h a b : ~ key_le h a b -> key_le h b a.
Proof.
  unfold key_le. rewrite (bytes_Compare_antisym (node_root h a)). intros Hn.
  destruct (Z.lt_trichotomy (node_weight h a) (node_weight h b)) as [| [E |]]; [tauto | | tauto].
  right. split; [easy |]. destruct (bytes_Compare (node_root h a) (node_root h b)) eqn:Ec; cbn; try congruence.
  exfalso. apply Hn. right. split; [exact E | congruence].
Qed.

(** *** Heaps that differ in best descendants only *)

Definition strip (n : Node) : Node := set_bestDescendant None n.
Definition sim (P : ptr -> Prop) (h h' : gmap ptr Node) : Prop := forall q, P q -> strip <$> h !! q = strip <$> h' !! q.

Lemma agree_sim P h h' : agree P h h' -> sim P h h'.
Proof. intros Ha q Hq. now rewrite (Ha q Hq). Qed.

Lemma sim_sym P h h' : sim P h h' -> sim P h' h.
Proof. intros Hs q Hq. symmetry. now apply Hs. Qed.

Lemma sim_trans P h1 h2 h3 : sim P h1 h2 -> sim P h2 h3 -> sim P h1 h3.
Proof. intros H1 H2 q Hq. now rewrite (H1 q Hq), (H2 q Hq). Qed.

Lemma strip_field {A} (f : Node -> A) (h h' : gmap ptr Node) q d : (forall n, f n = f (strip n)) -> strip <$> h !! q = strip <$> h' !! q ->
  match h !! q with Some n => f n | None => d end = match h' !! q with Some n => f n | None => d end.
Proof.
  intros Hf. destruct (h !! q) as [n |], (h' !! q) as [n' |]; intros E; try discriminate E; [| reflexivity].
  rewrite (Hf n), (Hf n'). f_equal. change (Some (strip n) = Some (strip n')) in E. congruence.
Qed.

Lemma rep_sim t : forall h h', sim (.∈ ptrs t) h h' -> rep h t -> rep h' t.
Proof.
  induction t as [p ts IH] using tree_ind'. intros h h' Ha (n & E & C & Hf)%rep_inv.
  assert (strip <$> h !! p = strip <$> h' !! p) as Hp by (apply Ha, list_elem_of_here). rewrite E in Hp.
  destruct (h' !! p) as [n' |] eqn:E'; [| discriminate].
  assert (strip n = strip n') as Hs by (change (Some (strip n) = Some (strip n')) in Hp; congruence).
  apply (rep_intro _ _ _ n' E'); [change (children (strip n') = map tptr ts); rewrite <- Hs; exact C |].
  rewrite Forall_forall in *. intros k Hk. apply (IH k Hk h); [| now apply Hf].
  intros q Hq. apply Ha. eapply elem_ptrs_kid; eauto.
Qed.

Lemma node_sim (h h' : gmap ptr Node) q : strip <$> h !! q = strip <$> h' !! q ->
  node_weight h q = node_weight h' q /\ node_root h q = node_root h' q /\ node_viable h q = node_viable h' q.
Proof. intros E. split_and!; apply strip_field; trivial; now intros []. Qed.

Lemma filtered_sim t : forall h h', sim (.∈ ptrs t) h h' -> filtered h t = filtered h' t.
Proof.
  induction t as [p ts IH] using tree_ind'. intros h h' Ha. destruct ts as [| k ts].
  - cbn. apply node_sim, Ha, list_elem_of_here.
  - change (existsb (filtered h) (k :: ts) = existsb (filtered h') (k :: ts)).
    assert (forall k', k' ∈ k :: ts -> filtered h k' = filtered h' k') as Hall.
    { intros k' Hk'. rewrite Forall_forall in IH. apply (IH k' Hk'). intros q Hq. apply Ha. eapply elem_ptrs_kid; eauto. }
    clear - Hall. induction (k :: ts) as [| a l IH]; [reflexivity |]. cbn. rewrite (Hall a) by apply list_elem_of_here.
    f_equal. apply IH. intros. apply Hall. now apply list_elem_of_further.
Qed.

Lemma key_le_sim (h h' : gmap ptr Node) a b : strip <$> h !! a = strip <$> h' !! a -> strip <$> h !! b = strip <$> h' !! b ->
  key_le h a b -> key_le h' a b.
Proof.
  intros Ha Hb. apply node_sim in Ha as (Ha1 & Ha2 & _), Hb as (Hb1 & Hb2 & _). unfold key_le.
  now rewrite Ha1, Ha2, Hb1, Hb2.
Qed.

Lemma ghost_ptr h t d : ghost h t d -> d ∈ ptrs t.
Proof. induction 1 as [| p ts k d Hk _ _ _ IH]; [apply list_elem_of_here |]. eapply elem_ptrs_kid; eauto. Qed.

Lemma ghost_sim h h' t d : ghost h t d -> sim (.∈ ptrs t) h h' -> ghost h' t d.
Proof.
  induction 1 as [p ts Hn | p ts k d Hk Hf Hmax _ IH]; intros Hs.
  - apply ghost_stop. rewrite Forall_forall in *. intros k Hk. rewrite <- (Hn k Hk). symmetry. apply filtered_sim.
    intros q Hq. apply Hs. eapply elem_ptrs_kid; eauto.
  - assert (forall k', k' ∈ ts -> sim (.∈ ptrs k') h h') as Hsk by (intros k' Hk' q Hq; apply Hs; eapply elem_ptrs_kid; eauto).
    apply (ghost_step _ _ _ k); [exact Hk | now rewrite <- (filtered_sim k h h' (Hsk k Hk)) | | apply IH; now apply Hsk].
    intros k' Hk' Hf'. rewrite <- (filtered_sim k' h h' (Hsk k' Hk')) in Hf'.
    apply (key_le_sim h); [apply (Hsk k' Hk'), elem_tptr | apply (Hsk k Hk), elem_tptr | now apply Hmax].
Qed.

(** *** What the traversal leaves behind *)

Definition best_link (p d : ptr) : option ptr := if decide (d = p) then None else Some d.

Fixpoint described (h h' : gmap ptr Node) (t : tree) : Prop :=
  match t with
  | Tree p ts => (exists d, ghost h t d /\ h' !! p = set_bestDescendant (best_link p d) <$> h !! p) /\
                 foldr and True (map (described h h') ts)
  end.

Lemma described_inv h h' p ts : described h h' (Tree p ts) <->
  (exists d, ghost h (Tree p ts) d /\ h' !! p = set_bestDescendant (best_link p d) <$> h !! p) /\ Forall (described h h') ts.
Proof. cbn. now rewrite foldr_and_Forall. Qed.

Lemma described_sim t : forall h h', described h h' t -> sim (.∈ ptrs t) h h'.
Proof.
  induction t as [p ts IH] using tree_ind'. intros h h' [(d & _ & E) Hf]%described_inv q Hq. cbn [ptrs] in Hq.
  apply elem_of_cons in Hq as [-> | Hq]; [rewrite E; now destruct (h !! p) |].
  apply list_elem_of_In, in_concat in Hq as (l & Hl & Hq). apply in_map_iff in Hl as (k & <- & Hk).
  apply list_elem_of_In in Hk, Hq. rewrite Forall_forall in *. apply (IH k Hk); [now apply Hf | exact Hq].
Qed.

Lemma best_link_sim (h h' : gmap ptr Node) q b : strip <$> h !! q = strip <$> h' !! q ->
  set_bestDescendant b <$> h !! q = set_bestDescendant b <$> h' !! q.
Proof.
  assert (forall n, set_bestDescendant b n = set_bestDescendant b (strip n)) as Hs by now intros [].
  destruct (h !! q) as [n |], (h' !! q) as [n' |]; intros E; try discriminate E; [| reflexivity].
  change (Some (strip n) = Some (strip n')) in E. change (Some (set_bestDescendant b n) = Some (set_bestDescendant b n')).
  rewrite (Hs n), (Hs n'). congruence.
Qed.

Lemma described_ext t : forall h1 h1' h2 h2', sim (.∈ ptrs t) h1 h2 -> agree (.∈ ptrs t) h1' h2' ->
  described h1 h1' t -> described h2 h2' t.
Proof.
  induction t as [p ts IH] using tree_ind'. intros h1 h1' h2 h2' Ha Ha' [(d & Hg & E) Hf]%described_inv.
  apply described_inv. split.
  - exists d. split; [now apply (ghost_sim h1) |]. rewrite <- Ha', E by apply list_elem_of_here.
    assert (strip <$> h1 !! p = strip <$> h2 !! p) as Hp by (apply Ha, list_elem_of_here).
    now apply best_link_sim.
  - rewrite Forall_forall in *. intros k Hk. apply (IH k Hk h1 h1'); [| | now apply Hf];
      intros q Hq; [apply Ha | apply Ha']; eapply elem_ptrs_kid; eauto.
Qed.

Lemma described_tip h h' k : NoDup (ptrs k) -> rep h k -> described h h' k ->
  exists n, h' !! tptr k = Some n /\ leadsToViableTip cfg h' n jEpoch cEpoch = Ok (filtered h k).
Proof.
  intros Hnd Hrep Hd. pose proof (described_sim _ _ _ Hd) as Hsim. pose proof (rep_sim _ _ _ Hsim Hrep) as Hrep'.
  destruct k as [p ts]. destruct (rep_inv _ _ _ Hrep') as (n' & En' & Hc' & _).
  apply described_inv in Hd as [(d & Hg & E) _]. exists n'. split; [exact En' |].
  destruct (rep_inv _ _ _ Hrep) as (n & En & _). rewrite En, En' in E. injection E as ->.
  change (children n = map tptr ts) in Hc'.
  cbn [bestDescendant set_bestDescendant leadsToViableTip]. unfold leadsToViableTip. cbn [bestDescendant set_bestDescendant].
  cbn [ptrs] in Hnd. apply NoDup_cons in Hnd as [Hp _]. unfold best_link. inversion Hg as [? ? Hn | ? ? k d' Hk Hf Hmax Hg']; subst.
  - rewrite decide_True by reflexivity. cbn [mbind result_bind children set_bestDescendant].
    destruct ts as [| k ts].
    + cbn [map] in Hc'. rewrite Hc', viableForHead_ok. f_equal. cbn [filtered]. unfold node_viable. rewrite En. now destruct n.
    + rewrite Hc'. cbn [map]. f_equal. symmetry. change (existsb (filtered h) (k :: ts) = false).
      apply not_true_iff_false. intros (k' & Hk' & Hf)%existsb_exists. apply list_elem_of_In in Hk'.
      rewrite Forall_forall in Hn. specialize (Hn k' Hk'). cbn in Hn. congruence.
  - assert (d <> p) as Hdp.
    { intros ->. apply Hp, list_elem_of_In, in_concat. exists (ptrs k). apply ghost_ptr in Hg'.
      split; [apply in_map |]; now apply list_elem_of_In. }
    rewrite decide_False by exact Hdp.
    assert (filtered h (Tree p ts) = true) as Hft.
    { destruct ts as [| k0 ts]; [now apply not_elem_of_nil in Hk |]. apply existsb_exists. exists k.
      split; [now apply list_elem_of_In | exact Hf]. }
    destruct (ghost_filtered _ _ _ Hg Hft) as [Hv (t' & Hs & ->)]. rewrite Hft.
    pose proof (subtree_rep _ _ _ Hs Hrep') as Hd'. apply rep_inv in Hd' as (nd & End & Hcd & _).
    unfold deref. rewrite End. cbn [mbind result_bind]. rewrite Hcd. cbn [map]. rewrite viableForHead_ok. f_equal.
    assert (node_viable h d = node_viable h' d) as Hvd
      by (apply node_sim, Hsim; apply (subtree_ptrs _ _ _ Hs), list_elem_of_here).
    rewrite Hvd in Hv. unfold node_viable in Hv. now rewrite End in Hv.
Qed.

(** The body of the loop of [bestChild]. *)
Definition best_step (h : gmap ptr Node) (best : option ptr) (p : ptr) : result (option ptr) :=
  child ← deref h p;
  viable ← leadsToViableTip cfg h child jEpoch cEpoch;
  if negb viable then Ok best
  else match best with
  | None => Ok (Some p)
  | Some b =>
      bn ← deref h b;
      if (weight bn <? weight child) ||
         ((weight child =? weight bn) && bool_decide (bytes_Compare (root child) (root bn) = Gt))
      then Ok (Some p) else Ok best
  end.

(** The best child among a prefix of the children. *)
Definition best_of (h : gmap ptr Node) (ts : list tree) (b : option ptr) : Prop :=
  match b with
  | None => Forall (fun k => filtered h k = false) ts
  | Some p => exists k, k ∈ ts /\ tptr k = p /\ filtered h k = true /\
                forall k', k' ∈ ts -> filtered h k' = true -> key_le h (tptr k') p
  end.

Lemma best_of_snoc_false h ts b k : best_of h ts b -> filtered h k = false -> best_of h (ts ++ [k]) b.
Proof.
  intros Hb Hf. destruct b as [p |]; cbn in *.
  - destruct Hb as (k0 & Hk & Hp & Hf0 & Hmax). exists k0. split_and!; [apply elem_of_app; auto | exact Hp | exact Hf0 |].
    intros k' [Hk' | ->%list_elem_of_singleton]%elem_of_app Hf'; [auto | congruence].
  - apply Forall_app_2; [exact Hb | now apply Forall_singleton].
Qed.

Lemma best_step_ok h h' ts k b : best_of h ts b -> Forall (fun k => exists n, h' !! tptr k = Some n) ts ->
  (forall q, strip <$> h !! q = strip <$> h' !! q) ->
  (exists n, h' !! tptr k = Some n /\ leadsToViableTip cfg h' n jEpoch cEpoch = Ok (filtered h k)) ->
  exists b', best_step h' b (tptr k) = Ok b' /\ best_of h (ts ++ [k]) b'.
Proof.
  intros Hb Hts Hsim (n & En & El). unfold best_step, deref. rewrite En. cbn [mbind result_bind]. rewrite El. cbn [mbind result_bind].
  destruct (filtered h k) eqn:Ef; cbn [negb]; [| exists b; split; [reflexivity | now apply best_of_snoc_false]].
  destruct b as [p |].
  - destruct Hb as (k0 & Hk0 & <- & Hf0 & Hmax). rewrite Forall_forall in Hts. destruct (Hts k0 Hk0) as [n0 En0]. rewrite En0.
    cbn [mbind result_bind].
    set (c := (weight n0 <? weight n) || _).
    assert (if c then ~ key_le h (tptr k) (tptr k0) else key_le h (tptr k) (tptr k0)) as Hc.
    { assert (key_le h (tptr k) (tptr k0) <-> weight n < weight n0 \/ weight n = weight n0 /\ bytes_Compare (root n) (root n0) <> Gt) as Hkl.
      { unfold key_le. destruct (node_sim _ _ _ (Hsim (tptr k))) as (-> & -> & _). destruct (node_sim _ _ _ (Hsim (tptr k0))) as (-> & -> & _).
        unfold node_weight, node_root. now rewrite En, En0. }
      unfold c. clear c. destruct (Z.ltb_spec (weight n0) (weight n)), (Z.eqb_spec (weight n) (weight n0)),
        (bool_decide_reflect (bytes_Compare (root n) (root n0) = Gt)); cbn [orb andb];
        first [apply Hkl; solve [left; lia | right; split; [lia | assumption]]
              | intros [? | [? ?]]%Hkl; solve [lia | contradiction]]. }
    destruct c; eexists; (split; [reflexivity |]).
    + exists k. split_and!; [apply elem_of_app; right; apply list_elem_of_here | reflexivity | exact Ef |].
      intros k' [Hk' | ->%list_elem_of_singleton]%elem_of_app Hf'; [| apply key_le_refl].
      apply key_le_trans with (tptr k0); [now apply Hmax | now apply key_le_flip].
    + exists k0. split_and!; [apply elem_of_app; now left | reflexivity | exact Hf0 |].
      intros k' [Hk' | ->%list_elem_of_singleton]%elem_of_app Hf'; [now apply Hmax | exact Hc].
  - eexists. split; [reflexivity |]. exists k. split_and!; [apply elem_of_app; right; apply list_elem_of_here | reflexivity | exact Ef |].
    intros k' [Hk' | ->%list_elem_of_singleton]%elem_of_app Hf'; [| apply key_le_refl].
    cbn in Hb. rewrite Forall_forall in Hb. specialize (Hb k' Hk'). cbn in Hb. congruence.
Qed.

Lemma bestChild_ok h h' ts : (forall q, strip <$> h !! q = strip <$> h' !! q) ->
  Forall (fun k => exists n, h' !! tptr k = Some n /\ leadsToViableTip cfg h' n jEpoch cEpoch = Ok (filtered h k)) ts ->
  exists b, foldM (best_step h') None (map tptr ts) = Ok b /\ best_of h ts b.
Proof.
  intros Hsim. induction ts as [| k ts IH] using rev_ind; intros Hall; [exists None; split; [reflexivity | constructor] |].
  apply Forall_app in Hall as [Hall Hk]. rewrite Forall_singleton in Hk. destruct (IH Hall) as (b & E & Hb).
  rewrite map_app, foldM_app, E. cbn [mbind result_bind map foldM].
  destruct (best_step_ok h h' ts k b Hb) as (b' & E' & Hb'); [| exact Hsim | exact Hk |].
  - eapply Forall_impl; [exact Hall |]. intros k' (n & En & _). eauto.
  - rewrite E'. exists b'. split; [reflexivity | exact Hb'].
Qed.

(** What one traversal of [t] promises. *)
Definition describes (fuel : nat) (t : tree) : Prop := forall h, rep h t -> NoDup (ptrs t) ->
  exists h', updateBestDescendant cfg fuel (tptr t) jEpoch cEpoch h = Ok h' /\ described h h' t /\ agree (.∉ ptrs t) h h'.

Lemma describe_kids fuel ts : Forall (describes fuel) ts -> forall h, Forall (rep h) ts -> NoDup (concat (map ptrs ts)) ->
  exists h', foldM (fun h child => updateBestDescendant cfg fuel child jEpoch cEpoch h) h (map tptr ts) = Ok h' /\
    Forall (described h h') ts /\ agree (.∉ concat (map ptrs ts)) h h'.
Proof.
  induction 1 as [| k ts Hk Hts IH]; intros h Hrep Hnd.
  - exists h. split_and!; [reflexivity | constructor | now intros q _].
  - apply Forall_cons in Hrep as [Hrk Hrts]. cbn [map concat] in Hnd. apply NoDup_app in Hnd as (Hn1 & Hdis & Hn2).
    destruct (Hk h Hrk Hn1) as (h1 & E1 & Hw1 & Ha1).
    assert (forall k', k' ∈ ts -> agree (.∈ ptrs k') h h1) as Hag.
    { intros k' Hk' q Hq. apply Ha1. intros Hqk. apply (Hdis q Hqk), list_elem_of_In, in_concat.
      exists (ptrs k'). split; [apply in_map |]; now apply list_elem_of_In. }
    destruct (IH h1) as (h2 & E2 & Hw2 & Ha2); [| exact Hn2 |].
    + apply Forall_forall. intros k' Hk'. apply (rep_agree k' h); [now apply Hag |]. rewrite Forall_forall in Hrts. now apply Hrts.
    + assert (agree (.∈ ptrs k) h1 h2) as Hk2.
      { intros q Hq. apply Ha2. intros Hq2. now apply (Hdis q Hq). }
      exists h2. split_and!.
      * cbn [map foldM]. rewrite E1. cbn [mbind result_bind]. exact E2.
      * constructor; [now apply (described_ext k h h1) |]. rewrite Forall_forall in *. intros k' Hk'.
        apply (described_ext k' h1 h2); [| easy | now apply Hw2]. apply sim_sym, agree_sim. now apply Hag.
      * intros q Hq. cbn in Hq. rewrite not_elem_of_app in Hq. destruct Hq as [Hq1 Hq2]. rewrite (Ha1 q Hq1). now apply Ha2.
Qed.

(** The link of a node that has children, from the choice of the best child. *)
Lemma best_of_ghost h h' p ts b n : p ∉ concat (map ptrs ts) -> h !! p = Some n -> h' !! p = Some n ->
  Forall (described h h') ts -> Forall (rep h) ts -> best_of h ts b ->
  exists d, ghost h (Tree p ts) d /\
    match b with
    | None => best_link p d = None
    | Some c => exists bn, h' !! c = Some bn /\ best_link p d = Some (default c (bestDescendant bn))
    end.
Proof.
  intros Hp En En' Hd Hrep Hb. destruct b as [c |].
  - destruct Hb as (k & Hk & <- & Hf & Hmax). rewrite Forall_forall in Hd. specialize (Hd k Hk).
    rewrite Forall_forall in Hrep. specialize (Hrep k Hk). destruct k as [q ks]. cbn [tptr] in *.
    apply described_inv in Hd as [(d & Hg & E) _]. destruct (rep_inv _ _ _ Hrep) as (m & Em & _). rewrite Em in E.
    exists d. split; [now apply (ghost_step _ _ _ (Tree q ks)) |]. eexists. split; [exact E |]. cbn [bestDescendant set_bestDescendant].
    assert (d <> p) as Hdp.
    { intros ->. apply Hp, list_elem_of_In, in_concat. exists (ptrs (Tree q ks)). apply ghost_ptr in Hg.
      split; [apply in_map |]; now apply list_elem_of_In. }
    unfold best_link. rewrite (decide_False (P := d = p)) by exact Hdp. now destruct (decide (d = q)) as [-> |].
  - exists p. split; [now apply ghost_stop |]. unfold best_link. now rewrite decide_True.
Qed.

Lemma updateBestDescendant_ok t : forall fuel, (height t <= fuel)%nat -> describes fuel t.
Proof.
  induction t as [p ts IH] using tree_ind'. intros [| fuel] Hh h Hrep Hnd; [cbn in Hh; lia |].
  cbn [height] in Hh. destruct (rep_inv _ _ _ Hrep) as (n & En & Hc & Hf). cbn [tptr updateBestDescendant].
  pose proof Hnd as Hnd'. cbn [ptrs] in Hnd'. apply NoDup_cons in Hnd' as [Hp Hnd'].
  rewrite (deref_ok h p n En). cbn [mbind result_bind]. rewrite Hc. destruct (map tptr ts) as [| c cs] eqn:Ecs.
  - destruct ts; [| discriminate]. eexists. split; [reflexivity |]. split.
    + apply described_inv. split; [| constructor]. exists p. split; [apply ghost_stop; constructor |].
      rewrite lookup_alter, decide_True by reflexivity. unfold best_link. now rewrite decide_True by reflexivity.
    + intros q Hq. symmetry. apply lookup_alter_ne. intros ->. apply Hq, list_elem_of_here.
  - rewrite <- Ecs. destruct (describe_kids fuel ts) with (h := h) as (h' & E & Hw & Ha); try assumption.
    { rewrite Forall_forall in *. intros k Hk. apply IH; [exact Hk |]. pose proof (height_kid k ts Hk). lia. }
    rewrite E. cbn [mbind result_bind]. assert (h' !! p = Some n) as En' by (rewrite <- (Ha p Hp); exact En).
    rewrite (deref_ok h' p n En'). cbn [mbind result_bind].
    assert (forall q, strip <$> h !! q = strip <$> h' !! q) as Hsim.
    { intros q. destruct (decide (q ∈ concat (map ptrs ts))) as [Hq | Hq]; [| now rewrite (Ha q Hq)].
      apply list_elem_of_In, in_concat in Hq as (l & Hl & Hq). apply in_map_iff in Hl as (k & <- & Hk).
      apply list_elem_of_In in Hk, Hq. rewrite Forall_forall in Hw. now apply (described_sim k h h' (Hw k Hk)). }
    pose proof (NoDup_kids p ts Hnd) as [_ Hndk].
    destruct (bestChild_ok h h' ts Hsim) as (b & Eb & Hb).
    { rewrite Forall_forall in *. intros k Hk. apply described_tip; auto. }
    change (bestChild cfg h' n jEpoch cEpoch) with (foldM (best_step h') None (children n)). rewrite Hc, <- Ecs, Eb.
    cbn [mbind result_bind]. destruct (best_of_ghost h h' p ts b n Hp En En' Hw Hf Hb) as (d & Hg & Hlink).
    assert (forall x, x = best_link p d -> described h (alter (set_bestDescendant x) p h') (Tree p ts) /\
              agree (.∉ ptrs (Tree p ts)) h (alter (set_bestDescendant x) p h')) as Hfin.
    { intros x ->. split.
      - apply described_inv. split; [exists d; split; [exact Hg |]; now rewrite lookup_alter, decide_True, En, En' by reflexivity |].
        rewrite Forall_forall in *. intros k Hk. apply (described_ext k h h'); [easy | | now apply Hw].
        intros q Hq. rewrite lookup_alter_ne; [reflexivity |]. intros ->. apply Hp, list_elem_of_In, in_concat.
        exists (ptrs k). split; [apply in_map |]; now apply list_elem_of_In.
      - intros q Hq. cbn [ptrs] in Hq. rewrite not_elem_of_cons in Hq. destruct Hq as [Hqp Hq].
        rewrite (Ha q Hq). symmetry. apply lookup_alter_ne. congruence. }
    destruct b as [b |].
    + destruct Hlink as (bn & Ebn & Hl). unfold deref. rewrite Ebn. cbn [mbind result_bind]. eexists. split; [reflexivity | now apply Hfin].
    + eexists. split; [reflexivity | now apply Hfin].
Qed.
End Ghost.
