(* ===== verification/ForkHead.v ===== *)
(** * The head of the fork choice

    The head that [Head] selects on a store whose blocks form a tree is the one
    of the LMD-GHOST rule on the filtered block tree. *)

From S2P Require Import Prelude Math Config Slots Bytes Shuffle State Validators EpochPrecompute ForkStore ForkChoice ForkTree.

(** ** Fuel *)

Lemma height_ptrs t : (height t <= length (ptrs t))%nat.
Proof.
  induction t as [p ts IH] using tree_ind'. cbn [height ptrs length]. apply le_n_S.
  induction IH as [| k ts Hk _ IHts]; cbn; [lia |]. rewrite length_app. lia.
Qed.

Lemma rep_lookup h t q : rep h t -> q ∈ ptrs t -> is_Some (h !! q).
Proof.
  revert q. induction t as [p ts IH] using tree_ind'. intros q (n & E & _ & Hf)%rep_inv Hq. cbn [ptrs] in Hq.
  apply elem_of_cons in Hq as [-> | Hq]; [eauto |].
  apply list_elem_of_In, in_concat in Hq as (l & Hl & Hq). apply in_map_iff in Hl as (k & <- & Hk).
  apply list_elem_of_In in Hk, Hq. rewrite Forall_forall in *. now apply (IH k Hk); [apply Hf |].
Qed.

(** The number of nodes in the heap bounds every traversal of a tree. *)
Lemma height_size h t : rep h t -> NoDup (ptrs t) -> (height t <= size h)%nat.
Proof.
  intros Hr Hn. etransitivity; [apply height_ptrs |].
  rewrite <- (size_list_to_set (C := gset ptr) (ptrs t) Hn), <- (size_dom h). apply subseteq_size.
  intros q Hq. apply elem_of_list_to_set in Hq. apply elem_of_dom. now apply (rep_lookup h t).
Qed.

(** ** Subtrees *)

Lemma described_subtree cfg j c h h' t' t : subtree t' t -> described cfg j c h h' t -> described cfg j c h h' t'.
Proof.
  induction 1 as [| t' k p ts Hk _ IH]; [trivial |]. intros [_ Hf]%described_inv. apply IH.
  rewrite Forall_forall in Hf. now apply Hf.
Qed.

Lemma weighed_subtree h h' t' t : subtree t' t -> weighed h h' t -> weighed h h' t'.
Proof.
  induction 1 as [| t' k p ts Hk _ IH]; [trivial |]. intros [_ Hf]%weighed_inv. apply IH.
  rewrite Forall_forall in Hf. now apply Hf.
Qed.

Lemma NoDup_subtree t' t : subtree t' t -> NoDup (ptrs t) -> NoDup (ptrs t').
Proof.
  induction 1 as [| t' k p ts Hk _ IH]; [trivial |]. intros [_ Hf]%NoDup_kids. apply IH.
  rewrite Forall_forall in Hf. now apply Hf.
Qed.

Lemma weighed_rep h h' t : weighed h h' t -> rep h t -> rep h' t.
Proof.
  induction t as [p ts IH] using tree_ind'. intros [E Hw]%weighed_inv (n & En & Hc & Hf)%rep_inv. rewrite En in E.
  apply (rep_intro _ _ _ _ E); [exact Hc |]. rewrite Forall_forall in *. intros k Hk. apply (IH k Hk); auto.
Qed.

(** ** The store's tree *)

Record tree_ok (s : Store) (t : tree) : Prop := {
  tree_root : treeRootNode s = Some (tptr t);
  tree_rep : rep (heap s) t;
  tree_NoDup : NoDup (ptrs t);
  tree_roots : proper_roots (heap s) t
}.

Section Head.
Context (cfg : BeaconChainConfig) (now : Z).
Context (Hspe : 0 < SlotsPerEpoch cfg) (Hsec : 0 < SecondsPerSlot cfg).

Lemma EpochsSinceGenesis_ok g sl : CurrentSlot cfg now g = Ok sl -> EpochsSinceGenesis cfg now g = Ok (sl / SlotsPerEpoch cfg).
Proof.
  unfold CurrentSlot, EpochsSinceGenesis, SinceGenesis. intros ->. cbn [mbind result_bind]. now rewrite udiv_ok by lia.
Qed.

Lemma ToEpoch_div sl : ToEpoch cfg sl = Ok (sl / SlotsPerEpoch cfg).
Proof.
  unfold ToEpoch, Slot.DivSlot, Slot.Div, Slot.SafeDiv, Math.Div64.
  destruct (Z.eqb_spec (SlotsPerEpoch cfg) 0); [lia | reflexivity].
Qed.

(** The walk from the justified node once the links are described. *)
Lemma Store_head_ok s sl h tj : CurrentSlot cfg now (storeGenesisTime s) = Ok sl ->
  justified_node cfg s = Ok (tptr tj) -> rep h tj -> NoDup (ptrs tj) ->
  described cfg (Epoch_ (justifiedCheckpoint s)) (sl / SlotsPerEpoch cfg) h (heap s) tj ->
  exists d s', ghost cfg (Epoch_ (justifiedCheckpoint s)) (sl / SlotsPerEpoch cfg) h tj d /\
    Store_head cfg now s = (Ok (node_root h d), s') /\ headNode s' = Some d /\ heap s' = heap s.
Proof.
  intros Hsl Hj Hrep Hnd Hd. set (cE := sl / SlotsPerEpoch cfg) in *. set (jE := Epoch_ (justifiedCheckpoint s)) in *.
  destruct (described_tip cfg Hspe jE cE h (heap s) tj Hnd Hrep Hd) as (jn & Ejn & Etip).
  pose proof (described_sim _ _ _ _ _ _ Hd) as Hsim. pose proof (rep_sim _ _ _ Hsim Hrep) as Hrep'.
  destruct tj as [j ts]. cbn [tptr] in *. pose proof Hd as Hd'. apply described_inv in Hd' as [(d & Hg & Ed) _].
  destruct (rep_inv _ _ _ Hrep) as (n & En & _). rewrite En, Ejn in Ed. injection Ed as ->.
  destruct (rep_lookup _ _ d Hrep' (ghost_ptr _ _ _ _ _ _ Hg)) as [bn Ebn].
  assert (root bn = node_root h d) as Hroot.
  { pose proof (node_sim cfg jE cE h (heap s) d (Hsim d (ghost_ptr _ _ _ _ _ _ Hg))) as (_ & -> & _).
    unfold node_root. now rewrite Ebn. }
  assert (default j (best_link j d) = d) as Hdef by (unfold best_link; now destruct (decide (d = j)) as [-> |]).
  assert (d <> j -> viable cfg jE cE bn = true) as Hv.
  { intros Hne. assert (filtered cfg jE cE h (Tree j ts) = true) as Hf.
    { inversion Hg as [| ? ? k d' Hk Hf Hmax Hg']; subst; [congruence |]. destruct ts; [now apply not_elem_of_nil in Hk |].
      apply existsb_exists. exists k. split; [now apply list_elem_of_In | exact Hf]. }
    destruct (ghost_filtered _ _ _ _ _ _ Hg Hf) as [Hv _].
    pose proof (node_sim cfg jE cE h (heap s) d (Hsim d (ghost_ptr _ _ _ _ _ _ Hg))) as (_ & _ & E).
    rewrite E in Hv. unfold node_viable in Hv. now rewrite Ebn in Hv. }
  exists d. unfold Store_head, get, liftR, modify, throw, mbind, ST_bind, mret, ST_ret.
  rewrite Hj, (deref_ok _ _ _ Ejn). cbn [bestDescendant set_bestDescendant]. rewrite Hdef, (deref_ok _ _ _ Ebn).
  rewrite (EpochsSinceGenesis_ok _ sl Hsl). fold cE jE.
  assert (viableForHead cfg bn jE cE = Ok (viable cfg jE cE bn)) as Evb by now apply viableForHead_ok.
  rewrite <- Hroot. rewrite Etip, Evb.
  destruct (decide (d = j)) as [-> | Hne]; [| rewrite (Hv Hne)]; cbn [negb];
    destruct (filtered _ _ _ _ _); eexists; (split; [exact Hg |]); split_and!; reflexivity.
Qed.

(** What the two passes over the tree leave to [Store_head]. *)
Lemma select_head_passes f sl t : tree_ok (store f) t ->
  exists hw hd, weighed (heap (store f)) hw t /\ rep hw t /\
    described cfg (Epoch_ (justifiedCheckpoint (store f))) (sl / SlotsPerEpoch cfg) hw hd t /\
    forall r s', Store_head cfg now (set_heap hd (store f)) = (r, s') ->
      select_head cfg now sl f = (r, set_store s' f).
Proof.
  intros [Ht Hrep Hnd Hz]. set (s := store f) in *.
  destruct (applyWeightChanges_ok t (heap_fuel s)) with (h := heap s) as (hw & Ew & Hw & _); try assumption.
  { unfold heap_fuel. pose proof (height_size _ _ Hrep Hnd). lia. }
  pose proof (weighed_rep _ _ _ Hw Hrep) as Hrw.
  destruct (updateBestDescendant_ok cfg Hspe (Epoch_ (justifiedCheckpoint s)) (sl / SlotsPerEpoch cfg) t (S (size hw)))
    with (h := hw) as (hd & Ed & Hd & _); try assumption.
  { pose proof (height_size _ _ Hrw Hnd). lia. }
  exists hw, hd. split_and!; try assumption. intros r s' Eh.
  unfold select_head, get, liftR, modify, on_store, mbind, ST_bind. fold s. rewrite Ht, Ew, ToEpoch_div.
  unfold heap_fuel in *. cbn [store set_store heap set_heap justifiedCheckpoint treeRootNode]. fold s. rewrite Ed.
  change (set_heap hd (set_heap hw s)) with (set_heap hd s). cbn [store set_store heap set_heap]. rewrite Eh. reflexivity.
Qed.

Lemma select_head_ok f sl t tj : tree_ok (store f) t ->
  CurrentSlot cfg now (storeGenesisTime (store f)) = Ok sl ->
  justified_node cfg (store f) = Ok (tptr tj) -> subtree tj t ->
  exists hw d f', select_head cfg now sl f = (Ok (node_root hw d), f') /\
    weighed (heap (store f)) hw t /\
    ghost cfg (Epoch_ (justifiedCheckpoint (store f))) (sl / SlotsPerEpoch cfg) hw tj d /\
    headNode (store f') = Some d.
Proof.
  intros Ht Hsl Hj Hs. destruct (select_head_passes f sl t Ht) as (hw & hd & Hw & Hrw & Hd & Hrun).
  destruct (Store_head_ok (set_heap hd (store f)) sl hw tj) as (d & s' & Hg & Eh & Hhead & _); try assumption.
  - now apply (subtree_rep hw tj t).
  - now apply (NoDup_subtree tj t), (tree_NoDup _ _ Ht).
  - now apply (described_subtree _ _ _ _ _ tj t).
  - exists hw, d, (set_store s' f). split_and!; try assumption. now apply Hrun.
Qed.

(** Without a justified block the passes succeed and the lookup fails. *)
Lemma select_head_unknown f sl t e : tree_ok (store f) t -> justified_node cfg (store f) = Err e ->
  exists f', select_head cfg now sl f = (Err e, f').
Proof.
  intros Ht Hj. destruct (select_head_passes f sl t Ht) as (hw & hd & _ & _ & _ & Hrun). eexists. apply Hrun.
  unfold Store_head, get, liftR, mbind, ST_bind. unfold justified_node in *. cbn [nodeByRoot justifiedCheckpoint treeRootNode set_heap].
  rewrite Hj. reflexivity.
Qed.

(** ** Operations that change balances only *)

(** What the traversals read of a node besides balances, weights and epochs. *)
Definition shape (n : Node) : list ptr * list Z := (children n, root n).

(** [s'] is [s] up to node balances and the records of the boost. *)
Record same_tree (s s' : Store) : Prop := {
  same_heap : forall q, shape <$> heap s' !! q = shape <$> heap s !! q;
  same_root : treeRootNode s' = treeRootNode s;
  same_index : nodeByRoot s' = nodeByRoot s;
  same_justified : justifiedCheckpoint s' = justifiedCheckpoint s;
  same_genesis : storeGenesisTime s' = storeGenesisTime s
}.

#[local] Instance same_tree_trans : Transitive same_tree.
Proof. intros s1 s2 s3 [] []. split; first [congruence | intros q; etransitivity; eauto]. Qed.

#[local] Instance same_tree_refl : Reflexive same_tree.
Proof. now split. Qed.

Lemma same_tree_alter f p s : (forall n, shape (f n) = shape n) -> same_tree s (set_heap (alter f p (heap s)) s).
Proof.
  intros Hf. split; try reflexivity. intros q. cbn [heap set_heap]. rewrite lookup_alter.
  destruct (decide (p = q)) as [-> |]; [| reflexivity]. destruct (heap s !! q); [| reflexivity]. cbn. f_equal. apply Hf.
Qed.

Lemma shape_sub d n : shape (sub_node_balance d n) = shape n.
Proof. unfold sub_node_balance. now destruct (balance n <? d). Qed.

Lemma rep_shape h h' t : (forall q, shape <$> h' !! q = shape <$> h !! q) -> rep h t -> rep h' t.
Proof.
  intros Hs. induction t as [p ts IH] using tree_ind'. intros (n & En & Hc & Hf)%rep_inv. specialize (Hs p) as Hp. rewrite En in Hp.
  destruct (h' !! p) as [n' |] eqn:En'; [| discriminate]. injection Hp as Hc' _.
  apply (rep_intro _ _ _ n' En'); [congruence |]. rewrite Forall_forall in *. intros k Hk. apply (IH k Hk). now apply Hf.
Qed.

Lemma same_tree_ok s s' t : same_tree s s' -> tree_ok s t -> tree_ok s' t.
Proof.
  intros [Hs Hr _ _ _] [Ht Hrep Hnd Hz]. split; [congruence | now apply (rep_shape (heap s)) | exact Hnd |].
  intros q n Hq Hn. specialize (Hs q). rewrite Hn in Hs. destruct (heap s !! q) as [n' |] eqn:E; [| discriminate].
  injection Hs as _ Hroot. rewrite Hroot. now apply (Hz q n').
Qed.

Lemma same_tree_justified s s' : same_tree s s' -> justified_node cfg s' = justified_node cfg s.
Proof. intros [_ Hr Hi Hj _]. unfold justified_node. now rewrite Hr, Hi, Hj. Qed.

Lemma add_balance_same r d s : same_tree s (add_balance r d s).
Proof. unfold add_balance. destruct (_ !! _); [| reflexivity]. destruct (bool_decide _); [reflexivity |]. now apply same_tree_alter. Qed.

Lemma sub_balance_same r d s : same_tree s (sub_balance r d s).
Proof.
  unfold sub_balance. destruct (_ !! _); [| reflexivity]. destruct (bool_decide _); [reflexivity |].
  apply same_tree_alter, shape_sub.
Qed.

Lemma update_votes_same old new vs : forall i s, same_tree s (update_votes old new i s vs).1.
Proof.
  induction vs as [| v vs IH]; intros i s; cbn [update_votes]; [reflexivity |].
  assert (same_tree s (update_vote old new i s v).1) as Hv.
  { unfold update_vote. destruct (decide _); [reflexivity |]. destruct (_ && _); [reflexivity |]. cbn [fst].
    destruct (_ || _); [| reflexivity]. etransitivity; [apply add_balance_same | apply sub_balance_same]. }
  destruct (update_vote old new i s v) as [s1 v1]. specialize (IH (i + 1) s1). destruct (update_votes old new (i + 1) s1 vs) as [s2 vs2].
  cbn [fst] in *. etransitivity; eassumption.
Qed.

Lemma updateBalances_same f : same_tree (store f) (store (updateBalances f)).
Proof.
  unfold updateBalances. pose proof (update_votes_same (balances f) (justifiedBalances f) (votes f) 0 (store f)) as Hs.
  destruct (update_votes _ _ _ _ _) as [s vs]. exact Hs.
Qed.

Lemma same_tree_record x r s s1 : same_tree s s1 ->
  same_tree s (set_previousProposerBoostScore x (set_previousProposerBoostRoot r s1)).
Proof. intros []. split; assumption. Qed.

Lemma boost_same s : same_tree s (applyProposerBoostScore cfg s).
Proof.
  unfold applyProposerBoostScore. set (s1 := if bool_decide (previousProposerBoostRoot s = ZeroHash) then s else _).
  assert (same_tree s s1) as H1.
  { unfold s1. destruct (bool_decide _); [reflexivity |]. destruct (_ !! _); [| reflexivity]. apply same_tree_alter, shape_sub. }
  clearbody s1. destruct (bool_decide _); [now apply same_tree_record |]. destruct (_ !! _) as [p |]; [| now apply same_tree_record].
  apply same_tree_record. etransitivity; [exact H1 |]. now apply same_tree_alter.
Qed.

(** ** Operations that keep the genesis time *)

Definition same_genesis_time (s s' : Store) : Prop := storeGenesisTime s = storeGenesisTime s'.

#[local] Instance same_genesis_time_preorder : PreOrder same_genesis_time.
Proof. split; [now intros s | unfold same_genesis_time; intros s1 s2 s3; congruence]. Qed.

Definition keeps {A} (m : ST ForkChoice A) : Prop := moves (on_stores same_genesis_time) m.

Lemma keeps_modify (g : ForkChoice -> ForkChoice) : (forall f, storeGenesisTime (store (g f)) = storeGenesisTime (store f)) -> keeps (modify g).
Proof. intros Hg f. symmetry. apply Hg. Qed.

Lemma keeps_on_store (g : Store -> Store) : (forall s, storeGenesisTime (g s) = storeGenesisTime s) -> keeps (on_store (modify g)).
Proof. intros Hg f. symmetry. apply Hg. Qed.

Definition fixed_by_prune (s s' : Store) : Prop :=
  storeGenesisTime s' = storeGenesisTime s /\ justifiedCheckpoint s' = justifiedCheckpoint s /\ finalizedCheckpoint s' = finalizedCheckpoint s.

Lemma applyPrune_frame plan s s' : applyPrune plan s = Ok s' -> fixed_by_prune s s'.
Proof.
  unfold applyPrune. destruct (foldM prune_node s (planRemoved plan)) as [s1 | |] eqn:E; [| discriminate | discriminate].
  assert (fixed_by_prune s s1) as Es.
  { revert s E. induction (planRemoved plan) as [| q l IH]; intros s E; cbn [foldM] in E; [injection E as <-; now split_and! |].
    destruct (prune_node s q) as [s2 | |] eqn:E2; [| discriminate | discriminate].
    unfold prune_node in E2. destruct (deref (heap s) q); [| discriminate | discriminate].
    injection E2 as <-. exact (IH _ E). }
  cbn. destruct (deref (heap s1) _); [| discriminate | discriminate]. cbn. intros [= <-]. exact Es.
Qed.

Lemma keeps_justified balancesByRoot jc : keeps (UpdateJustifiedCheckpoint cfg balancesByRoot jc).
Proof.
  unfold keeps, UpdateJustifiedCheckpoint, updateJustifiedBalances. repeat moves_step; [now apply keeps_modify | now apply keeps_on_store ..].
Qed.

Lemma keeps_updateUnrealized balancesByRoot e : keeps (updateUnrealizedCheckpoints cfg balancesByRoot e).
Proof.
  unfold keeps, updateUnrealizedCheckpoints. repeat moves_step; [apply keeps_justified | now apply keeps_on_store ..].
Qed.

Lemma keeps_prune plan (k : Store -> ForkChoice -> ForkChoice) : (forall s f, store (k s f) = s) ->
  keeps (f ← get; s ← liftR (applyPrune plan (store f)); modify (k s)).
Proof.
  intros Hk f. unfold get, liftR, modify, mbind, ST_bind.
  destruct (applyPrune plan (store f)) as [s | |] eqn:E; [| reflexivity | reflexivity].
  unfold on_stores, same_genesis_time. cbn [snd]. rewrite Hk. apply applyPrune_frame in E as [-> _]. reflexivity.
Qed.

Lemma keeps_NewSlot balancesByRoot sl : keeps (NewSlot cfg balancesByRoot sl).
Proof.
  unfold keeps, NewSlot. repeat first [now apply (keeps_prune _ (fun s f => set_pendingEpoch _ (set_lastProcessedEpoch _ (set_store s f)))) | moves_step].
  - apply keeps_on_store. intros s. unfold expireProposerBoost. repeat case_match; reflexivity.
  - now apply keeps_modify.
  - apply keeps_updateUnrealized.
Qed.

(** The store that the weights of [Head] are computed from. *)
Definition voted (f : ForkChoice) : Store := applyProposerBoostScore cfg (store (updateBalances f)).

(** C2. [Head] follows the specification's LMD-GHOST rule.  Once the slot is processed, on a
    store whose blocks form a tree without a zero root and whose index points into that
    tree: if the justified checkpoint is that of the genesis epoch or its block is in the
    index, [Head] does not fail and returns the root of the block reached from the justified
    block (for an unknown root of the genesis epoch, from the root of the tree) by
    following, through the filtered block tree, the child with the greatest subtree balance,
    ties broken by the greater root.  Otherwise, when the justified block was removed, it
    fails with the error of an unknown justified root. *)
Theorem head_is_lmd_ghost balancesByRoot f f1 sl t :
  CurrentSlot cfg now (storeGenesisTime (store f)) = Ok sl -> NewSlot cfg balancesByRoot sl f = (Ok tt, f1) ->
  tree_ok (store f1) t -> map_Forall (fun _ p => p ∈ ptrs t) (nodeByRoot (store f1)) ->
  let jc := justifiedCheckpoint (store f1) in
  let from := match nodeByRoot (store f1) !! Root jc with
              | Some j => Some j
              | None => if Epoch_ jc =? GenesisEpoch cfg then Some (tptr t) else None
              end in
  match from with
  | Some j => exists tj hw d f', tptr tj = j /\ subtree tj t /\
      Head cfg now balancesByRoot f = (Ok (node_root hw d), f') /\
      weighed (heap (voted f1)) hw t /\
      ghost cfg (Epoch_ jc) (sl / SlotsPerEpoch cfg) hw tj d /\
      headNode (store f') = Some d
  | None => exists e f', Head cfg now balancesByRoot f = (Err e, f') /\ errors_Is e errUnknownJustifiedRoot = true
  end.
Proof.
  intros Hsl Hnew Ht Hidx jc from. pose proof (keeps_NewSlot balancesByRoot sl f) as Hgen.
  rewrite Hnew in Hgen. unfold on_stores, same_genesis_time in Hgen. cbn [snd] in Hgen.
  set (f2 := set_store (voted f1) (updateBalances f1)).
  assert (same_tree (store f1) (store f2)) as Hsame by (etransitivity; [apply updateBalances_same | apply boost_same]).
  assert (tree_ok (store f2) t) as Ht2 by now apply (same_tree_ok (store f1)).
  assert (forall r f', select_head cfg now sl f2 = (r, f') -> Head cfg now balancesByRoot f = (r, f')) as Hrun.
  { intros r f' E. unfold Head, wrapM, get, liftR, modify, on_store, mbind, ST_bind. rewrite Hsl, Hnew. cbn [wrap]. exact E. }
  assert (justified_node cfg (store f2) = match from with Some j => Ok j | None => Err (Wrapped "unknown root" errUnknownJustifiedRoot) end) as Hj.
  { rewrite (same_tree_justified _ _ Hsame). unfold justified_node, from, jc. destruct (nodeByRoot _ !! _); [reflexivity |].
    destruct (_ =? _); [| reflexivity]. now rewrite (tree_root _ _ Ht). }
  assert (forall j, from = Some j -> j ∈ ptrs t) as Hin.
  { intros j. unfold from. destruct (nodeByRoot (store f1) !! Root jc) as [j' |] eqn:Er; [intros [= <-]; exact (Hidx _ _ Er) |].
    destruct (_ =? _); [| discriminate]. intros [= <-]. destruct t. apply list_elem_of_here. }
  clearbody from. destruct from as [j |].
  - destruct (ptrs_subtree t j (Hin j eq_refl)) as (tj & Hs & <-).
    destruct (select_head_ok f2 sl t tj) as (hw & d & f' & E & Hw & Hg & Hh); try assumption.
    { rewrite (same_genesis _ _ Hsame), <- Hgen. exact Hsl. }
    rewrite (same_justified _ _ Hsame) in Hg. exists tj, hw, d, f'. split_and!; try assumption; [reflexivity | now apply Hrun].
  - destruct (select_head_unknown f2 sl t _ Ht2 Hj) as [f' E]. eexists _, f'. split; [exact (Hrun _ _ E) | vm_compute; reflexivity].
Qed.
End Head.

(** ** A sample store: a root block with two children *)

Definition sample_block (r p sl : Z) : ROBlock := mkROBlock (ToBytes32 [r]) sl (ToBytes32 [p]) (Ok (ToBytes32 [100 + r])).
Definition sample_insert (b : ROBlock) : ST ForkChoice ptr := on_store (Store_insert MinimalSpecConfig 12 b 0 0).

(** Two validators vote for the block 2 and one for the block 3. *)
Definition sample_build : ST ForkChoice unit :=
  _ ← sample_insert (sample_block 1 0 0);
  _ ← sample_insert (sample_block 2 1 1);
  _ ← sample_insert (sample_block 3 1 2);
  modify (fun f => ProcessAttestation [2] (ToBytes32 [3]) 0 (ProcessAttestation [0; 1] (ToBytes32 [2]) 0
    (set_justifiedBalances [32; 32; 32] f))).

Definition sample_forkchoice : ForkChoice := (sample_build (New_forkchoice minimalFieldParams)).2.
Definition sample_tree : tree := Tree 0%nat [Tree 1%nat []; Tree 2%nat []].
Definition sample_ticked : ForkChoice := (NewSlot MinimalSpecConfig (fun _ => Ok None) 2 sample_forkchoice).2.

Lemma head_is_lmd_ghost_witness : exists tj hw d f', tptr tj = 0%nat /\ subtree tj sample_tree /\
  Head MinimalSpecConfig 12 (fun _ => Ok None) sample_forkchoice = (Ok (node_root hw d), f') /\
  weighed (heap (voted MinimalSpecConfig sample_ticked)) hw sample_tree /\
  ghost MinimalSpecConfig (Epoch_ (justifiedCheckpoint (store sample_ticked))) (2 / SlotsPerEpoch MinimalSpecConfig) hw tj d /\
  headNode (store f') = Some d.
Proof.
  pose proof (head_is_lmd_ghost MinimalSpecConfig 12 eq_refl (fun _ => Ok None) sample_forkchoice sample_ticked 2 sample_tree) as Hhead.
  cbv zeta in Hhead.
  assert (nodeByRoot (store sample_ticked) !! Root (justifiedCheckpoint (store sample_ticked)) = None) as E1 by (vm_compute; reflexivity).
  assert ((Epoch_ (justifiedCheckpoint (store sample_ticked)) =? GenesisEpoch MinimalSpecConfig) = true) as E2 by (vm_compute; reflexivity).
  rewrite E1, E2 in Hhead. apply Hhead.
  - vm_compute. reflexivity.
  - vm_compute. reflexivity.
  - split; [vm_compute; reflexivity | | |].
    + repeat (eapply rep_intro; [vm_compute; reflexivity | reflexivity | repeat constructor]).
    + apply (bool_decide_unpack _). vm_compute. exact I.
    + intros q n Hq Hn Hz. apply (f_equal (fmap root)) in Hn. cbn in Hn. rewrite Hz in Hn. cbn in Hq. rewrite !elem_of_cons in Hq.
      destruct Hq as [-> | [-> | [-> | Hq%not_elem_of_nil]]]; [vm_compute in Hn; discriminate .. | exact Hq].
  - apply (bool_decide_unpack _). vm_compute. exact I.
Defined.

(** In the first epoch [ReceivedBlocksLastEpoch] counts from the current slot on:
    the sample store has received the blocks of the slots 1 and 2, and at slot 3
    of the first epoch none of them is counted. *)
Example received_first_epoch : ReceivedBlocksLastEpoch MinimalSpecConfig 12 minimalFieldParams (store sample_forkchoice) = Ok 1 /\
  ReceivedBlocksLastEpoch MinimalSpecConfig 18 minimalFieldParams (store sample_forkchoice) = Ok 0.
Proof. vm_compute. auto. Qed.
