(* ===== verification/ForkVotes.v ===== *)
(** * Vote accounting

    The balance of a node is the balance of the validators whose counted vote is
    the node's block, without slashed validators, plus the proposer boost in
    force.  [updateBalances] moves it to the latest votes and the justified
    balances by differences only. *)

From S2P Require Import Prelude Math Config Slots Bytes Shuffle State Validators EpochPrecompute ForkStore ForkChoice ForkTree ForkHead.

(** ** The index *)

(** Every indexed pointer is a node of that root. *)
Definition index_ok (s : Store) : Prop :=
  forall r p, nodeByRoot s !! r = Some p -> exists n, heap s !! p = Some n /\ root n = r.

(** The direct balance of the block with root [r]. *)
Definition bal (s : Store) (r : list Z) : option Z :=
  p ← nodeByRoot s !! r; n ← heap s !! p; Some (balance n).

Lemma index_inj s r r' p : index_ok s -> nodeByRoot s !! r = Some p -> nodeByRoot s !! r' = Some p -> r = r'.
Proof. intros Hi E E'. destruct (Hi _ _ E) as (n & En & <-), (Hi _ _ E') as (n' & En' & <-). congruence. Qed.

(** The change of the node indexed at [r], if there is one. *)
Definition at_root (r : list Z) (g : Node -> Node) (s : Store) : Store :=
  match nodeByRoot s !! r with None => s | Some p => set_heap (alter g p (heap s)) s end.

Lemma at_root_bal r g h s : index_ok s -> (forall n, root (g n) = root n) -> (forall n, balance (g n) = h (balance n)) ->
  index_ok (at_root r g s) /\
  forall r', bal (at_root r g s) r' = if decide (r' = r) then h <$> bal s r' else bal s r'.
Proof.
  intros Hi Hroot Hbal. unfold at_root. destruct (nodeByRoot s !! r) as [p |] eqn:Ep.
  2: { split; [exact Hi |]. intros r'. destruct (decide (r' = r)) as [-> |]; [| reflexivity]. unfold bal. now rewrite Ep. }
  split.
  - intros r' q Hq. cbn [nodeByRoot heap set_heap] in *. destruct (Hi _ _ Hq) as (n & En & Hn).
    rewrite lookup_alter. destruct (decide (p = q)) as [-> |]; [| eauto]. rewrite En. cbn. eexists. split; [reflexivity |].
    now rewrite Hroot.
  - intros r'. unfold bal. cbn [nodeByRoot heap set_heap]. destruct (decide (r' = r)) as [-> | Hne].
    + rewrite Ep. cbn. rewrite lookup_alter, decide_True by reflexivity.
      destruct (Hi _ _ Ep) as (n & -> & _). cbn. now rewrite Hbal.
    + destruct (nodeByRoot s !! r') as [q |] eqn:Eq; [| reflexivity]. cbn.
      rewrite lookup_alter_ne; [reflexivity |]. intros ->. apply Hne. eapply index_inj; eauto.
Qed.

Lemma at_root_frame r g s : slashedIndices (at_root r g s) = slashedIndices s /\
  previousProposerBoostRoot (at_root r g s) = previousProposerBoostRoot s /\
  previousProposerBoostScore (at_root r g s) = previousProposerBoostScore s /\
  proposerBoostRoot (at_root r g s) = proposerBoostRoot s /\ committeeWeight (at_root r g s) = committeeWeight s /\
  nodeByRoot (at_root r g s) = nodeByRoot s.
Proof. unfold at_root. destruct (nodeByRoot s !! r); auto 10. Qed.

Definition sat_sub (b d : Z) : Z := if b <? d then 0 else b -u d.

Lemma sub_node_root d n : root (sub_node_balance d n) = root n.
Proof. unfold sub_node_balance. now destruct (_ <? _). Qed.

Lemma sub_node_sat d n : balance (sub_node_balance d n) = sat_sub (balance n) d.
Proof. unfold sub_node_balance, sat_sub. now destruct (_ <? _). Qed.

Lemma sat_sub_exact b d : 0 <= d -> d <= b < two64 -> sat_sub b d = b - d.
Proof. intros Hd Hb. unfold sat_sub. destruct (Z.ltb_spec b d); [lia |]. apply u64_small. unfold u64_ok. lia. Qed.

Lemma add_balance_bal r d s : index_ok s ->
  index_ok (add_balance r d s) /\
  (forall r', r' <> ZeroHash -> bal (add_balance r d s) r' = if decide (r' = r) then (fun b => b +u d) <$> bal s r' else bal s r').
Proof.
  intros Hi. destruct (at_root_bal r (fun n => set_balance (balance n +u d) n) (fun b => b +u d) s Hi) as [Hi' Hb]; [reflexivity | reflexivity |].
  unfold add_balance, at_root in *. destruct (nodeByRoot s !! r) as [p |]; [| auto].
  destruct (bool_decide_reflect (r = ZeroHash)) as [-> |]; [| auto]. split; [exact Hi |]. intros r' Hz. now rewrite decide_False.
Qed.

Lemma sub_balance_bal r d s : index_ok s ->
  index_ok (sub_balance r d s) /\
  (forall r', r' <> ZeroHash -> bal (sub_balance r d s) r' = if decide (r' = r) then (fun b => sat_sub b d) <$> bal s r' else bal s r').
Proof.
  intros Hi. destruct (at_root_bal r (sub_node_balance d) (fun b => sat_sub b d) s Hi (sub_node_root d) (sub_node_sat d)) as [Hi' Hb].
  unfold sub_balance, at_root in *. destruct (nodeByRoot s !! r) as [p |]; [| auto].
  destruct (bool_decide_reflect (r = ZeroHash)) as [-> |]; [| auto]. split; [exact Hi |]. intros r' Hz. now rewrite decide_False.
Qed.

(** ** Counted votes *)

Definition vote_value (slashed : gset Z) (bals : list Z) (i : Z) (v : Vote) (r : list Z) : Z :=
  if decide (i ∈ slashed) then 0 else if decide (currentRoot v = r) then balance_or_zero bals i else 0.

(** The balance of the votes [vs] of the validators [i], [i + 1], ... for [r]. *)
Fixpoint counted (slashed : gset Z) (bals : list Z) (i : Z) (vs : list Vote) (r : list Z) : Z :=
  match vs with
  | [] => 0
  | v :: vs' => vote_value slashed bals i v r + counted slashed bals (i + 1) vs' r
  end.

(** All balances of a range of validators, an upper bound of every count. *)
Fixpoint range_sum (bals : list Z) (i : Z) (vs : list Vote) : Z :=
  match vs with
  | [] => 0
  | _ :: vs' => balance_or_zero bals i + range_sum bals (i + 1) vs'
  end.

Lemma balance_or_zero_nonneg bals i : Forall u64_ok bals -> 0 <= balance_or_zero bals i.
Proof.
  intros Hb. unfold balance_or_zero. destruct (bals !! Z.to_nat i) as [b |] eqn:E; cbn; [| lia].
  pose proof (Forall_lookup_1 _ _ _ _ Hb E) as [? _]. lia.
Qed.

Lemma vote_value_bounds slashed bals i v r : Forall u64_ok bals -> 0 <= vote_value slashed bals i v r <= balance_or_zero bals i.
Proof.
  intros Hb. pose proof (balance_or_zero_nonneg bals i Hb). unfold vote_value. destruct (decide _); [lia |]. destruct (decide _); lia.
Qed.

Lemma counted_bounds slashed bals vs r : Forall u64_ok bals -> forall i, 0 <= counted slashed bals i vs r <= range_sum bals i vs.
Proof.
  intros Hb. induction vs as [| v vs IH]; intros i; cbn [counted range_sum]; [lia |].
  pose proof (vote_value_bounds slashed bals i v r Hb). specialize (IH (i + 1)). lia.
Qed.

Lemma range_sum_nonneg bals vs i : Forall u64_ok bals -> 0 <= range_sum bals i vs.
Proof. intros Hb. pose proof (counted_bounds ∅ bals vs ZeroHash Hb i). lia. Qed.

(** The vote after the update. *)
Definition rotated (slashed : gset Z) (i : Z) (v : Vote) : Vote :=
  if decide (i ∈ slashed) then v else mkVote (nextRoot v) (nextRoot v) (nextEpoch v).

Section Update.
Context (slashed : gset Z) (old new : list Z) (Hold : Forall u64_ok old) (Hnew : Forall u64_ok new).

(** The balances of a store, block by block, for the counts [val]. *)
Definition holds (s : Store) (val : list Z -> Z) : Prop :=
  index_ok s /\ slashedIndices s = slashed /\ forall r b, r <> ZeroHash -> bal s r = Some b -> b = val r.

Lemma holds_ext s v1 v2 : (forall r, r <> ZeroHash -> v1 r = v2 r) -> holds s v1 -> holds s v2.
Proof. intros He (Hi & Hsl & Hb). split_and!; [exact Hi | exact Hsl |]. intros r b Hz E. rewrite <- He by exact Hz. now apply Hb. Qed.

Definition same_blocks (s s' : Store) : Prop := forall r, r <> ZeroHash -> is_Some (bal s' r) <-> is_Some (bal s r).

Lemma is_Some_if {A} (c : bool) (f : A -> A) (x : option A) : is_Some (if c then f <$> x else x) <-> is_Some x.
Proof. destruct c; [apply fmap_is_Some | reflexivity]. Qed.

(** Moving a vote of value [o] at [cur] to the value [n] at [next]. *)
Lemma move_vote s base cur next o n : 0 <= o -> 0 <= n ->
  (forall r, r <> ZeroHash -> 0 <= base r /\ base r + o + n < two64) ->
  holds s (fun r => base r + (if decide (cur = r) then o else 0)) ->
  let s' := sub_balance cur o (add_balance next n s) in
  holds s' (fun r => base r + (if decide (next = r) then n else 0)) /\ same_blocks s s'.
Proof.
  intros Ho Hn Hbase (Hi & Hsl & Hb) s'.
  destruct (add_balance_bal next n s Hi) as [Hi1 Hb1]. destruct (sub_balance_bal cur o _ Hi1) as [Hi2 Hb2]. fold s' in Hi2, Hb2.
  assert (slashedIndices s' = slashed) as Hsl'.
  { rewrite <- Hsl. unfold s', sub_balance, add_balance. repeat case_match; reflexivity. }
  split; [split; [exact Hi2 | split; [exact Hsl' |]] |].
  - intros r b Hz E. rewrite (Hb2 r Hz), (Hb1 r Hz) in E. destruct (Hbase r Hz) as [Hr0 Hr1].
    destruct (bal s r) as [b0 |] eqn:E0; [| destruct (decide (r = cur)), (decide (r = next)); discriminate].
    specialize (Hb r b0 Hz E0).
    destruct (decide (cur = r)) as [-> | Hc], (decide (next = r)) as [-> | Hx]; subst b0;
      repeat match type of E with context [decide (?a = ?b)] =>
        first [rewrite (decide_True (P := a = b)) in E by reflexivity | rewrite (decide_False (P := a = b)) in E by congruence] end;
      cbn in E; injection E as <-; unfold sat_sub; rewrite ?(u64_small (_ + n)) by (unfold u64_ok; lia);
      try (destruct (Z.ltb_spec (base r + o + n) o); [lia |]); try (destruct (Z.ltb_spec (base r + o) o); [lia |]);
      rewrite ?u64_small by (unfold u64_ok; lia); lia.
  - intros r Hz. rewrite (Hb2 r Hz), (Hb1 r Hz).
    destruct (decide (r = cur)), (decide (r = next)); rewrite ?fmap_is_Some; reflexivity.
Qed.

(** One vote: every block loses the old value of the vote and gains the new one. *)
Lemma update_vote_bal i s v base :
  (forall r, r <> ZeroHash -> 0 <= base r /\ base r + balance_or_zero old i + balance_or_zero new i < two64) ->
  holds s (fun r => base r + vote_value slashed old i v r) ->
  let '(s', v') := update_vote old new i s v in
  holds s' (fun r => base r + vote_value slashed new i v' r) /\ same_blocks s s' /\ v' = rotated slashed i v.
Proof.
  intros Hbase Hh. assert (slashedIndices s = slashed) as Hsl by apply Hh. unfold update_vote, rotated. rewrite Hsl.
  destruct (decide (i ∈ slashed)) as [Hin | Hout].
  { split_and!; [| now intros r | reflexivity]. revert Hh. apply holds_ext. intros r _.
    unfold vote_value. now rewrite !decide_True by exact Hin. }
  destruct (bool_decide_reflect (currentRoot v = ZeroHash)) as [Ec |];
    [destruct (bool_decide_reflect (nextRoot v = ZeroHash)) as [En |] |]; cbn [andb].
  1: { split_and!; [| now intros r | destruct v; cbn in *; congruence]. revert Hh. apply holds_ext. intros r Hz. unfold vote_value.
       rewrite !(decide_False (P := i ∈ slashed)), !(decide_False (P := currentRoot v = r)) by (assumption || congruence). reflexivity. }
  all: assert (holds s (fun r => base r + (if decide (currentRoot v = r) then balance_or_zero old i else 0))) as Hh'
    by (revert Hh; apply holds_ext; intros r _; unfold vote_value; now rewrite (decide_False (P := i ∈ slashed)) by exact Hout).
  all: assert (forall s', holds s' (fun r => base r + (if decide (nextRoot v = r) then balance_or_zero new i else 0)) ->
      holds s' (fun r => base r + vote_value slashed new i (mkVote (nextRoot v) (nextRoot v) (nextEpoch v)) r)) as Hfin
    by (intros s'; apply holds_ext; intros r _; unfold vote_value; cbn [currentRoot];
        now rewrite (decide_False (P := i ∈ slashed)) by exact Hout).
  all: pose proof (balance_or_zero_nonneg old i Hold) as Ho; pose proof (balance_or_zero_nonneg new i Hnew) as Hn.
  all: destruct (move_vote s base (currentRoot v) (nextRoot v) _ _ Ho Hn Hbase Hh') as [Hm Hs].
  all: destruct (bool_decide_reflect (currentRoot v = nextRoot v)) as [Ecn |], (Z.eqb_spec (balance_or_zero old i) (balance_or_zero new i)) as [Eon |];
    cbn [negb orb]; (split_and!; [apply Hfin; try exact Hm | try exact Hs | reflexivity]); try now intros r.
  all: rewrite <- Ecn, <- Eon; exact Hh'.
Qed.

Lemma same_blocks_trans s1 s2 s3 : same_blocks s1 s2 -> same_blocks s2 s3 -> same_blocks s1 s3.
Proof. intros H1 H2 r Hz. rewrite (H2 r Hz). now apply H1. Qed.

(** The whole pass. *)
Lemma update_votes_bal vs : forall i s base,
  (forall r, r <> ZeroHash -> 0 <= base r /\ base r + range_sum old i vs + range_sum new i vs < two64) ->
  holds s (fun r => base r + counted slashed old i vs r) ->
  let '(s', vs') := update_votes old new i s vs in
  holds s' (fun r => base r + counted slashed new i vs' r) /\ same_blocks s s' /\
  vs' = imap (fun k v => rotated slashed (i + Z.of_nat k) v) vs.
Proof.
  induction vs as [| v vs IH]; intros i s base Hbase Hh; cbn [update_votes counted range_sum] in *.
  - split_and!; [exact Hh | now intros r | reflexivity].
  - pose proof (range_sum_nonneg old vs (i + 1) Hold). pose proof (range_sum_nonneg new vs (i + 1) Hnew).
    pose proof (balance_or_zero_nonneg old i Hold). pose proof (balance_or_zero_nonneg new i Hnew).
    pose proof (update_vote_bal i s v (fun r => base r + counted slashed old (i + 1) vs r)) as Hv.
    destruct (update_vote old new i s v) as [s1 v1]. destruct Hv as (Hh1 & Hs1 & Hv1).
    { intros r Hz. pose proof (counted_bounds slashed old vs r Hold (i + 1)). specialize (Hbase r Hz). lia. }
    { revert Hh. apply holds_ext. intros. lia. }
    pose proof (IH (i + 1) s1 (fun r => base r + vote_value slashed new i v1 r)) as Hrest.
    destruct (update_votes old new (i + 1) s1 vs) as [s2 vs2]. destruct Hrest as (Hh2 & Hs2 & Hvs2).
    { intros r Hz. pose proof (vote_value_bounds slashed new i v1 r Hnew). specialize (Hbase r Hz). lia. }
    { revert Hh1. apply holds_ext. intros. lia. }
    split_and!.
    + revert Hh2. apply holds_ext. intros. cbn [counted]. lia.
    + now apply (same_blocks_trans s s1).
    + rewrite Hv1, Hvs2. cbn [imap]. f_equal; [f_equal; lia |]. apply imap_ext. intros k w _. cbn. f_equal. lia.
Qed.
End Update.

(** ** The accounting invariant *)

Definition boost_of (s : Store) (r : list Z) : Z :=
  if decide (previousProposerBoostRoot s = r) then previousProposerBoostScore s else 0.

Definition accounted (f : ForkChoice) : Prop :=
  holds (slashedIndices (store f)) (store f)
    (fun r => boost_of (store f) r + counted (slashedIndices (store f)) (balances f) 0 (votes f) r).

(** The balance of the latest votes for [r], what the specification's
    [get_weight] sums for one block. *)
Fixpoint latest (slashed : gset Z) (bals : list Z) (i : Z) (vs : list Vote) (r : list Z) : Z :=
  match vs with
  | [] => 0
  | v :: vs' => (if decide (i ∈ slashed) then 0 else if decide (nextRoot v = r) then balance_or_zero bals i else 0) +
                latest slashed bals (i + 1) vs' r
  end.

Lemma counted_rotated slashed bals vs r : forall i,
  counted slashed bals i (imap (fun k v => rotated slashed (i + Z.of_nat k) v) vs) r = latest slashed bals i vs r.
Proof.
  induction vs as [| v vs IH]; intros i; cbn [imap counted latest]; [reflexivity |]. f_equal.
  - unfold vote_value, rotated. rewrite Z.add_0_r. now destruct (decide (i ∈ slashed)).
  - rewrite <- (IH (i + 1)). f_equal. apply imap_ext. intros k w _. cbn. f_equal. lia.
Qed.

Lemma range_sum_le bals vs : Forall u64_ok bals -> forall i, 0 <= i -> range_sum bals i vs <= zsum (drop (Z.to_nat i) bals).
Proof.
  intros Hb. assert (forall l, Forall u64_ok l -> 0 <= zsum l) as Hz
    by (intros l; unfold zsum; induction 1 as [| x l [Hx _] _ IH]; cbn; lia).
  induction vs as [| v vs IH]; intros i Hi; cbn [range_sum]; [now apply Hz, Forall_drop |].
  specialize (IH (i + 1) ltac:(lia)). replace (Z.to_nat (i + 1)) with (S (Z.to_nat i)) in IH by lia.
  unfold balance_or_zero. destruct (bals !! Z.to_nat i) as [b |] eqn:E.
  - rewrite (drop_S _ _ _ E). unfold zsum in *. cbn in *. lia.
  - apply lookup_ge_None in E. rewrite !drop_ge in * by lia. unfold zsum in *. cbn in *. lia.
Qed.

Section Accounting.
Context (cfg : BeaconChainConfig).

Lemma update_balances_holds f : accounted f -> Forall u64_ok (balances f) -> Forall u64_ok (justifiedBalances f) ->
  0 <= previousProposerBoostScore (store f) ->
  previousProposerBoostScore (store f) + zsum (balances f) + zsum (justifiedBalances f) < two64 ->
  let f' := updateBalances f in
  accounted f' /\ same_blocks (store f) (store f') /\
  votes f' = imap (fun k v => rotated (slashedIndices (store f)) (0 + Z.of_nat k) v) (votes f) /\
  slashedIndices (store f') = slashedIndices (store f) /\ boost_of (store f') = boost_of (store f).
Proof.
  intros Ha Ho Hn Hs Hfit. unfold updateBalances.
  assert (forall old new vs i s, slashedIndices (update_votes old new i s vs).1 = slashedIndices s /\
            boost_of (update_votes old new i s vs).1 = boost_of s) as Hframe.
  { intros old new. induction vs as [| v vs IH]; intros i s; cbn [update_votes]; [auto |].
    assert (slashedIndices (update_vote old new i s v).1 = slashedIndices s /\ boost_of (update_vote old new i s v).1 = boost_of s) as [E1 E2]
      by (unfold update_vote, sub_balance, add_balance; repeat case_match; auto).
    destruct (update_vote old new i s v) as [s1 v1]. specialize (IH (i + 1) s1).
    destruct (update_votes old new (i + 1) s1 vs) as [s2 vs2]. cbn [fst] in *. destruct IH as [-> ->]. auto. }
  specialize (Hframe (balances f) (justifiedBalances f) (votes f) 0 (store f)).
  pose proof (update_votes_bal (slashedIndices (store f)) (balances f) (justifiedBalances f) Ho Hn (votes f) 0 (store f) (boost_of (store f))) as Hu.
  destruct (update_votes _ _ _ _ _) as [s vs]. cbn [fst] in Hframe. destruct Hframe as [E1 E2]. destruct Hu as (Hh & Hb & Hv).
  - intros r _. pose proof (range_sum_le (balances f) (votes f) Ho 0 ltac:(lia)).
    pose proof (range_sum_le (justifiedBalances f) (votes f) Hn 0 ltac:(lia)). change (Z.to_nat 0) with O in *. rewrite !drop_0 in *.
    pose proof (range_sum_nonneg (balances f) (votes f) 0 Ho). pose proof (range_sum_nonneg (justifiedBalances f) (votes f) 0 Hn).
    unfold boost_of. destruct (decide _); lia.
  - exact Ha.
  - split_and!; try assumption. unfold accounted. cbn [store balances votes set_balances set_votes set_store]. rewrite E1, E2. exact Hh.
Qed.

(** C3. Vote accounting is exact: on an accounted store [updateBalances] moves
    every block, by differences alone, to the balance of the validators (slashed
    ones excluded) whose latest vote is that block, weighed with the justified
    balances, plus the boost in force; no block appears or disappears, and no
    subtraction is cut off at zero. *)
Theorem update_balances_exact f : accounted f -> Forall u64_ok (balances f) -> Forall u64_ok (justifiedBalances f) ->
  0 <= previousProposerBoostScore (store f) ->
  previousProposerBoostScore (store f) + zsum (balances f) + zsum (justifiedBalances f) < two64 ->
  let f' := updateBalances f in
  accounted f' /\ balances f' = justifiedBalances f /\ same_blocks (store f) (store f') /\
  forall r b, r <> ZeroHash -> bal (store f') r = Some b ->
    b = boost_of (store f) r + latest (slashedIndices (store f)) (justifiedBalances f) 0 (votes f) r.
Proof.
  intros Ha Ho Hn Hs Hfit f'. destruct (update_balances_holds f Ha Ho Hn Hs Hfit) as (Ha' & Hb & Hv & Es & Eb). fold f' in Ha', Hb, Hv, Es, Eb.
  assert (balances f' = justifiedBalances f) as Ebal by (unfold f', updateBalances; now destruct (update_votes _ _ _ _ _)).
  split_and!; try assumption. intros r b Hz E. destruct Ha' as (_ & _ & Hb'). rewrite (Hb' r b Hz E), Es, Eb, Ebal, Hv.
  now rewrite counted_rotated.
Qed.

(** *** Slashing, boost and new votes *)

Lemma counted_slash slashed bals j vs r : j ∉ slashed -> forall i, 0 <= i ->
  counted slashed bals i vs r = counted ({[j]} ∪ slashed) bals i vs r +
    (if decide (i <= j) then match vs !! Z.to_nat (j - i) with Some v => vote_value slashed bals j v r | None => 0 end else 0).
Proof.
  intros Hj. induction vs as [| v vs IH]; intros i Hi; cbn [counted]; [destruct (decide _); reflexivity |].
  rewrite (IH (i + 1)) by lia. destruct (decide (i = j)) as [-> | Hne].
  - rewrite (decide_False (P := j + 1 <= j)), (decide_True (P := j <= j)), Z.sub_diag by lia.
    assert (vote_value ({[j]} ∪ slashed) bals j v r = 0) as -> by (unfold vote_value; rewrite decide_True; [reflexivity | set_solver]).
    change ((v :: vs) !! Z.to_nat 0) with (Some v). cbn iota. lia.
  - assert (vote_value ({[j]} ∪ slashed) bals i v r = vote_value slashed bals i v r) as ->
      by (apply decide_ext; rewrite elem_of_union, elem_of_singleton; tauto).
    destruct (decide (i <= j)), (decide (i + 1 <= j)); try lia.
    replace (Z.to_nat (j - i)) with (S (Z.to_nat (j - (i + 1)))) by lia.
    change ((v :: vs) !! S (Z.to_nat (j - (i + 1)))) with (vs !! Z.to_nat (j - (i + 1))). lia.
Qed.

Lemma counted_current slashed bals vs vs' r : r <> ZeroHash -> forall i k,
  map currentRoot vs' = map currentRoot vs ++ replicate k ZeroHash -> counted slashed bals i vs' r = counted slashed bals i vs r.
Proof.
  intros Hz. assert (forall l k i, map currentRoot l = replicate k ZeroHash -> counted slashed bals i l r = 0) as Hnil.
  { induction l as [| v l IH]; intros [| k] i E; try discriminate; [reflexivity |]. injection E as E1 E2. cbn [counted].
    rewrite (IH k) by exact E2. unfold vote_value. rewrite E1. destruct (decide _); [reflexivity |].
    rewrite decide_False by congruence. reflexivity. }
  revert vs'. induction vs as [| v vs IH]; intros vs' i k E; [now apply (Hnil vs' k) |].
  destruct vs' as [| v' vs']; [discriminate |]. cbn in E. injection E as E1 E2. cbn [counted]. f_equal; [| now apply (IH vs' _ k)].
  unfold vote_value. now rewrite E1.
Qed.

Lemma process_votes_current r e idxs : forall vs, exists k,
  map currentRoot (fold_left (process_vote r e) idxs vs) = map currentRoot vs ++ replicate k ZeroHash.
Proof.
  induction idxs as [| i idxs IH]; intros vs; cbn [fold_left]; [exists O; now rewrite app_nil_r |].
  destruct (IH (process_vote r e vs i)) as [k ->]. unfold process_vote.
  set (g := fun v => if _ || _ then _ else v). exists (Z.to_nat (i + 1 - zlen vs) + k)%nat.
  assert (forall l j, map currentRoot (alter g j l) = map currentRoot l) as Hal.
  { induction l as [| v l IHl]; intros [| j]; cbn; try reflexivity; [| f_equal; apply IHl].
    f_equal. unfold g. now destruct (_ || _). }
  rewrite Hal. unfold grow_votes. rewrite map_app, <- app_assoc. f_equal. rewrite replicate_add. f_equal.
  induction (Z.to_nat (i + 1 - zlen vs)); cbn; [reflexivity | now f_equal].
Qed.

(** The subtraction of one counted part at one block. *)
Lemma holds_sub slashed s r val val' d : holds slashed s val -> 0 <= d ->
  (forall r', r' <> r -> r' <> ZeroHash -> val' r' = val r') -> (r <> ZeroHash -> val' r = val r - d /\ d <= val r < two64) ->
  holds slashed (at_root r (sub_node_balance d) s) val'.
Proof.
  intros (Hi & Hsl & Hb) Hd Hne Heq.
  destruct (at_root_bal r (sub_node_balance d) (fun b => sat_sub b d) s Hi (sub_node_root d) (sub_node_sat d)) as [Hi' Hb'].
  split; [exact Hi' | split; [now rewrite (proj1 (at_root_frame _ _ _)) |]]. intros r' b Hz E. rewrite Hb' in E.
  destruct (decide (r' = r)) as [-> | Hr]; [| rewrite Hne by assumption; now apply Hb].
  destruct (bal s r) as [b0 |] eqn:E0; [| discriminate]. cbn in E. injection E as <-. destruct (Heq Hz) as [-> Hfit].
  rewrite <- (Hb r b0 Hz E0) in *. now apply sat_sub_exact.
Qed.

Lemma holds_add slashed s r val val' d : holds slashed s val -> 0 <= d ->
  (forall r', r' <> r -> r' <> ZeroHash -> val' r' = val r') -> (r <> ZeroHash -> val' r = val r + d /\ 0 <= val r /\ val r + d < two64) ->
  holds slashed (at_root r (fun n => set_balance (balance n +u d) n) s) val'.
Proof.
  intros (Hi & Hsl & Hb) Hd Hne Heq.
  destruct (at_root_bal r (fun n => set_balance (balance n +u d) n) (fun b => b +u d) s Hi) as [Hi' Hb']; [reflexivity | reflexivity |].
  split; [exact Hi' | split; [now rewrite (proj1 (at_root_frame _ _ _)) |]]. intros r' b Hz E. rewrite Hb' in E.
  destruct (decide (r' = r)) as [-> | Hr]; [| rewrite Hne by assumption; now apply Hb].
  destruct (bal s r) as [b0 |] eqn:E0; [| discriminate]. cbn in E. injection E as <-. destruct (Heq Hz) as [-> Hfit].
  rewrite <- (Hb r b0 Hz E0) in *. apply u64_small. unfold u64_ok. lia.
Qed.

(** Without a block there is nothing to hold at a root. *)
Lemma at_root_none r g s : bal s r = None -> index_ok s -> at_root r g s = s.
Proof.
  intros E Hi. unfold at_root. destruct (nodeByRoot s !! r) as [p |] eqn:Ep; [| reflexivity].
  destruct (Hi _ _ Ep) as (n & En & _). unfold bal in E. rewrite Ep in E. cbn in E. rewrite En in E. discriminate.
Qed.

Lemma InsertSlashedIndex_at f j : j ∉ slashedIndices (store f) -> 0 <= j ->
  let s := set_slashedIndices ({[j]} ∪ slashedIndices (store f)) (store f) in
  InsertSlashedIndex j f =
    match votes f !! Z.to_nat j with
    | Some v => if zlen (balances f) <=? j then set_store s f
                else set_store (at_root (currentRoot v) (sub_node_balance (balance_or_zero (balances f) j)) s) f
    | None => set_store s f
    end.
Proof.
  intros Hj H0 s. unfold InsertSlashedIndex. rewrite decide_False by exact Hj. fold s. cbn [votes balances set_store].
  destruct (Z.leb_spec (zlen (balances f)) j); [now destruct (_ !! _) |].
  destruct (Z.leb_spec (zlen (votes f)) j) as [Hlv |];
    [now rewrite lookup_ge_None_2 by (unfold zlen in Hlv; lia) |].
  destruct (votes f !! Z.to_nat j) as [v |]; [| reflexivity]. unfold at_root. now destruct (nodeByRoot s !! currentRoot v).
Qed.

(** The count of a block is an honest 64-bit quantity. *)
Lemma boost_counted_bounds f slashed r : Forall u64_ok (balances f) -> 0 <= previousProposerBoostScore (store f) ->
  0 <= boost_of (store f) r /\ 0 <= counted slashed (balances f) 0 (votes f) r <= zsum (balances f) /\
  boost_of (store f) r <= previousProposerBoostScore (store f).
Proof.
  intros Ho Hs. pose proof (counted_bounds slashed (balances f) (votes f) r Ho 0).
  pose proof (range_sum_le (balances f) (votes f) Ho 0 ltac:(lia)) as Hrs. change (Z.to_nat 0) with O in Hrs. rewrite drop_0 in Hrs.
  unfold boost_of. destruct (decide _); lia.
Qed.

Lemma slash_accounted f j : accounted f -> Forall u64_ok (balances f) -> 0 <= previousProposerBoostScore (store f) ->
  previousProposerBoostScore (store f) + zsum (balances f) < two64 -> 0 <= j ->
  accounted (InsertSlashedIndex j f).
Proof.
  intros Ha Ho Hs Hfit Hj. destruct (decide (j ∈ slashedIndices (store f))) as [Hin | Hout];
    [unfold InsertSlashedIndex; now rewrite decide_True |].
  rewrite InsertSlashedIndex_at by assumption. cbv zeta.
  set (s := set_slashedIndices _ (store f)). set (val' r := boost_of s r + counted (slashedIndices s) (balances f) 0 (votes f) r).
  set (val r := boost_of (store f) r + counted (slashedIndices (store f)) (balances f) 0 (votes f) r).
  assert (forall r, val r = val' r + match votes f !! Z.to_nat j with
            | Some v => if decide (currentRoot v = r) then balance_or_zero (balances f) j else 0 | None => 0 end) as Hc.
  { intros r. unfold val, val'. rewrite (counted_slash _ _ j _ _ Hout 0) by lia. rewrite decide_True, Z.sub_0_r by lia.
    change (boost_of s r) with (boost_of (store f) r). change (slashedIndices s) with ({[j]} ∪ slashedIndices (store f)).
    destruct (votes f !! Z.to_nat j) as [v |]; [| lia].
    unfold vote_value. rewrite (decide_False (P := j ∈ slashedIndices (store f))) by exact Hout. lia. }
  assert (holds (slashedIndices s) s val) as Hh by (destruct Ha as (Hi & _ & Hb); split; [exact Hi | split; [reflexivity | exact Hb]]).
  destruct (votes f !! Z.to_nat j) as [v |]; [| apply (holds_ext _ s val val'); [intros r _; rewrite (Hc r); lia | exact Hh]].
  destruct (Z.leb_spec (zlen (balances f)) j) as [Hlb |].
  { apply (holds_ext _ s val val'); [| exact Hh]. intros r _. rewrite (Hc r). unfold balance_or_zero.
    rewrite lookup_ge_None_2 by (unfold zlen in Hlb; lia). cbn. destruct (decide _); lia. }
  set (d := balance_or_zero _ _) in *. assert (holds (slashedIndices s) (at_root (currentRoot v) (sub_node_balance d) s) val') as Hnew.
  { apply (holds_sub _ _ _ val); [exact Hh | now apply balance_or_zero_nonneg | |].
    - intros r Hr _. rewrite (Hc r), decide_False by congruence. lia.
    - intros _. rewrite (Hc (currentRoot v)), decide_True by reflexivity. split; [lia |].
      pose proof (boost_counted_bounds f (slashedIndices (store f)) (currentRoot v) Ho Hs) as Hv.
      pose proof (boost_counted_bounds f (slashedIndices s) (currentRoot v) Ho Hs) as Hv'. specialize (Hc (currentRoot v)).
      rewrite decide_True in Hc by reflexivity. unfold val, val' in *. change (boost_of s) with (boost_of (store f)) in *. lia. }
  unfold accounted. cbn [store balances votes set_store]. unfold boost_of.
  destruct (at_root_frame (currentRoot v) (sub_node_balance d) s) as (-> & -> & -> & _). exact Hnew.
Qed.

(** The score a boost adds now. *)
Definition boost_score (s : Store) : Z := (committeeWeight s *u ProposerScoreBoost cfg) / 100.

Lemma applyProposerBoostScore_at s : index_ok s ->
  let s1 := if bool_decide (previousProposerBoostRoot s = ZeroHash) then s
            else at_root (previousProposerBoostRoot s) (sub_node_balance (previousProposerBoostScore s)) s in
  let score := if bool_decide (proposerBoostRoot s = ZeroHash) then 0
               else if decide (is_Some (bal s (proposerBoostRoot s))) then boost_score s else 0 in
  let s2 := if bool_decide (proposerBoostRoot s = ZeroHash) then s1
            else at_root (proposerBoostRoot s) (fun n => set_balance (balance n +u boost_score s) n) s1 in
  applyProposerBoostScore cfg s = set_previousProposerBoostScore score (set_previousProposerBoostRoot (proposerBoostRoot s) s2).
Proof.
  intros Hi s1 score s2. unfold applyProposerBoostScore.
  change (if bool_decide (previousProposerBoostRoot s = ZeroHash) then s else _) with s1.
  assert (proposerBoostRoot s1 = proposerBoostRoot s /\ nodeByRoot s1 = nodeByRoot s /\ committeeWeight s1 = committeeWeight s) as (E1 & E2 & E3).
  { unfold s1, at_root. repeat case_match; auto. }
  cbv zeta. unfold score, s2, at_root, boost_score. rewrite E1, E2, E3.
  destruct (bool_decide (proposerBoostRoot s = ZeroHash)); [now rewrite E1 |].
  destruct (nodeByRoot s !! proposerBoostRoot s) as [p |] eqn:Ep.
  - destruct (Hi _ _ Ep) as (n & En & _). unfold bal. rewrite Ep. cbn. rewrite En. cbn. now rewrite E1.
  - unfold bal. rewrite Ep. cbn. now rewrite E1.
Qed.

Lemma boost_score_nonneg s : 0 <= boost_score s.
Proof. unfold boost_score. apply Z.div_pos; [| lia]. apply Z.mod_pos_bound. reflexivity. Qed.

(** The two halves of the boost update. *)
Lemma drop_boost slashed s c : holds slashed s (fun r => boost_of s r + c r) -> 0 <= previousProposerBoostScore s ->
  (forall r, 0 <= c r /\ previousProposerBoostScore s + c r < two64) ->
  holds slashed (if bool_decide (previousProposerBoostRoot s = ZeroHash) then s
                 else at_root (previousProposerBoostRoot s) (sub_node_balance (previousProposerBoostScore s)) s) c.
Proof.
  intros Hh Hs Hc. destruct (bool_decide_reflect (previousProposerBoostRoot s = ZeroHash)) as [Ez | Hz].
  - revert Hh. apply holds_ext. intros r Hr. unfold boost_of. rewrite decide_False by congruence. lia.
  - eapply holds_sub; [exact Hh | exact Hs | |].
    + intros r Hr _. cbn. unfold boost_of. rewrite decide_False by congruence. lia.
    + intros _. cbn. unfold boost_of. rewrite decide_True by reflexivity. specialize (Hc (previousProposerBoostRoot s)). lia.
Qed.

Lemma give_boost slashed s c root score : holds slashed s c -> 0 <= score -> (forall r, 0 <= c r /\ score + c r < two64) ->
  let score' := if bool_decide (root = ZeroHash) then 0 else if decide (is_Some (bal s root)) then score else 0 in
  holds slashed (if bool_decide (root = ZeroHash) then s else at_root root (fun n => set_balance (balance n +u score) n) s)
    (fun r => (if decide (root = r) then score' else 0) + c r).
Proof.
  intros Hh Hs Hc score'. unfold score'. destruct (bool_decide_reflect (root = ZeroHash)) as [-> | Hz].
  - revert Hh. apply holds_ext. intros r Hr. now rewrite decide_False by congruence.
  - destruct (decide (is_Some (bal s root))) as [Hb | Hb].
    + eapply holds_add; [exact Hh | exact Hs | |].
      * intros r Hr _. cbn. now rewrite decide_False by congruence.
      * intros _. cbn. rewrite decide_True by reflexivity. specialize (Hc root). lia.
    + apply eq_None_not_Some in Hb. rewrite at_root_none; [| exact Hb | apply Hh]. revert Hh. apply holds_ext.
      intros r _. now destruct (decide _).
Qed.

Lemma boost_accounted f : accounted f -> Forall u64_ok (balances f) -> 0 <= previousProposerBoostScore (store f) ->
  previousProposerBoostScore (store f) + zsum (balances f) < two64 -> boost_score (store f) + zsum (balances f) < two64 ->
  accounted (set_store (applyProposerBoostScore cfg (store f)) f).
Proof.
  intros Ha Ho Hs Hfit Hfit'. rewrite applyProposerBoostScore_at by apply Ha. cbv zeta. set (s := store f) in *.
  set (c r := counted (slashedIndices s) (balances f) 0 (votes f) r).
  assert (forall r, 0 <= c r <= zsum (balances f)) as Hc by (intros r; apply (boost_counted_bounds f (slashedIndices s) r Ho Hs)).
  pose proof (drop_boost (slashedIndices s) s c Ha Hs) as H1. set (s1 := if bool_decide (previousProposerBoostRoot s = ZeroHash) then s else _) in *.
  specialize (H1 ltac:(intros r; specialize (Hc r); lia)).
  pose proof (give_boost (slashedIndices s) s1 c (proposerBoostRoot s) (boost_score s) H1 (boost_score_nonneg s)) as H2.
  specialize (H2 ltac:(intros r; specialize (Hc r); lia)). cbv zeta in H2.
  assert (is_Some (bal s1 (proposerBoostRoot s)) <-> is_Some (bal s (proposerBoostRoot s))) as Hsame.
  { unfold s1. destruct (bool_decide (previousProposerBoostRoot s = ZeroHash)); [reflexivity |].
    destruct (at_root_bal (previousProposerBoostRoot s) _ (fun b => sat_sub b (previousProposerBoostScore s)) s (proj1 Ha) (sub_node_root (previousProposerBoostScore s)) (sub_node_sat _)) as [_ ->].
    destruct (decide (_ = _)); [apply fmap_is_Some | reflexivity]. }
  rewrite (decide_ext _ _ _ _ Hsame) in H2.
  set (s2 := if bool_decide (proposerBoostRoot s = ZeroHash) then s1 else _) in *.
  destruct H2 as (Hi2 & Hsl2 & Hb2). unfold accounted.
  cbn [store set_store balances votes slashedIndices set_previousProposerBoostScore set_previousProposerBoostRoot].
  rewrite Hsl2. split; [exact Hi2 | split; [exact Hsl2 | exact Hb2]].
Qed.

Lemma attest_accounted f idxs r e : accounted f -> accounted (ProcessAttestation idxs r e f).
Proof.
  unfold accounted, ProcessAttestation. cbn [store votes balances set_votes]. apply holds_ext. intros r' Hz. f_equal.
  destruct (process_votes_current r e idxs (votes f)) as [k Hk]. symmetry. now apply (counted_current _ _ _ _ _ Hz 0 k).
Qed.

(** C13. The vote accounting is an invariant: slashing a validator, moving the
    proposer boost and recording attestations keep the balance of every block
    equal to the counted votes plus the boost in force. *)
Theorem accounting_preserved f : accounted f -> Forall u64_ok (balances f) -> 0 <= previousProposerBoostScore (store f) ->
  previousProposerBoostScore (store f) + zsum (balances f) < two64 -> boost_score (store f) + zsum (balances f) < two64 ->
  (forall j, 0 <= j -> accounted (InsertSlashedIndex j f)) /\
  accounted (set_store (applyProposerBoostScore cfg (store f)) f) /\
  (forall idxs r e, accounted (ProcessAttestation idxs r e f)).
Proof.
  intros Ha Ho Hs Hfit Hfit'. split_and!; [intros j Hj; now apply slash_accounted | now apply boost_accounted |].
  intros. now apply attest_accounted.
Qed.
End Accounting.

(** ** The sample store after one count and a changed vote *)

Lemma index_ok_check s :
  map_Forall (fun r (p : ptr) => root <$> heap s !! p = Some r) (nodeByRoot s) -> index_ok s.
Proof.
  intros H r p E. specialize (H r p E). cbn in H. apply fmap_Some in H as (n & -> & ->). eauto.
Qed.

Lemma sample_accounted : accounted sample_forkchoice.
Proof.
  split; [apply index_ok_check; apply (bool_decide_unpack _); vm_compute; exact I | split; [reflexivity |]]. intros r b Hz E.
  assert (b = 0) as ->.
  { unfold bal in E. destruct (nodeByRoot (store sample_forkchoice) !! r) as [p |] eqn:Ep; [| discriminate].
    assert (map_Forall (fun _ p => balance <$> heap (store sample_forkchoice) !! p = Some 0) (nodeByRoot (store sample_forkchoice))) as Hb
      by (apply (bool_decide_unpack _); vm_compute; exact I).
    specialize (Hb r p Ep). cbn in Hb. apply fmap_Some in Hb as (n & En & Hb). cbn in E. rewrite En in E. cbn in E. congruence. }
  replace (votes sample_forkchoice) with [mkVote ZeroHash (ToBytes32 [2]) 0; mkVote ZeroHash (ToBytes32 [2]) 0; mkVote ZeroHash (ToBytes32 [3]) 0]
    by (vm_compute; reflexivity).
  assert (boost_of (store sample_forkchoice) r = 0) as -> by (unfold boost_of; destruct (decide _); vm_compute; reflexivity).
  cbn [counted]. unfold vote_value. cbn [currentRoot]. rewrite !(decide_False (P := ZeroHash = r)) by congruence.
  now repeat destruct (decide _).
Qed.

Lemma sample_u64 : Forall u64_ok [] /\ Forall u64_ok [32; 32; 32].
Proof. split; repeat constructor; unfold u64_ok, two64; lia. Qed.

Definition sample_revoted : ForkChoice := ProcessAttestation [1] (ToBytes32 [3]) 1 (updateBalances sample_forkchoice).

Lemma sample_revoted_accounted : accounted sample_revoted.
Proof.
  apply attest_accounted, update_balances_holds; [apply sample_accounted | | | vm_compute; discriminate | vm_compute; reflexivity].
  - exact (proj1 sample_u64).
  - replace (justifiedBalances sample_forkchoice) with [32; 32; 32] by (vm_compute; reflexivity). exact (proj2 sample_u64).
Qed.

Lemma sample_revoted_u64 : Forall u64_ok (balances sample_revoted) /\ Forall u64_ok (justifiedBalances sample_revoted).
Proof.
  replace (balances sample_revoted) with [32; 32; 32] by (vm_compute; reflexivity).
  replace (justifiedBalances sample_revoted) with [32; 32; 32] by (vm_compute; reflexivity). split; exact (proj2 sample_u64).
Qed.

Lemma update_balances_exact_witness : accounted (updateBalances sample_revoted) /\
  bal (store sample_revoted) (ToBytes32 [3]) = Some 32 /\
  latest ∅ [32; 32; 32] 0 (votes sample_revoted) (ToBytes32 [3]) = 64 /\
  bal (store (updateBalances sample_revoted)) (ToBytes32 [3]) = Some 64.
Proof.
  split; [| vm_compute; auto].
  refine (proj1 (update_balances_exact sample_revoted sample_revoted_accounted (proj1 sample_revoted_u64) (proj2 sample_revoted_u64) _ _));
    [vm_compute; discriminate | vm_compute; reflexivity].
Defined.

Lemma accounting_preserved_witness : accounted (InsertSlashedIndex 1 sample_revoted) /\
  bal (store sample_revoted) (ToBytes32 [2]) = Some 64 /\
  bal (store (InsertSlashedIndex 1 sample_revoted)) (ToBytes32 [2]) = Some 32.
Proof.
  split; [| vm_compute; auto].
  refine (proj1 (accounting_preserved MinimalSpecConfig sample_revoted sample_revoted_accounted (proj1 sample_revoted_u64) _ _ _) 1 _);
    [vm_compute; discriminate | vm_compute; reflexivity | vm_compute; reflexivity | lia].
Defined.
