(* ===== verification/ForkCheckpoints.v ===== *)
(** * Checkpoints of the fork choice

    The choice of the checkpoints a tick realizes, which does not depend on the
    iteration order of the index, and the epochs of the store's checkpoints,
    which no operation on blocks and slots moves back. *)

From S2P Require Import Prelude Math Config Slots Bytes Shuffle State Validators EpochPrecompute ForkStore ForkChoice ForkTree ForkHead.

(** ** The order of candidates *)

(** By epoch, then the previously chosen root, then the greater root. *)
Definition ck_le (prev : list Z) (a b : Checkpoint) : Prop :=
  Epoch_ a < Epoch_ b \/
  (Epoch_ a = Epoch_ b /\ (Root b = prev \/ (Root a <> prev /\ bytes_Compare (Root a) (Root b) <> Gt))).

Lemma ck_le_refl prev a : ck_le prev a a.
Proof. right. split; [reflexivity |]. destruct (decide (Root a = prev)); [now left | right]. now rewrite bytes_Compare_refl. Qed.

Lemma ck_le_trans prev a b c : ck_le prev a b -> ck_le prev b c -> ck_le prev a c.
Proof.
  unfold ck_le. intros [H1 | [H1 [H2 | [H2 H3]]]] [H4 | [H4 [H5 | [H5 H6]]]]; try (left; lia).
  all: right; split; [lia |]; auto; try congruence.
  right. split; [exact H2 |]. eapply bytes_Compare_trans; eassumption.
Qed.

Lemma ck_le_antisym prev a b : ck_le prev a b -> ck_le prev b a -> a = b.
Proof.
  destruct a as [ea ra], b as [eb rb]. unfold ck_le. cbn. intros [H1 | [H1 H2]] [H3 | [H3 H4]]; try lia. f_equal; [lia |].
  destruct H2 as [-> | [H2 H2']], H4 as [-> | [H4 H4']]; try congruence.
  apply bytes_Compare_Eq. rewrite bytes_Compare_antisym in H4'. destruct (bytes_Compare ra rb); cbn in *; congruence.
Qed.

Lemma prefer_max best previous e r :
  let b := preferUnrealizedCheckpoint best previous e r in
  (b = best \/ b = mkCheckpoint e r) /\ ck_le (Root previous) best b /\ ck_le (Root previous) (mkCheckpoint e r) b.
Proof.
  intros b. assert (forall c, c = best \/ c = mkCheckpoint e r -> ck_le (Root previous) best c -> ck_le (Root previous) (mkCheckpoint e r) c -> b = c ->
    (b = best \/ b = mkCheckpoint e r) /\ ck_le (Root previous) best b /\ ck_le (Root previous) (mkCheckpoint e r) b) as Hc
    by (intros c Hc1 Hc2 Hc3 ->; auto).
  unfold b, preferUnrealizedCheckpoint in *. clear b.
  destruct (Z.ltb_spec e (Epoch_ best)) as [Hlt | Hge]; [apply (Hc best); auto using ck_le_refl; now left |].
  destruct (Z.eqb_spec e (Epoch_ best)) as [He | Hne]; cbn [andb];
    [| apply (Hc (mkCheckpoint e r)); auto using ck_le_refl; left; cbn; lia].
  destruct (bool_decide_reflect (Root best = Root previous)) as [Hb | Hb]; cbn [orb];
    [apply (Hc best); auto using ck_le_refl; right; cbn; auto |].
  destruct (bool_decide_reflect (r = Root previous)) as [Hr | Hr]; cbn [negb andb];
    [apply (Hc (mkCheckpoint e r)); auto using ck_le_refl; right; cbn; auto |].
  destruct (bool_decide_reflect (bytes_Compare r (Root best) = Gt)) as [Hg | Hg]; cbn [negb].
  - apply (Hc (mkCheckpoint e r)); auto using ck_le_refl. right. cbn. split; [lia |]. right. split; [exact Hb |].
    rewrite bytes_Compare_antisym, Hg. discriminate.
  - apply (Hc best); auto using ck_le_refl. right. cbn. auto.
Qed.

(** [b] is the greatest of the base and the candidates. *)
Definition greatest (prev : list Z) (base : Checkpoint) (cands : list Checkpoint) (b : Checkpoint) : Prop :=
  b ∈ base :: cands /\ Forall (fun c => ck_le prev c b) (base :: cands).

Lemma greatest_unique prev base cands cands' b b' : cands ≡ₚ cands' ->
  greatest prev base cands b -> greatest prev base cands' b' -> b = b'.
Proof.
  intros Hp [Hin Hle] [Hin' Hle']. rewrite Forall_forall in Hle, Hle'.
  assert (base :: cands ≡ₚ base :: cands') as Hp' by now f_equiv.
  apply (ck_le_antisym prev); [apply Hle'; now rewrite <- Hp' | apply Hle; now rewrite Hp'].
Qed.

(** A pass that prefers each candidate in turn ends at the greatest one. *)
Lemma prefer_all previous cands : forall base,
  greatest (Root previous) base cands
    (fold_left (fun b c => preferUnrealizedCheckpoint b previous (Epoch_ c) (Root c)) cands base).
Proof.
  induction cands as [| c cands IH]; intros base; cbn [fold_left].
  - split; [apply list_elem_of_here |]. constructor; [apply ck_le_refl | constructor].
  - destruct (prefer_max base previous (Epoch_ c) (Root c)) as (Hb & Hle1 & Hle2).
    set (b := preferUnrealizedCheckpoint base previous (Epoch_ c) (Root c)) in *. specialize (IH b) as [Hin Hle].
    replace (mkCheckpoint (Epoch_ c) (Root c)) with c in * by now destruct c. apply Forall_cons in Hle as [Hb' Hle].
    set (res := fold_left _ cands b) in *. clearbody res. split.
    2: { apply Forall_cons_2; [| apply Forall_cons_2; [| exact Hle]]; eapply ck_le_trans; eassumption. }
    apply elem_of_cons in Hin as [-> | Hin]; [| now do 2 apply list_elem_of_further].
    destruct Hb as [-> | ->]; [apply list_elem_of_here | apply list_elem_of_further, list_elem_of_here].
Qed.

(** ** The candidates of a store *)

Section Checkpoints.
Context (cfg : BeaconChainConfig) (Hspe : 0 < SlotsPerEpoch cfg).

(** What one block has observed. *)
Definition justified_cand (n : Node) : Checkpoint := mkCheckpoint (unrealizedJustifiedEpoch n) (unrealizedJustifiedRoot n).
Definition finalized_cand (n : Node) : Checkpoint := mkCheckpoint (unrealizedFinalizedEpoch n) (unrealizedFinalizedRoot n).

Definition justified_cands (s : Store) (epoch : Z) (nodes : list Node) : list Checkpoint :=
  map justified_cand
    (filter (fun n => slot n / SlotsPerEpoch cfg < epoch /\ Epoch_ (justifiedCheckpoint s) < unrealizedJustifiedEpoch n <=
                      Epoch_ (unrealizedJustifiedCheckpoint s)) nodes).

Definition finalized_cands (s : Store) (epoch : Z) (nodes : list Node) : list Checkpoint :=
  map finalized_cand
    (filter (fun n => slot n / SlotsPerEpoch cfg < epoch /\ Epoch_ (finalizedCheckpoint s) < unrealizedFinalizedEpoch n <=
                      Epoch_ (unrealizedFinalizedCheckpoint s)) nodes).

Lemma ToEpoch_exact sl : ToEpoch cfg sl = Ok (sl / SlotsPerEpoch cfg).
Proof.
  unfold ToEpoch, Slot.DivSlot, Slot.Div, Slot.SafeDiv, Math.Div64.
  destruct (Z.eqb_spec (SlotsPerEpoch cfg) 0); [lia | reflexivity].
Qed.

Lemma justified_step s e b n : justified_before cfg s e b n =
  Ok (if decide (slot n / SlotsPerEpoch cfg < e /\ Epoch_ (justifiedCheckpoint s) < unrealizedJustifiedEpoch n <=
                 Epoch_ (unrealizedJustifiedCheckpoint s))
      then preferUnrealizedCheckpoint b (unrealizedJustifiedCheckpoint s) (unrealizedJustifiedEpoch n) (unrealizedJustifiedRoot n) else b).
Proof.
  unfold justified_before. rewrite ToEpoch_exact. cbn [mbind result_bind].
  destruct (Z.leb_spec e (slot n / SlotsPerEpoch cfg)), (Z.ltb_spec (Epoch_ (justifiedCheckpoint s)) (unrealizedJustifiedEpoch n)),
    (Z.leb_spec (unrealizedJustifiedEpoch n) (Epoch_ (unrealizedJustifiedCheckpoint s))); cbn [andb];
    destruct (decide _) as [Hd | Hd]; first [reflexivity | exfalso; lia].
Qed.

Lemma justified_pass s e nodes : forall b, foldM (justified_before cfg s e) b nodes =
  Ok (fold_left (fun b c => preferUnrealizedCheckpoint b (unrealizedJustifiedCheckpoint s) (Epoch_ c) (Root c)) (justified_cands s e nodes) b).
Proof.
  induction nodes as [| n nodes IH]; intros b; [reflexivity |]. cbn [foldM]. rewrite justified_step. cbn [mbind result_bind]. rewrite IH.
  unfold justified_cands. rewrite filter_cons. now destruct (decide _).
Qed.

Lemma finalized_step s e b n : finalized_before cfg s e b n =
  Ok (if decide (slot n / SlotsPerEpoch cfg < e /\ Epoch_ (finalizedCheckpoint s) < unrealizedFinalizedEpoch n <=
                 Epoch_ (unrealizedFinalizedCheckpoint s))
      then preferUnrealizedCheckpoint b (unrealizedFinalizedCheckpoint s) (unrealizedFinalizedEpoch n) (unrealizedFinalizedRoot n) else b).
Proof.
  unfold finalized_before. rewrite ToEpoch_exact. cbn [mbind result_bind].
  destruct (Z.leb_spec e (slot n / SlotsPerEpoch cfg)), (Z.ltb_spec (Epoch_ (finalizedCheckpoint s)) (unrealizedFinalizedEpoch n)),
    (Z.leb_spec (unrealizedFinalizedEpoch n) (Epoch_ (unrealizedFinalizedCheckpoint s))); cbn [andb];
    destruct (decide _) as [Hd | Hd]; first [reflexivity | exfalso; lia].
Qed.

Lemma finalized_pass s e nodes : forall b, foldM (finalized_before cfg s e) b nodes =
  Ok (fold_left (fun b c => preferUnrealizedCheckpoint b (unrealizedFinalizedCheckpoint s) (Epoch_ c) (Root c)) (finalized_cands s e nodes) b).
Proof.
  induction nodes as [| n nodes IH]; intros b; [reflexivity |]. cbn [foldM]. rewrite finalized_step. cbn [mbind result_bind]. rewrite IH.
  unfold finalized_cands. rewrite filter_cons. now destruct (decide _).
Qed.

Lemma before_greatest nodes s e : exists jc fc, unrealizedCheckpointsBefore_in cfg nodes s e = Ok (jc, fc) /\
  greatest (Root (unrealizedJustifiedCheckpoint s)) (justifiedCheckpoint s) (justified_cands s e nodes) jc /\
  greatest (Root (unrealizedFinalizedCheckpoint s)) (finalizedCheckpoint s) (finalized_cands s e nodes) fc.
Proof.
  unfold unrealizedCheckpointsBefore_in. rewrite justified_pass. cbn [mbind result_bind]. rewrite finalized_pass.
  do 2 eexists. split; [reflexivity |]. split; apply prefer_all.
Qed.

(** What survives a removal, from every block of the index. *)
Definition surviving (s : Store) (base : Checkpoint) (cand : Node -> Checkpoint) (nodes : list Node) : list Checkpoint :=
  filter (fun c => is_Some (nodeByRoot s !! Root c) /\ Epoch_ base < Epoch_ c) (map cand nodes).

Lemma surviving_pass s base previous cand nodes : forall b,
  fold_left (fun b n => if Epoch_ base <? Epoch_ (cand n) then survivingUnrealizedCheckpoint s b previous (Epoch_ (cand n)) (Root (cand n)) else b) nodes b =
  fold_left (fun b c => preferUnrealizedCheckpoint b previous (Epoch_ c) (Root c)) (surviving s base cand nodes) b.
Proof.
  induction nodes as [| n nodes IH]; intros b; [reflexivity |]. unfold surviving. cbn [map fold_left]. rewrite filter_cons, IH.
  unfold survivingUnrealizedCheckpoint.
  destruct (nodeByRoot s !! Root (cand n)) eqn:E, (Z.ltb_spec (Epoch_ base) (Epoch_ (cand n))); destruct (decide _) as [Hd | Hd];
    try reflexivity.
  all: first [destruct Hd as [[? Hd] ?]; first [discriminate | lia] | exfalso; apply Hd; eauto].
Qed.

Lemma recompute_greatest nodes s : exists jc fc,
  recomputeUnrealizedCheckpoints_in nodes s = set_unrealizedFinalizedCheckpoint fc (set_unrealizedJustifiedCheckpoint jc s) /\
  greatest (Root (unrealizedJustifiedCheckpoint s)) (justifiedCheckpoint s) (surviving s (justifiedCheckpoint s) justified_cand nodes) jc /\
  greatest (Root (unrealizedFinalizedCheckpoint s)) (finalizedCheckpoint s) (surviving s (finalizedCheckpoint s) finalized_cand nodes) fc.
Proof.
  do 2 eexists. split; [| split; apply prefer_all]. rewrite <- !surviving_pass. reflexivity.
Qed.

(** C14. The checkpoint choices do not depend on the iteration order of the index: any two
    orders of the same nodes give the same result.  The selection for a tick never fails and
    returns the greatest candidate of the blocks before the epoch, by epoch, then the
    previously preferred root, then the greater root, or the realized checkpoint when there
    is no greater candidate; the recomputation after a removal sets the unrealized
    checkpoints, and nothing else, to the greatest candidates, in the same order, among those
    later than the realized checkpoint whose root is still in the index. *)
Theorem unrealized_choice_deterministic nodes nodes' s e : nodes ≡ₚ nodes' ->
  (exists jc fc,
    recomputeUnrealizedCheckpoints_in nodes s = set_unrealizedFinalizedCheckpoint fc (set_unrealizedJustifiedCheckpoint jc s) /\
    recomputeUnrealizedCheckpoints_in nodes' s = recomputeUnrealizedCheckpoints_in nodes s /\
    greatest (Root (unrealizedJustifiedCheckpoint s)) (justifiedCheckpoint s) (surviving s (justifiedCheckpoint s) justified_cand nodes) jc /\
    greatest (Root (unrealizedFinalizedCheckpoint s)) (finalizedCheckpoint s) (surviving s (finalizedCheckpoint s) finalized_cand nodes) fc) /\
  exists jc fc,
    unrealizedCheckpointsBefore_in cfg nodes s e = Ok (jc, fc) /\ unrealizedCheckpointsBefore_in cfg nodes' s e = Ok (jc, fc) /\
    greatest (Root (unrealizedJustifiedCheckpoint s)) (justifiedCheckpoint s) (justified_cands s e nodes) jc /\
    greatest (Root (unrealizedFinalizedCheckpoint s)) (finalizedCheckpoint s) (finalized_cands s e nodes) fc.
Proof.
  intros Hp. split.
  - destruct (recompute_greatest nodes s) as (jc & fc & -> & Hj & Hf), (recompute_greatest nodes' s) as (jc' & fc' & -> & Hj' & Hf').
    exists jc, fc. split_and!; try assumption; [reflexivity |]. f_equal; [| f_equal]; symmetry.
    + refine (greatest_unique _ _ _ _ _ _ _ Hf Hf'). unfold surviving. now rewrite Hp.
    + refine (greatest_unique _ _ _ _ _ _ _ Hj Hj'). unfold surviving. now rewrite Hp.
  - destruct (before_greatest nodes s e) as (jc & fc & E & Hj & Hf).
    destruct (before_greatest nodes' s e) as (jc' & fc' & E' & Hj' & Hf'). exists jc, fc. split_and!; try assumption.
    rewrite E'. f_equal. f_equal; symmetry.
    + refine (greatest_unique _ _ _ _ _ _ _ Hj Hj'). unfold justified_cands. now rewrite Hp.
    + refine (greatest_unique _ _ _ _ _ _ _ Hf Hf'). unfold finalized_cands. now rewrite Hp.
Qed.

(** ** Checkpoints only advance *)

Definition advances (s s' : Store) : Prop :=
  Epoch_ (justifiedCheckpoint s) <= Epoch_ (justifiedCheckpoint s') /\ Epoch_ (finalizedCheckpoint s) <= Epoch_ (finalizedCheckpoint s').

#[local] Instance advances_preorder : PreOrder advances.
Proof. split; [intros s; split; lia | intros s1 s2 s3 [] []; split; lia]. Qed.

(** The checkpoints are the same, or the justified one is now [jc]. *)
Definition justifies (jc : Checkpoint) (s s' : Store) : Prop :=
  finalizedCheckpoint s' = finalizedCheckpoint s /\ (justifiedCheckpoint s' = justifiedCheckpoint s \/ justifiedCheckpoint s' = jc).

#[local] Instance justifies_preorder jc : PreOrder (justifies jc).
Proof.
  split; [intros s; split; auto |]. intros s1 s2 s3 [E1 J1] [E2 J2]. split; [congruence |].
  destruct J2 as [-> | ->]; [exact J1 | now right].
Qed.

Context {B : Bitfield} (now : Z) (balancesByRoot : Checkpoint -> result (option JustifiedBalances)).

Lemma UpdateJustified_effect jc : moves (on_stores (justifies jc)) (UpdateJustifiedCheckpoint cfg balancesByRoot (Some jc)).
Proof.
  unfold UpdateJustifiedCheckpoint, updateJustifiedBalances. repeat moves_step.
  - apply moves_modify. intros f. split; auto.
  - apply moves_on_store, moves_modify. intros s0. split; auto.
  - apply moves_on_store, moves_modify. intros s0. split; auto.
Qed.

Lemma justifies_advances jc s s' : justifies jc s s' -> Epoch_ (justifiedCheckpoint s) < Epoch_ jc -> advances s s'.
Proof. intros [E [J | J]] Hlt; unfold advances; rewrite E, J; lia. Qed.

(** Operations of the store that leave both checkpoints alone. *)
Definition same_checkpoints (s s' : Store) : Prop :=
  justifiedCheckpoint s' = justifiedCheckpoint s /\ finalizedCheckpoint s' = finalizedCheckpoint s.

#[local] Instance same_checkpoints_preorder : PreOrder same_checkpoints.
Proof. split; [now intros s | intros s1 s2 s3 [] []; split; congruence]. Qed.

Lemma same_advances s s' : same_checkpoints s s' -> advances s s'.
Proof. intros [E1 E2]. unfold advances. rewrite E1, E2. lia. Qed.

Lemma moves_same_advances {A} (m : ST Store A) : moves same_checkpoints m -> moves (on_stores advances) (on_store m).
Proof. intros Hm. apply moves_on_store. intros s0. apply same_advances, Hm. Qed.

Ltac same_modify := apply moves_modify; intros ?s; repeat case_match; now split.

Lemma expire_same sl s : same_checkpoints s (expireProposerBoost sl s).
Proof. unfold expireProposerBoost. repeat case_match; now split. Qed.

Lemma unindex_same l : forall s, same_checkpoints s (fold_left unindex l s).
Proof.
  induction l as [| n l IH]; intros s; cbn [fold_left]; [reflexivity |]. etransitivity; [| apply IH].
  unfold unindex. repeat case_match; now split.
Qed.

Lemma removeNode_same p : moves same_checkpoints (removeNode p).
Proof.
  unfold removeNode, update_node. repeat moves_step; [same_modify | apply moves_modify; apply unindex_same | same_modify].
Qed.

Lemma insert_same b je fe : moves same_checkpoints (Store_insert cfg now b je fe).
Proof.
  unfold Store_insert, allocate, boost_and_update, track_received, update_node. repeat moves_step.
  all: first [same_modify | apply moves_modify; apply expire_same].
Qed.

Lemma pullTips_same st p jc fc : moves same_checkpoints (pullTips cfg now st p jc fc).
Proof.
  unfold pullTips, update_node. repeat moves_step. all: try same_modify.
  apply moves_modify. intros s. unfold advanceUnrealizedCheckpoints. repeat case_match; now split.
Qed.

Lemma setOptimisticToInvalid_same r pr h : moves same_checkpoints (setOptimisticToInvalid cfg now r pr h).
Proof.
  unfold setOptimisticToInvalid. repeat first [apply removeNode_same | moves_step]. same_modify.
Qed.

Lemma greatest_advances prev base cands b : greatest prev base cands b -> Epoch_ base <= Epoch_ b.
Proof. intros [_ [Hle _]%Forall_cons]. destruct Hle as [Hle | [Hle _]]; lia. Qed.

(** A justified checkpoint that is replaced only by a later one. *)
Lemma guarded_justify jc f : exists g,
  ((if Epoch_ (justifiedCheckpoint (store f)) <? Epoch_ jc then UpdateJustifiedCheckpoint cfg balancesByRoot (Some jc) else mret tt) f).2 = g /\
  advances (store f) (store g) /\ finalizedCheckpoint (store g) = finalizedCheckpoint (store f).
Proof.
  eexists. split; [reflexivity |]. destruct (Z.ltb_spec (Epoch_ (justifiedCheckpoint (store f))) (Epoch_ jc)) as [Hlt |]; [| now split; [reflexivity |]].
  pose proof (UpdateJustified_effect jc f) as Hj. split; [now apply (justifies_advances jc) | apply Hj].
Qed.

Lemma prune_advances plan fc (k : Store -> ForkChoice -> ForkChoice) f : (forall s f, store (k s f) = s) ->
  Epoch_ (finalizedCheckpoint (store f)) <= Epoch_ fc ->
  on_stores advances f ((s ← liftR (applyPrune plan (set_finalizedCheckpoint fc (store f))); modify (k s)) f).2.
Proof.
  intros Hk Hle. unfold liftR, modify, mbind, ST_bind. destruct (applyPrune _ _) as [s | |] eqn:E; [| reflexivity | reflexivity].
  apply applyPrune_frame in E as (_ & E1 & E2). unfold on_stores, advances. cbn [snd]. rewrite Hk, E1, E2. cbn. lia.
Qed.

Lemma guarded_advances jc f g r :
  (if Epoch_ (justifiedCheckpoint (store f)) <? Epoch_ jc then UpdateJustifiedCheckpoint cfg balancesByRoot (Some jc) else mret tt) f = (r, g) ->
  advances (store f) (store g) /\ finalizedCheckpoint (store g) = finalizedCheckpoint (store f).
Proof. intros E. destruct (guarded_justify jc f) as (g' & Eg & Hg). rewrite E in Eg. cbn in Eg. now subst g'. Qed.

Lemma updateCheckpoints_advances jc fc : moves (on_stores advances) (updateCheckpoints cfg balancesByRoot jc fc).
Proof.
  intros f. refine (moves_bind_at _ get _ f _ _); [reflexivity |]. intros ? ? [= <- <-].
  set (jc' := mkCheckpoint (Epoch_ jc) (ToBytes32 (Root jc))). set (fc' := mkCheckpoint (Epoch_ fc) (ToBytes32 (Root fc))).
  refine (moves_bind_at _ _ _ f _ _).
  { destruct (_ <? _); [| reflexivity]. unfold liftR, mbind, ST_bind. destruct (preparePrune _ _ _); reflexivity. }
  intros plan f' E. assert (f' = f /\ match plan with Some (_, c) => c = fc' /\ Epoch_ (finalizedCheckpoint (store f)) < Epoch_ fc | None => True end)
    as [-> Hplan].
  { destruct (Z.ltb_spec (Epoch_ (finalizedCheckpoint (store f))) (Epoch_ fc)); [| now injection E as <- <-].
    unfold liftR, mbind, ST_bind in E. destruct (preparePrune _ _ _); [| discriminate | discriminate]. now injection E as <- <-. }
  refine (moves_bind_at _ _ _ f _ _); [destruct (guarded_justify jc' f) as (g & <- & Hg & _); exact Hg |].
  intros [] g Eg. apply (guarded_advances jc') in Eg as [_ Hfin].
  destruct plan as [[plan c] |]; [| reflexivity]. destruct Hplan as [-> Hlt].
  apply (prune_advances plan fc' set_store g); [reflexivity |]. rewrite Hfin. cbn. lia.
Qed.

Lemma updateUnrealized_advances e : moves (on_stores advances) (updateUnrealizedCheckpoints cfg balancesByRoot e).
Proof.
  intros f. refine (moves_bind_at _ get _ f _ _); [reflexivity |]. intros ? ? [= <- <-].
  destruct (before_greatest (indexed_nodes (store f)) (store f) e) as (jc & fc & E & Hj & Hf).
  fold (unrealizedCheckpointsBefore cfg (store f) e) in E. rewrite E. apply greatest_advances in Hf.
  change (on_stores advances f ((_ ← (if Epoch_ (justifiedCheckpoint (store f)) <? Epoch_ jc then UpdateJustifiedCheckpoint cfg balancesByRoot (Some jc) else mret tt);
    _ ← on_store (modify (set_finalizedCheckpoint fc)); f ← get;
    h ← liftR (foldM (realize_node cfg e) (heap (store f)) (indexed (store f))); on_store (modify (set_heap h))) f).2).
  refine (moves_bind_at _ _ _ f _ _); [destruct (guarded_justify jc f) as (g & <- & Hg & _); exact Hg |].
  intros [] g Eg. apply guarded_advances in Eg as [_ Hfin].
  refine (moves_bind_at _ _ _ g _ _); [split; cbn; rewrite ?Hfin; lia |]. intros [] g' _.
  revert g'. change (moves (on_stores advances) (f ← get; h ← liftR (foldM (realize_node cfg e) (heap (store f)) (indexed (store f))); on_store (modify (set_heap h)))).
  repeat moves_step. now apply moves_on_store, moves_modify.
Qed.

Lemma prune_tail plan (k : Store -> ForkChoice -> ForkChoice) : (forall s f, store (k s f) = s) ->
  moves (on_stores advances) (f ← get; s ← liftR (applyPrune plan (store f)); modify (k s)).
Proof.
  intros Hk f. unfold get, liftR, modify, mbind, ST_bind. destruct (applyPrune plan (store f)) as [s | |] eqn:E; [| reflexivity | reflexivity].
  apply applyPrune_frame in E as (_ & E1 & E2). unfold on_stores, advances. cbn [snd]. rewrite Hk, E1, E2. lia.
Qed.

Lemma NewSlot_advances sl : moves (on_stores advances) (NewSlot cfg balancesByRoot sl).
Proof.
  unfold NewSlot.
  repeat first [now apply (prune_tail _ (fun s f => set_pendingEpoch _ (set_lastProcessedEpoch _ (set_store s f))))
               | apply updateUnrealized_advances | moves_step].
  - apply moves_same_advances, moves_modify, expire_same.
  - apply moves_modify. intros f. apply same_advances. now split.
Qed.

Lemma InsertNode_advances st b : moves (on_stores advances) (InsertNode cfg now balancesByRoot st b).
Proof.
  unfold InsertNode.
  repeat first [apply updateCheckpoints_advances | apply moves_same_advances; first [apply insert_same | apply pullTips_same | apply removeNode_same]
               | moves_step].
Qed.

Lemma insert_staged_advances e g b : moves (on_stores advances) (insert_staged cfg now balancesByRoot e g b).
Proof.
  unfold insert_staged.
  repeat first [apply updateCheckpoints_advances | apply moves_same_advances; first [apply insert_same | apply removeNode_same] | moves_step].
  all: apply moves_same_advances, moves_modify; intros s; unfold advanceUnrealizedCheckpoints; repeat case_match; now split.
Qed.

Lemma InsertChain_advances chain : moves (on_stores advances) (InsertChain cfg now balancesByRoot chain).
Proof.
  assert (forall e g, moves (on_stores advances) (insert_chain cfg now balancesByRoot e g chain)) as Hc.
  { induction chain as [| b chain IH]; intros e g; cbn [insert_chain]; repeat first [apply insert_staged_advances | apply IH | moves_step]. }
  unfold InsertChain. repeat first [apply Hc | apply moves_same_advances; apply removeNode_same | moves_step].
Qed.

Lemma update_votes_checkpoints old new vs : forall i s, same_checkpoints s (update_votes old new i s vs).1.
Proof.
  induction vs as [| v vs IH]; intros i s; cbn [update_votes]; [reflexivity |].
  assert (same_checkpoints s (update_vote old new i s v).1) as Hv
    by (unfold update_vote, sub_balance, add_balance; repeat case_match; now split).
  destruct (update_vote old new i s v) as [s1 v1]. specialize (IH (i + 1) s1).
  destruct (update_votes old new (i + 1) s1 vs) as [s2 vs2]. cbn [fst] in *. etransitivity; eassumption.
Qed.

Lemma updateBalances_checkpoints f : same_checkpoints (store f) (store (updateBalances f)).
Proof.
  unfold updateBalances. pose proof (update_votes_checkpoints (balances f) (justifiedBalances f) (votes f) 0 (store f)) as Hs.
  now destruct (update_votes _ _ _ _ _).
Qed.

Lemma boost_checkpoints s : same_checkpoints s (applyProposerBoostScore cfg s).
Proof. unfold applyProposerBoostScore. repeat case_match; simplify_eq; now split. Qed.

Lemma Store_head_checkpoints : moves same_checkpoints (Store_head cfg now).
Proof. unfold Store_head. repeat moves_step; same_modify. Qed.

Lemma Head_advances : moves (on_stores advances) (Head cfg now balancesByRoot).
Proof.
  unfold Head, select_head.
  repeat first [apply NewSlot_advances | apply moves_same_advances; first [apply Store_head_checkpoints | apply moves_modify; apply boost_checkpoints | same_modify]
               | moves_step].
  apply moves_modify. intros f. apply same_advances, updateBalances_checkpoints.
Qed.

(** C12. Justification and finalization are never undone: whatever the outcome,
    success or error, a tick, the insertion of a block or of a chain, a head
    computation and the invalidation of a payload leave the epochs of the
    justified and the finalized checkpoint at or above where they were. *)
Theorem checkpoints_never_regress :
  (forall sl, moves (on_stores advances) (NewSlot cfg balancesByRoot sl)) /\
  (forall st b, moves (on_stores advances) (InsertNode cfg now balancesByRoot st b)) /\
  (forall chain, moves (on_stores advances) (InsertChain cfg now balancesByRoot chain)) /\
  moves (on_stores advances) (Head cfg now balancesByRoot) /\
  (forall r pr h, moves (on_stores advances) (SetOptimisticToInvalid cfg now r pr h)).
Proof.
  split_and!; intros; [apply NewSlot_advances | apply InsertNode_advances | apply InsertChain_advances | apply Head_advances |].
  apply moves_same_advances, setOptimisticToInvalid_same.
Qed.
End Checkpoints.

(** ** A sample tick

    The blocks 2 and 3 of the sample store have justified epoch 1 with different
    roots; the tick of epoch 3 realizes the greater one. *)

Definition sample_observed : ForkChoice :=
  let s := store sample_forkchoice in
  let h := alter (fun n => set_unrealizedJustifiedRoot (ToBytes32 [2]) (set_unrealizedJustifiedEpoch 1 n)) 1%nat (heap s) in
  let h := alter (fun n => set_unrealizedJustifiedRoot (ToBytes32 [3]) (set_unrealizedJustifiedEpoch 1 n)) 2%nat h in
  set_store (set_unrealizedJustifiedCheckpoint (mkCheckpoint 1 (ToBytes32 [9])) (set_heap h s)) sample_forkchoice.

Definition sample_balances (_ : Checkpoint) : result (option JustifiedBalances) := Ok (Some (mkJustifiedBalances [32; 32; 32] 96)).

Lemma unrealized_choice_deterministic_witness :
  let s := store sample_observed in
  unrealizedCheckpointsBefore_in MinimalSpecConfig (rev (indexed_nodes s)) s 3 =
    Ok (mkCheckpoint 1 (ToBytes32 [3]), zeroCheckpoint) /\
  recomputeUnrealizedCheckpoints_in (rev (indexed_nodes s)) s = recomputeUnrealizedCheckpoints_in (indexed_nodes s) s.
Proof.
  intros s. split; [vm_compute; reflexivity |].
  destruct (unrealized_choice_deterministic MinimalSpecConfig eq_refl (rev (indexed_nodes s)) (indexed_nodes s) s 3) as [(? & ? & _ & E & _) _].
  - symmetry. apply Permutation_rev.
  - symmetry. exact E.
Defined.

Lemma checkpoints_never_regress_witness :
  on_stores advances sample_observed (NewSlot MinimalSpecConfig sample_balances 24 sample_observed).2 /\
  justifiedCheckpoint (store (NewSlot MinimalSpecConfig sample_balances 24 sample_observed).2) = mkCheckpoint 1 (ToBytes32 [3]).
Proof.
  split; [| vm_compute; reflexivity].
  apply (proj1 (checkpoints_never_regress MinimalSpecConfig eq_refl (B := bv4) 12 sample_balances)).
Defined.
