(* ===== verification/ForkInvariant.v ===== *)
(** * The block tree as an invariant of the store

    The nodes that the store indexes are exactly those of one tree, linked in
    both directions; insertion grafts a leaf, pruning keeps the finalized
    subtree, removal cuts a subtree, and every other operation leaves the links
    alone. *)

From S2P Require Import Prelude Math Config Slots Bytes Shuffle State Validators EpochPrecompute ForkStore ForkChoice ForkTree ForkHead.

(** ** Links *)

Definition links (n : Node) : list ptr * option ptr * list Z := (children n, parent n, root n).

Definition same_links (h h' : gmap ptr Node) : Prop := forall q, links <$> h' !! q = links <$> h !! q.

#[global] Instance same_links_preorder : PreOrder same_links.
Proof. split; [now intros h q | intros h1 h2 h3 H1 H2 q; now rewrite (H2 q), (H1 q)]. Qed.

Lemma same_links_alter f p h : (forall n, links (f n) = links n) -> same_links h (alter f p h).
Proof.
  intros Hf q. rewrite lookup_alter. destruct (decide (p = q)) as [-> |]; [| reflexivity]. destruct (h !! q); [| reflexivity].
  cbn. f_equal. apply Hf.
Qed.

Lemma same_links_lookup h h' q n : same_links h h' -> h !! q = Some n -> exists n', h' !! q = Some n' /\ links n' = links n.
Proof.
  intros Hs E. specialize (Hs q). rewrite E in Hs. destruct (h' !! q) as [n' |]; [| discriminate]. exists n'. cbn in Hs. split; [reflexivity |].
  congruence.
Qed.

(** Parent pointers of the tree [t] below [par]. *)
Fixpoint parented (h : gmap ptr Node) (par : option ptr) (t : tree) : Prop :=
  match t with
  | Tree p ts => (exists n, h !! p = Some n /\ parent n = par) /\ foldr and True (map (parented h (Some p)) ts)
  end.

Lemma parented_inv h par p ts : parented h par (Tree p ts) <->
  (exists n, h !! p = Some n /\ parent n = par) /\ Forall (parented h (Some p)) ts.
Proof. cbn. now rewrite foldr_and_Forall. Qed.

Lemma parented_transfer (h h' : gmap ptr Node) t : forall par,
  (forall q n, q ∈ ptrs t -> h !! q = Some n -> exists n', h' !! q = Some n' /\ parent n' = parent n) ->
  parented h par t -> parented h' par t.
Proof.
  induction t as [p ts IH] using tree_ind'. intros par Hq [(n & En & Hp) Hf]%parented_inv. apply parented_inv. split.
  - destruct (Hq p n) as (n' & En' & Hp'); [apply list_elem_of_here | exact En |]. exists n'. split; [exact En' | congruence].
  - rewrite Forall_forall in *. intros k Hk. apply (IH k Hk); [| now apply Hf].
    intros q m Hqk. apply Hq. eapply elem_ptrs_kid; eauto.
Qed.

Lemma rep_transfer (h h' : gmap ptr Node) t :
  (forall q n, q ∈ ptrs t -> h !! q = Some n -> exists n', h' !! q = Some n' /\ children n' = children n) ->
  rep h t -> rep h' t.
Proof.
  induction t as [p ts IH] using tree_ind'. intros Hq (n & En & Hc & Hf)%rep_inv.
  destruct (Hq p n) as (n' & En' & Hc'); [apply list_elem_of_here | exact En |]. apply (rep_intro _ _ _ n'); [exact En' | congruence |].
  rewrite Forall_forall in *. intros k Hk. apply (IH k Hk); [| now apply Hf]. intros q m Hqk. apply Hq. eapply elem_ptrs_kid; eauto.
Qed.

(** The index holds exactly the nodes that satisfy [P], under their roots. *)
Definition index_on (h : gmap ptr Node) (idx : gmap (list Z) ptr) (P : ptr -> Prop) : Prop :=
  forall r q, idx !! r = Some q <-> P q /\ exists n, h !! q = Some n /\ root n = r.

Lemma index_on_ext h idx P P' : (forall q, P q <-> P' q) -> index_on h idx P -> index_on h idx P'.
Proof. intros He Hi r q. rewrite (Hi r q), He. reflexivity. Qed.

Lemma index_on_heap h h' idx P : (forall q, P q -> root <$> h' !! q = root <$> h !! q) -> index_on h idx P -> index_on h' idx P.
Proof.
  intros Hh Hi r q. rewrite (Hi r q). assert (forall (m m' : gmap ptr Node), root <$> m !! q = root <$> m' !! q ->
    (exists n, m' !! q = Some n /\ root n = r) -> exists n, m !! q = Some n /\ root n = r) as Hm.
  { intros m m' E (n & En & Hr). rewrite En in E. destruct (m !! q) as [k |]; [| discriminate]. cbn in E. exists k. split; [reflexivity | congruence]. }
  split; intros [HP Hex]; (split; [exact HP |]); revert Hex; apply Hm; [| symmetry]; now apply Hh.
Qed.

Record store_ok (s : Store) (t : tree) : Prop := {
  ok_root : treeRootNode s = Some (tptr t);
  ok_rep : rep (heap s) t;
  ok_NoDup : NoDup (ptrs t);
  ok_parents : parented (heap s) None t;
  ok_index : index_on (heap s) (nodeByRoot s) (.∈ ptrs t);
  ok_fresh : forall q, q ∈ ptrs t -> (q < nextPtr s)%nat
}.

(** A store before its first block, or with one tree. *)
Definition store_inv (s : Store) : Prop := (treeRootNode s = None /\ nodeByRoot s = ∅) \/ exists t, store_ok s t.

(** ** Operations that leave the links alone *)

Record same_store (s s' : Store) : Prop := {
  ss_links : same_links (heap s) (heap s');
  ss_root : treeRootNode s' = treeRootNode s;
  ss_index : nodeByRoot s' = nodeByRoot s;
  ss_next : nextPtr s' = nextPtr s
}.

#[global] Instance same_store_preorder : PreOrder same_store.
Proof. split; [intros s; now split | intros s1 s2 s3 [] []; split; [etransitivity; eassumption | congruence ..]]. Qed.

Lemma same_store_ok s s' t : same_store s s' -> store_ok s t -> store_ok s' t.
Proof.
  intros [Hl Hr Hi Hn] [H1 H2 H3 H4 H5 H6].
  assert (forall q n, heap s !! q = Some n -> exists n', heap s' !! q = Some n' /\ links n' = links n) as Hq
    by (intros q n; now apply same_links_lookup).
  split; [congruence | | exact H3 | | |].
  - revert H2. apply rep_transfer. intros q n _ E. destruct (Hq q n E) as (n' & E' & [= Hc _ _]). eauto.
  - revert H4. apply parented_transfer. intros q n _ E. destruct (Hq q n E) as (n' & E' & [= _ Hp _]). eauto.
  - rewrite Hi. revert H5. apply index_on_heap. intros q _. specialize (Hl q).
    destruct (heap s' !! q), (heap s !! q); try discriminate; [| reflexivity]. cbn in *. now injection Hl as _ _ ->.
  - now rewrite Hn.
Qed.

(** ** Node lists of a tree *)

Fixpoint post (t : tree) : list ptr := match t with Tree q ts => concat (map post ts) ++ [q] end.

Fixpoint outside (p : ptr) (t : tree) : list ptr :=
  match t with Tree q ts => if decide (q = p) then [] else concat (map (outside p) ts) ++ [q] end.

Lemma foldM_kids (f : ptr -> list ptr -> result (list ptr)) g ts : Forall (fun k => forall acc, f (tptr k) acc = Ok (acc ++ g k)) ts ->
  forall acc, foldM (fun acc c => f c acc) acc (map tptr ts) = Ok (acc ++ concat (map g ts)).
Proof.
  induction 1 as [| k ts Hk _ IH]; intros acc; cbn [map foldM concat]; [now rewrite app_nil_r |].
  rewrite Hk. cbn [mbind result_bind]. now rewrite IH, app_assoc.
Qed.

Lemma subtreeNodes_ok h t : forall fuel acc, rep h t -> (height t <= fuel)%nat ->
  subtreeNodes fuel (tptr t) h acc = Ok (acc ++ post t).
Proof.
  induction t as [p ts IH] using tree_ind'. intros fuel acc (n & En & Hc & Hf)%rep_inv Hh. destruct fuel as [| fuel]; [cbn in Hh; lia |].
  cbn [subtreeNodes tptr]. rewrite (deref_ok _ _ _ En). cbn [mbind result_bind]. rewrite Hc.
  rewrite (foldM_kids (fun c nodes => subtreeNodes fuel c h nodes) post).
  - cbn [mbind result_bind post]. now rewrite app_assoc.
  - rewrite Forall_forall in *. intros k Hk a. apply (IH k Hk); [now apply Hf |]. pose proof (height_kid k ts Hk). cbn [height] in Hh. lia.
Qed.

Lemma prunableNodes_ok h f t : forall fuel acc, rep h t -> (height t <= fuel)%nat ->
  prunableNodes fuel (tptr t) f h acc = Ok (acc ++ outside f t).
Proof.
  induction t as [p ts IH] using tree_ind'. intros fuel acc (n & En & Hc & Hf)%rep_inv Hh. destruct fuel as [| fuel]; [cbn in Hh; lia |].
  cbn [prunableNodes tptr outside]. destruct (decide (p = f)); [now rewrite app_nil_r |].
  rewrite (deref_ok _ _ _ En). cbn [mbind result_bind]. rewrite Hc.
  rewrite (foldM_kids (fun c nodes => prunableNodes fuel c f h nodes) (outside f)).
  - cbn [mbind result_bind]. now rewrite app_assoc.
  - rewrite Forall_forall in *. intros k Hk a. apply (IH k Hk); [now apply Hf |]. pose proof (height_kid k ts Hk). cbn [height] in Hh. lia.
Qed.

Lemma elem_concat_map {A B} (f : A -> list B) l x : x ∈ concat (map f l) <-> exists a, a ∈ l /\ x ∈ f a.
Proof.
  rewrite list_elem_of_In, in_concat. split.
  - intros (y & Hy & Hx). apply in_map_iff in Hy as (a & <- & Ha). exists a. now rewrite !list_elem_of_In.
  - intros (a & Ha & Hx). exists (f a). rewrite in_map_iff, <- list_elem_of_In. split; [| exact Hx]. exists a. now rewrite <- list_elem_of_In.
Qed.

Lemma elem_ptrs p ts q : q ∈ ptrs (Tree p ts) <-> q = p \/ exists k, k ∈ ts /\ q ∈ ptrs k.
Proof. cbn [ptrs]. now rewrite elem_of_cons, elem_concat_map. Qed.

Lemma post_ptrs t q : q ∈ post t <-> q ∈ ptrs t.
Proof.
  induction t as [p ts IH] using tree_ind'. cbn [post]. rewrite elem_ptrs, elem_of_app, elem_concat_map, list_elem_of_singleton.
  rewrite Forall_forall in IH. split; [intros [(k & Hk & Hq) | ->]; [right; exists k; rewrite <- (IH k Hk); auto | now left] |].
  intros [-> | (k & Hk & Hq)]; [now right | left]. exists k. rewrite (IH k Hk). auto.
Qed.

(** A pointer below one kid is not the root and not below another kid. *)
Lemma kids_disjoint p ts k k' q : NoDup (ptrs (Tree p ts)) -> k ∈ ts -> k' ∈ ts -> q ∈ ptrs k -> q ∈ ptrs k' -> k = k'.
Proof.
  cbn [ptrs]. intros [_ Hn]%NoDup_cons Hk Hk' Hq Hq'. induction ts as [| a ts IH]; [now apply not_elem_of_nil in Hk |].
  cbn in Hn. apply NoDup_app in Hn as (_ & Hd & Hn).
  apply elem_of_cons in Hk as [-> | Hk], Hk' as [-> | Hk']; [reflexivity | | | now apply IH].
  - destruct (Hd q Hq). apply elem_concat_map. eauto.
  - destruct (Hd q Hq'). apply elem_concat_map. eauto.
Qed.

Lemma kid_not_root p ts k : NoDup (ptrs (Tree p ts)) -> k ∈ ts -> p ∉ ptrs k.
Proof. intros [Hp _]%NoDup_kids Hk Hq. apply Hp, elem_concat_map. eauto. Qed.

Lemma subtree_same_root u t : NoDup (ptrs t) -> subtree u t -> tptr u = tptr t -> u = t.
Proof.
  intros Hn Hs E. destruct Hs as [| u k p ts Hk Hs]; [reflexivity |]. cbn [tptr] in E.
  destruct (kid_not_root p ts k Hn Hk). rewrite <- E. apply (subtree_ptrs u k); [exact Hs | apply elem_tptr].
Qed.

Lemma outside_all p t : p ∉ ptrs t -> outside p t = post t.
Proof.
  induction t as [q ts IH] using tree_ind'. intros Hp. cbn [outside post]. rewrite elem_ptrs in Hp.
  rewrite decide_False by (intros ->; auto). f_equal. f_equal. apply map_ext_in. intros k Hk%list_elem_of_In.
  rewrite Forall_forall in IH. apply (IH k Hk). intros Hq. apply Hp. right. eauto.
Qed.

Lemma outside_spec u t q : NoDup (ptrs t) -> subtree u t -> q ∈ outside (tptr u) t <-> q ∈ ptrs t /\ q ∉ ptrs u.
Proof.
  intros Hn Hs. induction Hs as [[p ts] | u k p ts Hk Hs IH]; [cbn [outside tptr]; rewrite decide_True by reflexivity |].
  { split; [intros []%not_elem_of_nil | intros [H1 H2]; contradiction]. }
  assert (tptr u ∈ ptrs k) as Hu by (apply (subtree_ptrs u k); [exact Hs | apply elem_tptr]).
  pose proof (kid_not_root p ts k Hn Hk) as Hpk. cbn [outside]. rewrite decide_False by (intros ->; contradiction).
  destruct (NoDup_kids _ _ Hn) as [_ Hkids]. rewrite Forall_forall in Hkids. specialize (IH (Hkids k Hk)).
  rewrite elem_of_app, list_elem_of_singleton, elem_concat_map, elem_ptrs.
  assert (forall k', k' ∈ ts -> q ∈ outside (tptr u) k' <-> q ∈ ptrs k' /\ q ∉ ptrs u) as Hk'.
  { intros k' Hin. destruct (decide (tptr u ∈ ptrs k')) as [Hin' | Hout].
    - now rewrite <- (kids_disjoint p ts k k' (tptr u) Hn Hk Hin Hu Hin').
    - rewrite outside_all, post_ptrs by exact Hout. split; [| tauto]. intros Hq. split; [exact Hq |]. intros Hqu. apply Hout.
      rewrite <- (kids_disjoint p ts k k' q Hn Hk Hin); [exact Hu | now apply (subtree_ptrs u k) | exact Hq]. }
  split.
  - intros [(k' & Hin & Hq) | ->]; [rewrite (Hk' k' Hin) in Hq; destruct Hq; eauto |]. split; [now left |].
    intros Hq. apply Hpk. now apply (subtree_ptrs u k).
  - intros [[-> | (k' & Hin & Hq)] Hqu]; [now right |]. left. exists k'. rewrite (Hk' k' Hin). auto.
Qed.

Lemma parented_subtree h u t : subtree u t -> forall par, parented h par t -> exists par', parented h par' u /\ (u = t \/ par' <> None).
Proof.
  induction 1 as [t | u k p ts Hk Hs IH]; intros par Hp; [eauto |]. apply parented_inv in Hp as [_ Hf]. rewrite Forall_forall in Hf.
  destruct (IH _ (Hf k Hk)) as (par' & Hp' & [-> | Hne]); [| eauto]. exists (Some p). split; [now apply Hf | now right].
Qed.

(** ** Dropping nodes from the index *)

(** The index without the roots of the nodes [L]. *)
Definition dropped (h : gmap ptr Node) (L : list ptr) (idx idx' : gmap (list Z) ptr) : Prop :=
  forall r q, idx' !! r = Some q <-> idx !! r = Some q /\ forall q' n, q' ∈ L -> h !! q' = Some n -> root n <> r.

Lemma dropped_nil h idx : dropped h [] idx idx.
Proof. intros r q. split; [| tauto]. intros E. split; [exact E |]. intros q' n []%not_elem_of_nil. Qed.

Lemma dropped_cons h p n L idx idx' : h !! p = Some n -> dropped h L (delete (root n) idx) idx' -> dropped h (p :: L) idx idx'.
Proof.
  intros Ep Hd r q. rewrite (Hd r q), lookup_delete_Some. split.
  - intros [[Hr E] Hl]. split; [exact E |]. intros q' m [-> | Hq]%elem_of_cons Em; [congruence | eauto].
  - intros [E Hl]. split; [split; [apply (Hl p n); [apply list_elem_of_here | exact Ep] | exact E] |].
    intros q' m Hq. apply Hl. now apply list_elem_of_further.
Qed.

Lemma dropped_ext h h' L idx idx' : (forall q, root <$> h' !! q = root <$> h !! q) -> dropped h L idx idx' -> dropped h' L idx idx'.
Proof.
  intros Hh Hd r q. rewrite (Hd r q). split; intros [E Hl]; (split; [exact E |]); intros q' n Hq En Hr; specialize (Hh q');
    rewrite En in Hh.
  - destruct (h !! q') as [m |] eqn:Em; [| discriminate]. cbn in Hh. apply (Hl q' m Hq Em). congruence.
  - destruct (h' !! q') as [m |] eqn:Em; [| discriminate]. cbn in Hh. apply (Hl q' m Hq Em). congruence.
Qed.

Lemma dropped_index h L idx idx' P : (forall q, q ∈ L -> P q /\ is_Some (h !! q)) -> dropped h L idx idx' -> index_on h idx P ->
  index_on h idx' (fun q => P q /\ q ∉ L).
Proof.
  intros HL Hd Hi r q. rewrite (Hd r q). split.
  - intros [E Hl]. apply Hi in E as [HP (n & En & Hr)]. split; [| eauto]. split; [exact HP |]. intros Hq. now apply (Hl q n).
  - intros [[HP Hq] (n & En & Hr)]. assert (idx !! r = Some q) as E by (apply Hi; eauto). split; [exact E |]. intros q' m Hq' Em Hm.
    destruct (HL q' Hq') as [HP' _]. assert (idx !! r = Some q') as E' by (apply Hi; eauto). congruence.
Qed.

(** ** Pruning *)

Lemma prune_node_ok s p n : heap s !! p = Some n ->
  prune_node s p = Ok (set_nodeByPayload (delete (payloadHash n) (nodeByPayload s))
    (set_nodeByRoot (delete (root n) (nodeByRoot s)) (set_heap (alter (set_children []) p (heap s)) s))).
Proof. intros E. unfold prune_node. now rewrite (deref_ok _ _ _ E). Qed.

Lemma prune_nodes_ok L : forall s, (forall q, q ∈ L -> is_Some (heap s !! q)) ->
  exists s', foldM prune_node s L = Ok s' /\ treeRootNode s' = treeRootNode s /\ nextPtr s' = nextPtr s /\
    dropped (heap s) L (nodeByRoot s) (nodeByRoot s') /\
    (forall q, root <$> heap s' !! q = root <$> heap s !! q) /\ (forall q, q ∉ L -> heap s' !! q = heap s !! q).
Proof.
  induction L as [| p L IH]; intros s Hs; cbn [foldM].
  { exists s. split_and!; try reflexivity. apply dropped_nil. }
  destruct (Hs p) as [n En]; [apply list_elem_of_here |]. rewrite (prune_node_ok _ _ _ En). cbn [mbind result_bind].
  set (s1 := set_nodeByPayload _ _).
  assert (forall q, root <$> heap s1 !! q = root <$> heap s !! q) as Hroot.
  { intros q. cbn [s1 heap set_nodeByPayload set_nodeByRoot set_heap]. rewrite lookup_alter. destruct (decide (p = q)) as [-> |]; [| reflexivity].
    now destruct (heap s !! q). }
  destruct (IH s1) as (s' & E & H1 & H2 & H3 & H4 & H5).
  { intros q Hq. destruct (Hs q) as [m Em]; [now apply list_elem_of_further |]. specialize (Hroot q). rewrite Em in Hroot.
    destruct (heap s1 !! q); [eauto | discriminate]. }
  exists s'. split_and!; [exact E | exact H1 | exact H2 | | |].
  - apply (dropped_cons _ p n); [exact En |]. apply (dropped_ext (heap s1)); [intros q; symmetry; apply Hroot | exact H3].
  - intros q. now rewrite H4.
  - intros q [Hne Hq]%not_elem_of_cons. rewrite H5 by exact Hq. cbn [s1 heap set_nodeByPayload set_nodeByRoot set_heap].
    now apply lookup_alter_ne.
Qed.

(** What a plan removes and keeps of the tree [t]: the subtree [Tree p ts] of the
    finalized node, without some of its kids. *)
Definition plan_for (plan : pruningPlan) (t : tree) : Prop :=
  exists p ts good, subtree (Tree p ts) t /\ planFinalized plan = p /\ planChildren plan = map tptr good /\
    sublist good ts /\
    (forall q, q ∈ planRemoved plan <-> q ∈ ptrs t /\ q ∉ ptrs (Tree p good)).

Lemma sublist_ptrs p good ts : sublist good ts -> sublist (ptrs (Tree p good)) (ptrs (Tree p ts)).
Proof.
  intros Hs. cbn [ptrs]. constructor. induction Hs; cbn; [constructor | now apply sublist_app | now apply sublist_inserts_l].
Qed.

Lemma removed_in_heap s t q : store_ok s t -> q ∈ ptrs t -> is_Some (heap s !! q).
Proof. intros Hok. apply rep_lookup, Hok. Qed.

Lemma applyPrune_ok plan s t : store_ok s t -> plan_for plan t -> exists s' t', applyPrune plan s = Ok s' /\ store_ok s' t'.
Proof.
  intros Hok (p & ts & good & Hsub & Hfin & Hch & Hgood & Hrem). pose proof Hok as [H1 H2 H3 H4 H5 H6].
  assert (NoDup (ptrs (Tree p ts))) as Hnd by now apply (NoDup_subtree _ t).
  pose proof (sublist_ptrs p good ts Hgood) as Hsp.
  assert (forall q, q ∈ ptrs (Tree p good) -> q ∈ ptrs t) as Hin
    by (intros q Hq; apply (subtree_ptrs (Tree p ts) t); [exact Hsub |]; now apply (elem_of_sublist _ _ _ Hq)).
  destruct (prune_nodes_ok (planRemoved plan) s) as (s1 & E & R1 & R2 & R3 & R4 & R5);
    [intros q [Hq _]%Hrem; now apply (removed_in_heap s t) |].
  assert (forall q, q ∈ ptrs (Tree p good) -> heap s1 !! q = heap s !! q) as Hkeep by (intros q Hq; apply R5; rewrite Hrem; tauto).
  destruct (rep_inv _ _ _ (subtree_rep _ _ _ Hsub H2)) as (fn & Efn & _ & Hkids).
  destruct (parented_subtree _ _ _ Hsub _ H4) as (par & [_ Hpar]%parented_inv & _).
  assert (heap s1 !! p = Some fn) as Efn1 by (rewrite Hkeep; [exact Efn | apply list_elem_of_here]).
  exists (set_finalizedPayloadBlockHash (payloadHash fn) (set_treeRootNode (Some p) (set_heap
    (alter (fun n => set_children (planChildren plan) (set_parent None n)) p (heap s1)) s1))), (Tree p good).
  split; [unfold applyPrune; rewrite E; cbn [mbind result_bind]; rewrite Hfin, (deref_ok _ _ _ Efn1); reflexivity |].
  assert (forall k q, k ∈ good -> q ∈ ptrs k -> alter (fun n => set_children (planChildren plan) (set_parent None n)) p (heap s1) !! q = heap s !! q) as Hk.
  { intros k q Hkg Hq. assert (q ∈ ptrs (Tree p good)) as Hq' by (apply elem_ptrs; eauto). rewrite lookup_alter_ne; [now apply Hkeep |].
    intros ->. apply (kid_not_root q ts k Hnd); [now apply (elem_of_sublist _ _ _ Hkg) | exact Hq]. }
  rewrite Forall_forall in Hkids, Hpar. split; cbn [treeRootNode heap nodeByRoot nextPtr set_finalizedPayloadBlockHash set_treeRootNode set_heap].
  - reflexivity.
  - eapply rep_intro; [rewrite lookup_alter, decide_True, Efn1 by reflexivity; reflexivity | exact Hch |].
    apply Forall_forall. intros k Hkg. apply (rep_agree k (heap s)); [intros q Hq; now rewrite (Hk k q Hkg Hq) |].
    apply Hkids. now apply (elem_of_sublist _ _ _ Hkg).
  - now apply (sublist_NoDup _ _ Hnd).
  - apply parented_inv. split; [eexists; rewrite lookup_alter, decide_True, Efn1 by reflexivity; split; reflexivity |].
    apply Forall_forall. intros k Hkg. apply (parented_transfer (heap s)); [| apply Hpar; now apply (elem_of_sublist _ _ _ Hkg)].
    intros q n Hq En. rewrite (Hk k q Hkg Hq). eauto.
  - assert (index_on (heap s) (nodeByRoot s1) (.∈ ptrs (Tree p good))) as Hi.
    { apply (index_on_ext _ _ (fun q => q ∈ ptrs t /\ q ∉ planRemoved plan)).
      - intros q. rewrite Hrem. split; [intros [Hq Hn]; destruct (decide (q ∈ ptrs (Tree p good))); tauto | intros Hq; split; [now apply Hin | tauto]].
      - apply (dropped_index _ (planRemoved plan) (nodeByRoot s)); [| exact R3 | exact H5].
        intros q [Hq _]%Hrem. split; [exact Hq | now apply (removed_in_heap s t)]. }
    revert Hi. apply index_on_heap. intros q _. rewrite <- R4, lookup_alter. destruct (decide (p = q)) as [-> |]; [| reflexivity].
    now destruct (heap s1 !! q).
  - intros q Hq. rewrite R2. apply H6, Hin, Hq.
Qed.

(** The pass over the kids of the finalized node. *)
Lemma prune_children_ok s m fs ts : forall acc, Forall (rep (heap s)) ts -> Forall (fun k => (height k <= heap_fuel s)%nat) ts ->
  exists good bad, foldM (prune_child s m fs) acc (map tptr ts) = Ok (acc.1 ++ concat (map post bad), acc.2 ++ map tptr good) /\
    sublist good ts /\ ts ≡ₚ good ++ bad.
Proof.
  induction ts as [| k ts IH]; intros acc Hrep Hh; cbn [map foldM].
  { exists [], []. cbn. rewrite !app_nil_r. split; [now destruct acc | split; [constructor | reflexivity]]. }
  apply Forall_cons in Hrep as [Hk Hrep], Hh as [Hhk Hh].
  assert (exists b : bool, prune_child s m fs acc (tptr k) = Ok (if b then (acc.1 ++ post k, acc.2) else (acc.1, acc.2 ++ [tptr k]))) as [b Eb].
  { destruct k as [p kids]. destruct (rep_inv _ _ _ Hk) as (n & En & _). unfold prune_child, incompatible. cbn [tptr].
    rewrite (deref_ok _ _ _ En). cbn [mbind result_bind]. destruct (negb _ && _); [exists true | now exists false].
    change p with (tptr (Tree p kids)) at 1. now rewrite subtreeNodes_ok by assumption. }
  rewrite Eb. cbn [mbind result_bind]. destruct b.
  - destruct (IH (acc.1 ++ post k, acc.2) Hrep Hh) as (good & bad & E & Hs & Hp). exists good, (k :: bad). split_and!.
    + rewrite E. cbn. now rewrite app_assoc.
    + now constructor.
    + rewrite Hp. apply Permutation_middle.
  - destruct (IH (acc.1, acc.2 ++ [tptr k]) Hrep Hh) as (good & bad & E & Hs & Hp). exists (k :: good), bad. split_and!.
    + rewrite E. cbn. now rewrite <- app_assoc.
    + now constructor.
    + now rewrite Hp.
Qed.

Lemma NoDup_trees ts : NoDup (concat (map ptrs ts)) -> NoDup ts.
Proof.
  induction ts as [| k ts IH]; intros Hn; [constructor |]. cbn in Hn. apply NoDup_app in Hn as (_ & Hd & Hn). constructor; [| now apply IH].
  intros Hk. apply (Hd (tptr k) (elem_tptr k)), elem_concat_map. exists k. split; [exact Hk | apply elem_tptr].
Qed.

(** The nodes of the kids that are not kept. *)
Lemma bad_kids p ts good bad q : NoDup (ptrs (Tree p ts)) -> ts ≡ₚ good ++ bad ->
  q ∈ concat (map post bad) <-> q ∈ ptrs (Tree p ts) /\ q ∉ ptrs (Tree p good).
Proof.
  intros Hn Hp. rewrite elem_concat_map. assert (forall k, k ∈ ts <-> k ∈ good \/ k ∈ bad) as Hin by (intros k; now rewrite Hp, elem_of_app).
  assert (NoDup (good ++ bad)) as Hd by (rewrite <- Hp; apply NoDup_trees; cbn [ptrs] in Hn; now apply NoDup_cons in Hn as [_ Hn]).
  apply NoDup_app in Hd as (_ & Hd & _). rewrite !elem_ptrs. split.
  - intros (k & Hk & Hq%post_ptrs). assert (k ∈ ts) as Hkt by (apply Hin; now right). split; [right; eauto |].
    intros [-> | (k' & Hk' & Hq')]; [now apply (kid_not_root p ts k Hn Hkt) |].
    assert (k = k') as -> by (apply (kids_disjoint p ts k k' q Hn); [exact Hkt | apply Hin; now left | exact Hq | exact Hq']). now apply (Hd k').
  - intros [[-> | (k & Hk & Hq)] Hout]; [destruct Hout; now left |]. exists k. rewrite post_ptrs. split; [| exact Hq].
    apply Hin in Hk as [Hk | Hk]; [| exact Hk]. destruct Hout. right. eauto.
Qed.

Section Prune.
Context (cfg : BeaconChainConfig).

(** The finalized node is one of the tree. *)
Definition finalized_ptr (c : Checkpoint) (s : Store) : option ptr :=
  match nodeByRoot s !! Root c with
  | Some p => Some p
  | None => match treeRootNode s ≫= (heap s !!.) with
            | Some t => if (Epoch_ c =? GenesisEpoch cfg) && bool_decide (Root c = ZeroHash) && (slot t =? 0) then treeRootNode s else None
            | None => None
            end
  end.

Lemma finalized_ptr_in c s t p : store_ok s t -> finalized_ptr c s = Some p -> p ∈ ptrs t.
Proof.
  intros [H1 _ _ _ H5 _]. unfold finalized_ptr. destruct (nodeByRoot s !! Root c) as [q |] eqn:E; [intros [= ->]; now apply H5 in E as [E _] |].
  destruct (treeRootNode s ≫= _); [| discriminate]. destruct (_ && _); [| discriminate]. rewrite H1. intros [= <-]. apply elem_tptr.
Qed.

Lemma preparePrune_plan c s t plan : store_ok s t -> preparePrune cfg c s = Ok plan -> plan_for plan t.
Proof.
  intros Hok. unfold preparePrune. fold (finalized_ptr c s). destruct (finalized_ptr c s) as [p |] eqn:Ep; [| discriminate].
  destruct (ptrs_subtree t p (finalized_ptr_in c s t p Hok Ep)) as ([p' ts] & Hsub & Hp'). cbn [tptr] in Hp'. subst p'.
  pose proof Hok as [H1 H2 H3 H4 H5 H6].
  assert (NoDup (ptrs (Tree p ts))) as Hnd by now apply (NoDup_subtree _ t).
  destruct (rep_inv _ _ _ (subtree_rep _ _ _ Hsub H2)) as (fn & Efn & Hc & Hkids).
  destruct (wrap _ (EpochStart _ _)) as [m | |]; [| discriminate | discriminate]. cbn [mbind result_bind]. rewrite (deref_ok _ _ _ Efn).
  cbn [mbind result_bind]. assert (exists removed, match parent fn with
      | None => Ok []
      | Some _ => match treeRootNode s with Some t => prunableNodes (heap_fuel s) t p (heap s) [] | None => Panic nil_pointer end
      end = Ok removed /\ forall q, q ∈ removed <-> q ∈ ptrs t /\ q ∉ ptrs (Tree p ts)) as (removed & Er & Hr).
  { destruct (parented_subtree _ _ _ Hsub _ H4) as (par & [(fn' & Efn' & Hpar) _]%parented_inv & Hroot). rewrite Efn in Efn'. injection Efn' as <-.
    rewrite Hpar. destruct par as [q |].
    - exists (outside p t). rewrite H1, prunableNodes_ok; [| exact H2 | unfold heap_fuel; pose proof (height_size _ _ H2 H3); lia].
      split; [reflexivity |]. intros x. now apply (outside_spec (Tree p ts)).
    - destruct Hroot as [<- | Hroot]; [| contradiction]. exists []. split; [reflexivity |]. intros x. rewrite elem_of_nil. tauto. }
  rewrite Er. cbn [mbind result_bind]. rewrite Hc.
  destruct (prune_children_ok s m (slot fn) ts (removed, []) Hkids) as (good & bad & E & Hs & Hp).
  { apply Forall_forall. intros k Hk. rewrite Forall_forall in Hkids. pose proof (height_size _ _ (Hkids k Hk)
      (NoDup_subtree _ _ (sub_kid k k p ts Hk (sub_here k)) Hnd)). unfold heap_fuel. lia. }
  cbn [fst snd app] in E. rewrite E. cbn [mbind result_bind fst snd]. intros [= <-]. exists p, ts, good. split_and!; try assumption; try reflexivity.
  intros q. cbn [planRemoved]. rewrite elem_of_app, Hr, (bad_kids p ts good bad q Hnd Hp).
  pose proof (sublist_ptrs p good ts Hs) as Hsp.
  split.
  - intros [[Hq Hn] | [Hq Hn]]; (split; [| try exact Hn]); [exact Hq | intros Hg; apply Hn; now apply (elem_of_sublist _ _ _ Hg) |].
    now apply (subtree_ptrs (Tree p ts) t).
  - intros [Hq Hn]. destruct (decide (q ∈ ptrs (Tree p ts))); tauto.
Qed.
End Prune.

(** ** Replacing the kids of one node *)

Fixpoint replace_kids (q : ptr) (kids : list tree) (t : tree) : tree :=
  match t with Tree x ts => if decide (x = q) then Tree x kids else Tree x (map (replace_kids q kids) ts) end.

Lemma tptr_replace q kids t : tptr (replace_kids q kids t) = tptr t.
Proof. destruct t as [x ts]. cbn. now destruct (decide _). Qed.

Lemma replace_outside q kids t : q ∉ ptrs t -> replace_kids q kids t = t.
Proof.
  induction t as [x ts IH] using tree_ind'. intros Hq. rewrite elem_ptrs in Hq. cbn [replace_kids].
  rewrite decide_False by (intros ->; auto). f_equal. rewrite <- map_id. apply map_ext_in. intros k Hk%list_elem_of_In.
  rewrite Forall_forall in IH. apply (IH k Hk). intros Hqk. apply Hq. right. eauto.
Qed.

(** The nodes of the result: the kids [ts] are exchanged for [kids]. *)
Lemma replace_ptrs q ts kids t : NoDup (ptrs t) -> subtree (Tree q ts) t ->
  exists rest, q ∈ rest /\ ptrs t ≡ₚ rest ++ concat (map ptrs ts) /\ ptrs (replace_kids q kids t) ≡ₚ rest ++ concat (map ptrs kids).
Proof.
  intros Hn Hs. remember (Tree q ts) as u eqn:Eu. induction Hs as [t | u k p l Hk Hs IH]; subst.
  { exists [q]. cbn [ptrs replace_kids]. rewrite decide_True by reflexivity. split; [apply list_elem_of_here | split; reflexivity]. }
  destruct (NoDup_kids _ _ Hn) as [_ Hkids]. rewrite Forall_forall in Hkids. destruct (IH (Hkids k Hk) eq_refl) as (rest & Hq & H1 & H2).
  assert (q ∈ ptrs k) as Hqk by (apply (subtree_ptrs (Tree q ts) k); [exact Hs | apply list_elem_of_here]).
  cbn [replace_kids]. rewrite decide_False by (intros ->; now apply (kid_not_root q l k Hn Hk)).
  assert (forall k', k' ∈ l -> k' <> k -> replace_kids q kids k' = k') as Hother.
  { intros k' Hk' Hne. apply replace_outside. intros Hqk'. apply Hne. now apply (kids_disjoint p l k' k q Hn). }
  pose proof Hn as Hn'. cbn [ptrs] in Hn'. apply NoDup_cons in Hn' as [_ Hn']. apply NoDup_trees in Hn'.
  apply list_elem_of_split in Hk as (l1 & l2 & ->). apply NoDup_app in Hn' as (_ & Hd & [Hk2 _]%NoDup_cons).
  assert (map (replace_kids q kids) (l1 ++ k :: l2) = l1 ++ replace_kids q kids k :: l2) as ->.
  { rewrite map_app. cbn [map]. f_equal; [| f_equal]; rewrite <- (map_id l1) at 2 || rewrite <- (map_id l2) at 2;
      apply map_ext_in; intros k' Hk'%list_elem_of_In; apply Hother.
    - apply elem_of_app. now left.
    - intros ->. apply (Hd k Hk'), list_elem_of_here.
    - apply elem_of_app. right. now apply list_elem_of_further.
    - intros ->. contradiction. }
  exists (p :: concat (map ptrs l1) ++ concat (map ptrs l2) ++ rest). split_and!.
  - apply list_elem_of_further. rewrite !elem_of_app. auto.
  - cbn [ptrs]. rewrite map_app, concat_app. cbn [map concat]. rewrite H1. cbn. f_equiv. rewrite <- !app_assoc. f_equiv.
    rewrite !app_assoc. rewrite (Permutation_app_comm _ (concat (map ptrs l2))). now rewrite !app_assoc.
  - cbn [ptrs]. rewrite map_app, concat_app. cbn [map concat]. rewrite H2. cbn. f_equiv. rewrite <- !app_assoc. f_equiv.
    rewrite !app_assoc. rewrite (Permutation_app_comm _ (concat (map ptrs l2))). now rewrite !app_assoc.
Qed.

Lemma replace_rep (h h' : gmap ptr Node) q kids n' t :
  (forall x n, x ∈ ptrs t -> x <> q -> h !! x = Some n -> exists n', h' !! x = Some n' /\ children n' = children n) ->
  h' !! q = Some n' -> children n' = map tptr kids -> Forall (rep h') kids ->
  rep h t -> rep h' (replace_kids q kids t).
Proof.
  intros Hq En Hc Hk. induction t as [x ts IH] using tree_ind'. intros (n & E & C & Hf)%rep_inv. cbn [replace_kids].
  destruct (decide (x = q)) as [-> | Hne]; [now apply (rep_intro _ _ _ n') |].
  destruct (Hq x n) as (m & Em & Cm); [apply list_elem_of_here | exact Hne | exact E |].
  apply (rep_intro _ _ _ m); [exact Em | rewrite Cm, C, map_map; apply map_ext; intros k; symmetry; apply tptr_replace |].
  apply Forall_map. rewrite Forall_forall in *. intros k Hin. apply (IH k Hin); [| now apply Hf].
  intros y m' Hy. apply Hq. eapply elem_ptrs_kid; eauto.
Qed.

Lemma replace_parented (h h' : gmap ptr Node) q kids t :
  (forall x n, x ∈ ptrs t -> h !! x = Some n -> exists n', h' !! x = Some n' /\ parent n' = parent n) ->
  Forall (parented h' (Some q)) kids -> forall par, parented h par t -> parented h' par (replace_kids q kids t).
Proof.
  intros Hq Hk. induction t as [x ts IH] using tree_ind'. intros par [(n & E & C) Hf]%parented_inv. cbn [replace_kids].
  destruct (Hq x n) as (m & Em & Cm); [apply list_elem_of_here | exact E |].
  destruct (decide (x = q)) as [-> | Hne]; apply parented_inv; (split; [exists m; split; [exact Em | congruence] |]); [exact Hk |].
  apply Forall_map. rewrite Forall_forall in *. intros k Hin. apply (IH k Hin); [| now apply Hf].
  intros y m' Hy. apply Hq. eapply elem_ptrs_kid; eauto.
Qed.

(** The nodes of [t] keep their parents and roots, and all but [q] their children. *)
Definition relinked (h h' : gmap ptr Node) (q : ptr) (t : tree) : Prop :=
  forall x n, x ∈ ptrs t -> h !! x = Some n ->
    exists n', h' !! x = Some n' /\ parent n' = parent n /\ root n' = root n /\ (x <> q -> children n' = children n).

Lemma relinked_alter f q (h : gmap ptr Node) t : (forall n, parent (f n) = parent n) -> (forall n, root (f n) = root n) -> relinked h (alter f q h) q t.
Proof.
  intros Hp Hr x n _ En. rewrite lookup_alter. destruct (decide (q = x)) as [-> |]; [| exists n; auto].
  exists (f n). rewrite En. split_and!; auto. contradiction.
Qed.

Lemma relinked_kid h h' q ts t k : NoDup (ptrs t) -> rep h t -> parented h None t -> subtree (Tree q ts) t -> relinked h h' q t -> k ∈ ts ->
  rep h' k /\ parented h' (Some q) k.
Proof.
  intros Hn Hr Hp Hs Hl Hk. destruct (rep_inv _ _ _ (subtree_rep _ _ _ Hs Hr)) as (m & Em & Hmc & Hkids).
  destruct (parented_subtree _ _ _ Hs _ Hp) as (par & [_ Hpar]%parented_inv & _). rewrite Forall_forall in Hkids, Hpar.
  assert (forall x, x ∈ ptrs k -> x ∈ ptrs t /\ x <> q) as Hx.
  { intros x Hxk. split; [apply (subtree_ptrs _ _ _ Hs), elem_ptrs; eauto |]. intros ->.
    apply (kid_not_root q ts k); [now apply (NoDup_subtree _ t) | exact Hk | exact Hxk]. }
  split; [apply (rep_transfer h); [| now apply Hkids] | apply (parented_transfer h); [| now apply Hpar]]; intros x n Hxk En;
    destruct (Hx x Hxk) as [Hxt Hne], (Hl x n Hxt En) as (n' & En' & H1 & _ & H2); eauto.
Qed.

Lemma relinked_tree h h' q kids m t : rep h t -> parented h None t -> relinked h h' q t ->
  h' !! q = Some m -> children m = map tptr kids -> Forall (fun k => rep h' k /\ parented h' (Some q) k) kids ->
  rep h' (replace_kids q kids t) /\ parented h' None (replace_kids q kids t).
Proof.
  intros Hr Hp Hl Em Hc [Hkr Hkp]%Forall_and. split.
  - apply (replace_rep h h' q kids m); try assumption. intros x n Hx Hne En. destruct (Hl x n Hx En) as (n' & En' & _ & _ & Hcn). eauto.
  - apply (replace_parented h); try assumption. intros x n Hx En. destruct (Hl x n Hx En) as (n' & En' & Hpn & _). eauto.
Qed.

(** ** Grafting a leaf *)

Lemma graft_index h h' idx t q p n : index_on h idx (.∈ ptrs t) -> rep h t -> relinked h h' q t -> h' !! p = Some n -> idx !! root n = None ->
  index_on h' (<[root n := p]> idx) (fun x => x ∈ ptrs t \/ x = p).
Proof.
  intros Hi Hr Hl Ep Hn r x. rewrite lookup_insert_Some. split.
  - intros [[<- <-] | [Hne E]]; [split; [now right | eauto] |]. apply Hi in E as [Hxt (k & Ek & Hk)].
    destruct (Hl x k Hxt Ek) as (k' & E' & _ & Hr' & _). split; [now left |]. exists k'. split; [exact E' | congruence].
  - intros [[Hxt | ->] (k & Ek & Hk)]; [| left; split; [congruence | reflexivity]]. right.
    destruct (rep_lookup _ _ x Hr Hxt) as [k0 Ek0]. destruct (Hl x k0 Hxt Ek0) as (k' & E' & _ & Hr' & _).
    assert (idx !! r = Some x) as E by (apply Hi; split; [exact Hxt |]; exists k0; split; [exact Ek0 | congruence]).
    split; [congruence | exact E].
Qed.

Lemma graft_ok s s' t q p n : store_ok s t -> q ∈ ptrs t -> p = nextPtr s ->
  children n = [] -> parent n = Some q -> nodeByRoot s !! root n = None ->
  heap s' = alter (fun m => set_children (children m ++ [p]) m) q (<[p := n]> (heap s)) ->
  nodeByRoot s' = <[root n := p]> (nodeByRoot s) -> nextPtr s' = S p -> treeRootNode s' = treeRootNode s ->
  exists t', store_ok s' t' /\ p ∈ ptrs t' /\ forall x, x ∈ ptrs t -> x ∈ ptrs t'.
Proof.
  intros [H1 H2 H3 H4 H5 H6] Hq Hp Hnc Hnp Hnr Eh Ei En Et.
  assert (p ∉ ptrs t) as Hfresh by (intros Hin; apply H6 in Hin; lia). assert (p <> q) as Hpq by congruence.
  destruct (ptrs_subtree t q Hq) as ([q' ts] & Hs & Hq'). cbn [tptr] in Hq'. subst q'.
  destruct (rep_inv _ _ _ (subtree_rep _ _ _ Hs H2)) as (m & Em & Hmc & _).
  assert (heap s' !! p = Some n) as Ep by (rewrite Eh, lookup_alter_ne, lookup_insert_eq by congruence; reflexivity).
  assert (heap s' !! q = Some (set_children (children m ++ [p]) m)) as Eq
    by (rewrite Eh, lookup_alter, decide_True, lookup_insert_ne, Em by congruence; reflexivity).
  assert (relinked (heap s) (heap s') q t) as Hl.
  { intros x k Hx Ek. rewrite Eh. apply (relinked_alter (fun m => set_children (children m ++ [p]) m) q (<[p := n]> (heap s)) t); try easy.
    rewrite lookup_insert_ne; [exact Ek |]. intros ->. contradiction. }
  destruct (replace_ptrs q ts (ts ++ [Tree p []]) t H3 Hs) as (rest & _ & P1 & P2).
  rewrite map_app, concat_app in P2. cbn in P2. rewrite app_assoc, <- P1 in P2.
  assert (forall x, x ∈ ptrs (replace_kids q (ts ++ [Tree p []]) t) <-> x ∈ ptrs t \/ x = p) as Hx
    by (intros x; now rewrite P2, elem_of_app, list_elem_of_singleton).
  destruct (relinked_tree _ (heap s') q (ts ++ [Tree p []]) _ t H2 H4 Hl Eq) as [Hrep Hpar].
  - cbn. rewrite map_app, Hmc. reflexivity.
  - apply Forall_app. split; [apply Forall_forall; intros k; now apply (relinked_kid (heap s) _ q ts t) |].
    apply Forall_singleton. split; [apply (rep_intro _ _ _ n); [exact Ep | exact Hnc | constructor] |].
    apply parented_inv. split; [eauto | constructor].
  - exists (replace_kids q (ts ++ [Tree p []]) t). split; [| split; intros; rewrite Hx; auto]. split; try assumption.
    + now rewrite Et, tptr_replace.
    + rewrite P2. apply NoDup_app. split; [exact H3 |]. split; [| apply NoDup_singleton].
      intros x Hxt ->%list_elem_of_singleton. contradiction.
    + rewrite Ei. apply (index_on_ext _ _ (fun x => x ∈ ptrs t \/ x = p)); [intros x; symmetry; apply Hx |].
      now apply (graft_index (heap s) _ _ t q).
    + intros x. rewrite Hx, En. intros [Hxt%H6 | ->]; lia.
Qed.

(** ** Cutting a subtree *)

Lemma list_find_first (p : ptr) l1 l2 : p ∉ l1 -> list_find (fun c => c = p) (l1 ++ p :: l2) = Some (length l1, p).
Proof.
  intros Hp. apply list_find_Some. split_and!; [now rewrite list_lookup_middle | reflexivity |].
  intros j y Hj Hlt ->. apply Hp. rewrite lookup_app_l in Hj by exact Hlt. now apply list_elem_of_lookup_2 in Hj.
Qed.

(** The last child takes the place of the removed one. *)
Lemma remove_child_last p l : p ∉ l -> remove_child p (l ++ [p]) = l.
Proof.
  intros Hp. unfold remove_child. destruct l as [| a l]; [reflexivity |]. rewrite list_find_first by exact Hp.
  change ((a :: l) ++ [p]) with (a :: (l ++ [p])). destruct (l ++ [p]) eqn:E; [now destruct l |]. rewrite <- E.
  change (a :: (l ++ [p])) with ((a :: l) ++ [p]). rewrite last_snoc, length_app, insert_app_r_alt by (cbn; lia). rewrite take_app_length'; [reflexivity | cbn; lia].
Qed.

Lemma remove_child_inner p z l1 l2 : p ∉ l1 -> remove_child p (l1 ++ p :: l2 ++ [z]) = l1 ++ z :: l2.
Proof.
  intros Hp. assert (forall cs, cs = l1 ++ p :: l2 ++ [z] -> remove_child p cs = take (length cs - 1) (<[length l1 := z]> cs)) as Hr.
  { intros cs Ecs. assert (list_find (fun c => c = p) cs = Some (length l1, p)) as Ef by (subst cs; now apply list_find_first).
    assert (last cs = Some z) as El by (subst cs; rewrite app_comm_cons, app_assoc; apply last_snoc).
    assert (exists a b cs', cs = a :: b :: cs') as (a & b & cs' & ->)
      by (subst cs; destruct l1 as [| a [| b l1]]; cbn; [destruct l2; cbn; eauto | eauto | eauto]).
    unfold remove_child. now rewrite Ef, El. }
  rewrite (Hr _ eq_refl), insert_app_r_alt, Nat.sub_diag by lia. cbn [insert list_insert]. rewrite !length_app. cbn [length].
  rewrite app_comm_cons, app_assoc. rewrite take_app_length'; [reflexivity |]. rewrite !length_app. cbn. lia.
Qed.

Lemma remove_child_kids ts k : NoDup (map tptr ts) -> k ∈ ts ->
  exists kids, remove_child (tptr k) (map tptr ts) = map tptr kids /\ ts ≡ₚ k :: kids.
Proof.
  intros Hn (l1 & l2 & ->)%list_elem_of_split. rewrite map_app in *. cbn [map] in *. apply NoDup_app in Hn as (_ & Hd & _).
  assert (tptr k ∉ map tptr l1) as Hk by (intros Hk; apply (Hd _ Hk), list_elem_of_here).
  destruct l2 as [| z l2 _] using rev_ind.
  - exists l1. split; [now apply remove_child_last | now rewrite (Permutation_app_comm l1)].
  - exists (l1 ++ z :: l2). rewrite !map_app. cbn [map]. split; [now apply remove_child_inner |].
    rewrite <- Permutation_middle. f_equiv. rewrite (Permutation_app_comm l2). reflexivity.
Qed.

Lemma unindex_dropped h L ns : Forall2 (fun q n => h !! q = Some n) L ns -> forall s,
  heap (fold_left unindex ns s) = heap s /\ treeRootNode (fold_left unindex ns s) = treeRootNode s /\
  nextPtr (fold_left unindex ns s) = nextPtr s /\ dropped h L (nodeByRoot s) (nodeByRoot (fold_left unindex ns s)).
Proof.
  induction 1 as [| q n L ns Eq _ IH]; intros s; cbn [fold_left]; [split_and!; try reflexivity; apply dropped_nil |].
  destruct (IH (unindex s n)) as (-> & -> & -> & Hd).
  assert (heap (unindex s n) = heap s /\ treeRootNode (unindex s n) = treeRootNode s /\ nextPtr (unindex s n) = nextPtr s /\
    nodeByRoot (unindex s n) = delete (root n) (nodeByRoot s)) as (-> & -> & -> & En) by (unfold unindex; repeat case_match; auto).
  split_and!; try reflexivity. rewrite En in Hd. now apply (dropped_cons _ q n).
Qed.

Lemma parent_of h n p t : forall par, parented h par t -> p ∈ ptrs t -> h !! p = Some n ->
  (p = tptr t /\ parent n = par) \/ exists q ts k, subtree (Tree q ts) t /\ k ∈ ts /\ tptr k = p /\ parent n = Some q.
Proof.
  induction t as [x ts IH] using tree_ind'. intros par [(m & Em & Hm) Hf]%parented_inv Hp En.
  apply elem_ptrs in Hp as [-> | (k & Hk & Hp)]; [left; split; [reflexivity | congruence] |]. right.
  rewrite Forall_forall in IH, Hf. destruct (IH k Hk _ (Hf k Hk) Hp En) as [[-> Hpar] | (q & ts' & k' & Hs & Hk' & Ek' & Hpar)].
  - exists x, ts, k. split_and!; try assumption; [constructor | reflexivity].
  - exists q, ts', k'. split_and!; try assumption. eapply sub_kid; eassumption.
Qed.

Lemma cut_ok s s' t q ts k kids : store_ok s t -> subtree (Tree q ts) t -> ts ≡ₚ k :: kids ->
  remove_child (tptr k) (map tptr ts) = map tptr kids ->
  heap s' = alter (fun m => set_children (remove_child (tptr k) (children m)) m) q (heap s) ->
  dropped (heap s) (post k) (nodeByRoot s) (nodeByRoot s') -> nextPtr s' = nextPtr s -> treeRootNode s' = treeRootNode s ->
  store_ok s' (replace_kids q kids t).
Proof.
  intros Hok Hs Hp Hrc Eh Hd En Et. pose proof Hok as [H1 H2 H3 H4 H5 H6].
  destruct (rep_inv _ _ _ (subtree_rep _ _ _ Hs H2)) as (m & Em & Hmc & _).
  assert (heap s' !! q = Some (set_children (map tptr kids) m)) as Eq by (rewrite Eh, lookup_alter, decide_True, Em by reflexivity; cbn; now rewrite Hmc, Hrc).
  assert (relinked (heap s) (heap s') q t) as Hl by (rewrite Eh; now apply relinked_alter).
  destruct (replace_ptrs q ts kids t H3 Hs) as (rest & _ & P1 & P2).
  assert (ptrs t ≡ₚ ptrs (replace_kids q kids t) ++ ptrs k) as P3.
  { rewrite P1, P2, Hp. cbn. rewrite <- app_assoc. f_equiv. apply Permutation_app_comm. }
  pose proof H3 as Hnd. rewrite P3 in Hnd. apply NoDup_app in Hnd as (Hnd & Hdis & _).
  destruct (relinked_tree _ (heap s') q kids _ t H2 H4 Hl Eq eq_refl) as [Hrep Hpar].
  { apply Forall_forall. intros k' Hk'. apply (relinked_kid (heap s) _ q ts t); try assumption. rewrite Hp. now apply list_elem_of_further. }
  split; try assumption; [now rewrite Et, tptr_replace | |].
  - apply (index_on_heap (heap s)); [intros x _; rewrite Eh, lookup_alter; destruct (decide (q = x)) as [-> |]; [now destruct (heap s !! x) | reflexivity] |].
    apply (index_on_ext _ _ (fun x => x ∈ ptrs t /\ x ∉ post k)).
    + intros x. rewrite P3, elem_of_app, post_ptrs. specialize (Hdis x). tauto.
    + apply (dropped_index _ (post k) (nodeByRoot s)); [| exact Hd | exact H5]. intros x Hx%post_ptrs.
      assert (x ∈ ptrs t) as Hxt by (rewrite P3; apply elem_of_app; now right). split; [exact Hxt | now apply (removed_in_heap s t)].
  - intros x Hx. rewrite En. apply H6. rewrite P3. apply elem_of_app. now left.
Qed.

Lemma mapM_deref (h : gmap ptr Node) L : forall ns, mapM (deref h) L = Ok ns -> Forall2 (fun q n => h !! q = Some n) L ns.
Proof.
  induction L as [| q L IH]; intros ns E; cbn [mapM] in E; [injection E as <-; constructor |].
  assert (deref h q = match h !! q with Some n => Ok n | None => Panic nil_pointer end) as Ed by reflexivity. rewrite Ed in E.
  destruct (h !! q) as [n |] eqn:Eq; [| discriminate].
  cbn [mbind result_bind] in E. destruct (mapM (deref h) L) as [ns' | |]; [| discriminate | discriminate].
  injection E as <-. constructor; [exact Eq | now apply IH].
Qed.

Lemma kids_NoDup q ts : NoDup (ptrs (Tree q ts)) -> NoDup (map tptr ts).
Proof.
  cbn [ptrs]. intros [_ Hn]%NoDup_cons. induction ts as [| k ts IH]; [constructor |]. cbn in *. apply NoDup_app in Hn as (_ & Hd & Hn).
  constructor; [| now apply IH]. intros (k' & Hk' & Hin)%list_elem_of_fmap. apply (Hd (tptr k) (elem_tptr k)), elem_concat_map.
  exists k'. split; [exact Hin |]. rewrite Hk'. apply elem_tptr.
Qed.

Lemma recompute_store s : same_store s (recomputeUnrealizedCheckpoints s).
Proof. now split. Qed.

(** Removing an indexed node leaves a tree, whatever the result. *)
Lemma removeNode_ok s t p : store_ok s t -> p ∈ ptrs t -> exists t', store_ok (removeNode p s).2 t'.
Proof.
  intros Hok Hp. pose proof Hok as [H1 H2 H3 H4 H5 H6]. destruct (removed_in_heap s t p Hok Hp) as [n En].
  unfold removeNode, get, liftR, throw, update_node, modify, mbind, ST_bind, mret, ST_ret. rewrite (deref_ok _ _ _ En).
  destruct (parent n) as [q |] eqn:Eq; [| exists t; exact Hok]. destruct (negb (optimistic n)); [exists t; exact Hok |].
  destruct (parent_of _ n p t _ H4 Hp En) as [[-> Hpar] | (q' & ts & k & Hs & Hk & <- & Hpar)]; [congruence |].
  rewrite Eq in Hpar. injection Hpar as <-.
  assert (subtree k t) as Hsk.
  { clear -Hs Hk. remember (Tree q ts) as u. induction Hs; subst; [eapply sub_kid; [exact Hk | constructor] | eapply sub_kid; eauto]. }
  assert (NoDup (ptrs (Tree q ts))) as Hnd by now apply (NoDup_subtree _ t).
  rewrite subtreeNodes_ok; [| now apply (subtree_rep _ _ t) |].
  2: { pose proof (height_size _ _ (subtree_rep _ _ _ Hsk H2) (NoDup_subtree _ _ Hsk H3)). unfold heap_fuel. lia. }
  cbn [app]. destruct (mapM (deref (heap s)) (post k)) as [ns | |] eqn:Ens; [| exists t; exact Hok | exists t; exact Hok].
  destruct (remove_child_kids ts k (kids_NoDup q ts Hnd) Hk) as (kids & Erc & Hperm). exists (replace_kids q kids t).
  set (s1 := set_heap _ s). destruct (unindex_dropped (heap s) (post k) ns (mapM_deref _ _ _ Ens) s1) as (F1 & F2 & F3 & F4).
  cbn [snd]. apply (same_store_ok (fold_left unindex ns s1)); [apply recompute_store |].
  apply (cut_ok s _ t q ts k); assumption.
Qed.
