(* ===== verification/ForkPreserve.v ===== *)
(** * Every operation keeps the block tree

    The invariant [store_inv] through the operations of the fork choice, on every
    outcome: success, error or panic. *)

From S2P Require Import Prelude Math Config Slots Bytes Shuffle State Validators EpochPrecompute ForkStore ForkChoice ForkTree ForkHead ForkInvariant.

(** ** Traversals that leave the links alone *)

Lemma foldM_rel {S A} (R : relation S) `{!PreOrder R} (f : S -> A -> result S) l : (forall s a s', f s a = Ok s' -> R s s') ->
  forall s s', foldM f s l = Ok s' -> R s s'.
Proof.
  intros Hf. induction l as [| a l IH]; intros s s' E; cbn [foldM] in E; [injection E as <-; reflexivity |].
  destruct (f s a) as [s1 | |] eqn:E1; [| discriminate | discriminate]. cbn [mbind result_bind] in E.
  transitivity s1; [exact (Hf _ _ _ E1) | now apply IH].
Qed.

#[local] Instance fst_links_preorder : PreOrder (fun x y : gmap ptr Node * Z => same_links x.1 y.1).
Proof. split; [intros x; reflexivity | intros x y z H1 H2; etransitivity; eassumption]. Qed.

Section Preserve.
Context (cfg : BeaconChainConfig).

Lemma updateBestDescendant_links fuel : forall p j c h h', updateBestDescendant cfg fuel p j c h = Ok h' -> same_links h h'.
Proof.
  induction fuel as [| fuel IH]; intros p j c h h' E; cbn [updateBestDescendant] in E; [discriminate |].
  destruct (deref h p) as [n | |]; [| discriminate | discriminate]. cbn [mbind result_bind] in E.
  destruct (children n) as [| k ks]; [injection E as <-; now apply same_links_alter |].
  destruct (foldM _ h (k :: ks)) as [h1 | |] eqn:E1; [| discriminate | discriminate]. cbn [mbind result_bind] in E.
  apply (foldM_rel same_links) in E1; [| intros h0 a h0'; apply IH]. etransitivity; [exact E1 |]. revert E. clear -cfg.
  destruct (deref h1 p) as [n1 | |]; [| discriminate | discriminate]. cbn [mbind result_bind].
  destruct (bestChild _ _ _ _ _) as [[b |] | |]; try discriminate; cbn [mbind result_bind];
    [| intros [= <-]; now apply same_links_alter].
  destruct (deref h1 b) as [bn | |]; try discriminate. cbn [mbind result_bind]. intros [= <-]. now apply same_links_alter.
Qed.

Lemma applyWeightChanges_links fuel : forall p h h', applyWeightChanges fuel p h = Ok h' -> same_links h h'.
Proof.
  induction fuel as [| fuel IH]; intros p h h' E; cbn [applyWeightChanges] in E; [discriminate |].
  destruct (deref h p) as [n | |]; [| discriminate | discriminate]. cbn [mbind result_bind] in E.
  destruct (foldM _ (h, 0) (children n)) as [[h1 w] | |] eqn:E1; [| discriminate | discriminate]. cbn [mbind result_bind] in E.
  apply (foldM_rel (fun x y => same_links x.1 y.1)) in E1.
  - etransitivity; [exact E1 |]. destruct (decide _); injection E as <-; [reflexivity | now apply same_links_alter].
  - intros [h0 w0] a [h0' w0'] Ea. cbn [fst] in *. destruct (applyWeightChanges fuel a h0) as [h2 | |] eqn:E2; [| discriminate | discriminate].
    cbn [mbind result_bind] in Ea. destruct (deref h2 a); [| discriminate | discriminate]. injection Ea as <- <-. now apply (IH a).
Qed.

Lemma realize_links e h p h' : realize_node cfg e h p = Ok h' -> same_links h h'.
Proof.
  unfold realize_node. destruct (deref h p) as [n | |]; [| discriminate | discriminate]. cbn [mbind result_bind].
  destruct (ToEpoch cfg (slot n)); [| discriminate | discriminate]. cbn [mbind result_bind].
  destruct (_ <? _); intros [= <-]; [now apply same_links_alter | reflexivity].
Qed.

Lemma validated_links fuel : forall p h h', setNodeAndParentValidated fuel p h = Ok h' -> same_links h h'.
Proof.
  induction fuel as [| fuel IH]; intros p h h' E; cbn [setNodeAndParentValidated] in E; [discriminate |].
  destruct (deref h p) as [n | |]; [| discriminate | discriminate]. cbn [mbind result_bind] in E.
  destruct (negb (optimistic n)); [injection E as <-; reflexivity |].
  destruct (match parent n with Some q => setNodeAndParentValidated fuel q h | None => Ok h end) as [h1 | |] eqn:E1; [| discriminate | discriminate].
  cbn [mbind result_bind] in E. injection E as <-. etransitivity; [| now apply same_links_alter].
  destruct (parent n) as [q |]; [now apply (IH q) | injection E1 as <-; reflexivity].
Qed.

(** ** Steps that keep the store *)

Context {B : Bitfield} (now : Z) (balancesByRoot : Checkpoint -> result (option JustifiedBalances)).

Lemma heap_same h s : same_links (heap s) h -> same_store s (set_heap h s).
Proof. intros Hl. now split. Qed.

Lemma same_alter f p s : (forall n, links (f n) = links n) -> same_store s (set_heap (alter f p (heap s)) s).
Proof. intros Hf. now apply heap_same, same_links_alter. Qed.

Lemma expire_store sl s : same_store s (expireProposerBoost sl s).
Proof. unfold expireProposerBoost. repeat case_match; now split. Qed.

Lemma track_store p sl : moves same_store (track_received cfg now p sl).
Proof. unfold track_received. repeat moves_step. all: apply moves_modify; intros s; now split. Qed.

(** The recomputation of best descendants from the current heap. *)
Lemma best_store c : moves same_store (
  s ← get;
  currentEpoch ← liftR (ToEpoch cfg c);
  match treeRootNode s with
  | None => liftR (Panic nil_pointer)
  | Some t =>
      h ← liftR (updateBestDescendant cfg (heap_fuel s) t (Epoch_ (justifiedCheckpoint s)) currentEpoch (heap s));
      modify (set_heap h)
  end).
Proof.
  intros s. unfold get, liftR, modify, mbind, ST_bind. destruct (ToEpoch cfg c) as [e | |]; [| reflexivity | reflexivity].
  destruct (treeRootNode s) as [t |]; [| reflexivity]. destruct (updateBestDescendant _ _ _ _ _ _) as [h | |] eqn:E; [| reflexivity | reflexivity].
  apply heap_same. now apply updateBestDescendant_links in E.
Qed.

Lemma boost_store r sl : moves same_store (boost_and_update cfg now r sl).
Proof.
  unfold boost_and_update. repeat first [apply best_store | moves_step].
  all: apply moves_modify; first [apply expire_store | intros s; now split].
Qed.

Lemma pullTips_store st p jc fc : moves same_store (pullTips cfg now st p jc fc).
Proof.
  unfold pullTips, update_node. repeat moves_step. all: apply moves_modify; intros s; try now apply same_alter.
  unfold advanceUnrealizedCheckpoints. repeat case_match; now split.
Qed.

Lemma justified_store jc : moves (on_stores same_store) (UpdateJustifiedCheckpoint cfg balancesByRoot jc).
Proof.
  unfold UpdateJustifiedCheckpoint, updateJustifiedBalances. repeat moves_step; [apply moves_modify; now split | ..].
  all: apply moves_on_store, moves_modify; now split.
Qed.

Lemma realize_store e : moves (on_stores same_store) (
  f ← get;
  h ← liftR (foldM (realize_node cfg e) (heap (store f)) (indexed (store f)));
  on_store (modify (set_heap h))).
Proof.
  intros f. unfold get, liftR, modify, mbind, ST_bind. destruct (foldM _ _ _) as [h | |] eqn:E; [| reflexivity | reflexivity].
  apply heap_same. apply (foldM_rel same_links) in E; [exact E | intros h0 a h0'; apply realize_links].
Qed.

Lemma updateUnrealized_store e : moves (on_stores same_store) (updateUnrealizedCheckpoints cfg balancesByRoot e).
Proof.
  unfold updateUnrealizedCheckpoints. repeat first [apply justified_store | apply realize_store | moves_step].
  apply moves_on_store, moves_modify. now split.
Qed.

Lemma updateBalances_store f : same_store (store f) (store (updateBalances f)).
Proof.
  unfold updateBalances. assert (forall old new vs i s, same_store s (update_votes old new i s vs).1) as Hv.
  { intros old new. induction vs as [| v vs IH]; intros i s; cbn [update_votes]; [reflexivity |].
    assert (same_store s (update_vote old new i s v).1) as H1.
    { assert (forall d n, links (sub_node_balance d n) = links n) as Hsub by (intros d n; unfold sub_node_balance; now destruct (_ <? _)).
      unfold update_vote, sub_balance, add_balance. repeat case_match; cbn [fst]; try reflexivity; try (now apply same_alter).
      all: etransitivity; now apply same_alter. }
    destruct (update_vote old new i s v) as [s1 v1]. specialize (IH (i + 1) s1).
    destruct (update_votes old new (i + 1) s1 vs) as [s2 vs2]. cbn [fst] in *. etransitivity; eassumption. }
  specialize (Hv (balances f) (justifiedBalances f) (votes f) 0 (store f)). now destruct (update_votes _ _ _ _ _).
Qed.

Lemma sub_links d n : links (sub_node_balance d n) = links n.
Proof. unfold sub_node_balance. now destruct (_ <? _). Qed.

Lemma score_store s : same_store s (applyProposerBoostScore cfg s).
Proof.
  unfold applyProposerBoostScore. set (s1 := if bool_decide (previousProposerBoostRoot s = ZeroHash) then s else _).
  assert (same_store s s1) as H1.
  { unfold s1. destruct (bool_decide _); [reflexivity |]. destruct (_ !! _); [| reflexivity]. apply same_alter, sub_links. }
  assert (forall x r s2, same_store s s2 -> same_store s (set_previousProposerBoostScore x (set_previousProposerBoostRoot r s2))) as Hrec
    by (intros x r s2 []; now split).
  clearbody s1. destruct (bool_decide _); [now apply Hrec |]. destruct (_ !! _) as [p |]; [| now apply Hrec].
  apply Hrec. etransitivity; [exact H1 |]. now apply same_alter.
Qed.

Lemma Store_head_store : moves same_store (Store_head cfg now).
Proof. unfold Store_head. repeat moves_step. all: apply moves_modify; intros s; now split. Qed.

Lemma select_head_store sl : moves (on_stores same_store) (select_head cfg now sl).
Proof.
  intros f. unfold select_head, get, liftR, modify, on_store, mbind, ST_bind. destruct (treeRootNode (store f)) as [t |]; [| reflexivity].
  destruct (applyWeightChanges _ _ _) as [h | |] eqn:Ew; [| reflexivity | reflexivity]. apply applyWeightChanges_links in Ew.
  destruct (ToEpoch cfg sl) as [e | |]; [| now apply heap_same | now apply heap_same]. cbn [store set_store heap set_heap].
  destruct (updateBestDescendant _ _ _ _ _ _) as [h' | |] eqn:Eb; [| now apply heap_same | now apply heap_same]. apply updateBestDescendant_links in Eb.
  set (s1 := set_heap h' _). assert (same_store (store f) s1) as H1 by (transitivity (set_heap h (store f)); now apply heap_same).
  pose proof (Store_head_store s1) as H2. destruct (Store_head cfg now s1) as [r s2]. cbn [snd] in H2. unfold on_stores. cbn. now transitivity s1.
Qed.

(** ** The invariant *)

Definition keeps_tree (s s' : Store) : Prop := store_inv s -> store_inv s'.

#[local] Instance keeps_tree_preorder : PreOrder keeps_tree.
Proof. split; [now intros s | intros s1 s2 s3 H1 H2 Hs; auto]. Qed.

Lemma same_keeps s s' : same_store s s' -> keeps_tree s s'.
Proof.
  intros Hs [[H1 H2] | [t Ht]]; [left; destruct Hs as [_ Hr Hi _]; split; congruence | right]. exists t. now apply (same_store_ok s).
Qed.

Lemma moves_same {A} (m : ST ForkChoice A) : moves (on_stores same_store) m -> moves (on_stores keeps_tree) m.
Proof. intros Hm f. apply same_keeps, Hm. Qed.

Definition indexed_ptr (s : Store) (p : ptr) : Prop := exists r, nodeByRoot s !! r = Some p.

Lemma indexed_in s t p : store_ok s t -> indexed_ptr s p <-> p ∈ ptrs t.
Proof.
  intros [H1 H2 H3 H4 H5 H6]. split; [intros [r Hr]; now apply H5 in Hr as [Hr _] |]. intros Hp.
  destruct (rep_lookup _ _ p H2 Hp) as [n En]. exists (root n). apply H5. eauto.
Qed.

Lemma removeNode_keeps p s : indexed_ptr s p -> keeps_tree s (removeNode p s).2.
Proof.
  intros [r Hr] [[_ H2] | [t Ht]]; [rewrite H2 in Hr; now rewrite lookup_empty in Hr |].
  right. apply (removeNode_ok s t); [exact Ht |]. apply (indexed_in s t p Ht). now exists r.
Qed.

(** *** Insertion *)

(** What an insertion promises of the node it returns. *)
Definition inserted (s s' : Store) (r : result ptr) : Prop :=
  store_inv s -> store_inv s' /\ (forall p, r = Ok p -> indexed_ptr s' p) /\ (forall p, indexed_ptr s p -> indexed_ptr s' p).

Lemma inserted_when s (x : result ptr * Store) : (store_inv s -> let '(r, s') := x in inserted s s' r) -> let '(r, s') := x in inserted s s' r.
Proof. destruct x as [r s']. intros H Hs. now apply H. Qed.

Lemma inserted_tail s s1 p (m : ST Store unit) : moves same_store m -> store_inv s1 /\ indexed_ptr s1 p /\ (forall x, indexed_ptr s x -> indexed_ptr s1 x) ->
  let '(r, s') := (_ ← m; mret p) s1 in inserted s s' r.
Proof.
  intros Hm (Hi & Hp & Hx). specialize (Hm s1). unfold mbind, ST_bind, mret, ST_ret.
  assert (forall s', same_store s1 s' -> forall r : result ptr, (forall x, r = Ok x -> x = p) -> inserted s s' r) as Hd.
  { intros s' Hs' r Hr _. split; [now apply (same_keeps s1) |]. unfold indexed_ptr in *. rewrite (ss_index _ _ Hs'). split; [| exact Hx].
    intros x Ex. now rewrite (Hr x Ex). }
  destruct (m s1) as [[[] | e | e] s']; apply Hd; try exact Hm; try discriminate. now intros x [= <-].
Qed.

(** The first block becomes the root of the tree. *)
Lemma first_block s s1 n p : nodeByRoot s = ∅ -> p = nextPtr s -> children n = [] -> parent n = None ->
  heap s1 = <[p := n]> (heap s) -> nodeByRoot s1 = <[root n := p]> (nodeByRoot s) -> nextPtr s1 = S p -> treeRootNode s1 = Some p ->
  store_ok s1 (Tree p []).
Proof.
  intros Hi Hp Hc Hpar Eh Ei En Et. assert (heap s1 !! p = Some n) as Ep by (rewrite Eh; apply lookup_insert_eq). split.
  - exact Et.
  - apply (rep_intro _ _ _ n); [exact Ep | exact Hc | constructor].
  - apply NoDup_singleton.
  - apply parented_inv. split; [eauto | constructor].
  - intros r q. cbn [ptrs map concat]. rewrite Ei, Hi, insert_empty, lookup_singleton_Some, list_elem_of_singleton. split.
    + intros [<- <-]. eauto.
    + intros [-> (m & Em & Hr)]. split; [congruence | reflexivity].
  - cbn [ptrs map concat]. intros q ->%list_elem_of_singleton. rewrite En. lia.
Qed.

(** A block without a known parent leaves an unlinked node behind. *)
Lemma orphan_block s s1 t n p : store_ok s t -> p = nextPtr s -> nodeByRoot s !! root n = None ->
  heap s1 = <[p := n]> (heap s) -> nodeByRoot s1 = delete (root n) (<[root n := p]> (nodeByRoot s)) -> nextPtr s1 = S p ->
  treeRootNode s1 = treeRootNode s -> store_ok s1 t /\ nodeByRoot s1 = nodeByRoot s.
Proof.
  intros [H1 H2 H3 H4 H5 H6] Hp Hn Eh Ei En Et. rewrite delete_insert_id in Ei by exact Hn.
  assert (forall q, q ∈ ptrs t -> heap s1 !! q = heap s !! q) as Hq.
  { intros q Hq. rewrite Eh. apply lookup_insert_ne. apply H6 in Hq. lia. }
  split; [| exact Ei]. split; [congruence | | exact H3 | | |].
  - apply (rep_transfer (heap s)); [| exact H2]. intros q m Hin Em. rewrite Hq by exact Hin. eauto.
  - apply (parented_transfer (heap s)); [| exact H4]. intros q m Hin Em. rewrite Hq by exact Hin. eauto.
  - rewrite Ei. revert H5. apply index_on_heap. intros q Hin. now rewrite Hq.
  - intros q Hin%H6. lia.
Qed.

Lemma bind_assoc {S A C D} (m : ST S A) (f : A -> ST S C) (g : C -> ST S D) s : ((m ≫= f) ≫= g) s = (m ≫= fun x => f x ≫= g) s.
Proof. unfold mbind, ST_bind. now destruct (m s) as [[] ?]. Qed.

(** The store with the new node allocated and indexed. *)
Definition registered (n : Node) (s : Store) : Store :=
  set_nodeByRoot (<[root n := nextPtr s]> (nodeByRoot s)) (set_nodeByPayload (<[payloadHash n := nextPtr s]> (nodeByPayload s))
    (set_nextPtr (S (nextPtr s)) (set_heap (<[nextPtr s := n]> (heap s)) s))).

Lemma Store_insert_eq b je fe s ex : blockExecution b = Ok ex -> nodeByRoot s !! blockRoot b = None ->
  let n := new_node now b (ToBytes32 ex) (nodeByRoot s !! blockParentRoot b) je fe in
  let p := nextPtr s in
  Store_insert cfg now b je fe s =
    match nodeByRoot s !! blockParentRoot b with
    | Some q => (_ ← (_ ← boost_and_update cfg now (blockRoot b) (blockSlot b);
                      if now <? storeGenesisTime s then mret tt else track_received cfg now p (blockSlot b)); mret p)
                  (set_heap (alter (fun m => set_children (children m ++ [p]) m) q (heap (registered n s))) (registered n s))
    | None => match treeRootNode s with
              | None => (_ ← track_received cfg now p (blockSlot b); mret p)
                          (set_highestReceivedNode (Some p) (set_headNode (Some p) (set_treeRootNode (Some p) (registered n s))))
              | Some _ => (Err errInvalidParentRoot, set_nodeByPayload (delete (ToBytes32 ex) (nodeByPayload (registered n s)))
                            (set_nodeByRoot (delete (blockRoot b) (nodeByRoot (registered n s))) (registered n s)))
              end
    end.
Proof.
  intros Ex Ek n p. unfold Store_insert. rewrite Ex. unfold liftR, get. unfold mbind, ST_bind. rewrite Ek.
  destruct (nodeByRoot s !! blockParentRoot b) as [q |]; [| destruct (treeRootNode s); reflexivity].
  pose proof (bind_assoc (boost_and_update cfg now (blockRoot b) (blockSlot b))
    (fun _ => if now <? storeGenesisTime s then mret tt else track_received cfg now p (blockSlot b)) (fun _ => mret p)
    (set_heap (alter (fun m => set_children (children m ++ [p]) m) q (heap (registered n s))) (registered n s))) as Ha.
  symmetry. etransitivity; [exact Ha |]. reflexivity.
Qed.

Lemma Store_insert_ok b je fe s : let '(r, s') := Store_insert cfg now b je fe s in inserted s s' r.
Proof.
  destruct (blockExecution b) as [ex | e | e] eqn:Ex.
  2-3: unfold Store_insert, liftR, mbind, ST_bind; rewrite Ex; now intros Hs; split_and!; try discriminate.
  destruct (nodeByRoot s !! blockRoot b) as [p |] eqn:Ek.
  { unfold Store_insert, liftR, get, mbind, ST_bind. rewrite Ex, Ek.
    intros Hs. split_and!; [exact Hs | intros x [= <-]; now exists (blockRoot b) | trivial]. }
  rewrite (Store_insert_eq b je fe s ex Ex Ek). set (n := new_node _ _ _ _ _ _).
  destruct (nodeByRoot s !! blockParentRoot b) as [q |] eqn:Eq; [| destruct (treeRootNode s) as [t0 |] eqn:Et].
  - apply inserted_when. intros [[_ Hempty] | [t Ht]]; [rewrite Hempty, lookup_empty in Eq; discriminate |].
    apply inserted_tail; [repeat first [apply boost_store | apply track_store | moves_step] |].
    destruct (graft_ok s (set_heap (alter (fun m => set_children (children m ++ [nextPtr s]) m) q (heap (registered n s))) (registered n s))
      t q (nextPtr s) n Ht) as (t' & Ht' & Hp & Hx); try reflexivity; try exact Ek; [apply (indexed_in s t q Ht); now exists (blockParentRoot b) |].
    split; [right; eauto |]. split; [now apply (indexed_in _ t') |]. intros x. rewrite (indexed_in _ t x Ht), (indexed_in _ t' x Ht'). apply Hx.
  - intros [[Hnone _] | [t Ht]]; [congruence |].
    destruct (orphan_block s (set_nodeByPayload (delete (ToBytes32 ex) (nodeByPayload (registered n s)))
      (set_nodeByRoot (delete (blockRoot b) (nodeByRoot (registered n s))) (registered n s))) t n (nextPtr s) Ht) as [Ht' Ei]; try reflexivity; try exact Ek.
    split_and!; [right; eauto | discriminate |]. unfold indexed_ptr. now rewrite Ei.
  - apply inserted_when. intros [[_ Hempty] | [t Ht]]; [| destruct Ht; congruence].
    apply inserted_tail; [apply track_store |].
    assert (store_ok (set_highestReceivedNode (Some (nextPtr s)) (set_headNode (Some (nextPtr s)) (set_treeRootNode (Some (nextPtr s)) (registered n s))))
      (Tree (nextPtr s) [])) as Ht by now apply (first_block s _ n).
    split; [right; eauto |]. split; [apply (indexed_in _ _ _ Ht), list_elem_of_here |]. intros x [r Hr]. rewrite Hempty, lookup_empty in Hr. discriminate.
Qed.

(** *** Checkpoint updates *)

(** A plan prepared on [s] and applied to a store with the same links. *)
Lemma prune_keeps c s s1 plan : preparePrune cfg c s = Ok plan -> same_store s s1 -> store_inv s ->
  exists s2, applyPrune plan s1 = Ok s2 /\ store_inv s2.
Proof.
  intros E Hs [[H1 H2] | [t Ht]].
  - unfold preparePrune in E. rewrite H1, H2, lookup_empty in E. discriminate.
  - apply (preparePrune_plan cfg c s t plan Ht) in E. destruct (applyPrune_ok plan s1 t (same_store_ok _ _ _ Hs Ht) E) as (s2 & t' & E2 & Ht').
    exists s2. split; [exact E2 | right; eauto].
Qed.

(** On an error no link has changed, so that the caller can take back a block. *)
Lemma updateCheckpoints_ok jc fc f : store_inv (store f) ->
  let '(r, f') := updateCheckpoints cfg balancesByRoot jc fc f in
  store_inv (store f') /\ (forall e, r = Err e -> same_store (store f) (store f')).
Proof.
  intros Hi. unfold updateCheckpoints, get, liftR, modify, mbind, ST_bind, mret, ST_ret.
  set (J := if Epoch_ (justifiedCheckpoint (store f)) <? Epoch_ jc then _ else _).
  assert (same_store (store f) (store (J f).2)) as HJ.
  { unfold J. destruct (_ <? _); [apply justified_store | reflexivity]. }
  assert (same_store (store f) (store f)) as Hrefl by reflexivity. clearbody J.
  destruct (_ <? _).
  - destruct (preparePrune _ _ _) as [plan | |] eqn:Ep; [| cbn iota; split; [exact Hi | intros; exact Hrefl] ..].
    destruct (J f) as [[[] | e | e] g]; cbn [snd] in HJ; [| cbn iota; split; [now apply (same_keeps _ _ HJ) | intros; exact HJ] ..].
    destruct (prune_keeps _ _ (set_finalizedCheckpoint (mkCheckpoint (Epoch_ fc) (ToBytes32 (Root fc))) (store g)) plan Ep) as (s2 & -> & Hs2);
      [destruct HJ; now split | exact Hi |]. cbn iota. split; [exact Hs2 | discriminate].
  - destruct (J f) as [[[] | e | e] g]; cbn [snd] in HJ; cbn iota; (split; [now apply (same_keeps _ _ HJ) | intros; exact HJ]).
Qed.

Lemma NewSlot_keeps sl : moves (on_stores keeps_tree) (NewSlot cfg balancesByRoot sl).
Proof.
  unfold NewSlot. apply moves_bind; [apply _ | apply moves_same, moves_on_store, moves_modify, expire_store |]. intros _.
  apply moves_bind; [apply _ | apply moves_liftR; apply _ |]. intros epoch f.
  unfold get, liftR, modify, wrapM, mbind, ST_bind, mret, ST_ret. destruct (_ <=? _); [reflexivity |].
  set (pending := match pendingEpoch f with Some e => _ | None => _ end). set (f1 := set_pendingEpoch (Some pending) f).
  destruct (_ <? _); [now intros Hi |]. destruct (unrealizedCheckpointsBefore _ _ _) as [c | |]; [| now intros Hi ..].
  destruct (preparePrune cfg c.2 (store f)) as [plan | |] eqn:Ep; [| now intros Hi ..].
  pose proof (updateUnrealized_store pending f1) as Hu. destruct (updateUnrealizedCheckpoints _ _ _ f1) as [r g]. cbn [snd] in Hu.
  intros Hi. destruct (prune_keeps _ _ (store g) plan Ep Hu Hi) as (s2 & E2 & Hs2).
  destruct r as [[] | e | e]; cbn [wrap]; [rewrite E2; exact Hs2 | now apply (same_keeps _ _ Hu) ..].
Qed.

(** *** Blocks *)

Lemma indexed_same s s' p : same_store s s' -> indexed_ptr s p -> indexed_ptr s' p.
Proof. intros Hs. unfold indexed_ptr. now rewrite (ss_index _ _ Hs). Qed.

Lemma try_remove p f : indexed_ptr (store f) p -> on_stores keeps_tree f (try_ (on_store (removeNode p)) f).2.
Proof.
  intros Hp. pose proof (removeNode_keeps p (store f) Hp) as Hr. unfold try_, on_store. destruct (removeNode p (store f)) as [[] s']; exact Hr.
Qed.

(** What an insertion leaves on the fork choice. *)
Lemma insert_on_store b je fe f : store_inv (store f) ->
  let '(r, g) := on_store (Store_insert cfg now b je fe) f in
  store_inv (store g) /\ (forall p, r = Ok p -> indexed_ptr (store g) p) /\ (forall p, indexed_ptr (store f) p -> indexed_ptr (store g) p).
Proof.
  intros Hi. pose proof (Store_insert_ok b je fe (store f)) as Hins. unfold on_store. destruct (Store_insert _ _ _ _ _ _) as [r s].
  exact (Hins Hi).
Qed.

Lemma InsertNode_keeps st b : moves (on_stores keeps_tree) (InsertNode cfg now balancesByRoot st b).
Proof.
  intros f Hi. unfold InsertNode. set (jc := currentJustifiedCheckpoint st). set (fc := State.finalizedCheckpoint st).
  pose proof (insert_on_store b (Epoch_ jc) (Epoch_ fc) f Hi) as Hins. unfold mbind, ST_bind.
  destruct (on_store (Store_insert _ _ _ _ _) f) as [[p | e | e] f1]; destruct Hins as (H1 & H2 & _); [| exact H1 ..].
  specialize (H2 p eq_refl). pose proof (moves_on_store _ _ (pullTips_store st p jc fc) f1) as Hp.
  destruct (on_store (pullTips _ _ _ _ _ _) f1) as [[c | e | e] f2]; cbn [snd] in Hp; [| now apply (same_keeps _ _ Hp) ..].
  assert (store_inv (store f2)) as H3 by now apply (same_keeps _ _ Hp).
  pose proof (updateCheckpoints_ok c.1 c.2 f2 H3) as Hu. unfold try_ at 1.
  destruct (updateCheckpoints _ _ _ _ f2) as [[[] | e | e] f3]; destruct Hu as [H4 H5]; [exact H4 | | exact H4].
  assert (indexed_ptr (store f3) p) as Hp3 by (apply (indexed_same (store f2)); [now apply (H5 e) | now apply (indexed_same (store f1))]).
  pose proof (try_remove p f3 Hp3 H4) as H6. destruct (try_ (on_store (removeNode p)) f3) as [[] f4]; exact H6.
Qed.

(** A chain: what is staged stays indexed until it is committed. *)
Definition staged_ok (f : ForkChoice) (g : Staged) : Prop :=
  store_inv (store f) /\ forall p, staged_node g = Some p -> indexed_ptr (store f) p.

Lemma insert_staged_ok e g b f : staged_ok f g ->
  let '(r, f') := insert_staged cfg now balancesByRoot e g b f in
  store_inv (store f') /\ forall g' x, r = Ok (g', x) -> staged_ok f' g'.
Proof.
  intros [Hi Hg]. unfold insert_staged. destruct (bcp_JustifiedCheckpoint b) as [jc0 |], (bcp_FinalizedCheckpoint b) as [fc0 |].
  2-4: split; [exact Hi | now intros g' x [= <- <-]].
  set (uj := default jc0 _). set (uf := default fc0 _). unfold mbind, ST_bind, liftR, get, mret, ST_ret, modify, update_node.
  destruct (ToEpoch _ _) as [be | |]; [| now split ..]. destruct (if be <? e then (uj, uf) else (jc0, fc0)) as [bj bf].
  pose proof (insert_on_store (bcp_Block b) (Epoch_ bj) (Epoch_ bf) f Hi) as Hins. unfold try_ at 1.
  destruct (on_store (Store_insert _ _ _ _ _) f) as [[p | er | er] f1]; destruct Hins as (H1 & H2 & H3).
  2: { split; [exact H1 |]. intros g' x [= <- <-]. split; [exact H1 |]. intros q Hq. now apply H3, Hg. }
  2: now split.
  specialize (H2 p eq_refl). set (known := HasNode f (blockRoot (bcp_Block b))).
  set (upd := if known then _ else _). assert (exists f2, upd f1 = (Ok tt, f2) /\ same_store (store f1) (store f2)) as (f2 & -> & Hs).
  { unfold upd. destruct known; eexists; (split; [reflexivity |]); [reflexivity |]. now apply same_alter. }
  assert (store_inv (store f2)) as Hi2 by now apply (same_keeps _ _ Hs).
  set (pending := if known then staged_node g else Some (default p (staged_node g))).
  assert (forall f3 jc fc ujc ufc er, same_store (store f2) (store f3) ->
    staged_ok f3 (mkStaged pending (Some jc) (Some fc) (Some ujc) (Some ufc) er)) as Hst.
  { intros f3 jc fc ujc ufc er H23. split; [now apply (same_keeps _ _ H23) |]. cbn [staged_node]. intros q Hq.
    apply (indexed_same (store f2)); [exact H23 |]. apply (indexed_same (store f1)); [exact Hs |]. unfold pending in Hq.
    destruct known; [now apply H3, Hg |]. injection Hq as <-. destruct (staged_node g) as [q |]; [now apply H3, Hg | exact H2]. }
  clearbody pending upd. destruct (checkpointRootsKnown _ _ _) as [[] | |]; [destruct (checkpointRootsKnown _ _ _) as [[] | |] |..].
  2-5: (split; [exact Hi2 |]; intros g' x [= <- <-]; now apply Hst).
  pose proof (updateCheckpoints_ok (later (staged_jc g) bj) (later (staged_fc g) bf) f2 Hi2) as Hu. unfold try_.
  destruct (updateCheckpoints _ _ _ _ f2) as [[[] | er | er] f3]; destruct Hu as [H4 H5].
  - assert (same_store (store f3) (advanceUnrealizedCheckpoints (later (staged_ujc g) uj) (later (staged_ufc g) uf) (store f3))) as Hadv
      by (unfold advanceUnrealizedCheckpoints; repeat case_match; now split).
    split; [now apply (same_keeps _ _ Hadv) |]. intros g' x [= <- <-]. split; [now apply (same_keeps _ _ Hadv) | discriminate].
  - split; [exact H4 |]. intros g' x [= <- <-]. apply Hst. now apply (H5 er).
  - now split.
Qed.

Lemma insert_chain_ok e chain : forall g f, staged_ok f g ->
  let '(r, f') := insert_chain cfg now balancesByRoot e g chain f in
  store_inv (store f') /\ forall g' x, r = Ok (g', x) -> staged_ok f' g'.
Proof.
  induction chain as [| b chain IH]; intros g f Hg; cbn [insert_chain].
  { split; [apply Hg |]. now intros g' x [= <- <-]. }
  pose proof (insert_staged_ok e g b f Hg) as Hb. unfold mbind, ST_bind.
  destruct (insert_staged _ _ _ _ _ _ f) as [[[g1 x1] | er | er] f1]; destruct Hb as [H1 H2]; [| now split ..].
  specialize (H2 g1 x1 eq_refl). cbn [fst snd]. destruct x1 as [[] | er | er]; [now apply IH | ..];
    (split; [exact H1 |]; now intros g' x [= <- <-]).
Qed.

Lemma InsertChain_keeps chain : moves (on_stores keeps_tree) (InsertChain cfg now balancesByRoot chain).
Proof.
  intros f Hi. unfold InsertChain, get, liftR, mbind, ST_bind, mret, ST_ret.
  destruct (CurrentSlot _ _ _) as [cs | |]; [| exact Hi ..]. destruct (ToEpoch cfg cs) as [e | |]; [| exact Hi ..].
  pose proof (insert_chain_ok e chain nothing_staged f) as Hc. destruct (insert_chain _ _ _ _ _ _ f) as [[[g x] | er | er] f1];
    (destruct Hc as [H1 H2]; [now split |]); [| exact H1 ..].
  specialize (H2 g x eq_refl). cbn [fst snd]. destruct (staged_node g) as [p |] eqn:Ep; [| exact H1].
  pose proof (try_remove p f1 (proj2 H2 p Ep) H1) as H3. destruct (try_ (on_store (removeNode p)) f1) as [[] f2]; exact H3.
Qed.

(** *** Validation results *)

Lemma ancestor_in h t fuel stop : rep h t -> parented h None t -> forall p q, p ∈ ptrs t ->
  ancestor_until fuel stop (Some p) h = Ok (Some q) -> q ∈ ptrs t.
Proof.
  intros Hr Hp. induction fuel as [| fuel IH]; intros p q Hin; cbn [ancestor_until]; [discriminate |].
  destruct (rep_lookup _ _ p Hr Hin) as [n En]. rewrite (deref_ok _ _ _ En). cbn [mbind result_bind].
  destruct (stop p n); [intros [= <-]; exact Hin |].
  destruct (parent_of _ n p t _ Hp Hin En) as [[_ ->] | (x & ts & k & Hs & _ & _ & ->)]; [now destruct fuel |].
  apply IH. apply (subtree_ptrs _ _ _ Hs), list_elem_of_here.
Qed.

Lemma invalid_start_in s t r pr h p : store_ok s t -> invalid_start s r pr h = Ok (Some p) -> p ∈ ptrs t.
Proof.
  intros Ht. assert (forall r q, nodeByRoot s !! r = Some q -> q ∈ ptrs t) as Hi by (intros r' q Hq; apply (indexed_in s t q Ht); now exists r').
  unfold invalid_start. destruct (nodeByRoot s !! r) as [x |] eqn:Ex; [| destruct (nodeByRoot s !! pr) as [x |] eqn:Ex'; [| discriminate]];
    (destruct (deref (heap s) x) as [n | |]; [| discriminate ..]); cbn [mbind result_bind].
  - destruct (parent n) as [q |]; [| discriminate]. destruct (deref (heap s) q) as [m | |]; [| discriminate ..]. cbn [mbind result_bind].
    destruct (bool_decide _); [| discriminate]. intros [= <-]. eauto.
  - destruct (bool_decide _); [discriminate |]. intros [= <-]. eauto.
Qed.

Lemma first_invalid_in s t p pr h q : store_ok s t -> p ∈ ptrs t -> first_invalid s p pr h = Ok (Some q) -> q ∈ ptrs t.
Proof.
  intros Ht Hp. unfold first_invalid. destruct (ancestor_until _ _ _ _) as [first | |] eqn:Ea; [| discriminate ..]. cbn [mbind result_bind].
  destruct (deref (heap s) p) as [n | |]; [| discriminate ..]. cbn [mbind result_bind].
  destruct (deref_opt (heap s) first) as [f | |]; [| discriminate ..]. cbn [mbind result_bind].
  destruct (parent f); [| destruct (bool_decide _); intros [= <-]; exact Hp]. intros [= ->].
  destruct Ht as [_ H2 _ H4 _ _]. exact (ancestor_in _ t _ _ H2 H4 p q Hp Ea).
Qed.

Lemma invalid_keeps r pr h : moves keeps_tree (setOptimisticToInvalid cfg now r pr h).
Proof.
  intros s. refine (moves_bind_at _ get _ s _ _); [reflexivity |]. intros ? ? [= <- <-].
  refine (moves_bind_at _ _ _ s _ _); [reflexivity |]. intros start s' [= Es <-]. destruct start as [p |]; [| reflexivity].
  refine (moves_bind_at _ _ _ s _ _); [reflexivity |]. intros first s' [= Ef <-]. destruct first as [q |]; [| reflexivity].
  refine (moves_bind_at _ _ _ s _ _).
  - intros [[_ H2] | [t Ht]].
    + unfold invalid_start in Es. rewrite H2, !lookup_empty in Es. discriminate.
    + right. apply (removeNode_ok s t); [exact Ht |]. apply (first_invalid_in s t p pr h); [exact Ht | | exact Ef].
      now apply (invalid_start_in s t r pr h).
  - intros roots s' _. revert s'. match goal with |- forall s', _ s' (?m s').2 => change (moves keeps_tree m) end. cbv zeta.
    repeat moves_step. apply moves_modify. intros s0. apply same_keeps. now split.
Qed.

Lemma valid_keeps r : moves (on_stores keeps_tree) (SetOptimisticToValid r).
Proof.
  intros f. apply same_keeps. unfold SetOptimisticToValid, get, liftR, modify, on_store, throw, mbind, ST_bind.
  destruct (nodeByRoot (store f) !! r); [| reflexivity]. destruct (setNodeAndParentValidated _ _ _) as [h | |] eqn:E; [| reflexivity ..].
  apply heap_same. now apply validated_links in E.
Qed.

Lemma Head_keeps : moves (on_stores keeps_tree) (Head cfg now balancesByRoot).
Proof.
  unfold Head. repeat first [apply NewSlot_keeps | apply moves_same, select_head_store
    | apply moves_same, moves_on_store, moves_modify, score_store | moves_step].
  apply moves_modify. intros f. apply same_keeps, updateBalances_store.
Qed.

Lemma finalized_keeps fc : moves (on_stores keeps_tree) (UpdateFinalizedCheckpoint fc).
Proof.
  destruct fc as [fc |]; [| intros f; exact (fun H => H)]. apply moves_same, moves_on_store, moves_modify. intros s. cbn zeta.
  destruct (_ ≫= _); now split.
Qed.

Lemma slash_keeps i f : on_stores keeps_tree f (InsertSlashedIndex i f).
Proof.
  apply same_keeps. unfold InsertSlashedIndex. destruct (decide _); [reflexivity |]. cbn zeta.
  set (s := set_slashedIndices _ (store f)). assert (same_store (store f) s) as Hs by now split.
  destruct (_ <=? _); [exact Hs |]. destruct (_ <=? _); [exact Hs |]. destruct (_ !! _) as [v |]; [| exact Hs].
  destruct (nodeByRoot s !! _) as [p |]; [| exact Hs]. transitivity s; [exact Hs |]. apply same_alter, sub_links.
Qed.
End Preserve.

(** ** Runs of the fork choice *)

(** One call, at any time and with any source of balances; the state after it is
    the one the call leaves, whether or not it returned an error. *)
Inductive step (cfg : BeaconChainConfig) (f : ForkChoice) : ForkChoice -> Prop :=
| step_insert (B : Bitfield) now balancesByRoot st b : step cfg f (InsertNode cfg now balancesByRoot st b f).2
| step_chain now balancesByRoot chain : step cfg f (InsertChain cfg now balancesByRoot chain f).2
| step_tick balancesByRoot sl : step cfg f (NewSlot cfg balancesByRoot sl f).2
| step_head now balancesByRoot : step cfg f (Head cfg now balancesByRoot f).2
| step_attest indices r e : step cfg f (ProcessAttestation indices r e f)
| step_slash i : step cfg f (InsertSlashedIndex i f)
| step_valid r : step cfg f (SetOptimisticToValid r f).2
| step_invalid now r pr h : step cfg f (SetOptimisticToInvalid cfg now r pr h f).2
| step_justified balancesByRoot jc : step cfg f (UpdateJustifiedCheckpoint cfg balancesByRoot jc f).2
| step_finalized fc : step cfg f (UpdateFinalizedCheckpoint fc f).2
| step_genesis g : step cfg f (SetGenesisTime g f)
| step_origin r : step cfg f (SetOriginRoot r f).

Lemma step_keeps cfg f f' : step cfg f f' -> store_inv (store f) -> store_inv (store f').
Proof.
  destruct 1.
  - apply InsertNode_keeps.
  - apply InsertChain_keeps.
  - apply NewSlot_keeps.
  - apply Head_keeps.
  - apply same_keeps. now split.
  - apply slash_keeps.
  - apply valid_keeps.
  - exact (moves_on_store _ _ (invalid_keeps cfg now r pr h) f).
  - apply (moves_same _ (justified_store cfg balancesByRoot jc)).
  - apply finalized_keeps.
  - apply same_keeps. now split.
  - apply same_keeps. now split.
Qed.

(** C4. The block tree is an invariant of every run: whatever calls are made, in
    any order, at any time and whether they succeed or fail, the nodes the store
    indexes are exactly those of one tree, linked in both directions by distinct
    pointers and indexed under their roots, or the store is still empty.  The
    calls include the insertion of blocks and chains with the removal of what a
    failure has staged, ticks with their pruning, head computations and the
    invalidation of payloads. *)
Theorem reachable_block_tree cfg fp f : rtc (step cfg) (New_forkchoice fp) f -> store_inv (store f).
Proof.
  assert (store_inv (store (New_forkchoice fp))) as H0 by now left. revert H0.
  generalize (New_forkchoice fp). intros f0 H0 Hr. induction Hr as [f0 | f0 f1 f Hs _ IH]; [exact H0 |]. apply IH. now apply (step_keeps cfg f0).
Qed.

(** A run that inserts a chain of three blocks, computes the head and takes back
    the last block. *)
Definition sample_chain : list BlockAndCheckpoints :=
  map (fun b => mkBlockAndCheckpoints b (Some zeroCheckpoint) (Some zeroCheckpoint) None None)
    [sample_block 1 0 0; sample_block 2 1 1; sample_block 3 2 2].

Definition sample_run : ForkChoice :=
  let f := (InsertChain MinimalSpecConfig 12 (fun _ => Ok None) sample_chain (New_forkchoice minimalFieldParams)).2 in
  let f := (Head MinimalSpecConfig 12 (fun _ => Ok None) f).2 in
  (SetOptimisticToInvalid MinimalSpecConfig 12 (ToBytes32 [3]) (ToBytes32 [2]) (ToBytes32 [102]) f).2.

Lemma reachable_block_tree_witness : store_inv (store sample_run) /\
  NodeCount sample_run = 2 /\ HasNode sample_run (ToBytes32 [2]) = true /\ HasNode sample_run (ToBytes32 [3]) = false.
Proof.
  split; [| vm_compute; auto]. apply (reachable_block_tree MinimalSpecConfig minimalFieldParams).
  eapply rtc_l; [apply (step_chain _ _ 12 (fun _ => Ok None) sample_chain) |].
  eapply rtc_l; [apply (step_head _ _ 12 (fun _ => Ok None)) |].
  apply rtc_once. apply (step_invalid _ _ 12 (ToBytes32 [3]) (ToBytes32 [2]) (ToBytes32 [102])).
Defined.
